(** * The resource-list runtime of fb-adb ([util.c])

    A shallow embedding of the scope tree ([struct reslist]), the cleanup
    records ([struct cleanup]), the error-handler chain ([struct errhandler],
    [catch_error], [die], [die_oom]) and the allocation and descriptor
    primitives built on them, followed by the properties the specification
    states about them.

    Conventions of the embedding.
    - Pointers returned by [malloc] are natural numbers; the allocator hands
      out [next_addr] and never reuses an address.  Whether the k-th call of
      [malloc] succeeds is read from the oracle [malloc_ok].
    - The heap is kept in two finite maps that share the address space:
      [nodes] holds the objects the code tags with [RES_RESLIST] or
      [RES_CLEANUP], [mem] holds the raw blocks handed to clients.
    - The intrusive [LIST_HEAD]/[LIST_ENTRY] lists of [queue.h] are the
      [contents] list of the owning [reslist], head first.
    - [sigsetjmp]/[siglongjmp] are the outcome [Jump w]: control is on its way
      to the jump buffer [w]; [abort()] is the outcome [Abort].
    - System calls act on a descriptor table and may fail as the oracle
      [sys_fail] says.
    - The C library is glibc on an LP64 Linux target.  A call that uses a
      feature the model leaves out has the outcome [Unmodelled]: the model
      does not say what the call does. *)

From Stdlib Require Import Ascii.
From stdpp Require Import gmap strings list fin_maps pretty.

Open Scope Z_scope.

(** ** Data model *)

Abbreviation addr := nat (only parsing).

(** A [void*] or [const char*] value. *)
Inductive ptr :=
  | Null
  | Static (s : string)      (* a string literal or a string of [argv] *)
  | Heap (a : addr)          (* a block obtained from [malloc] *)
  | IntPtr (z : Z).          (* [(void* ) (intptr_t) z] *)

(** The functions of [util.c] that are committed as cleanup actions. *)
Inductive cleanupfn := fn_free | fn_fd_cleanup | fn_cleanup_prgname.

(** [struct reslist] and [struct cleanup]; the constructor is the [type] tag
    of the embedded [struct resource]. *)
Inductive node :=
  | RES_RESLIST (parent : option addr) (contents : list addr)
  | RES_CLEANUP (fn : option cleanupfn) (fndata : ptr).

(** What a raw block holds. *)
Inductive payload :=
  | PUninit
  | PZero
  | PBytes (s : string)                        (* a NUL-terminated string *)
  | PFdh (rl : option addr) (fd : option Z).   (* a [struct fdh] *)

Record block := Block { blk_size : Z; blk_data : payload }.

(** [struct errinfo] of [util.h], as [diev], [die_oom] and [main] use it. *)
Record errinfo := ErrInfo {
  err : Z;
  msg : ptr;
  ei_prgname : ptr;
  want_msg : bool
}.

(** [struct errhandler]: [eh_where] names the jump buffer [where]. *)
Record errhandler := ErrHandler {
  eh_where : nat;
  eh_rl : addr;
  eh_ei : option addr
}.

Inductive event :=
  | EvCall (fn : cleanupfn) (arg : ptr)   (* [cl->fn(cl->fndata)] in [reslist_destroy] *)
  | EvOpen (path : ptr) (fd : Z)
  | EvPipe (rd wr : Z)
  | EvDup (oldfd newfd : Z)
  | EvClose (fd : Z).

Record state := State {
  nodes : gmap nat node;
  mem : gmap nat block;
  next_addr : nat;
  nmalloc : nat;                   (* calls of [malloc] so far *)
  malloc_ok : nat -> bool;         (* does the k-th call succeed *)
  current_reslist : option addr;
  current_errh : option errhandler;
  next_where : nat;                (* jump buffers set up so far *)
  einfos : gmap nat errinfo;       (* the callers' [struct errinfo] objects *)
  prgname : ptr;
  errno : Z;
  fdtable : list bool;             (* slot [i] is true when descriptor [i] is open *)
  nsys : nat;                      (* failable system calls so far *)
  sys_fail : nat -> option Z;      (* [Some e]: the k-th call fails with errno [e] *)
  trace : list event
}.

Definition set_nodes (f : gmap nat node -> gmap nat node) (s : state) : state :=
  State (f (nodes s)) (mem s) (next_addr s) (nmalloc s) (malloc_ok s)
        (current_reslist s) (current_errh s) (next_where s) (einfos s)
        (prgname s) (errno s) (fdtable s) (nsys s) (sys_fail s) (trace s).

Definition set_mem (f : gmap nat block -> gmap nat block) (s : state) : state :=
  State (nodes s) (f (mem s)) (next_addr s) (nmalloc s) (malloc_ok s)
        (current_reslist s) (current_errh s) (next_where s) (einfos s)
        (prgname s) (errno s) (fdtable s) (nsys s) (sys_fail s) (trace s).

Definition bump_malloc (ok : bool) (s : state) : state :=
  State (nodes s) (mem s) (if ok then S (next_addr s) else next_addr s)
        (S (nmalloc s)) (malloc_ok s)
        (current_reslist s) (current_errh s) (next_where s) (einfos s)
        (prgname s) (errno s) (fdtable s) (nsys s) (sys_fail s) (trace s).

Definition set_current_reslist (c : option addr) (s : state) : state :=
  State (nodes s) (mem s) (next_addr s) (nmalloc s) (malloc_ok s)
        c (current_errh s) (next_where s) (einfos s)
        (prgname s) (errno s) (fdtable s) (nsys s) (sys_fail s) (trace s).

Definition set_current_errh (h : option errhandler) (s : state) : state :=
  State (nodes s) (mem s) (next_addr s) (nmalloc s) (malloc_ok s)
        (current_reslist s) h (next_where s) (einfos s)
        (prgname s) (errno s) (fdtable s) (nsys s) (sys_fail s) (trace s).

Definition bump_where (s : state) : state :=
  State (nodes s) (mem s) (next_addr s) (nmalloc s) (malloc_ok s)
        (current_reslist s) (current_errh s) (S (next_where s)) (einfos s)
        (prgname s) (errno s) (fdtable s) (nsys s) (sys_fail s) (trace s).

Definition set_einfos (f : gmap nat errinfo -> gmap nat errinfo) (s : state) : state :=
  State (nodes s) (mem s) (next_addr s) (nmalloc s) (malloc_ok s)
        (current_reslist s) (current_errh s) (next_where s) (f (einfos s))
        (prgname s) (errno s) (fdtable s) (nsys s) (sys_fail s) (trace s).

Definition set_prgname_var (p : ptr) (s : state) : state :=
  State (nodes s) (mem s) (next_addr s) (nmalloc s) (malloc_ok s)
        (current_reslist s) (current_errh s) (next_where s) (einfos s)
        p (errno s) (fdtable s) (nsys s) (sys_fail s) (trace s).

Definition set_errno (e : Z) (s : state) : state :=
  State (nodes s) (mem s) (next_addr s) (nmalloc s) (malloc_ok s)
        (current_reslist s) (current_errh s) (next_where s) (einfos s)
        (prgname s) e (fdtable s) (nsys s) (sys_fail s) (trace s).

Definition set_fdtable (f : list bool -> list bool) (s : state) : state :=
  State (nodes s) (mem s) (next_addr s) (nmalloc s) (malloc_ok s)
        (current_reslist s) (current_errh s) (next_where s) (einfos s)
        (prgname s) (errno s) (f (fdtable s)) (nsys s) (sys_fail s) (trace s).

Definition bump_sys (s : state) : state :=
  State (nodes s) (mem s) (next_addr s) (nmalloc s) (malloc_ok s)
        (current_reslist s) (current_errh s) (next_where s) (einfos s)
        (prgname s) (errno s) (fdtable s) (S (nsys s)) (sys_fail s) (trace s).

Definition log (e : event) (s : state) : state :=
  State (nodes s) (mem s) (next_addr s) (nmalloc s) (malloc_ok s)
        (current_reslist s) (current_errh s) (next_where s) (einfos s)
        (prgname s) (errno s) (fdtable s) (nsys s) (sys_fail s) (trace s ++ [e]).

(** ** Outcomes and the monad of the embedding *)

Inductive abort_reason :=
  | NoHandler        (* [if (!current_errh) abort();] *)
  | BadFd (fd : Z).  (* [close] failed with [EBADF] in [fd_cleanup] *)

Inductive outcome (A : Type) :=
  | Ret (a : A) (s : state)        (* the call returns *)
  | Jump (w : nat) (s : state)     (* [siglongjmp] to the jump buffer [w] *)
  | Abort (why : abort_reason)     (* [abort()] *)
  | Fault                          (* undefined behaviour: a bad pointer *)
  | Diverge                        (* the loop bound of the model is exhausted *)
  | Unmodelled.                    (* a feature of the C library outside the model *)
Arguments Ret {A} a s.
Arguments Jump {A} w s.
Arguments Abort {A} why.
Arguments Fault {A}.
Arguments Diverge {A}.
Arguments Unmodelled {A}.

Definition M (A : Type) : Type := state -> outcome A.

Definition ret {A} (a : A) : M A := fun s => Ret a s.

Definition bind {A B} (m : M A) (k : A -> M B) : M B := fun s =>
  match m s with
  | Ret a s' => k a s'
  | Jump w s' => Jump w s'
  | Abort why => Abort why
  | Fault => Fault
  | Diverge => Diverge
  | Unmodelled => Unmodelled
  end.

Declare Scope rl_scope.
Delimit Scope rl_scope with rl.
Notation "x <- m ;; k" := (bind m (fun x => k))
  (at level 100, m at next level, right associativity) : rl_scope.
Notation "m ;;; k" := (bind m (fun _ => k))
  (at level 100, right associativity) : rl_scope.
Open Scope rl_scope.

Definition get : M state := fun s => Ret s s.
Definition modify (f : state -> state) : M unit := fun s => Ret tt (f s).
Definition abort {A} (why : abort_reason) : M A := fun _ => Abort why.
Definition fault {A} : M A := fun _ => Fault.
Definition diverge {A} : M A := fun _ => Diverge.
Definition siglongjmp {A} (w : nat) : M A := fun s => Jump w s.

(** ** The C library and the kernel *)

Definition ENOMEM : Z := 12.
Definition EINVAL : Z := 22.
Definition EBADF : Z := 9.
Definition EOVERFLOW : Z := 75.
Definition INT_MAX : Z := 2147483647.
Definition SIZE_MAX1 : Z := 2 ^ 64.

(** [sizeof] of the three structures (LP64); only [malloc] sees them. *)
Definition sizeof_reslist : Z := 40.
Definition sizeof_cleanup : Z := 40.
Definition sizeof_fdh : Z := 16.

(** [malloc]: a fresh address, or [NULL] when the oracle says so.  The object
    at the address is created by the first store of the caller. *)
Definition malloc (sz : Z) : M (option addr) := fun s =>
  if malloc_ok s (nmalloc s)
  then Ret (Some (next_addr s)) (bump_malloc true s)
  else Ret None (bump_malloc false s).

(** [free] of a raw block; [free(NULL)] does nothing. *)
Definition free (p : ptr) : M unit := fun s =>
  match p with
  | Null => Ret tt s
  | Heap a =>
      match mem s !! a with
      | Some _ => Ret tt (set_mem (delete a) s)
      | None => Fault
      end
  | _ => Fault
  end.

(** [free] of a [struct reslist] or [struct cleanup]. *)
Definition free_node (a : addr) : M unit := modify (set_nodes (delete a)).

Definition fd_is_open (tbl : list bool) (fd : Z) : bool :=
  (0 <=? fd) && bool_decide (tbl !! Z.to_nat fd = Some true).

(** The lowest index from [from] on whose slot is not open. *)
Fixpoint lowest_free (tbl : list bool) (from : nat) : nat :=
  match tbl with
  | [] => from
  | b :: tbl' =>
      match from with
      | O => if b then S (lowest_free tbl' O) else O
      | S k => S (lowest_free tbl' k)
      end
  end.

Definition mark_open (tbl : list bool) (i : nat) : list bool :=
  if decide (i < length tbl)%nat then <[i:=true]> tbl
  else tbl ++ replicate (i - length tbl) false ++ [true].

(** [close]: [0], or [-1] with [errno = EBADF]. *)
Definition close (fd : Z) : M Z := fun s =>
  if fd_is_open (fdtable s) fd
  then Ret 0 (log (EvClose fd) (set_fdtable (<[Z.to_nat fd := false]>) s))
  else Ret (-1) (set_errno EBADF s).

(** A system call that yields one new descriptor, the lowest free one from
    [from] on: [open], and [fcntl(fd, F_DUPFD_CLOEXEC, from)]. *)
Definition sys_newfd (from : nat) (ev : Z -> event) : M Z := fun s =>
  match sys_fail s (nsys s) with
  | Some e => Ret (-1) (set_errno e (bump_sys s))
  | None =>
      let i := lowest_free (fdtable s) from in
      Ret (Z.of_nat i)
          (log (ev (Z.of_nat i)) (set_fdtable (fun t => mark_open t i) (bump_sys s)))
  end.

Definition open (pathname : ptr) (flags mode : Z) : M Z :=
  sys_newfd 0 (EvOpen pathname).

Definition fcntl_dupfd (fd : Z) (from : Z) : M Z := fun s =>
  if fd_is_open (fdtable s) fd && (0 <=? from)
  then sys_newfd (Z.to_nat from) (EvDup fd) s
  else Ret (-1) (set_errno (if fd_is_open (fdtable s) fd then EINVAL else EBADF) (bump_sys s)).

(** [pipe2]: two new descriptors, or [-1]. *)
Definition pipe2 : M (Z * (Z * Z)) := fun s =>
  match sys_fail s (nsys s) with
  | Some e => Ret (-1, (0, 0)) (set_errno e (bump_sys s))
  | None =>
      let r := lowest_free (fdtable s) 0 in
      let t1 := mark_open (fdtable s) r in
      let w := lowest_free t1 0 in
      Ret (0, (Z.of_nat r, Z.of_nat w))
          (log (EvPipe (Z.of_nat r) (Z.of_nat w))
               (set_fdtable (fun _ => mark_open t1 w) (bump_sys s)))
  end.

(** ** Formatting: a model of [vsnprintf] and [strerror]

    [vsnprintf] and [strerror] are the C library's, not [util.c]'s; they are
    modelled as glibc 2.x defines them on an LP64 target in the C locale.

    A conversion is [%], flags among [-+ #0], a width (digits or [*]), a
    precision ([.] with digits or [*]), a length modifier among [hh h l ll j
    z t], and one of [d i u o x X c s], or [%%].  Whatever else follows a
    [%] ([%p], [%n], [%m], floating point, wide characters, [$], ['], a
    [%c] of the NUL character) is outside the model ([FmtOther]).  A format
    that ends inside a conversion makes the call fail with [EINVAL], a width
    or precision above [INT_MAX] with [EOVERFLOW].  An argument of the wrong
    kind, a missing argument or a dangling [char*] is undefined behaviour.
    An integer argument is converted to the type the conversion names.  A
    flag or precision that has no meaning for a conversion ([#] with [d], [0]
    with [s], a precision with [c]) is ignored, as glibc does. *)

Inductive farg := FInt (z : Z) | FStr (p : ptr).

Inductive fmt_result :=
  | FmtOk (s : string)   (* the text *)
  | FmtInvalid           (* the call fails with [EINVAL] *)
  | FmtOverflow          (* the call fails with [EOVERFLOW] *)
  | FmtFault             (* undefined behaviour *)
  | FmtOther.            (* a conversion outside the model *)

Definition deref_str (m : gmap nat block) (p : ptr) : option string :=
  match p with
  | Null => Some "(null)"%string
  | Static s => Some s
  | Heap a =>
      match m !! a with
      | Some (Block _ (PBytes s)) => Some s
      | _ => None
      end
  | IntPtr _ => None
  end.

Fixpoint str_take (n : nat) (s : string) : string :=
  match n, s with
  | S n', String c s' => String c (str_take n' s')
  | _, _ => EmptyString
  end.

(** The same with the count in binary, as a precision gives it. *)
Fixpoint str_take_z (n : Z) (s : string) : string :=
  match s with
  | EmptyString => EmptyString
  | String c s' => if n <=? 0 then EmptyString else String c (str_take_z (n - 1) s')
  end.

Definition fmt_cons (c : ascii) (r : fmt_result) : fmt_result :=
  match r with FmtOk s => FmtOk (String c s) | _ => r end.

Definition fmt_app (s : string) (r : fmt_result) : fmt_result :=
  match r with FmtOk s' => FmtOk (s +:+ s') | _ => r end.

(** The value of a decimal digit: its place in ["0123456789"]. *)
Fixpoint place_in (c : ascii) (s : string) (i : Z) : option Z :=
  match s with
  | EmptyString => None
  | String d s' => if Ascii.eqb c d then Some i else place_in c s' (Z.succ i)
  end.

Definition digit_of (c : ascii) : option Z := place_in c "0123456789" 0.

Definition is_digit (c : ascii) : bool :=
  match digit_of c with Some _ => true | None => false end.

Definition digit_val (c : ascii) : Z := default 0 (digit_of c).

(** One conversion specification as far as it has been read. *)
Record fspec := FSpec {
  f_left : bool;          (* [-] *)
  f_plus : bool;          (* [+] *)
  f_space : bool;         (* the space flag *)
  f_alt : bool;           (* [#] *)
  f_zero : bool;          (* [0] *)
  f_width : option Z;
  f_prec : option Z;
  f_bits : Z              (* width of the integer type the length modifier names *)
}.

Definition spec0 : fspec := FSpec false false false false false None None 32.

Definition set_left (sp : fspec) : fspec :=
  FSpec true (f_plus sp) (f_space sp) (f_alt sp) (f_zero sp) (f_width sp) (f_prec sp) (f_bits sp).
Definition set_plus (sp : fspec) : fspec :=
  FSpec (f_left sp) true (f_space sp) (f_alt sp) (f_zero sp) (f_width sp) (f_prec sp) (f_bits sp).
Definition set_space (sp : fspec) : fspec :=
  FSpec (f_left sp) (f_plus sp) true (f_alt sp) (f_zero sp) (f_width sp) (f_prec sp) (f_bits sp).
Definition set_alt (sp : fspec) : fspec :=
  FSpec (f_left sp) (f_plus sp) (f_space sp) true (f_zero sp) (f_width sp) (f_prec sp) (f_bits sp).
Definition set_zero (sp : fspec) : fspec :=
  FSpec (f_left sp) (f_plus sp) (f_space sp) (f_alt sp) true (f_width sp) (f_prec sp) (f_bits sp).
Definition set_width (w : Z) (sp : fspec) : fspec :=
  FSpec (f_left sp) (f_plus sp) (f_space sp) (f_alt sp) (f_zero sp) (Some w) (f_prec sp) (f_bits sp).
Definition set_prec (p : option Z) (sp : fspec) : fspec :=
  FSpec (f_left sp) (f_plus sp) (f_space sp) (f_alt sp) (f_zero sp) (f_width sp) p (f_bits sp).
Definition set_bits (b : Z) (sp : fspec) : fspec :=
  FSpec (f_left sp) (f_plus sp) (f_space sp) (f_alt sp) (f_zero sp) (f_width sp) (f_prec sp) b.

(** Where in a conversion specification the reader is. *)
Inductive phase :=
  | PFlags        (* after [%] and any flags *)
  | PWidth        (* inside the digits of the width *)
  | PWidthArg     (* after a [*] width *)
  | PDot          (* after the [.] *)
  | PPrec         (* inside the digits of the precision *)
  | PPrecArg      (* after a [.*] precision *)
  | PLenH         (* after one [h] *)
  | PLenL         (* after one [l] *)
  | PConv.        (* after the length modifier *)

Inductive fmt_mode := Plain | Spec (ph : phase) (sp : fspec).

Inductive step_result :=
  | Again (ph : phase) (sp : fspec) (args : list farg)   (* still inside the conversion *)
  | Emit (out : string) (args : list farg)               (* the conversion is complete *)
  | Stop (r : fmt_result).

Fixpoint repeat_char (n : nat) (c : ascii) : string :=
  match n with
  | O => EmptyString
  | S n' => String c (repeat_char n' c)
  end.

Definition strlen (s : string) : Z := Z.of_nat (String.length s).

(** An integer argument as the unsigned or signed type of [bits] bits. *)
Definition to_unsigned (bits z : Z) : Z := z mod 2 ^ bits.

Definition to_signed (bits z : Z) : Z :=
  let u := z mod 2 ^ bits in
  if u <? 2 ^ (bits - 1) then u else u - 2 ^ bits.

Definition digit_char (upper : bool) (d : N) : ascii :=
  if (d <? 10)%N then ascii_of_N (48 + d)
  else ascii_of_N ((if upper then 55 else 87) + d).

Fixpoint digits_go (fuel : nat) (base : N) (upper : bool) (n : N) (acc : string) : string :=
  match fuel with
  | O => acc
  | S fuel' =>
      let acc' := String (digit_char upper (n mod base)) acc in
      if (n / base =? 0)%N then acc' else digits_go fuel' base upper (n / base) acc'
  end.

(** The digits of [n], at most 64 bits wide, in base 8, 10 or 16. *)
Definition digits (base : N) (upper : bool) (n : N) : string :=
  digits_go 64 base upper n EmptyString.

Definition starts_with_zero (s : string) : bool :=
  match s with
  | String c _ => Ascii.eqb c "0"
  | EmptyString => false
  end.

(** The digits of a number under the precision and, for [%o], the [#] flag:
    the precision is the least number of digits, and a zero under the
    precision 0 has no digits at all. *)
Definition number_digits (sp : fspec) (base : N) (upper : bool) (mag : N) : string :=
  let ds :=
    match f_prec sp with
    | Some p =>
        if (mag =? 0)%N && (p =? 0) then EmptyString
        else
          let d := digits base upper mag in
          repeat_char (Z.to_nat (p - strlen d)) "0" +:+ d
    | None => digits base upper mag
    end in
  if f_alt sp && (base =? 8)%N && negb (starts_with_zero ds) then String "0" ds else ds.

(** Padding to the width: on the right under [-]; else, for a number under
    [0] and no precision, zeros between the prefix and the digits; else
    spaces on the left. *)
Definition pad_number (sp : fspec) (pre ds : string) : string :=
  match f_width sp with
  | None => pre +:+ ds
  | Some w =>
      let n := Z.to_nat (w - strlen pre - strlen ds) in
      if f_left sp then pre +:+ ds +:+ repeat_char n " "
      else if f_zero sp && match f_prec sp with Some _ => false | None => true end
      then pre +:+ repeat_char n "0" +:+ ds
      else repeat_char n " " +:+ pre +:+ ds
  end.

Definition pad_text (sp : fspec) (s : string) : string :=
  match f_width sp with
  | None => s
  | Some w =>
      let fill := repeat_char (Z.to_nat (w - strlen s)) " " in
      if f_left sp then s +:+ fill else fill +:+ s
  end.

Definition fmt_signed (sp : fspec) (z : Z) : string :=
  let v := to_signed (f_bits sp) z in
  let pre :=
    if v <? 0 then "-"
    else if f_plus sp then "+"
    else if f_space sp then " "
    else EmptyString in
  pad_number sp pre (number_digits sp 10 false (Z.to_N (Z.abs v))).

Definition fmt_unsigned (sp : fspec) (base : N) (upper : bool) (z : Z) : string :=
  let v := Z.to_N (to_unsigned (f_bits sp) z) in
  let pre :=
    if f_alt sp && (base =? 16)%N && negb (v =? 0)%N
    then (if upper then "0X" else "0x")
    else EmptyString in
  pad_number sp pre (number_digits sp base upper v).

Definition is_null (p : ptr) : bool :=
  match p with Null => true | _ => false end.

(** The text [%s] reads: glibc prints ["(null)"] for [NULL], and nothing
    when the precision leaves no room for that. *)
Definition string_arg (m : gmap nat block) (sp : fspec) (p : ptr) : option string :=
  match f_prec sp with
  | None => deref_str m p
  | Some n =>
      if (n <? 6) && is_null p then Some EmptyString
      else match deref_str m p with
           | Some s => Some (str_take_z n s)
           | None => None
           end
  end.

Definition no_flags (sp : fspec) : bool :=
  negb (f_left sp || f_plus sp || f_space sp || f_alt sp || f_zero sp).

(** The conversion character. *)
Definition conv_step (m : gmap nat block) (ph : phase) (sp : fspec) (c : ascii)
    (args : list farg) : step_result :=
  if Ascii.eqb c "d" || Ascii.eqb c "i" then
    match args with
    | FInt z :: args' => Emit (fmt_signed sp z) args'
    | _ => Stop FmtFault
    end
  else if Ascii.eqb c "u" then
    match args with
    | FInt z :: args' => Emit (fmt_unsigned sp 10 false z) args'
    | _ => Stop FmtFault
    end
  else if Ascii.eqb c "o" then
    match args with
    | FInt z :: args' => Emit (fmt_unsigned sp 8 false z) args'
    | _ => Stop FmtFault
    end
  else if Ascii.eqb c "x" then
    match args with
    | FInt z :: args' => Emit (fmt_unsigned sp 16 false z) args'
    | _ => Stop FmtFault
    end
  else if Ascii.eqb c "X" then
    match args with
    | FInt z :: args' => Emit (fmt_unsigned sp 16 true z) args'
    | _ => Stop FmtFault
    end
  else if Ascii.eqb c "s" then
    if f_bits sp =? 32 then
      match args with
      | FStr p :: args' =>
          match string_arg m sp p with
          | Some s => Emit (pad_text sp s) args'
          | None => Stop FmtFault
          end
      | _ => Stop FmtFault
      end
    else Stop FmtOther
  else if Ascii.eqb c "c" then
    if f_bits sp =? 32 then
      match args with
      | FInt z :: args' =>
          let b := z mod 256 in
          if b =? 0 then Stop FmtOther
          else Emit (pad_text sp (String (ascii_of_N (Z.to_N b)) EmptyString)) args'
      | _ => Stop FmtFault
      end
    else Stop FmtOther
  else if Ascii.eqb c "%" then
    match ph with
    | PFlags => if no_flags sp then Emit "%" args else Stop FmtOther
    | _ => Stop FmtOther
    end
  else Stop FmtOther.

(** A length modifier, or else the conversion character. *)
Definition len_step (m : gmap nat block) (ph : phase) (sp : fspec) (c : ascii)
    (args : list farg) : step_result :=
  if Ascii.eqb c "h" then Again PLenH sp args
  else if Ascii.eqb c "l" then Again PLenL sp args
  else if Ascii.eqb c "j" || Ascii.eqb c "z" || Ascii.eqb c "t"
  then Again PConv (set_bits 64 sp) args
  else conv_step m ph sp c args.

(** One more decimal digit of a width or a precision. *)
Definition more_digits (v : option Z) (c : ascii) : Z :=
  10 * default 0 v + digit_val c.

(** One character of a conversion specification. *)
Definition spec_step (m : gmap nat block) (ph : phase) (sp : fspec) (c : ascii)
    (args : list farg) : step_result :=
  match ph with
  | PFlags =>
      if Ascii.eqb c "-" then Again PFlags (set_left sp) args
      else if Ascii.eqb c "+" then Again PFlags (set_plus sp) args
      else if Ascii.eqb c " " then Again PFlags (set_space sp) args
      else if Ascii.eqb c "#" then Again PFlags (set_alt sp) args
      else if Ascii.eqb c "0" then Again PFlags (set_zero sp) args
      else if is_digit c then Again PWidth (set_width (digit_val c) sp) args
      else if Ascii.eqb c "*" then
        match args with
        | FInt z :: args' =>
            let w := to_signed 32 z in
            if w =? - 2 ^ 31 then Stop FmtOther
            else if w <? 0 then Again PWidthArg (set_width (- w) (set_left sp)) args'
            else Again PWidthArg (set_width w sp) args'
        | _ => Stop FmtFault
        end
      else if Ascii.eqb c "." then Again PDot (set_prec (Some 0) sp) args
      else len_step m ph sp c args
  | PWidth =>
      if is_digit c then
        let w := more_digits (f_width sp) c in
        if w <=? INT_MAX then Again PWidth (set_width w sp) args else Stop FmtOverflow
      else if Ascii.eqb c "." then Again PDot (set_prec (Some 0) sp) args
      else len_step m ph sp c args
  | PWidthArg =>
      if Ascii.eqb c "." then Again PDot (set_prec (Some 0) sp) args
      else len_step m ph sp c args
  | PDot =>
      if is_digit c then Again PPrec (set_prec (Some (digit_val c)) sp) args
      else if Ascii.eqb c "*" then
        match args with
        | FInt z :: args' =>
            let p := to_signed 32 z in
            Again PPrecArg (set_prec (if p <? 0 then None else Some p) sp) args'
        | _ => Stop FmtFault
        end
      else len_step m ph sp c args
  | PPrec =>
      if is_digit c then
        let p := more_digits (f_prec sp) c in
        if p <=? INT_MAX then Again PPrec (set_prec (Some p) sp) args else Stop FmtOverflow
      else len_step m ph sp c args
  | PPrecArg => len_step m ph sp c args
  | PLenH =>
      if Ascii.eqb c "h" then Again PConv (set_bits 8 sp) args
      else conv_step m ph (set_bits 16 sp) c args
  | PLenL =>
      if Ascii.eqb c "l" then Again PConv (set_bits 64 sp) args
      else conv_step m ph (set_bits 64 sp) c args
  | PConv => conv_step m ph sp c args
  end.

Fixpoint format_go (m : gmap nat block) (mode : fmt_mode) (fmt : string)
    (args : list farg) : fmt_result :=
  match fmt with
  | EmptyString => match mode with Plain => FmtOk EmptyString | Spec _ _ => FmtInvalid end
  | String c rest =>
      match mode with
      | Plain =>
          if Ascii.eqb c "%" then format_go m (Spec PFlags spec0) rest args
          else fmt_cons c (format_go m Plain rest args)
      | Spec ph sp =>
          match spec_step m ph sp c args with
          | Again ph' sp' args' => format_go m (Spec ph' sp') rest args'
          | Emit out args' => fmt_app out (format_go m Plain rest args')
          | Stop r => r
          end
      end
  end.

Definition c_format (m : gmap nat block) (fmt : string) (args : list farg) : fmt_result :=
  format_go m Plain fmt args.

(** The [int] a formatting call returns for a text: its length, or a failure
    with [EOVERFLOW] when the length is above [INT_MAX]. *)
Definition fmt_count (str : string) : option Z :=
  if strlen str <=? INT_MAX then Some (strlen str) else None.

(** [vsnprintf(NULL, 0, fmt, args)]. *)
Definition vsnprintf_len (fmt : string) (args : list farg) : M Z := fun s =>
  match c_format (mem s) fmt args with
  | FmtOk str =>
      match fmt_count str with
      | Some n => Ret n s
      | None => Ret (-1) (set_errno EOVERFLOW s)
      end
  | FmtInvalid => Ret (-1) (set_errno EINVAL s)
  | FmtOverflow => Ret (-1) (set_errno EOVERFLOW s)
  | FmtFault => Fault
  | FmtOther => Unmodelled
  end.

(** [vsnprintf(buf, buflen, fmt, args)]: at most [buflen - 1] characters and
    the terminator are stored.  What a failing call leaves in the buffer is
    not modelled; [xavprintf] makes this call only after the same one has
    given a length. *)
Definition vsnprintf_buf (buf : ptr) (buflen : Z) (fmt : string) (args : list farg)
    : M unit := fun s =>
  match c_format (mem s) fmt args with
  | FmtOk str =>
      match fmt_count str with
      | Some _ =>
          match buf with
          | Heap a =>
              match mem s !! a with
              | Some (Block sz _) =>
                  if (1 <=? buflen) && (buflen <=? sz)
                  then Ret tt (set_mem (<[a := Block sz (PBytes (str_take (Z.to_nat (buflen - 1)) str))]>) s)
                  else Fault
              | None => Fault
              end
          | _ => Fault
          end
      | None => Unmodelled
      end
  | FmtInvalid | FmtOverflow | FmtOther => Unmodelled
  | FmtFault => Fault
  end.

(** [strerror]: the messages of glibc for the error numbers of Linux. *)
Definition strerror_table : list (Z * string) :=
  [
    (0, "Success");
    (1, "Operation not permitted");
    (2, "No such file or directory");
    (3, "No such process");
    (4, "Interrupted system call");
    (5, "Input/output error");
    (6, "No such device or address");
    (7, "Argument list too long");
    (8, "Exec format error");
    (9, "Bad file descriptor");
    (10, "No child processes");
    (11, "Resource temporarily unavailable");
    (12, "Cannot allocate memory");
    (13, "Permission denied");
    (14, "Bad address");
    (15, "Block device required");
    (16, "Device or resource busy");
    (17, "File exists");
    (18, "Invalid cross-device link");
    (19, "No such device");
    (20, "Not a directory");
    (21, "Is a directory");
    (22, "Invalid argument");
    (23, "Too many open files in system");
    (24, "Too many open files");
    (25, "Inappropriate ioctl for device");
    (26, "Text file busy");
    (27, "File too large");
    (28, "No space left on device");
    (29, "Illegal seek");
    (30, "Read-only file system");
    (31, "Too many links");
    (32, "Broken pipe");
    (33, "Numerical argument out of domain");
    (34, "Numerical result out of range");
    (35, "Resource deadlock avoided");
    (36, "File name too long");
    (37, "No locks available");
    (38, "Function not implemented");
    (39, "Directory not empty");
    (40, "Too many levels of symbolic links");
    (42, "No message of desired type");
    (43, "Identifier removed");
    (44, "Channel number out of range");
    (45, "Level 2 not synchronized");
    (46, "Level 3 halted");
    (47, "Level 3 reset");
    (48, "Link number out of range");
    (49, "Protocol driver not attached");
    (50, "No CSI structure available");
    (51, "Level 2 halted");
    (52, "Invalid exchange");
    (53, "Invalid request descriptor");
    (54, "Exchange full");
    (55, "No anode");
    (56, "Invalid request code");
    (57, "Invalid slot");
    (59, "Bad font file format");
    (60, "Device not a stream");
    (61, "No data available");
    (62, "Timer expired");
    (63, "Out of streams resources");
    (64, "Machine is not on the network");
    (65, "Package not installed");
    (66, "Object is remote");
    (67, "Link has been severed");
    (68, "Advertise error");
    (69, "Srmount error");
    (70, "Communication error on send");
    (71, "Protocol error");
    (72, "Multihop attempted");
    (73, "RFS specific error");
    (74, "Bad message");
    (75, "Value too large for defined data type");
    (76, "Name not unique on network");
    (77, "File descriptor in bad state");
    (78, "Remote address changed");
    (79, "Can not access a needed shared library");
    (80, "Accessing a corrupted shared library");
    (81, ".lib section in a.out corrupted");
    (82, "Attempting to link in too many shared libraries");
    (83, "Cannot exec a shared library directly");
    (84, "Invalid or incomplete multibyte or wide character");
    (85, "Interrupted system call should be restarted");
    (86, "Streams pipe error");
    (87, "Too many users");
    (88, "Socket operation on non-socket");
    (89, "Destination address required");
    (90, "Message too long");
    (91, "Protocol wrong type for socket");
    (92, "Protocol not available");
    (93, "Protocol not supported");
    (94, "Socket type not supported");
    (95, "Operation not supported");
    (96, "Protocol family not supported");
    (97, "Address family not supported by protocol");
    (98, "Address already in use");
    (99, "Cannot assign requested address");
    (100, "Network is down");
    (101, "Network is unreachable");
    (102, "Network dropped connection on reset");
    (103, "Software caused connection abort");
    (104, "Connection reset by peer");
    (105, "No buffer space available");
    (106, "Transport endpoint is already connected");
    (107, "Transport endpoint is not connected");
    (108, "Cannot send after transport endpoint shutdown");
    (109, "Too many references: cannot splice");
    (110, "Connection timed out");
    (111, "Connection refused");
    (112, "Host is down");
    (113, "No route to host");
    (114, "Operation already in progress");
    (115, "Operation now in progress");
    (116, "Stale file handle");
    (117, "Structure needs cleaning");
    (118, "Not a XENIX named type file");
    (119, "No XENIX semaphores available");
    (120, "Is a named type file");
    (121, "Remote I/O error");
    (122, "Disk quota exceeded");
    (123, "No medium found");
    (124, "Wrong medium type");
    (125, "Operation canceled");
    (126, "Required key not available");
    (127, "Key has expired");
    (128, "Key has been revoked");
    (129, "Key was rejected by service");
    (130, "Owner died");
    (131, "State not recoverable");
    (132, "Operation not possible due to RF-kill");
    (133, "Memory page has hardware error")
  ]%string.

Fixpoint assoc_str (e : Z) (l : list (Z * string)) : option string :=
  match l with
  | [] => None
  | (k, v) :: l' => if e =? k then Some v else assoc_str e l'
  end.

Definition strerror (e : Z) : string :=
  match assoc_str e strerror_table with
  | Some t => t
  | None => "Unknown error " +:+ pretty e
  end.

(** ** The functions of [util.c] *)

(** Accessors for the fields the code reads and writes through pointers. *)

(** [&p->contents] for a [struct reslist* p]. *)
Definition get_contents (rl : addr) : M (list addr) := fun s =>
  match nodes s !! rl with
  | Some (RES_RESLIST _ cs) => Ret cs s
  | _ => Fault
  end.

(** [rl->parent]. *)
Definition get_parent (rl : addr) : M (option addr) := fun s =>
  match nodes s !! rl with
  | Some (RES_RESLIST p _) => Ret p s
  | _ => Fault
  end.

(** [rl->parent = p]. *)
Definition set_parent (rl : addr) (p : option addr) : M unit := fun s =>
  match nodes s !! rl with
  | Some (RES_RESLIST _ cs) => Ret tt (set_nodes (<[rl := RES_RESLIST p cs]>) s)
  | _ => Fault
  end.

(** [LIST_INSERT_HEAD(&owner->contents, elm, link)]. *)
Definition LIST_INSERT_HEAD (owner : option addr) (elm : addr) : M unit := fun s =>
  match owner with
  | Some o =>
      match nodes s !! o with
      | Some (RES_RESLIST p cs) =>
          Ret tt (set_nodes (<[o := RES_RESLIST p (elm :: cs)]>) s)
      | _ => Fault
      end
  | None => Fault
  end.

Fixpoint unlink (elm : addr) (l : list addr) : list addr :=
  match l with
  | [] => []
  | x :: l' => if decide (x = elm) then l' else x :: unlink elm l'
  end.

(** [LIST_REMOVE(elm, link)], for an element of the list of [owner]. *)
Definition LIST_REMOVE (owner : addr) (elm : addr) : M unit := fun s =>
  match nodes s !! owner with
  | Some (RES_RESLIST p cs) =>
      Ret tt (set_nodes (<[owner := RES_RESLIST p (unlink elm cs)]>) s)
  | _ => Fault
  end.

Definition load_node (a : addr) : M node := fun s =>
  match nodes s !! a with
  | Some n => Ret n s
  | None => Fault
  end.

(** [fd_cleanup]. *)
Definition fd_cleanup (arg : ptr) : M unit :=
  match arg with
  | IntPtr fd =>
      r <- close fd ;;
      s <- get ;;
      if (r =? -1) && (errno s =? EBADF) then abort (BadFd fd) else ret tt
  | _ => fault
  end.

(** [cleanup_prgname]. *)
Definition cleanup_prgname (arg : ptr) : M unit := modify (set_prgname_var arg).

(** The call [cl->fn(cl->fndata)] through the function pointer. *)
Definition call_cleanup (fn : cleanupfn) (fndata : ptr) : M unit :=
  modify (log (EvCall fn fndata)) ;;;
  match fn with
  | fn_free => free fndata
  | fn_fd_cleanup => fd_cleanup fndata
  | fn_cleanup_prgname => cleanup_prgname fndata
  end.

(** [reslist_destroy], with the depth of loop iterations and recursive calls
    bounded by [n]; [destroy_contents] is its [while] loop. *)
Fixpoint reslist_destroy_fuel (n : nat) (rl : addr) {struct n} : M unit :=
  match n with
  | O => diverge
  | S n' =>
      p <- get_parent rl ;;
      match p with
      | Some p => LIST_REMOVE p rl
      | None => ret tt
      end ;;;
      destroy_contents n' rl ;;;
      free_node rl
  end
with destroy_contents (n : nat) (rl : addr) {struct n} : M unit :=
  match n with
  | O => diverge
  | S n' =>
      cs <- get_contents rl ;;
      match cs with
      | [] => ret tt
      | r :: _ =>
          LIST_REMOVE rl r ;;;
          t <- load_node r ;;
          match t with
          | RES_RESLIST _ _ =>
              set_parent r None ;;;
              reslist_destroy_fuel n' r
          | RES_CLEANUP fn fndata =>
              match fn with
              | Some f => call_cleanup f fndata
              | None => ret tt
              end ;;;
              free_node r
          end ;;;
          destroy_contents n' rl
      end
  end.

(** The bound is taken from the number of live nodes, which is enough on
    every tree-shaped heap ([destroy_bound_enough] below). *)
Definition destroy_bound (s : state) : nat := (2 * size (nodes s) + 2)%nat.

Definition reslist_destroy (rl : addr) : M unit :=
  s <- get ;; reslist_destroy_fuel (destroy_bound s) rl.

(** [die_oom]. *)
Definition die_oom {A} : M A :=
  s <- get ;;
  match current_errh s with
  | None => abort NoHandler
  | Some h =>
      p <- get_parent (eh_rl h) ;;
      modify (set_current_reslist p) ;;;
      match eh_ei h with
      | Some ei => fun s =>
          match einfos s !! ei with
          | Some i =>
              Ret tt (set_einfos (<[ei := ErrInfo ENOMEM (Static "no memory") (ei_prgname i) (want_msg i)]>) s)
          | None => Fault
          end
      | None => ret tt
      end ;;;
      reslist_destroy (eh_rl h) ;;;
      siglongjmp (eh_where h)
  end.

(** [reslist_push_new]. *)
Definition reslist_push_new : M addr :=
  rl <- malloc sizeof_reslist ;;
  match rl with
  | None => die_oom
  | Some rl =>
      s <- get ;;
      modify (set_nodes (<[rl := RES_RESLIST (current_reslist s) []]>)) ;;;
      LIST_INSERT_HEAD (current_reslist s) rl ;;;
      modify (set_current_reslist (Some rl)) ;;;
      ret rl
  end.

(** [reslist_pop_nodestroy]. *)
Definition reslist_pop_nodestroy : M unit :=
  s <- get ;;
  match current_reslist s with
  | Some c => p <- get_parent c ;; modify (set_current_reslist p)
  | None => fault
  end.

(** [reslist_cleanup_local]. *)
Definition reslist_cleanup_local (rl_local : addr) : M unit :=
  p <- get_parent rl_local ;;
  modify (set_current_reslist p) ;;;
  reslist_destroy rl_local.

(** [cleanup_allocate]. *)
Definition cleanup_allocate : M addr :=
  cl <- malloc sizeof_cleanup ;;
  match cl with
  | None => die_oom
  | Some cl =>
      modify (set_nodes (<[cl := RES_CLEANUP None Null]>)) ;;;
      s <- get ;;
      LIST_INSERT_HEAD (current_reslist s) cl ;;;
      ret cl
  end.

(** [cleanup_commit]. *)
Definition cleanup_commit (cl : addr) (fn : cleanupfn) (fndata : ptr) : M unit := fun s =>
  match nodes s !! cl with
  | Some (RES_CLEANUP _ _) => Ret tt (set_nodes (<[cl := RES_CLEANUP (Some fn) fndata]>) s)
  | _ => Fault
  end.

(** [cleanup_commit_close_fd]. *)
Definition cleanup_commit_close_fd (cl : addr) (fd : Z) : M unit :=
  cleanup_commit cl fn_fd_cleanup (IntPtr fd).

(** [xalloc]. *)
Definition xalloc (sz : Z) : M ptr :=
  cl <- cleanup_allocate ;;
  m <- malloc sz ;;
  match m with
  | None => die_oom
  | Some a =>
      modify (set_mem (<[a := Block sz PUninit]>)) ;;;
      cleanup_commit cl fn_free (Heap a) ;;;
      ret (Heap a)
  end.

(** [memset(mem, 0, sz)]. *)
Definition memset_zero (p : ptr) (sz : Z) : M unit := fun s =>
  match p with
  | Heap a =>
      match mem s !! a with
      | Some (Block bsz _) =>
          if sz <=? bsz then Ret tt (set_mem (<[a := Block bsz PZero]>) s) else Fault
      | None => Fault
      end
  | _ => Fault
  end.

(** [xcalloc]. *)
Definition xcalloc (sz : Z) : M ptr :=
  m <- xalloc sz ;;
  memset_zero m sz ;;;
  ret m.

(** [xavprintf], over the [die] it calls on an invalid format. *)
Definition xavprintf_with (die : Z -> string -> list farg -> M ptr)
    (fmt : string) (args : list farg) : M ptr :=
  n <- vsnprintf_len fmt args ;;
  if n <? 0 then die EINVAL "invalid format string %.80s"%string [FStr (Static fmt)]
  else
    let buflen := (n + 1) mod SIZE_MAX1 in
    buf <- xalloc buflen ;;
    vsnprintf_buf buf buflen fmt args ;;;
    ret buf.

(** [diev]; [die] is the same function behind [va_start].  [diev] and
    [xavprintf] call each other; [n] bounds the depth of that recursion, and
    two levels are all it reaches unless the program name itself is too
    long to be copied ([diev_fuel_enough] below); then every level raises
    again. *)
Fixpoint diev_fuel (n : nat) : forall A : Type, Z -> string -> list farg -> M A :=
  match n with
  | O => fun A _ _ _ => diverge
  | S n' => fun A e fmt args =>
      s <- get ;;
      match current_errh s with
      | None => abort NoHandler
      | Some h =>
          p <- get_parent (eh_rl h) ;;
          modify (set_current_reslist p) ;;;
          match eh_ei h with
          | Some ei =>
              s1 <- get ;;
              match einfos s1 !! ei with
              | Some i =>
                  modify (set_einfos (<[ei := ErrInfo e (msg i) (ei_prgname i) (want_msg i)]>)) ;;;
                  if want_msg i then
                    m <- xavprintf_with (diev_fuel n' ptr) fmt args ;;
                    modify (set_einfos (<[ei := ErrInfo e m (ei_prgname i) (want_msg i)]>)) ;;;
                    s2 <- get ;;
                    pn <- xavprintf_with (diev_fuel n' ptr) "%s"%string [FStr (prgname s2)] ;;
                    modify (set_einfos (<[ei := ErrInfo e m pn (want_msg i)]>))
                  else ret tt
              | None => fault
              end
          | None => ret tt
          end ;;;
          reslist_destroy (eh_rl h) ;;;
          siglongjmp (eh_where h)
      end
  end.

Definition diev {A} (e : Z) (fmt : string) (args : list farg) : M A :=
  diev_fuel 2 A e fmt args.

Definition die {A} (e : Z) (fmt : string) (args : list farg) : M A :=
  diev e fmt args.

Definition xavprintf (fmt : string) (args : list farg) : M ptr :=
  xavprintf_with die fmt args.

(** [xaprintf]. *)
Definition xaprintf (fmt : string) (args : list farg) : M ptr :=
  xavprintf fmt args.

(** [xstrdup]. *)
Definition xstrdup (s : ptr) : M ptr := xaprintf "%s"%string [FStr s].

(** [die_errno]. *)
Definition die_errno {A} (fmt : string) (args : list farg) : M A :=
  s <- get ;;
  let e := errno s in
  m <- xavprintf fmt args ;;
  die e "%s: %s"%string [FStr m; FStr (Static (strerror e))].

Definition dquote : string := String "034"%char EmptyString.

(** [xopen]. *)
Definition xopen (pathname : ptr) (flags mode : Z) : M Z :=
  cl <- cleanup_allocate ;;
  fd <- open pathname flags mode ;;
  if fd =? -1 then die_errno ("open(" +:+ dquote +:+ "%s" +:+ dquote +:+ ")") [FStr pathname]
  else
    cleanup_commit_close_fd cl fd ;;;
    ret fd.

(** [xpipe]; the two out-parameters are the result. *)
Definition xpipe : M (Z * Z) :=
  cl0 <- cleanup_allocate ;;
  cl1 <- cleanup_allocate ;;
  r <- pipe2 ;;
  if fst r <? 0 then die_errno "pipe2"%string []
  else
    cleanup_commit_close_fd cl0 (fst (snd r)) ;;;
    cleanup_commit_close_fd cl1 (snd (snd r)) ;;;
    ret (snd r).

(** [xdup]. *)
Definition xdup (fd : Z) : M Z :=
  cl <- cleanup_allocate ;;
  newfd <- fcntl_dupfd fd fd ;;
  if newfd =? -1 then die_errno "F_DUPFD_CLOEXEC"%string []
  else
    cleanup_commit_close_fd cl newfd ;;;
    ret newfd.

(** Stores into the fields of a [struct fdh]. *)
Definition store_fdh_rl (fdh : ptr) (rl : addr) : M unit := fun s =>
  match fdh with
  | Heap a =>
      match mem s !! a with
      | Some (Block sz d) =>
          let fd := match d with PFdh _ fd => fd | _ => None end in
          Ret tt (set_mem (<[a := Block sz (PFdh (Some rl) fd)]>) s)
      | None => Fault
      end
  | _ => Fault
  end.

Definition store_fdh_fd (fdh : ptr) (fd : Z) : M unit := fun s =>
  match fdh with
  | Heap a =>
      match mem s !! a with
      | Some (Block sz d) =>
          let rl := match d with PFdh rl _ => rl | _ => None end in
          Ret tt (set_mem (<[a := Block sz (PFdh rl (Some fd))]>) s)
      | None => Fault
      end
  | _ => Fault
  end.

(** [fdh_dup]. *)
Definition fdh_dup (fd : Z) : M ptr :=
  rl <- reslist_push_new ;;
  fdh <- xalloc sizeof_fdh ;;
  store_fdh_rl fdh rl ;;;
  newfd <- xdup fd ;;
  store_fdh_fd fdh newfd ;;;
  reslist_pop_nodestroy ;;;
  ret fdh.

(** [fdh_destroy]. *)
Definition fdh_destroy (fdh : ptr) : M unit := fun s =>
  match fdh with
  | Heap a =>
      match mem s !! a with
      | Some (Block _ (PFdh (Some rl) _)) => reslist_destroy rl s
      | _ => Fault
      end
  | _ => Fault
  end.

(** [set_prgname]. *)
Definition set_prgname (s : ptr) : M unit :=
  c <- cleanup_allocate ;;
  st <- get ;;
  cleanup_commit c fn_cleanup_prgname (prgname st) ;;;
  modify (set_prgname_var s).

(** [catch_error]: [fn] is the body applied to its [fndata]. *)
Definition catch_error (fn : M unit) (ei : option addr) : M bool := fun s =>
  let old_errh := current_errh s in
  match reslist_push_new s with
  | Ret rl s1 =>
      let errh := ErrHandler (next_where s1) rl ei in
      match fn (set_current_errh (Some errh) (bump_where s1)) with
      | Ret _ s2 => Ret false (set_current_errh old_errh s2)
      | Jump w s2 =>
          if decide (w = eh_where errh)
          then Ret true (set_current_errh old_errh s2)
          else Jump w s2
      | Abort why => Abort why
      | Fault => Fault
      | Diverge => Diverge
      | Unmodelled => Unmodelled
      end
  | Jump w s1 => Jump w s1
  | Abort why => Abort why
  | Fault => Fault
  | Diverge => Diverge
  | Unmodelled => Unmodelled
  end.

(** ** The scope tree as a value

    The subtree below a scope, in list order: an element is a cleanup record
    or a child scope with its own contents.  [repr] says that the nodes of the
    heap spell out a given forest below [owner]. *)

Inductive forest :=
  | FNil
  | FCleanup (a : addr) (fn : option cleanupfn) (fndata : ptr) (rest : forest)
  | FScope (a : addr) (sub : forest) (rest : forest).

Fixpoint roots (f : forest) : list addr :=
  match f with
  | FNil => []
  | FCleanup a _ _ r => a :: roots r
  | FScope a _ r => a :: roots r
  end.

Fixpoint addrs (f : forest) : list addr :=
  match f with
  | FNil => []
  | FCleanup a _ _ r => a :: addrs r
  | FScope a sub r => a :: addrs sub ++ addrs r
  end.

(** The scopes of a forest. *)
Fixpoint scopes (f : forest) : list addr :=
  match f with
  | FNil => []
  | FCleanup _ _ _ r => scopes r
  | FScope a sub r => a :: scopes sub ++ scopes r
  end.

(** The armed actions of a forest, in the order [reslist_destroy] meets them. *)
Fixpoint actions (f : forest) : list (cleanupfn * ptr) :=
  match f with
  | FNil => []
  | FCleanup _ (Some fn) d r => (fn, d) :: actions r
  | FCleanup _ None _ r => actions r
  | FScope _ sub r => actions sub ++ actions r
  end.

Fixpoint repr (h : gmap nat node) (owner : addr) (f : forest) : Prop :=
  match f with
  | FNil => True
  | FCleanup a fn d r => h !! a = Some (RES_CLEANUP fn d) /\ repr h owner r
  | FScope a sub r =>
      h !! a = Some (RES_RESLIST (Some owner) (roots sub)) /\
      repr h a sub /\ repr h owner r
  end.

(** The scope [rl], whose [parent] field is [pp], holds the forest [f]. *)
Definition scope_at (h : gmap nat node) (rl : addr) (pp : option addr) (f : forest) : Prop :=
  h !! rl = Some (RES_RESLIST pp (roots f)) /\ repr h rl f /\ NoDup (rl :: addrs f).

(** Calling a list of actions one after the other. *)
Fixpoint run_actions (l : list (cleanupfn * ptr)) : M unit :=
  match l with
  | [] => ret tt
  | (fn, d) :: l' => call_cleanup fn d ;;; run_actions l'
  end.

Definition dels (l : list addr) (h : gmap nat node) : gmap nat node :=
  foldr delete h l.

(** A change of the nodes applied to the state an outcome carries. *)
Definition lift_nodes {A} (g : gmap nat node -> gmap nat node) (o : outcome A) : outcome A :=
  match o with
  | Ret a s => Ret a (set_nodes g s)
  | Jump w s => Jump w (set_nodes g s)
  | _ => o
  end.

(** The parent's list once [rl] is unlinked from it, and the nodes left when
    the scope [rl] and the forest below it are gone. *)
Definition detach (rl : addr) (pp : option addr) (h : gmap nat node) : gmap nat node :=
  match pp with
  | Some p =>
      match h !! p with
      | Some (RES_RESLIST q cs) => <[p := RES_RESLIST q (unlink rl cs)]> h
      | _ => h
      end
  | None => h
  end.

Definition swept (rl : addr) (pp : option addr) (f : forest) (h : gmap nat node)
    : gmap nat node :=
  dels (rl :: addrs f) (detach rl pp h).

(** The parent named by the [parent] field is a live scope outside the tree
    below [rl]. *)
Definition parent_ok (h : gmap nat node) (rl : addr) (pp : option addr) (f : forest) : Prop :=
  match pp with
  | Some p => (p ∉ rl :: addrs f) /\ exists q cs, h !! p = Some (RES_RESLIST q cs)
  | None => True
  end.

(** ** Client programs

    A client of [util.c], reduced to the calls it makes; results are dropped
    and arguments are literals. *)
Inductive cmd :=
  | CSkip
  | CSeq (c1 c2 : cmd)
  | CPush
  | CPop
  | CDestroy (rl : addr)
  | CCleanupLocal (rl : addr)
  | CRegister
  | CCommit (cl : addr) (fn : cleanupfn) (d : ptr)
  | CCommitCloseFd (cl : addr) (fd : Z)
  | CAlloc (sz : Z)
  | CCalloc (sz : Z)
  | CPrintf (fmt : string) (args : list farg)
  | CStrdup (p : ptr)
  | COpen (path : ptr) (flags mode : Z)
  | CPipe
  | CDup (fd : Z)
  | CFdhDup (fd : Z)
  | CFdhDestroy (h : ptr)
  | CSetPrgname (p : ptr)
  | CDie (e : Z) (fmt : string) (args : list farg)
  | CDieErrno (fmt : string) (args : list farg)
  | CCatch (body : cmd) (ei : option addr).

Fixpoint exec (c : cmd) : M unit :=
  match c with
  | CSkip => ret tt
  | CSeq c1 c2 => exec c1 ;;; exec c2
  | CPush => reslist_push_new ;;; ret tt
  | CPop => reslist_pop_nodestroy
  | CDestroy rl => reslist_destroy rl
  | CCleanupLocal rl => reslist_cleanup_local rl
  | CRegister => cleanup_allocate ;;; ret tt
  | CCommit cl fn d => cleanup_commit cl fn d
  | CCommitCloseFd cl fd => cleanup_commit_close_fd cl fd
  | CAlloc sz => xalloc sz ;;; ret tt
  | CCalloc sz => xcalloc sz ;;; ret tt
  | CPrintf fmt args => xaprintf fmt args ;;; ret tt
  | CStrdup p => xstrdup p ;;; ret tt
  | COpen path flags mode => xopen path flags mode ;;; ret tt
  | CPipe => xpipe ;;; ret tt
  | CDup fd => xdup fd ;;; ret tt
  | CFdhDup fd => fdh_dup fd ;;; ret tt
  | CFdhDestroy h => fdh_destroy h
  | CSetPrgname p => set_prgname p
  | CDie e fmt args => die e fmt args
  | CDieErrno fmt args => die_errno fmt args
  | CCatch body ei => catch_error (exec body) ei ;;; ret tt
  end.

(** The handler discipline: started with [oh] as the current handler, a
    computation returns with [oh] current again, jumps only to the jump
    buffer of [oh], and takes the [abort()] of a raise only when [oh] is no
    handler at all. *)
Definition keeps {A} (oh : option errhandler) (m : M A) : Prop :=
  forall s, current_errh s = oh ->
    match m s with
    | Ret _ s' => current_errh s' = oh
    | Jump w s' => current_errh s' = oh /\ exists h, oh = Some h /\ w = eh_where h
    | Abort NoHandler => oh = None
    | _ => True
    end.

Definition disciplined {A} (m : M A) : Prop := forall oh, keeps oh m.

(** The state [catch_error] runs its body in. *)
Definition install (rl : addr) (ei : option addr) (s1 : state) : state :=
  set_current_errh (Some (ErrHandler (next_where s1) rl ei)) (bump_where s1).

(** Computations that neither raise nor touch [current_errh]. *)
Definition quiet {A} (m : M A) : Prop :=
  forall s,
    match m s with
    | Ret _ s' => current_errh s' = current_errh s
    | Jump _ _ => False
    | Abort NoHandler => False
    | _ => True
    end.


(** ** States *)

(** Every address from [next_addr] on is unused. *)
Definition heap_fresh (s : state) : Prop :=
  map_Forall (fun a _ => (a < next_addr s)%nat) (nodes s) /\
  map_Forall (fun a _ => (a < next_addr s)%nat) (mem s).

(** [current_reslist] points to a live scope. *)
Definition current_live (s : state) : Prop :=
  exists c p cs, current_reslist s = Some c /\ nodes s !! c = Some (RES_RESLIST p cs).

(** The state in which [main] reaches [reslist_push_new]: [dummy_top] is the
    current scope, no handler is installed, the three standard descriptors
    are open; [main]'s [struct errinfo ei = { .want_msg = true }] is slot 0. *)
Definition boot (ok : nat -> bool) (sf : nat -> option Z) : state :=
  State {[ 0%nat := RES_RESLIST None [] ]} ∅ 1 0 ok (Some 0%nat) None 0
        {[ 0%nat := ErrInfo 0 Null Null true ]} (Static "fb-adb") 0
        [true; true; true] 0 sf [].

Definition always_ok : nat -> bool := fun _ => true.
Definition never_fails : nat -> option Z := fun _ => None.

(** Computations that never leave by [siglongjmp]. *)
Definition never_jumps {A} (m : M A) : Prop :=
  forall s, match m s with Jump _ _ => False | _ => True end.

(** Computations that never return to their caller ([noreturn]). *)
Definition never_returns {A} (m : M A) : Prop :=
  forall s, match m s with Ret _ _ => False | _ => True end.

Definition state_of {A} (o : outcome A) (d : state) : state :=
  match o with
  | Ret _ s => s
  | Jump _ s => s
  | _ => d
  end.

(** ** Growing a forest *)

(** One element of a contents list as it is linked in: a cleanup record, or
    a scope that is still empty. *)
Inductive item :=
  | ICleanup (a : addr) (fn : option cleanupfn) (d : ptr)
  | IScope (a : addr).

Definition item_addr (x : item) : addr :=
  match x with ICleanup a _ _ => a | IScope a => a end.

Definition item_node (owner : addr) (x : item) : node :=
  match x with
  | ICleanup _ fn d => RES_CLEANUP fn d
  | IScope _ => RES_RESLIST (Some owner) []
  end.

Definition cons_item (x : item) (f : forest) : forest :=
  match x with
  | ICleanup a fn d => FCleanup a fn d f
  | IScope a => FScope a FNil f
  end.

(** [x] linked at the head of the scope [c] somewhere in [f]. *)
Fixpoint finsert (c : addr) (x : item) (f : forest) : forest :=
  match f with
  | FNil => FNil
  | FCleanup a fn d r => FCleanup a fn d (finsert c x r)
  | FScope a sub r =>
      FScope a (if decide (a = c) then cons_item x sub else finsert c x sub)
             (finsert c x r)
  end.

(** The same for the tree of the scope [rl] with contents [f]. *)
Definition tinsert (rl c : addr) (x : item) (f : forest) : forest :=
  if decide (rl = c) then cons_item x f else finsert c x f.

(** The record [cl] armed with [fn] and [d]. *)
Fixpoint fcommit (cl : addr) (fn : cleanupfn) (d : ptr) (f : forest) : forest :=
  match f with
  | FNil => FNil
  | FCleanup a fn0 d0 r =>
      if decide (a = cl) then FCleanup a (Some fn) d r
      else FCleanup a fn0 d0 (fcommit cl fn d r)
  | FScope a sub r => FScope a (fcommit cl fn d sub) (fcommit cl fn d r)
  end.

(** The nodes after [x] is linked at the head of [c]. *)
Definition link_item (c : addr) (x : item) (h : gmap nat node) : gmap nat node :=
  match h !! c with
  | Some (RES_RESLIST pc cs) =>
      <[c := RES_RESLIST pc (item_addr x :: cs)]> (<[item_addr x := item_node c x]> h)
  | _ => h
  end.

(** The cleanup records of a forest with their actions, in the order
    [reslist_destroy] meets them. *)
Fixpoint fitems (f : forest) : list (addr * option (cleanupfn * ptr)) :=
  match f with
  | FNil => []
  | FCleanup a fn d r => (a, option_map (fun g => (g, d)) fn) :: fitems r
  | FScope _ sub r => fitems sub ++ fitems r
  end.

(** The scope new elements go to when only pushes have happened below [rl]:
    the innermost first child. *)
Fixpoint leftmost (rl : addr) (f : forest) : addr :=
  match f with
  | FScope a sub _ => leftmost a sub
  | _ => rl
  end.

(** ** What a list of actions does when every call succeeds *)

(** The blocks the actions free and the descriptors they close. *)
Definition freed (l : list (cleanupfn * ptr)) : list addr :=
  omap (fun x => match x with (fn_free, Heap a) => Some a | _ => None end) l.

Definition closed (l : list (cleanupfn * ptr)) : list Z :=
  omap (fun x => match x with (fn_fd_cleanup, IntPtr fd) => Some fd | _ => None end) l.

(** The argument has the kind the function casts it to. *)
Definition action_typed (x : cleanupfn * ptr) : Prop :=
  match x with
  | (fn_free, Null) | (fn_free, Heap _) => True
  | (fn_fd_cleanup, IntPtr _) => True
  | (fn_cleanup_prgname, _) => True
  | _ => False
  end.

(** No block is freed twice and each is allocated; no descriptor is closed
    twice and each is open. *)
Definition actions_safe (l : list (cleanupfn * ptr)) (m : gmap nat block)
    (tbl : list bool) : Prop :=
  Forall action_typed l /\
  NoDup (freed l) /\ Forall (fun a => is_Some (m !! a)) (freed l) /\
  NoDup (closed l) /\ Forall (fun fd => fd_is_open tbl fd = true) (closed l).

Definition apply_action (x : cleanupfn * ptr) (s : state) : state :=
  let s1 := log (EvCall (fst x) (snd x)) s in
  match x with
  | (fn_free, Heap a) => set_mem (delete a) s1
  | (fn_fd_cleanup, IntPtr fd) =>
      log (EvClose fd) (set_fdtable (<[Z.to_nat fd := false]>) s1)
  | (fn_cleanup_prgname, d) => set_prgname_var d s1
  | _ => s1
  end.

Definition after_actions (l : list (cleanupfn * ptr)) (s : state) : state :=
  fold_left (fun s x => apply_action x s) l s.

(** The events one successful action adds to the trace. *)
Definition action_events (x : cleanupfn * ptr) : list event :=
  match x with
  | (fn_fd_cleanup, IntPtr fd) => [EvCall fn_fd_cleanup (IntPtr fd); EvClose fd]
  | (fn, d) => [EvCall fn d]
  end.

(** The cleanup calls recorded in a trace. *)
Definition calls (tr : list event) : list (cleanupfn * ptr) :=
  omap (fun e => match e with EvCall fn d => Some (fn, d) | _ => None end) tr.

(** The descriptors a trace closes. *)
Definition closes (tr : list event) : list Z :=
  omap (fun e => match e with EvClose fd => Some fd | _ => None end) tr.

(** ** States after successful calls *)

(** After [cleanup_allocate] in the scope [c], whose node held [p] and [cs]. *)
Definition registered (c : addr) (p : option addr) (cs : list addr) (s : state) : state :=
  set_nodes (fun h => <[c := RES_RESLIST p (next_addr s :: cs)]>
                        (<[next_addr s := RES_CLEANUP None Null]> h))
            (bump_malloc true s).

(** After [xalloc sz] in the scope [c]: the record is at [next_addr s], the
    block right after it. *)
Definition allocated (c : addr) (p : option addr) (cs : list addr) (sz : Z)
    (s : state) : state :=
  set_nodes (<[next_addr s := RES_CLEANUP (Some fn_free) (Heap (S (next_addr s)))]>)
    (set_mem (<[S (next_addr s) := Block sz PUninit]>)
       (bump_malloc true (registered c p cs s))).

(** After [xavprintf] has produced [str] in the scope [c]. *)
Definition printed (c : addr) (p : option addr) (cs : list addr) (str : string)
    (s : state) : state :=
  set_mem (<[S (next_addr s) := Block (Z.of_nat (String.length str) + 1) (PBytes str)]>)
    (allocated c p cs (Z.of_nat (String.length str) + 1) s).

(** The length of the string fits the [int] that [vsnprintf] returns. *)
Definition fits (str : string) : Prop := Z.of_nat (String.length str) <= INT_MAX.

(** The three ways the length pass fails: the format ends inside a
    conversion, a width or precision is above [INT_MAX], or the text is
    longer than [INT_MAX].  [errno] is set and the call is [die(EINVAL, ...)]. *)
Definition fmt_fails (r : fmt_result) : option Z :=
  match r with
  | FmtInvalid => Some EINVAL
  | FmtOverflow => Some EOVERFLOW
  | FmtOk str => if decide (fits str) then None else Some EOVERFLOW
  | _ => None
  end.

(** The heap is well formed and the program name is the text [pn], short
    enough to be copied. *)
Definition named (pn : string) (s : state) : Prop :=
  heap_fresh s /\ deref_str (mem s) (prgname s) = Some pn /\ fits pn.

(** An outcome of a call that does not return, at another result type. *)
Definition retype {A B} (o : outcome A) : outcome B :=
  match o with
  | Ret _ _ => Fault
  | Jump w s => Jump w s
  | Abort why => Abort why
  | Fault => Fault
  | Diverge => Diverge
  | Unmodelled => Unmodelled
  end.

(** ** Unwinding *)

(** The handler [h] is current; its scope [eh_rl h] hangs below the live
    scope [P] and holds the forest [F], whose actions can all run; the
    error-info slot, if any, exists. *)
Definition unwind_ready (s : state) (h : errhandler) (P : addr) (F : forest) : Prop :=
  current_errh s = Some h /\
  scope_at (nodes s) (eh_rl h) (Some P) F /\
  parent_ok (nodes s) (eh_rl h) (Some P) F /\
  actions_safe (actions F) (mem s) (fdtable s) /\
  match eh_ei h with Some ei => is_Some (einfos s !! ei) | None => True end.

(** The state the handler resumes in: the actions of [F] have run, and the
    scope of the handler is unlinked from [P] and gone with all of [F]. *)
Definition unwound (h : errhandler) (P : addr) (F : forest) (s : state) : state :=
  set_nodes (swept (eh_rl h) (Some P) F) (after_actions (actions F) s).

(** What [die_oom] writes into the error info of [h]. *)
Definition oom_info (h : errhandler) (s : state) : state :=
  match eh_ei h with
  | Some ei =>
      match einfos s !! ei with
      | Some i =>
          set_einfos (<[ei := ErrInfo ENOMEM (Static "no memory") (ei_prgname i) (want_msg i)]>) s
      | None => s
      end
  | None => s
  end.

(** Computations that call [malloc] only where they say: the counters of
    the allocator are as before in every state they hand on. *)
Definition no_alloc {A} (m : M A) : Prop :=
  forall s,
    match m s with
    | Ret _ s' | Jump _ s' => nmalloc s' = nmalloc s /\ next_addr s' = next_addr s
    | _ => True
    end.

(** The state in which [diev] starts to build the message: the parent [P] of
    the handler's scope is current and the code [e] is stored. *)
Definition raised (e : Z) (oei : option addr) (P : addr) (s : state) : state :=
  match oei with
  | Some ei =>
      match einfos s !! ei with
      | Some i =>
          set_einfos (<[ei := ErrInfo e (msg i) (ei_prgname i) (want_msg i)]>)
                     (set_current_reslist (Some P) s)
      | None => set_current_reslist (Some P) s
      end
  | None => set_current_reslist (Some P) s
  end.

Definition set_msg (ei : addr) (m : ptr) (s : state) : state :=
  match einfos s !! ei with
  | Some i => set_einfos (<[ei := ErrInfo (err i) m (ei_prgname i) (want_msg i)]>) s
  | None => s
  end.

Definition set_ei_prgname (ei : addr) (pn : ptr) (s : state) : state :=
  match einfos s !! ei with
  | Some i => set_einfos (<[ei := ErrInfo (err i) (msg i) pn (want_msg i)]>) s
  | None => s
  end.

(** The state of [diev] once the message [str] and the program name [pn]
    are built in the scope [P] and stored in the error info [ei]. *)
Definition with_msg (e : Z) (ei : addr) (i : errinfo) (P : addr) (q : option addr)
    (cs : list addr) (str : string) (s : state) : state :=
  set_einfos (<[ei := ErrInfo e (Heap (S (next_addr s))) (ei_prgname i) true]>)
    (printed P q cs str (raised e (Some ei) P s)).

Definition messaged (e : Z) (ei : addr) (i : errinfo) (P : addr) (q : option addr)
    (cs : list addr) (str pn : string) (s : state) : state :=
  set_einfos (<[ei := ErrInfo e (Heap (S (next_addr s))) (Heap (S (S (S (next_addr s))))) true]>)
    (printed P q (next_addr s :: cs) pn (with_msg e ei i P q cs str s)).

(** What the handler [h] finds when a raise from [s] reaches it in [s']:
    the parent [P] of its scope is current, the scope and everything below
    it is gone, the cleanup calls made are the actions of [F], in order, and
    the descriptors closed are those the actions of [F] close. *)
Definition landed (s s' : state) (h : errhandler) (P : addr) (F : forest) : Prop :=
  current_reslist s' = Some P /\
  current_errh s' = Some h /\
  (forall a, a ∈ eh_rl h :: addrs F -> nodes s' !! a = None) /\
  calls (trace s') = calls (trace s) ++ actions F /\
  closes (trace s') = closes (trace s) ++ closed (actions F).

(** After [reslist_push_new] below the scope [c]. *)
Definition pushed (c : addr) (p : option addr) (cs : list addr) (s : state) : state :=
  set_current_reslist (Some (next_addr s))
    (set_nodes (fun h => <[c := RES_RESLIST p (next_addr s :: cs)]>
                          (<[next_addr s := RES_RESLIST (Some c) []]> h))
       (bump_malloc true s)).

(** After a successful system call that opened descriptor number [i]. *)
Definition opened (ev : Z -> event) (i : nat) (s : state) : state :=
  log (ev (Z.of_nat i)) (set_fdtable (fun t => mark_open t i) (bump_sys s)).

(** After [xopen] or [xdup] in the scope [c], with the new descriptor [i]. *)
Definition acquired (c : addr) (p : option addr) (cs : list addr) (ev : Z -> event)
    (i : nat) (s : state) : state :=
  set_nodes (<[next_addr s := RES_CLEANUP (Some fn_fd_cleanup) (IntPtr (Z.of_nat i))]>)
    (opened ev i (registered c p cs s)).

(** The contents of the scope of a descriptor handle: the record that closes
    the duplicate [newfd] and the record that frees the handle [m]. *)
Definition fdh_forest (r1 m r2 : addr) (newfd : Z) : forest :=
  FCleanup r2 (Some fn_fd_cleanup) (IntPtr newfd)
    (FCleanup r1 (Some fn_free) (Heap m) FNil).

(** The actions an item brings with it. *)
Definition item_actions (x : item) : list (cleanupfn * ptr) :=
  match x with
  | ICleanup _ (Some fn) d => [(fn, d)]
  | _ => []
  end.

(** After [xpipe] in the scope [c], with the new descriptors [r] and [w]. *)
Definition piped (c : addr) (p : option addr) (cs : list addr) (r w : nat)
    (s : state) : state :=
  set_nodes (fun h =>
      <[S (next_addr s) := RES_CLEANUP (Some fn_fd_cleanup) (IntPtr (Z.of_nat w))]>
        (<[next_addr s := RES_CLEANUP (Some fn_fd_cleanup) (IntPtr (Z.of_nat r))]> h))
    (log (EvPipe (Z.of_nat r) (Z.of_nat w))
       (set_fdtable (fun t => mark_open (mark_open t r) w)
          (bump_sys (registered c p (next_addr s :: cs) (registered c p cs s))))).

(** ** Trees that own descriptors *)

(** The scope [rl] holds the tree [F], its parent is a live scope outside
    the tree, and every action of [F] can run in [s]. *)
Definition tree_ok (s : state) (rl : addr) (pp : option addr) (F : forest) : Prop :=
  scope_at (nodes s) rl pp F /\
  parent_ok (nodes s) rl pp F /\
  actions_safe (actions F) (mem s) (fdtable s).

(** The actions of [F1] are those of [F] with one more, which closes [fd]. *)
Definition adds_close (F F1 : forest) (fd : Z) : Prop :=
  exists l1 l2, actions F = l1 ++ l2 /\
                actions F1 = l1 ++ (fn_fd_cleanup, IntPtr fd) :: l2.

(** ** Helpers on sizes: [nextpow2sz] and [iovec_sum]

    [size_t] has [sizeof_sz] bytes; arithmetic on it wraps around. *)
Definition size_wrap (sizeof_sz : Z) (z : Z) : Z := z mod 2 ^ (8 * sizeof_sz).

(** [nextpow2sz]; the last shift is under [if (sizeof (sz) == 8)]. *)
Definition nextpow2sz_on (sizeof_sz : Z) (sz : Z) : Z :=
  let sz := size_wrap sizeof_sz (sz - 1) in
  let sz := Z.lor sz (Z.shiftr sz 1) in
  let sz := Z.lor sz (Z.shiftr sz 2) in
  let sz := Z.lor sz (Z.shiftr sz 4) in
  let sz := Z.lor sz (Z.shiftr sz 8) in
  let sz := Z.lor sz (Z.shiftr sz 16) in
  let sz := if sizeof_sz =? 8 then Z.lor sz (Z.shiftr sz 32) else sz in
  size_wrap sizeof_sz (1 + sz).

(** On the platform of the rest of this model [size_t] has eight bytes. *)
Definition nextpow2sz (sz : Z) : Z := nextpow2sz_on 8 sz.

(** [iovec_sum]: the [iov_len] fields of the first [niovec] elements of the
    array added up in a [size_t]; the array is the list of its [iov_len]
    fields, and reading past its end is undefined behaviour ([None]). *)
Fixpoint iovec_sum_from (iov : list Z) (todo : nat) (total : Z) : option Z :=
  match todo with
  | O => Some total
  | S todo' =>
      match iov with
      | [] => None
      | len :: iov' => iovec_sum_from iov' todo' (size_wrap 8 (total + len))
      end
  end.

Definition iovec_sum (iov : list Z) (niovec : nat) : option Z :=
  iovec_sum_from iov niovec 0.

(** ** Sample states

    [main] from its first statement on: [sample_boot] is where it reaches
    [reslist_push_new]; in [sample_scope] the scope [top_rl] is pushed and
    holds one block of eight bytes. *)
Definition sample_boot : state := boot always_ok never_fails.

Definition sample_scope : state :=
  state_of ((reslist_push_new ;;; xalloc 8) sample_boot) sample_boot.

(** ** Clients of [set_prgname] *)

(** A caller that sets the program name to each element of [l] in turn. *)
Fixpoint set_prgnames (l : list ptr) : M unit :=
  match l with
  | [] => ret tt
  | p :: l' => set_prgname p ;;; set_prgnames l'
  end.

(** The program name once the actions [l] have run from the name [cur]. *)
Fixpoint prgname_after (l : list (cleanupfn * ptr)) (cur : ptr) : ptr :=
  match l with
  | [] => cur
  | (fn_cleanup_prgname, d) :: l' => prgname_after l' d
  | _ :: l' => prgname_after l' cur
  end.

(** After [set_prgname q] in the scope [c]. *)
Definition renamed (c : addr) (p : option addr) (cs : list addr) (q : ptr)
    (s : state) : state :=
  set_prgname_var q
    (set_nodes (<[next_addr s := RES_CLEANUP (Some fn_cleanup_prgname) (prgname s)]>)
       (registered c p cs s)).

(** [sample_guarded]: [catch_error] called in [sample_boot] with the error
    info of [main] has pushed its scope and installed its handler; the body
    is about to run. *)
Definition sample_guarded : state :=
  install 1 (Some 0%nat) (pushed 0 None [] sample_boot).

Definition sample_handler : errhandler := ErrHandler 0 1 (Some 0%nat).

(** A raise is under way with a program name too long to be copied: the
    handler [h], whose scope hangs below the live scope [P], wants a message
    in the error info [ei]; the program name is [pn], longer than [INT_MAX]
    characters; [malloc] never fails. *)
Definition name_too_long (h : errhandler) (P ei : addr) (pn : string) (s : state) : Prop :=
  heap_fresh s /\
  current_errh s = Some h /\
  eh_ei h = Some ei /\
  eh_rl h <> P /\
  (exists cs, nodes s !! eh_rl h = Some (RES_RESLIST (Some P) cs)) /\
  (exists q cs, nodes s !! P = Some (RES_RESLIST q cs)) /\
  (exists i, einfos s !! ei = Some i /\ want_msg i = true) /\
  deref_str (mem s) (prgname s) = Some pn /\
  ~ fits pn /\
  (forall k, malloc_ok s k = true).

(** A text of [INT_MAX + 1] characters, and [sample_guarded] with that text
    as the program name. *)
Definition long_name : string := repeat_char (Z.to_nat (INT_MAX + 1)) "a".

Definition sample_long : state := set_prgname_var (Static long_name) sample_guarded.

(** ** Clients that register and commit cleanup records *)

(** One step of such a client: [cleanup_allocate], or [cleanup_commit] on
    the record registered as number [i], counting from [0]. *)
Inductive rop :=
  | RRegister
  | RCommit (i : nat) (fn : cleanupfn) (d : ptr).

(** The client; [recs] are the records it holds, oldest first.  A commit to
    a record it does not hold is skipped. *)
Fixpoint run_rops (ops : list rop) (recs : list addr) : M (list addr) :=
  match ops with
  | [] => ret recs
  | RRegister :: ops' =>
      cl <- cleanup_allocate ;;
      run_rops ops' (recs ++ [cl])
  | RCommit i fn d :: ops' =>
      match recs !! i with
      | Some cl => cleanup_commit cl fn d ;;; run_rops ops' recs
      | None => run_rops ops' recs
      end
  end.

(** What the records hold after the steps, oldest first: the action last
    committed to each, if any. *)
Fixpoint armed (ops : list rop) (st : list (option (cleanupfn * ptr)))
    : list (option (cleanupfn * ptr)) :=
  match ops with
  | [] => st
  | RRegister :: ops' => armed ops' (st ++ [None])
  | RCommit i fn d :: ops' => armed ops' (<[i := Some (fn, d)]> st)
  end.

(** The records newest first, each with the action it holds; a record that
    was never armed gives no call. *)
Definition expected_calls (ops : list rop) : list (cleanupfn * ptr) :=
  omap id (reverse (armed ops [])).

(** The forest [F] with the records [recs] linked in front of it, the
    newest first. *)
Fixpoint with_records (recs : list addr) (st : list (option (cleanupfn * ptr)))
    (F : forest) : forest :=
  match recs, st with
  | a :: recs', o :: st' =>
      with_records recs' st'
        match o with
        | Some (fn, d) => FCleanup a (Some fn) d F
        | None => FCleanup a None Null F
        end
  | _, _ => F
  end.

(** After [fdh_dup fd] in the scope [c]: the scope of the handle is at
    [next_addr s], the record and the block of the handle follow, then the
    record of the duplicate. *)
Definition duplicated (c : addr) (p : option addr) (cs : list addr) (fd : Z)
    (s : state) : state :=
  let rl := next_addr s in
  let m := S (S rl) in
  let i := lowest_free (fdtable s) (Z.to_nat fd) in
  set_current_reslist (Some c)
    (set_mem (<[m := Block sizeof_fdh (PFdh (Some rl) (Some (Z.of_nat i)))]>)
       (acquired rl (Some c) [S rl] (EvDup fd) i
          (set_mem (<[m := Block sizeof_fdh (PFdh (Some rl) None)]>)
             (allocated rl (Some c) [] sizeof_fdh (pushed c p cs s))))).

(** * Properties *)

(** ** The monad *)

Lemma bind_ret_l {A B} (a : A) (k : A -> M B) s : bind (ret a) k s = k a s.
Proof. reflexivity. Qed.

Lemma bind_assoc {A B C} (m : M A) (k : A -> M B) (k' : B -> M C) s :
  bind (bind m k) k' s = bind m (fun a => bind (k a) k') s.
Proof. unfold bind. destruct (m s); reflexivity. Qed.

Lemma bind_Ret {A B} (m : M A) (k : A -> M B) s a s' :
  m s = Ret a s' -> bind m k s = k a s'.
Proof. unfold bind. intros ->. reflexivity. Qed.

Lemma bind_ext {A B} (m : M A) (k k' : A -> M B) s :
  (forall a s', k a s' = k' a s') -> bind m k s = bind m k' s.
Proof. intros H. unfold bind. destruct (m s); auto. Qed.

Lemma bind_ext_Ret {A B} (m : M A) (k k' : A -> M B) s :
  (forall a s', m s = Ret a s' -> k a s' = k' a s') -> bind m k s = bind m k' s.
Proof. intros H. unfold bind. destruct (m s); auto. Qed.

Lemma bind_cong_l {A B} (m m' : M A) (k : A -> M B) s :
  m s = m' s -> bind m k s = bind m' k s.
Proof. unfold bind. by intros ->. Qed.

Lemma bind_modify {B} f (k : unit -> M B) s : bind (modify f) k s = k tt (f s).
Proof. reflexivity. Qed.

Lemma set_nodes_set_nodes f g s :
  set_nodes f (set_nodes g s) = set_nodes (fun h => f (g h)) s.
Proof. reflexivity. Qed.

(** ** Cleanup actions never touch the nodes *)

Lemma call_cleanup_set_nodes g fn d s :
  call_cleanup fn d (set_nodes g s) = lift_nodes g (call_cleanup fn d s).
Proof.
  destruct fn, d; cbn; try reflexivity.
  - destruct (mem s !! a); reflexivity.
  - unfold bind, close; cbn. destruct (fd_is_open (fdtable s) z); cbn; reflexivity.
Qed.

Lemma call_cleanup_nodes fn d s a s' :
  call_cleanup fn d s = Ret a s' -> nodes s' = nodes s.
Proof.
  destruct fn, d; cbn; try discriminate; try (intros [= <- <-]; reflexivity).
  - destruct (mem s !! a0); [intros [= <- <-]; reflexivity | discriminate].
  - unfold bind, close; cbn. destruct (fd_is_open (fdtable s) z); cbn.
    + intros [= <- <-]; reflexivity.
    + discriminate.
Qed.

Lemma call_cleanup_no_jump fn d s w s' : call_cleanup fn d s <> Jump w s'.
Proof.
  destruct fn, d; cbn; try discriminate.
  - destruct (mem s !! a); discriminate.
  - unfold bind, close; cbn. destruct (fd_is_open (fdtable s) z); cbn; discriminate.
Qed.

Lemma run_actions_no_jump l : forall s w s', run_actions l s <> Jump w s'.
Proof.
  induction l as [|[fn d] l IH]; intros s w s'; [discriminate|].
  cbn [run_actions]. unfold bind.
  destruct (call_cleanup fn d s) eqn:E; try discriminate; [apply IH|].
  by apply call_cleanup_no_jump in E.
Qed.

Lemma run_actions_set_nodes g l : forall s,
  run_actions l (set_nodes g s) = lift_nodes g (run_actions l s).
Proof.
  induction l as [|[fn d] l IH]; intros s; [reflexivity|].
  cbn [run_actions]. unfold bind. rewrite call_cleanup_set_nodes.
  destruct (call_cleanup fn d s); cbn; auto.
Qed.

(** ** Forests and the heap *)

Lemma roots_addrs f a : a ∈ roots f -> a ∈ addrs f.
Proof.
  induction f as [|b fn d r IH|b sub _ r IH]; cbn; [done| |].
  - rewrite !elem_of_cons. intros [->|H]; auto.
  - rewrite !elem_of_cons, elem_of_app. intros [->|H]; auto.
Qed.

Lemma scopes_addrs f a : a ∈ scopes f -> a ∈ addrs f.
Proof.
  induction f as [|b fn d r IH|b sub IHs r IH]; cbn; [done|..].
  - rewrite elem_of_cons. auto.
  - rewrite !elem_of_cons, !elem_of_app. intros [->|[H|H]]; auto.
Qed.

Lemma repr_frame h h' f : forall owner,
  (forall a, a ∈ addrs f -> h' !! a = h !! a) ->
  repr h owner f -> repr h' owner f.
Proof.
  induction f as [|b fn d r IH|b sub IHs r IH]; intros owner Hfr; cbn; [done|..].
  - intros [Hb Hr]. split.
    + rewrite Hfr; [done|]. cbn. apply elem_of_cons; auto.
    + apply IH; [|done]. intros a Ha. apply Hfr. cbn. apply elem_of_cons; auto.
  - intros (Hb & Hs & Hr). split; [|split].
    + rewrite Hfr; [done|]. cbn. apply elem_of_cons; auto.
    + apply IHs; [|done]. intros a Ha. apply Hfr. cbn.
      rewrite elem_of_cons, elem_of_app. auto.
    + apply IH; [|done]. intros a Ha. apply Hfr. cbn.
      rewrite elem_of_cons, elem_of_app. auto.
Qed.

Lemma repr_lookup h f : forall owner a,
  repr h owner f -> a ∈ addrs f -> is_Some (h !! a).
Proof.
  induction f as [|b fn d r IH|b sub IHs r IH]; intros owner a; cbn.
  - intros _ H. by apply elem_of_nil in H.
  - intros [Hb Hr]. rewrite elem_of_cons. intros [->|H]; eauto.
  - intros (Hb & Hs & Hr). rewrite elem_of_cons, elem_of_app.
    intros [->|[H|H]]; eauto.
Qed.

Lemma lookup_dels l h x :
  dels l h !! x = if decide (x ∈ l) then None else h !! x.
Proof.
  unfold dels. induction l as [|a l IH]; cbn.
  - rewrite decide_False; [done | apply not_elem_of_nil].
  - rewrite lookup_delete, IH. destruct (decide (a = x)) as [->|Hne].
    + rewrite decide_True; [done | left].
    + destruct (decide (x ∈ l)) as [Hl|Hl].
      * rewrite decide_True; [done | by right].
      * rewrite decide_False; [done|]. rewrite elem_of_cons. intros [->|?]; done.
Qed.

Lemma dels_app l1 l2 h : dels (l1 ++ l2) h = dels l1 (dels l2 h).
Proof. unfold dels. apply foldr_app. Qed.

Lemma length_le_size (h : gmap nat node) l :
  NoDup l -> (forall a, a ∈ l -> is_Some (h !! a)) -> (length l <= size h)%nat.
Proof.
  revert h. induction l as [|a l IH]; intros h Hnd Hin; cbn; [lia|].
  apply NoDup_cons in Hnd as [Ha Hnd].
  assert (is_Some (h !! a)) as Hsa by (apply Hin, elem_of_cons; auto).
  specialize (IH (delete a h) Hnd).
  rewrite map_size_delete_Some in IH by done.
  assert (size h <> 0)%nat.
  { destruct Hsa as [v Hv]. apply map_size_non_empty_iff. intros ->.
    by rewrite lookup_empty in Hv. }
  enough (length l <= pred (size h))%nat by lia.
  apply IH. intros b Hb. rewrite lookup_delete_ne; [|intros ->; done].
  apply Hin, elem_of_cons; auto.
Qed.

(** ** Stepping through the accessors *)

Lemma get_contents_eq s rl p cs :
  nodes s !! rl = Some (RES_RESLIST p cs) -> get_contents rl s = Ret cs s.
Proof. unfold get_contents. by intros ->. Qed.

Lemma get_parent_eq s rl p cs :
  nodes s !! rl = Some (RES_RESLIST p cs) -> get_parent rl s = Ret p s.
Proof. unfold get_parent. by intros ->. Qed.

Lemma set_parent_eq s rl p cs q :
  nodes s !! rl = Some (RES_RESLIST p cs) ->
  set_parent rl q s = Ret tt (set_nodes (<[rl := RES_RESLIST q cs]>) s).
Proof. unfold set_parent. by intros ->. Qed.

Lemma LIST_REMOVE_eq s o p cs e :
  nodes s !! o = Some (RES_RESLIST p cs) ->
  LIST_REMOVE o e s = Ret tt (set_nodes (<[o := RES_RESLIST p (unlink e cs)]>) s).
Proof. unfold LIST_REMOVE. by intros ->. Qed.

Lemma LIST_INSERT_HEAD_eq s o p cs e :
  nodes s !! o = Some (RES_RESLIST p cs) ->
  LIST_INSERT_HEAD (Some o) e s = Ret tt (set_nodes (<[o := RES_RESLIST p (e :: cs)]>) s).
Proof. unfold LIST_INSERT_HEAD. by intros ->. Qed.

Lemma load_node_eq s a n : nodes s !! a = Some n -> load_node a s = Ret n s.
Proof. unfold load_node. by intros ->. Qed.

Lemma unlink_head a l : unlink a (a :: l) = l.
Proof. cbn. by rewrite decide_True. Qed.

Lemma unlink_notin a l : a ∉ l -> unlink a l = l.
Proof.
  induction l as [|b l IH]; [done|]. rewrite not_elem_of_cons. intros [Hab Hl].
  cbn. rewrite decide_False by done. by rewrite IH.
Qed.

Lemma destroy_contents_S n rl :
  destroy_contents (S n) rl =
  (cs <- get_contents rl ;;
   match cs with
   | [] => ret tt
   | r :: _ =>
       LIST_REMOVE rl r ;;;
       t <- load_node r ;;
       match t with
       | RES_RESLIST _ _ => set_parent r None ;;; reslist_destroy_fuel n r
       | RES_CLEANUP fn fndata =>
           match fn with
           | Some f => call_cleanup f fndata
           | None => ret tt
           end ;;;
           free_node r
       end ;;;
       destroy_contents n rl
   end).
Proof. reflexivity. Qed.

Lemma reslist_destroy_fuel_S n rl :
  reslist_destroy_fuel (S n) rl =
  (p <- get_parent rl ;;
   match p with
   | Some p => LIST_REMOVE p rl
   | None => ret tt
   end ;;;
   destroy_contents n rl ;;;
   free_node rl).
Proof. reflexivity. Qed.

(** The nodes left when the forest [f] below [rl] is gone. *)
Lemma swept_eq (h : gmap nat node) rl x y a l :
  rl <> a ->
  <[rl := x]> (dels l (delete a (<[rl := y]> h))) = <[rl := x]> (dels (a :: l) h).
Proof.
  intros Hne. apply map_eq. intros i.
  rewrite !lookup_insert. case_decide; [done|].
  cbn [dels foldr]. rewrite lookup_delete, !lookup_dels.
  fold (dels l h). rewrite lookup_dels.
  case_decide; case_decide; try done.
  - subst. by rewrite lookup_delete_eq.
  - rewrite lookup_delete_ne, lookup_insert_ne by done. done.
Qed.

Lemma swept_scope_eq (h : gmap nat node) rl a x y z u ls lr :
  rl <> a ->
  <[rl := x]> (dels lr (delete a (<[a := y]> (dels ls (<[a := z]> (<[rl := u]> h))))))
  = <[rl := x]> (dels (a :: ls ++ lr) h).
Proof.
  intros Hne. apply map_eq. intros i.
  rewrite !lookup_insert. case_decide; [done|].
  change (dels (a :: ls ++ lr) h) with (delete a (dels (ls ++ lr) h)).
  rewrite dels_app, !lookup_dels, !lookup_delete.
  destruct (decide (a = i)) as [->|Hai].
  - by case_decide.
  - rewrite !lookup_insert, !lookup_dels, !lookup_insert.
    repeat case_decide; done.
Qed.

Lemma bind_run_actions_set_nodes {B} K l (k : unit -> M B) s :
  bind (run_actions l) k (set_nodes K s) =
  bind (run_actions l) (fun x s' => k x (set_nodes K s')) s.
Proof.
  unfold bind. rewrite run_actions_set_nodes.
  destruct (run_actions l s) eqn:E; cbn; try reflexivity.
  by apply run_actions_no_jump in E.
Qed.

Lemma run_actions_app l1 l2 s :
  run_actions (l1 ++ l2) s = (run_actions l1 ;;; run_actions l2) s.
Proof.
  revert s. induction l1 as [|[fn d] l1 IH]; intros s; [reflexivity|].
  cbn [app run_actions]. rewrite bind_assoc. apply bind_ext. intros; apply IH.
Qed.

Lemma run_actions_nodes l : forall s a s',
  run_actions l s = Ret a s' -> nodes s' = nodes s.
Proof.
  induction l as [|[fn d] l IH]; intros s a s'; cbn [run_actions].
  - by intros [= <- <-].
  - unfold bind. destruct (call_cleanup fn d s) as [[] s1| | | | |] eqn:E; try discriminate.
    intros H. apply IH in H. rewrite H. eapply call_cleanup_nodes; eauto.
Qed.

Lemma destroy_contents_forest f : forall n rl pp s,
  scope_at (nodes s) rl pp f ->
  (2 * length (addrs f) + 1 <= n)%nat ->
  destroy_contents n rl s =
  (run_actions (actions f) ;;;
   modify (set_nodes (fun h => <[rl := RES_RESLIST pp []]> (dels (addrs f) h)))) s.
Proof.
  induction f as [|a fn d r IH|a sub IHs r IH]; intros n rl pp s (Hrl & Hrep & Hnd) Hn.
  - destruct n as [|n]; [cbn in Hn; lia|]. rewrite destroy_contents_S.
    rewrite (bind_Ret _ _ _ _ _ (get_contents_eq _ _ _ _ Hrl)). cbn.
    unfold ret, modify, bind. cbn. f_equal.
    destruct s; unfold set_nodes; cbn in *. f_equal. by rewrite insert_id.
  - destruct n as [|n]; [cbn in Hn; lia|]. rewrite destroy_contents_S.
    cbn in Hrl, Hrep, Hnd, Hn. destruct Hrep as [Ha Hrep].
    apply NoDup_cons in Hnd as [Hrl_notin Hnd].
    apply NoDup_cons in Hnd as [Ha_notin Hnd].
    rewrite not_elem_of_cons in Hrl_notin. destruct Hrl_notin as [Hne Hrl_notin].
    rewrite (bind_Ret _ _ _ _ _ (get_contents_eq _ _ _ _ Hrl)).
    rewrite (bind_Ret _ _ _ _ _ (LIST_REMOVE_eq _ _ _ _ a Hrl)).
    rewrite unlink_head.
    erewrite bind_Ret; cycle 1.
    { apply load_node_eq. cbn. rewrite lookup_insert_ne by done. exact Ha. }
    cbv beta iota. rewrite bind_assoc.
    assert (forall s0 : state, nodes s0 = nodes s ->
      destroy_contents n rl
        (set_nodes (delete a) (set_nodes (<[rl:=RES_RESLIST pp (roots r)]>) s0)) =
      (run_actions (actions r) ;;;
       modify (set_nodes (fun h => <[rl := RES_RESLIST pp []]> (dels (a :: addrs r) h)))) s0)
      as Hrest.
    { intros s0 Hs0. rewrite (IH n rl pp); cycle 1.
      - split; [|split].
        + cbn. rewrite lookup_delete_ne, lookup_insert_eq by done. done.
        + eapply repr_frame; [|exact Hrep]. intros b Hb. cbn.
          rewrite lookup_delete_ne, lookup_insert_ne, Hs0; [done| |];
            intros ->; done.
        + apply NoDup_cons; done.
      - lia.
      - unfold bind.
        change (set_nodes (delete a) (set_nodes (<[rl:=RES_RESLIST pp (roots r)]>) s0))
          with (set_nodes (fun h => delete a (<[rl:=RES_RESLIST pp (roots r)]> h)) s0).
        rewrite run_actions_set_nodes.
        destruct (run_actions (actions r) s0) as [[] s1|w s1|why| | |] eqn:E;
          cbn; try reflexivity.
        + unfold modify. f_equal. unfold set_nodes; cbn. f_equal.
          apply swept_eq. done.
        + by apply run_actions_no_jump in E. }
    destruct fn as [fn|]; cbn [actions run_actions].
    + unfold bind at 1. rewrite call_cleanup_set_nodes.
      rewrite bind_assoc. unfold bind at 2.
      destruct (call_cleanup fn d s) as [[] s1|w s1|why| | |] eqn:Hcall;
        cbn; try reflexivity.
      * unfold free_node, modify, bind at 1.
        apply Hrest. eapply call_cleanup_nodes; eauto.
      * by apply call_cleanup_no_jump in Hcall.
    + unfold ret at 1, free_node, modify, bind at 1 2.
      by apply Hrest.
  - destruct n as [|n]; [cbn in Hn; lia|]. rewrite destroy_contents_S.
    cbn in Hrl, Hrep, Hnd, Hn. destruct Hrep as (Ha & Hsub & Hrep).
    apply NoDup_cons in Hnd as [Hrl_notin Hnd].
    apply NoDup_cons in Hnd as [Ha_notin Hnd].
    apply NoDup_app in Hnd as (Hnds & Hdisj & Hndr).
    rewrite not_elem_of_cons, not_elem_of_app in Hrl_notin.
    destruct Hrl_notin as (Hne & Hrl_s & Hrl_r).
    rewrite not_elem_of_app in Ha_notin. destruct Ha_notin as [Ha_s Ha_r].
    rewrite (bind_Ret _ _ _ _ _ (get_contents_eq _ _ _ _ Hrl)).
    rewrite (bind_Ret _ _ _ _ _ (LIST_REMOVE_eq _ _ _ _ a Hrl)).
    rewrite unlink_head.
    erewrite bind_Ret; cycle 1.
    { apply load_node_eq. cbn. rewrite lookup_insert_ne by done. exact Ha. }
    cbv beta iota. rewrite bind_assoc.
    erewrite bind_Ret; cycle 1.
    { eapply set_parent_eq. cbn. rewrite lookup_insert_ne by done. exact Ha. }
    destruct n as [|n]; [lia|]. rewrite reslist_destroy_fuel_S.
    rewrite bind_assoc.
    erewrite bind_Ret; cycle 1.
    { eapply get_parent_eq. cbn. apply lookup_insert_eq. }
    rewrite bind_assoc, bind_ret_l, bind_assoc.
    erewrite bind_cong_l; cycle 1.
    { apply (IHs n a None).
      - split; [|split].
        + cbn. apply lookup_insert_eq.
        + eapply repr_frame; [|exact Hsub]. intros b Hb. cbn.
          rewrite !lookup_insert_ne; [done| |]; intros ->; done.
        + apply NoDup_cons; done.
      - rewrite length_app in Hn. lia. }
    rewrite bind_assoc, !set_nodes_set_nodes, bind_run_actions_set_nodes.
    cbn [actions].
    rewrite (bind_cong_l _ _ _ _ (run_actions_app _ _ _)), bind_assoc.
    apply bind_ext_Ret. intros [] s1 E. apply run_actions_nodes in E.
    rewrite !bind_modify. unfold free_node. rewrite bind_modify.
    rewrite !set_nodes_set_nodes.
    rewrite (IH (S n) rl pp); cycle 1.
    { split; [|split].
      - cbn. rewrite lookup_delete_ne, lookup_insert_ne by done.
        rewrite lookup_dels, decide_False by done.
        rewrite lookup_insert_ne, lookup_insert_eq by done. done.
      - eapply repr_frame; [|exact Hrep]. intros b Hb. cbn.
        assert (b <> a) by (intros ->; done).
        assert (b <> rl) by (intros ->; done).
        rewrite lookup_delete_ne, lookup_insert_ne by done.
        rewrite lookup_dels, decide_False by (intros ?; eapply Hdisj; eauto).
        rewrite !lookup_insert_ne by done. by rewrite E.
      - apply NoDup_cons; done. }
    { rewrite length_app in Hn. lia. }
    rewrite bind_run_actions_set_nodes. apply bind_ext. intros [] s2.
    unfold modify. f_equal. unfold set_nodes; cbn. f_equal.
    apply swept_scope_eq. done.
Qed.

(** The scope [rl] with its parent: what [reslist_destroy] comes to. *)
Lemma reslist_destroy_fuel_forest n rl pp f s :
  scope_at (nodes s) rl pp f ->
  parent_ok (nodes s) rl pp f ->
  (2 * length (addrs f) + 2 <= n)%nat ->
  reslist_destroy_fuel n rl s =
  (run_actions (actions f) ;;; modify (set_nodes (swept rl pp f))) s.
Proof.
  intros (Hrl & Hrep & Hnd) Hpar Hn.
  destruct n as [|n]; [lia|]. rewrite reslist_destroy_fuel_S.
  rewrite (bind_Ret _ _ _ _ _ (get_parent_eq _ _ _ _ Hrl)).
  assert (exists s0, (match pp with Some p => LIST_REMOVE p rl | None => ret tt end) s
                     = Ret tt s0 /\ s0 = set_nodes (detach rl pp) s) as (s0 & Hs0 & Es0).
  { destruct pp as [p|]; cbn.
    - destruct Hpar as (_ & q & cs & Hp). eexists; split.
      + eapply LIST_REMOVE_eq; eauto.
      + unfold set_nodes, detach. by rewrite Hp.
    - eexists; split; [reflexivity|]. destruct s; reflexivity. }
  rewrite (bind_Ret _ _ _ _ _ Hs0). subst s0.
  assert (forall b, b ∈ rl :: addrs f -> detach rl pp (nodes s) !! b = nodes s !! b) as Hfr.
  { intros b Hb. destruct pp as [p|]; cbn; [|done].
    destruct Hpar as (Hp & q & cs & Hq). rewrite Hq.
    rewrite lookup_insert_ne; [done|]. intros ->. done. }
  erewrite bind_cong_l; cycle 1.
  { apply (destroy_contents_forest f n rl pp).
    - split; [|split]; [| |done].
      + cbn. rewrite Hfr by left. done.
      + eapply repr_frame; [|exact Hrep]. intros b Hb. cbn. apply Hfr. by right.
    - lia. }
  rewrite bind_assoc, bind_run_actions_set_nodes.
  apply bind_ext. intros [] s1. rewrite bind_modify. unfold free_node, modify.
  f_equal. unfold set_nodes; cbn. f_equal. unfold swept.
  apply map_eq. intros i. cbn [dels foldr]. fold (dels (addrs f) (detach rl pp (nodes s1))).
  rewrite !lookup_delete. case_decide; [done|].
  rewrite lookup_insert_ne by done. done.
Qed.

Lemma reslist_destroy_forest rl pp f s :
  scope_at (nodes s) rl pp f ->
  parent_ok (nodes s) rl pp f ->
  reslist_destroy rl s =
  (run_actions (actions f) ;;; modify (set_nodes (swept rl pp f))) s.
Proof.
  intros Hsc Hpar. unfold reslist_destroy, get. unfold bind at 1.
  apply reslist_destroy_fuel_forest; [done..|].
  unfold destroy_bound. destruct Hsc as (Hrl & Hrep & Hnd).
  apply NoDup_cons in Hnd as [_ Hnd].
  pose proof (length_le_size (nodes s) (addrs f) Hnd) as Hle.
  assert (length (addrs f) <= size (nodes s))%nat; [|lia].
  apply Hle. intros a Ha. eapply repr_lookup; eauto.
Qed.

(** ** The handler discipline *)

Lemma quiet_keeps {A} (m : M A) oh : quiet m -> keeps oh m.
Proof.
  intros H s Hs. specialize (H s).
  destruct (m s) as [a s'|w s'|[]| | |]; try done. congruence.
Qed.

Lemma keeps_ret {A} oh (a : A) : keeps oh (ret a).
Proof. intros s Hs. exact Hs. Qed.

Lemma keeps_bind {A B} oh (m : M A) (k : A -> M B) :
  keeps oh m -> (forall a, keeps oh (k a)) -> keeps oh (bind m k).
Proof.
  intros Hm Hk s Hs. specialize (Hm s Hs). unfold bind.
  destruct (m s) as [a s'|w s'|[]| | |]; try done.
  apply Hk. done.
Qed.

Lemma keeps_get {B} oh (k : state -> M B) :
  (forall s0, current_errh s0 = oh -> keeps oh (k s0)) -> keeps oh (bind get k).
Proof. intros Hk s Hs. unfold bind, get. by apply Hk. Qed.

Lemma keeps_fault {A} oh : keeps oh (@fault A).
Proof. by intros s Hs. Qed.

Lemma keeps_diverge {A} oh : keeps oh (@diverge A).
Proof. by intros s Hs. Qed.

Lemma keeps_siglongjmp {A} h : keeps (Some h) (@siglongjmp A (eh_where h)).
Proof. intros s Hs. cbn. eauto. Qed.

Lemma keeps_abort_nohandler {A} : keeps None (@abort A NoHandler).
Proof. by intros s Hs. Qed.

(** Case analysis on the innermost scrutinee of the goal. *)
Ltac inner_case :=
  match goal with
  | |- context [match ?x with _ => _ end] =>
      lazymatch x with
      | context [match _ with _ => _ end] => fail
      | _ => destruct x eqn:?
      end
  end.
Ltac quiet_prim := intros s; repeat inner_case; cbn; try done.

Lemma quiet_modify f :
  (forall s, current_errh (f s) = current_errh s) -> quiet (modify f).
Proof. intros H s. apply H. Qed.

Lemma quiet_malloc sz : quiet (malloc sz).
Proof. unfold malloc. quiet_prim. Qed.

Lemma quiet_free p : quiet (free p).
Proof. unfold free. quiet_prim. Qed.

Lemma quiet_free_node a : quiet (free_node a).
Proof. by intros s. Qed.

Lemma quiet_get_contents rl : quiet (get_contents rl).
Proof. unfold get_contents. quiet_prim. Qed.

Lemma quiet_get_parent rl : quiet (get_parent rl).
Proof. unfold get_parent. quiet_prim. Qed.

Lemma quiet_set_parent rl p : quiet (set_parent rl p).
Proof. unfold set_parent. quiet_prim. Qed.

Lemma quiet_LIST_INSERT_HEAD o e : quiet (LIST_INSERT_HEAD o e).
Proof. unfold LIST_INSERT_HEAD. quiet_prim. Qed.

Lemma quiet_LIST_REMOVE o e : quiet (LIST_REMOVE o e).
Proof. unfold LIST_REMOVE. quiet_prim. Qed.

Lemma quiet_load_node a : quiet (load_node a).
Proof. unfold load_node. quiet_prim. Qed.

Lemma quiet_cleanup_commit cl fn d : quiet (cleanup_commit cl fn d).
Proof. unfold cleanup_commit. quiet_prim. Qed.

Lemma quiet_memset_zero p sz : quiet (memset_zero p sz).
Proof. unfold memset_zero. quiet_prim. Qed.

Lemma quiet_store_fdh_rl p rl : quiet (store_fdh_rl p rl).
Proof. unfold store_fdh_rl. quiet_prim. Qed.

Lemma quiet_store_fdh_fd p fd : quiet (store_fdh_fd p fd).
Proof. unfold store_fdh_fd. quiet_prim. Qed.

Lemma quiet_close fd : quiet (close fd).
Proof. unfold close. quiet_prim. Qed.

Lemma quiet_sys_newfd from ev : quiet (sys_newfd from ev).
Proof. unfold sys_newfd. quiet_prim. Qed.

Lemma quiet_open p f m : quiet (open p f m).
Proof. apply quiet_sys_newfd. Qed.

Lemma quiet_fcntl_dupfd fd from : quiet (fcntl_dupfd fd from).
Proof.
  intros s. unfold fcntl_dupfd.
  destruct (fd_is_open (fdtable s) fd && (0 <=? from)); [apply quiet_sys_newfd | done].
Qed.

Lemma quiet_pipe2 : quiet pipe2.
Proof. unfold pipe2. quiet_prim. Qed.

Lemma quiet_vsnprintf_len fmt args : quiet (vsnprintf_len fmt args).
Proof. unfold vsnprintf_len. quiet_prim. Qed.

Lemma quiet_vsnprintf_buf b n fmt args : quiet (vsnprintf_buf b n fmt args).
Proof. unfold vsnprintf_buf. quiet_prim. Qed.

Lemma quiet_fd_cleanup arg : quiet (fd_cleanup arg).
Proof.
  intros s. unfold fd_cleanup. destruct arg; try done.
  unfold bind, close, get, abort, ret. repeat case_match; simplify_eq; done.
Qed.

Lemma quiet_call_cleanup fn d : quiet (call_cleanup fn d).
Proof.
  intros s. unfold call_cleanup. rewrite bind_modify.
  destruct fn.
  - apply (quiet_free d (log _ s)).
  - apply (quiet_fd_cleanup d (log _ s)).
  - done.
Qed.

Create HintDb keeps discriminated.
#[local] Hint Resolve keeps_ret keeps_fault keeps_diverge keeps_siglongjmp
  keeps_abort_nohandler : keeps.
#[local] Hint Extern 1 (keeps _ (modify _)) => (apply quiet_keeps, quiet_modify; reflexivity) : keeps.
#[local] Hint Extern 1 (keeps _ (malloc _)) => (apply quiet_keeps, quiet_malloc) : keeps.
#[local] Hint Extern 1 (keeps _ (free_node _)) => (apply quiet_keeps, quiet_free_node) : keeps.
#[local] Hint Extern 1 (keeps _ (get_contents _)) => (apply quiet_keeps, quiet_get_contents) : keeps.
#[local] Hint Extern 1 (keeps _ (get_parent _)) => (apply quiet_keeps, quiet_get_parent) : keeps.
#[local] Hint Extern 1 (keeps _ (set_parent _ _)) => (apply quiet_keeps, quiet_set_parent) : keeps.
#[local] Hint Extern 1 (keeps _ (LIST_INSERT_HEAD _ _)) => (apply quiet_keeps, quiet_LIST_INSERT_HEAD) : keeps.
#[local] Hint Extern 1 (keeps _ (LIST_REMOVE _ _)) => (apply quiet_keeps, quiet_LIST_REMOVE) : keeps.
#[local] Hint Extern 1 (keeps _ (load_node _)) => (apply quiet_keeps, quiet_load_node) : keeps.
#[local] Hint Extern 1 (keeps _ (cleanup_commit _ _ _)) => (apply quiet_keeps, quiet_cleanup_commit) : keeps.
#[local] Hint Extern 1 (keeps _ (cleanup_commit_close_fd _ _)) => (apply quiet_keeps, quiet_cleanup_commit) : keeps.
#[local] Hint Extern 1 (keeps _ (memset_zero _ _)) => (apply quiet_keeps, quiet_memset_zero) : keeps.
#[local] Hint Extern 1 (keeps _ (store_fdh_rl _ _)) => (apply quiet_keeps, quiet_store_fdh_rl) : keeps.
#[local] Hint Extern 1 (keeps _ (store_fdh_fd _ _)) => (apply quiet_keeps, quiet_store_fdh_fd) : keeps.
#[local] Hint Extern 1 (keeps _ (open _ _ _)) => (apply quiet_keeps, quiet_open) : keeps.
#[local] Hint Extern 1 (keeps _ (fcntl_dupfd _ _)) => (apply quiet_keeps, quiet_fcntl_dupfd) : keeps.
#[local] Hint Extern 1 (keeps _ pipe2) => (apply quiet_keeps, quiet_pipe2) : keeps.
#[local] Hint Extern 1 (keeps _ (vsnprintf_len _ _)) => (apply quiet_keeps, quiet_vsnprintf_len) : keeps.
#[local] Hint Extern 1 (keeps _ (vsnprintf_buf _ _ _ _)) => (apply quiet_keeps, quiet_vsnprintf_buf) : keeps.
#[local] Hint Extern 1 (keeps _ (call_cleanup _ _)) => (apply quiet_keeps, quiet_call_cleanup) : keeps.

(** One step of a proof of [keeps]: split a [bind], or case on a scrutinee. *)
Ltac keeps_step :=
  match goal with
  | |- keeps ?oh (bind get _) => apply keeps_get; intros ? ?; try subst oh
  | |- keeps _ (bind _ _) => apply keeps_bind; [|intros ?]
  | |- keeps _ (match ?x with _ => _ end) => destruct x eqn:?
  | |- keeps _ (if ?x then _ else _) => destruct x eqn:?
  | |- keeps _ (fun _ => _) =>
      solve [let s := fresh "s" in intros s ?; repeat inner_case; cbn; done]
  | |- keeps _ _ => solve [auto with keeps]
  end.
Ltac keeps_auto := repeat keeps_step.

Lemma keeps_destroy n : forall oh rl,
  keeps oh (reslist_destroy_fuel n rl) /\ keeps oh (destroy_contents n rl).
Proof.
  induction n as [|n IH]; intros oh rl.
  - split; apply keeps_diverge.
  - split.
    + rewrite reslist_destroy_fuel_S. keeps_auto. apply IH.
    + rewrite destroy_contents_S. keeps_auto; apply IH.
Qed.

Lemma keeps_reslist_destroy oh rl : keeps oh (reslist_destroy rl).
Proof. unfold reslist_destroy. keeps_auto. apply keeps_destroy. Qed.
#[local] Hint Resolve keeps_reslist_destroy : keeps.

Lemma keeps_die_oom {A} oh : keeps oh (@die_oom A).
Proof.
  unfold die_oom. keeps_auto.
Qed.
#[local] Hint Resolve keeps_die_oom : keeps.

Lemma keeps_reslist_push_new oh : keeps oh reslist_push_new.
Proof. unfold reslist_push_new. keeps_auto. Qed.
#[local] Hint Resolve keeps_reslist_push_new : keeps.

Lemma keeps_reslist_pop_nodestroy oh : keeps oh reslist_pop_nodestroy.
Proof. unfold reslist_pop_nodestroy. keeps_auto. Qed.

Lemma keeps_reslist_cleanup_local oh rl : keeps oh (reslist_cleanup_local rl).
Proof. unfold reslist_cleanup_local. keeps_auto. Qed.

Lemma keeps_cleanup_allocate oh : keeps oh cleanup_allocate.
Proof. unfold cleanup_allocate. keeps_auto. Qed.
#[local] Hint Resolve keeps_cleanup_allocate : keeps.

Lemma keeps_xalloc oh sz : keeps oh (xalloc sz).
Proof. unfold xalloc. keeps_auto. Qed.
#[local] Hint Resolve keeps_xalloc : keeps.

Lemma keeps_xcalloc oh sz : keeps oh (xcalloc sz).
Proof. unfold xcalloc. keeps_auto. Qed.

Lemma keeps_xavprintf_with oh die fmt args :
  (forall e f a, keeps oh (die e f a)) -> keeps oh (xavprintf_with die fmt args).
Proof. intros Hdie. unfold xavprintf_with. keeps_auto. Qed.

Lemma keeps_diev_fuel n : forall A oh e fmt args, keeps oh (diev_fuel n A e fmt args).
Proof.
  induction n as [|n IH]; intros A oh e fmt args; [apply keeps_diverge|].
  cbn [diev_fuel]. keeps_auto; apply keeps_xavprintf_with; intros; apply IH.
Qed.

Lemma keeps_diev {A} oh e fmt args : keeps oh (@diev A e fmt args).
Proof. apply keeps_diev_fuel. Qed.

Lemma keeps_die {A} oh e fmt args : keeps oh (@die A e fmt args).
Proof. apply keeps_diev_fuel. Qed.
#[local] Hint Resolve keeps_die : keeps.

Lemma keeps_xavprintf oh fmt args : keeps oh (xavprintf fmt args).
Proof. apply keeps_xavprintf_with. intros. apply keeps_die. Qed.
#[local] Hint Resolve keeps_xavprintf : keeps.

Lemma keeps_die_errno {A} oh fmt args : keeps oh (@die_errno A fmt args).
Proof. unfold die_errno. keeps_auto. Qed.
#[local] Hint Resolve keeps_die_errno : keeps.

Lemma keeps_xopen oh p f m : keeps oh (xopen p f m).
Proof. unfold xopen. keeps_auto. Qed.

Lemma keeps_xpipe oh : keeps oh xpipe.
Proof. unfold xpipe. keeps_auto. Qed.

Lemma keeps_xdup oh fd : keeps oh (xdup fd).
Proof. unfold xdup. keeps_auto. Qed.
#[local] Hint Resolve keeps_xdup : keeps.

Lemma keeps_fdh_dup oh fd : keeps oh (fdh_dup fd).
Proof. unfold fdh_dup. keeps_auto. apply keeps_reslist_pop_nodestroy. Qed.

Lemma keeps_fdh_destroy oh h : keeps oh (fdh_destroy h).
Proof.
  intros s Hs. unfold fdh_destroy. destruct h as [| |a|]; try done.
  destruct (mem s !! a) as [[sz [| | |[rl|] fd]]|]; try done.
  by apply keeps_reslist_destroy.
Qed.

Lemma keeps_set_prgname oh p : keeps oh (set_prgname p).
Proof. unfold set_prgname. keeps_auto. Qed.

(** [catch_error] keeps the discipline when its body does: the body runs
    under the new handler, and whatever jump leaves it is caught here. *)
Lemma keeps_catch_error oh fn ei :
  disciplined fn -> keeps oh (catch_error fn ei).
Proof.
  intros Hfn s Hs. unfold catch_error.
  pose proof (keeps_reslist_push_new oh s Hs) as Hpush.
  destruct (reslist_push_new s) as [rl s1|w s1|[]| | |]; try done.
  specialize (Hfn (Some (ErrHandler (next_where s1) rl ei))
                  (set_current_errh (Some (ErrHandler (next_where s1) rl ei)) (bump_where s1))
                  eq_refl).
  destruct (fn _) as [[] s2|w s2|[]| | |]; try done.
  destruct Hfn as (_ & h & [= <-] & ->). cbn.
  rewrite decide_True by done. done.
Qed.

Lemma keeps_xaprintf oh fmt args : keeps oh (xaprintf fmt args).
Proof. apply keeps_xavprintf. Qed.

Lemma keeps_xstrdup oh p : keeps oh (xstrdup p).
Proof. apply keeps_xavprintf. Qed.

#[local] Hint Resolve keeps_xaprintf keeps_xstrdup : keeps.
#[local] Hint Resolve keeps_reslist_pop_nodestroy keeps_reslist_cleanup_local
  keeps_xcalloc keeps_xopen keeps_xpipe keeps_fdh_dup keeps_fdh_destroy
  keeps_set_prgname keeps_diev : keeps.

Lemma disciplined_exec c : disciplined (exec c).
Proof.
  induction c; intros oh; cbn [exec];
    try (apply keeps_bind; [|intros; apply keeps_ret]);
    try solve [auto with keeps].
  - by apply keeps_bind.
  - by apply keeps_catch_error.
Qed.

Lemma heap_fresh_nodes s a : heap_fresh s -> (next_addr s <= a)%nat -> nodes s !! a = None.
Proof.
  intros [Hn _] Ha. destruct (nodes s !! a) eqn:E; [|done].
  apply Hn in E. lia.
Qed.

Lemma heap_fresh_mem s a : heap_fresh s -> (next_addr s <= a)%nat -> mem s !! a = None.
Proof.
  intros [_ Hm] Ha. destruct (mem s !! a) eqn:E; [|done].
  apply Hm in E. lia.
Qed.

(** ** Raising with and without a handler *)

(** C6.  A raise ([die_oom], [diev], [die]) with no handler installed is
    [abort()]: it neither returns nor unwinds.  With a handler installed the
    [abort()] of the [if (!current_errh)] test is never taken. *)
Theorem raise_needs_handler (A : Type) (s : state) (e : Z) (fmt : string) (args : list farg) :
  match current_errh s with
  | None =>
      @die_oom A s = Abort NoHandler /\
      @diev A e fmt args s = Abort NoHandler /\
      @die A e fmt args s = Abort NoHandler
  | Some _ =>
      @die_oom A s <> Abort NoHandler /\
      @diev A e fmt args s <> Abort NoHandler /\
      @die A e fmt args s <> Abort NoHandler
  end.
Proof.
  destruct (current_errh s) as [h|] eqn:Hh.
  - pose proof (@keeps_die_oom A _ s Hh) as H1.
    pose proof (@keeps_diev A _ e fmt args s Hh) as H2.
    repeat split; intros E.
    + rewrite E in H1. done.
    + rewrite E in H2. done.
    + unfold die in E. rewrite E in H2. done.
  - unfold die, diev, die_oom. cbn. unfold bind, get. rewrite Hh. done.
Qed.

Lemma never_jumps_bind {A B} (m : M A) (k : A -> M B) :
  never_jumps m -> (forall a, never_jumps (k a)) -> never_jumps (bind m k).
Proof.
  intros Hm Hk s. specialize (Hm s). unfold bind.
  destruct (m s) as [a s'| | | | |]; try done. apply Hk.
Qed.

Lemma quiet_never_jumps {A} (m : M A) : quiet m -> never_jumps m.
Proof. intros H s. specialize (H s). by destruct (m s). Qed.

Lemma never_jumps_ret {A} (a : A) : never_jumps (ret a).
Proof. by intros s. Qed.

Lemma reslist_destroy_fuel_no_Jump n : forall rl,
  never_jumps (reslist_destroy_fuel n rl) /\ never_jumps (destroy_contents n rl).
Proof.
  induction n as [|n IH]; intros rl; [by split; intros s|].
  split.
  - rewrite reslist_destroy_fuel_S.
    apply never_jumps_bind; [apply quiet_never_jumps, quiet_get_parent|intros p].
    apply never_jumps_bind.
    { destruct p; [apply quiet_never_jumps, quiet_LIST_REMOVE|apply never_jumps_ret]. }
    intros _. apply never_jumps_bind; [apply IH|intros _].
    apply quiet_never_jumps, quiet_free_node.
  - rewrite destroy_contents_S.
    apply never_jumps_bind; [apply quiet_never_jumps, quiet_get_contents|intros cs].
    destruct cs as [|r cs]; [apply never_jumps_ret|].
    apply never_jumps_bind; [apply quiet_never_jumps, quiet_LIST_REMOVE|intros _].
    apply never_jumps_bind; [apply quiet_never_jumps, quiet_load_node|intros t].
    apply never_jumps_bind; [|intros _; apply IH].
    destruct t as [pp cc|fn d].
    + apply never_jumps_bind; [apply quiet_never_jumps, quiet_set_parent|intros _; apply IH].
    + apply never_jumps_bind; [|intros _; apply quiet_never_jumps, quiet_free_node].
      destruct fn; [apply quiet_never_jumps, quiet_call_cleanup|apply never_jumps_ret].
Qed.

Lemma reslist_destroy_no_Jump rl s w s' : reslist_destroy rl s <> Jump w s'.
Proof.
  unfold reslist_destroy, bind, get. intros E.
  pose proof (proj1 (reslist_destroy_fuel_no_Jump (destroy_bound s) rl) s) as H.
  by rewrite E in H.
Qed.

Lemma never_returns_bind {A B} (m : M A) (k : A -> M B) :
  (forall a, never_returns (k a)) -> never_returns (bind m k).
Proof.
  intros Hk s. unfold bind. destruct (m s) as [a s'| | | | |]; try done. apply Hk.
Qed.

(** [die_oom] never returns to its caller. *)
Lemma die_oom_never_returns {A} : never_returns (@die_oom A).
Proof.
  unfold die_oom. apply never_returns_bind. intros s0.
  destruct (current_errh s0) as [h|]; [|by intros s].
  repeat (apply never_returns_bind; intros ?). by intros s.
Qed.

(** The result type of a raise is immaterial: it never produces a value. *)
Lemma retype_bind {A B C} (m : M C) (k : C -> M A) s :
  retype (B:=B) (bind m k s) = bind m (fun c s' => retype (k c s')) s.
Proof. unfold bind. by destruct (m s). Qed.

Lemma die_oom_any_type {A B} s : @die_oom B s = retype (@die_oom A s).
Proof.
  unfold die_oom. rewrite retype_bind. apply bind_ext. intros s0 s'.
  destruct (current_errh s0) as [h|]; [|done].
  repeat (rewrite retype_bind; apply bind_ext; intros). done.
Qed.

Lemma bind_die_oom {A B} (k : A -> M B) s : bind die_oom k s = die_oom s.
Proof.
  rewrite (@die_oom_any_type A B). unfold bind.
  pose proof (die_oom_never_returns (A:=A) s) as H.
  by destruct (@die_oom A s).
Qed.

Lemma reslist_push_new_Ret s rl s1 :
  reslist_push_new s = Ret rl s1 ->
  rl = next_addr s /\
  exists c p cs,
    current_reslist s = Some c /\
    (<[rl := RES_RESLIST (Some c) []]> (nodes s)) !! c = Some (RES_RESLIST p cs) /\
    s1 = set_current_reslist (Some rl)
           (set_nodes (fun h => <[c := RES_RESLIST p (rl :: cs)]>
                                  (<[rl := RES_RESLIST (Some c) []]> h))
              (bump_malloc true s)).
Proof.
  unfold reslist_push_new, bind, malloc.
  destruct (malloc_ok s (nmalloc s)); cycle 1.
  { intros E. pose proof (die_oom_never_returns (A:=nat) (bump_malloc false s)) as H.
    rewrite E in H. done. }
  cbn. unfold LIST_INSERT_HEAD. cbn.
  destruct (current_reslist s) as [c|]; [|done].
  destruct (_ !! c) as [[p cs|]|] eqn:Hc; try done.
  intros [= <- <-]. split; [done|]. exists c, p, cs. done.
Qed.

(** C10.  When the body returns, [catch_error] returns [false] and all it
    does after the body is to restore the previous handler: the scope it
    pushed is not destroyed and not popped, no cleanup runs, and if the body
    left that scope current it is still current afterwards, not the scope
    that was current before the call. *)
Theorem catch_error_success_keeps_scope (fn : M unit) (ei : option addr)
    (s s1 s3 : state) (rl : addr) :
  heap_fresh s -> current_live s ->
  reslist_push_new s = Ret rl s1 ->
  fn (install rl ei s1) = Ret tt s3 ->
  exists s',
    catch_error fn ei s = Ret false s' /\
    current_errh s' = current_errh s /\
    nodes s' = nodes s3 /\ mem s' = mem s3 /\ fdtable s' = fdtable s3 /\
    trace s' = trace s3 /\
    current_reslist s' = current_reslist s3 /\
    (current_reslist s3 = Some rl ->
       current_reslist s' = Some rl /\ current_reslist s' <> current_reslist s).
Proof.
  intros Hfresh (c & p & cs & Hc & Hlive) Hpush Hfn.
  exists (set_current_errh (current_errh s) s3).
  unfold catch_error. rewrite Hpush. fold (install rl ei s1). rewrite Hfn.
  repeat split; try done.
  cbn. rewrite H, Hc. intros [= ->].
  apply reslist_push_new_Ret in Hpush as [-> _].
  rewrite (heap_fresh_nodes s (next_addr s)) in Hlive by (done || lia). done.
Qed.

(** ** Growing the forest with the heap *)

Lemma roots_finsert c x f : roots (finsert c x f) = roots f.
Proof. induction f; cbn; congruence. Qed.

Lemma roots_fcommit cl fn d f : roots (fcommit cl fn d f) = roots f.
Proof.
  induction f as [|a fn0 d0 r IH|a sub _ r IH]; cbn; [done| |congruence].
  case_decide; cbn; congruence.
Qed.

Lemma addrs_fcommit cl fn d f : addrs (fcommit cl fn d f) = addrs f.
Proof.
  induction f as [|a fn0 d0 r IH|a sub IHs r IH]; cbn; [done| |congruence].
  case_decide; cbn; congruence.
Qed.

Lemma scopes_fcommit cl fn d f : scopes (fcommit cl fn d f) = scopes f.
Proof.
  induction f as [|a fn0 d0 r IH|a sub IHs r IH]; cbn; [done| |congruence].
  case_decide; cbn; congruence.
Qed.

Lemma finsert_notin c x f : c ∉ scopes f -> finsert c x f = f.
Proof.
  induction f as [|a fn d r IH|a sub IHs r IH]; cbn; [done|..].
  - intros H. by rewrite IH.
  - rewrite not_elem_of_cons, not_elem_of_app. intros (Hne & Hs & Hr).
    rewrite decide_False by done. by rewrite IHs, IH.
Qed.

Lemma addrs_cons_item x f : addrs (cons_item x f) = item_addr x :: addrs f.
Proof. by destruct x. Qed.

Lemma roots_cons_item x f : roots (cons_item x f) = item_addr x :: roots f.
Proof. by destruct x. Qed.

(** Membership in the addresses after an insertion. *)
Lemma addrs_finsert_elem' c x f b :
  b ∈ addrs (finsert c x f) -> (b = item_addr x /\ c ∈ scopes f) \/ b ∈ addrs f.
Proof.
  induction f as [|a fn d r IH|a sub IHs r IH]; cbn; [by right|..].
  - rewrite !elem_of_cons. intros [->|H]; [by right; left|].
    destruct (IH H) as [[-> ?]|?]; auto.
  - rewrite !elem_of_cons, !elem_of_app. intros [->|[H|H]]; [by right; left| |].
    + case_decide.
      * rewrite addrs_cons_item, elem_of_cons in H. destruct H; auto.
      * destruct (IHs H) as [[-> ?]|?]; auto.
    + destruct (IH H) as [[-> ?]|?]; auto.
Qed.

Lemma addrs_finsert_elem c x f b :
  b ∈ addrs (finsert c x f) -> b = item_addr x \/ b ∈ addrs f.
Proof. intros H. apply addrs_finsert_elem' in H as [[-> _]|H]; auto. Qed.

Lemma NoDup_addrs_finsert c x f :
  NoDup (addrs f) -> item_addr x ∉ addrs f -> NoDup (addrs (finsert c x f)).
Proof.
  induction f as [|a fn d r IH|a sub IHs r IH]; cbn; [done|..].
  - rewrite !NoDup_cons, not_elem_of_cons. intros [Ha Hnd] [Hxa Hx]. split.
    + intros H. apply addrs_finsert_elem in H as [->|H]; done.
    + by apply IH.
  - intros Hnd Hx.
    apply NoDup_cons in Hnd as [Ha Hnd]. apply NoDup_app in Hnd as (Hnds & Hdisj & Hndr).
    rewrite not_elem_of_app in Ha. destruct Ha as [Has Har].
    rewrite not_elem_of_cons, not_elem_of_app in Hx. destruct Hx as (Hxa & Hxs & Hxr).
    destruct (decide (a = c)) as [->|Hne].
    + assert (c ∉ scopes r) as Hcr by (intros H; by apply scopes_addrs in H).
      rewrite (finsert_notin c x r) by done.
      rewrite addrs_cons_item. apply NoDup_cons. split.
      * rewrite elem_of_app, elem_of_cons. intros [[?|?]|?]; [congruence|done|done].
      * apply NoDup_app. split; [apply NoDup_cons; done|]. split; [|done].
        intros b. rewrite elem_of_cons. intros [->|Hb]; [done|by apply Hdisj].
    + apply NoDup_cons. split.
      * rewrite elem_of_app.
        intros [H|H]; apply addrs_finsert_elem in H as [->|H]; done.
      * apply NoDup_app. split; [by apply IHs|]. split; [|by apply IH].
        intros b Hb Hb'. apply addrs_finsert_elem' in Hb as [[-> Hb]|Hb];
          apply addrs_finsert_elem' in Hb' as [[Hb' Hc']|Hb']; subst; try done.
        -- apply scopes_addrs in Hb, Hc'. by eapply Hdisj.
        -- by eapply Hdisj.
Qed.

(** The heap after linking [x] below [c] spells out the forest with [x]
    inserted. *)
Lemma repr_finsert h c pc cs x f : forall owner,
  c <> owner ->
  h !! c = Some (RES_RESLIST pc cs) ->
  item_addr x <> c ->
  item_addr x ∉ addrs f ->
  NoDup (addrs f) ->
  repr h owner f ->
  repr (<[c := RES_RESLIST pc (item_addr x :: cs)]> (<[item_addr x := item_node c x]> h))
       owner (finsert c x f).
Proof.
  set (h' := <[c := _]> _).
  induction f as [|a fn d r IH|a sub IHs r IH]; intros owner Hco Hc Hxc Hx Hnd;
    cbn in Hx, Hnd |- *; [done|..].
  - rewrite not_elem_of_cons in Hx. destruct Hx as [Hxa Hx].
    apply NoDup_cons in Hnd as [Ha Hnd]. intros [Hha Hr]. split; [|by apply IH].
    unfold h'. rewrite !lookup_insert_ne; [done| congruence |congruence].
  - rewrite not_elem_of_cons, not_elem_of_app in Hx. destruct Hx as (Hxa & Hxs & Hxr).
    apply NoDup_cons in Hnd as [Ha Hnd]. apply NoDup_app in Hnd as (Hnds & Hdisj & Hndr).
    rewrite not_elem_of_app in Ha. destruct Ha as [Has Har].
    intros (Hha & Hs & Hr). split; [|split; [|by apply IH]].
    + case_decide as Hac.
      * subst a. rewrite roots_cons_item. unfold h'. rewrite lookup_insert_eq.
        rewrite Hc in Hha. by injection Hha as -> ->.
      * rewrite roots_finsert. unfold h'. rewrite !lookup_insert_ne by congruence. done.
    + case_decide as Hac.
      * subst a.
        assert (repr h' c sub) as Hsub.
        { eapply repr_frame; [|exact Hs]. intros b Hb. unfold h'.
          rewrite !lookup_insert_ne; [done| |]; intros E; subst b; done. }
        destruct x as [xa xfn xd|xa]; cbn; (split; [|try split; try done]);
          unfold h'; cbn; cbn in Hxc; rewrite lookup_insert_ne, lookup_insert_eq by done; done.
      * apply IHs; done.
Qed.

Lemma scope_at_tinsert h rl pp f c pc cs x :
  scope_at h rl pp f ->
  c ∈ rl :: scopes f ->
  h !! c = Some (RES_RESLIST pc cs) ->
  item_addr x ∉ rl :: addrs f ->
  scope_at (<[c := RES_RESLIST pc (item_addr x :: cs)]> (<[item_addr x := item_node c x]> h))
           rl pp (tinsert rl c x f).
Proof.
  intros (Hrl & Hrep & Hnd) Hc Hhc Hx.
  rewrite not_elem_of_cons in Hx. destruct Hx as [Hxrl Hx].
  apply NoDup_cons in Hnd as [Hrlf Hnd].
  assert (item_addr x <> c) as Hxc.
  { intros E. apply elem_of_cons in Hc as [->|Hc]; [done|].
    apply scopes_addrs in Hc. congruence. }
  unfold tinsert. case_decide as Hrc.
  - subst c. rewrite Hrl in Hhc. injection Hhc as <- <-.
    split; [|split].
    + rewrite roots_cons_item. apply lookup_insert_eq.
    + assert (repr (<[rl:=RES_RESLIST pp (item_addr x :: roots f)]>
                      (<[item_addr x:=item_node rl x]> h)) rl f) as Hf.
      { eapply repr_frame; [|exact Hrep]. intros b Hb.
        rewrite !lookup_insert_ne; [done| |]; intros E; subst b; done. }
      destruct x as [xa xfn xd|xa]; cbn; (split; [|try split; try done]);
        cbn in Hxrl; rewrite lookup_insert_ne, lookup_insert_eq by done; done.
    + rewrite addrs_cons_item. apply NoDup_cons. split.
      * rewrite not_elem_of_cons. split; [congruence|done].
      * apply NoDup_cons. done.
  - apply elem_of_cons in Hc as [->|Hc]; [done|].
    split; [|split].
    + rewrite roots_finsert, !lookup_insert_ne by congruence. done.
    + apply repr_finsert; done.
    + apply NoDup_cons. split.
      * intros H. apply addrs_finsert_elem in H as [->|H]; done.
      * by apply NoDup_addrs_finsert.
Qed.

(** Arming a record. *)
Lemma repr_fcommit h cl fn0 d0 fn d f : forall owner,
  h !! cl = Some (RES_CLEANUP fn0 d0) ->
  NoDup (addrs f) ->
  repr h owner f ->
  repr (<[cl := RES_CLEANUP (Some fn) d]> h) owner (fcommit cl fn d f).
Proof.
  induction f as [|a fn1 d1 r IH|a sub IHs r IH]; intros owner Hcl Hnd;
    cbn in Hnd |- *; [done|..].
  - apply NoDup_cons in Hnd as [Ha Hnd]. intros [Hha Hr]. case_decide as Hac.
    + subst a. cbn. split; [apply lookup_insert_eq|].
      eapply repr_frame; [|exact Hr]. intros b Hb.
      rewrite lookup_insert_ne; [done|]. intros ->. done.
    + cbn. split; [|by apply IH]. rewrite lookup_insert_ne by done. done.
  - apply NoDup_cons in Hnd as [Ha Hnd]. apply NoDup_app in Hnd as (Hnds & Hdisj & Hndr).
    intros (Hha & Hs & Hr). split; [|split; [by apply IHs|by apply IH]].
    rewrite roots_fcommit, lookup_insert_ne; [done|]. intros ->. congruence.
Qed.

Lemma scope_at_fcommit h rl pp f cl fn0 d0 fn d :
  scope_at h rl pp f ->
  h !! cl = Some (RES_CLEANUP fn0 d0) ->
  scope_at (<[cl := RES_CLEANUP (Some fn) d]> h) rl pp (fcommit cl fn d f).
Proof.
  intros (Hrl & Hrep & Hnd) Hcl. split; [|split].
  - rewrite roots_fcommit, lookup_insert_ne; [done|]. intros ->. congruence.
  - apply NoDup_cons in Hnd as [_ Hnd]. eapply repr_fcommit; eauto.
  - by rewrite addrs_fcommit.
Qed.

(** ** Safe actions run to completion *)

Lemma fd_is_open_insert_ne tbl fd fd' :
  fd_is_open tbl fd = true -> fd_is_open tbl fd' = true -> fd <> fd' ->
  fd_is_open (<[Z.to_nat fd' := false]> tbl) fd = true.
Proof.
  unfold fd_is_open. rewrite !andb_true_iff, !bool_decide_eq_true, !Z.leb_le.
  intros [H0 H1] [H0' H1'] Hne. split; [done|].
  rewrite list_lookup_insert_ne; [done|]. intros E. apply Hne. lia.
Qed.

Lemma fd_is_open_insert_eq tbl fd :
  fd_is_open (<[Z.to_nat fd := false]> tbl) fd = false.
Proof.
  unfold fd_is_open. destruct (0 <=? fd); [|done]. cbn.
  apply bool_decide_eq_false. intros H.
  assert (Z.to_nat fd < length tbl)%nat as Hlt.
  { apply lookup_lt_Some in H. by rewrite length_insert in H. }
  rewrite list_lookup_insert_eq in H by done. done.
Qed.

Lemma call_cleanup_safe x s :
  action_typed x ->
  Forall (fun a => is_Some (mem s !! a)) (freed [x]) ->
  Forall (fun fd => fd_is_open (fdtable s) fd = true) (closed [x]) ->
  call_cleanup (fst x) (snd x) s = Ret tt (apply_action x s).
Proof.
  destruct x as [[] d]; destruct d as [|str|a|z]; cbn; try done.
  - intros _ Hm _. apply Forall_cons in Hm as [[b Hb] _]. by rewrite Hb.
  - intros _ _ Hfd. apply Forall_cons in Hfd as [Hfd _].
    unfold bind, close. cbn. rewrite Hfd. done.
Qed.

Lemma run_actions_safe l : forall s,
  actions_safe l (mem s) (fdtable s) ->
  run_actions l s = Ret tt (after_actions l s).
Proof.
  induction l as [|[fn d] l IH]; intros s (Hty & Hndf & Hf & Hndc & Hc); [done|].
  apply Forall_cons in Hty as [Hty1 Hty].
  cbn [run_actions after_actions fold_left].
  assert (call_cleanup fn d s = Ret tt (apply_action (fn, d) s)) as Hcall.
  { apply (call_cleanup_safe (fn, d)); [done|..].
    - destruct fn, d; cbn in *; try done.
      apply Forall_cons in Hf as [? _]. by apply Forall_singleton.
    - destruct fn, d; cbn in *; try done.
      apply Forall_cons in Hc as [? _]. by apply Forall_singleton. }
  rewrite (bind_Ret _ _ _ _ _ Hcall). apply IH.
  destruct fn, d; cbn in Hty1; try done; cbn in *;
    try (split; [done|split; [done|split; [done|split; done]]]).
  - apply NoDup_cons in Hndf as [Ha Hndf]. apply Forall_cons in Hf as [_ Hf].
    split; [done|split; [done|split; [|split; done]]].
    rewrite Forall_forall in Hf |- *. intros b Hb.
    rewrite lookup_delete_ne; [by apply Hf|]. intros ->. done.
  - apply NoDup_cons in Hndc as [Ha Hndc]. apply Forall_cons in Hc as [Hz Hc].
    split; [done|split; [done|split; [done|split; [done|]]]].
    rewrite Forall_forall in Hc |- *. intros fd Hfd.
    apply fd_is_open_insert_ne; [by apply Hc|done|]. intros ->. done.
Qed.

(** What [after_actions] leaves alone. *)
Lemma apply_action_frame x s :
  nodes (apply_action x s) = nodes s /\
  next_addr (apply_action x s) = next_addr s /\
  nmalloc (apply_action x s) = nmalloc s /\
  malloc_ok (apply_action x s) = malloc_ok s /\
  current_reslist (apply_action x s) = current_reslist s /\
  current_errh (apply_action x s) = current_errh s /\
  next_where (apply_action x s) = next_where s /\
  einfos (apply_action x s) = einfos s /\
  nsys (apply_action x s) = nsys s /\
  sys_fail (apply_action x s) = sys_fail s.
Proof. destruct x as [[] []]; cbn; done. Qed.

Lemma after_actions_frame l : forall s,
  nodes (after_actions l s) = nodes s /\
  next_addr (after_actions l s) = next_addr s /\
  nmalloc (after_actions l s) = nmalloc s /\
  malloc_ok (after_actions l s) = malloc_ok s /\
  current_reslist (after_actions l s) = current_reslist s /\
  current_errh (after_actions l s) = current_errh s /\
  next_where (after_actions l s) = next_where s /\
  einfos (after_actions l s) = einfos s /\
  nsys (after_actions l s) = nsys s /\
  sys_fail (after_actions l s) = sys_fail s.
Proof.
  induction l as [|x l IH]; intros s; [done|].
  cbn [after_actions fold_left]. fold (after_actions l (apply_action x s)).
  destruct (IH (apply_action x s)) as (-> & -> & -> & -> & -> & -> & -> & -> & -> & ->).
  apply apply_action_frame.
Qed.

Lemma after_actions_trace l : forall s,
  trace (after_actions l s) = trace s ++ concat (map action_events l).
Proof.
  induction l as [|x l IH]; intros s; cbn; [by rewrite app_nil_r|].
  fold (after_actions l (apply_action x s)). rewrite IH, app_assoc. f_equal.
  destruct x as [[] []]; cbn; try done. by rewrite <- app_assoc.
Qed.

Lemma after_actions_mem l : forall s a,
  mem (after_actions l s) !! a = if decide (a ∈ freed l) then None else mem s !! a.
Proof.
  induction l as [|x l IH]; intros s a; cbn.
  - rewrite decide_False; [done|apply not_elem_of_nil].
  - fold (after_actions l (apply_action x s)). rewrite IH.
    destruct x as [[] []]; cbn; try done.
    fold (freed l). destruct (decide (a ∈ freed l)) as [Hin|Hin].
    + rewrite decide_True; [done|by right].
    + rewrite lookup_delete. case_decide as E.
      * subst. rewrite decide_True; [done|left].
      * rewrite decide_False; [done|]. rewrite elem_of_cons. intros [?|?]; done.
Qed.

Lemma calls_app t1 t2 : calls (t1 ++ t2) = calls t1 ++ calls t2.
Proof. unfold calls. apply omap_app. Qed.

Lemma closes_app t1 t2 : closes (t1 ++ t2) = closes t1 ++ closes t2.
Proof. unfold closes. apply omap_app. Qed.

Lemma calls_action_events l : calls (concat (map action_events l)) = l.
Proof.
  induction l as [|[fn d] l IH]; [done|]. cbn [map concat].
  rewrite calls_app, IH. by destruct fn, d.
Qed.

Lemma closes_action_events l : closes (concat (map action_events l)) = closed l.
Proof.
  induction l as [|[fn d] l IH]; [done|]. cbn [map concat].
  rewrite closes_app, IH. by destruct fn, d.
Qed.

(** ** Stepping through the allocation primitives *)

Lemma malloc_ok_eq sz s :
  malloc_ok s (nmalloc s) = true ->
  malloc sz s = Ret (Some (next_addr s)) (bump_malloc true s).
Proof. unfold malloc. by intros ->. Qed.

Lemma malloc_fail_eq sz s :
  malloc_ok s (nmalloc s) = false ->
  malloc sz s = Ret None (bump_malloc false s).
Proof. unfold malloc. by intros ->. Qed.

Lemma live_below_next s a n : heap_fresh s -> nodes s !! a = Some n -> (a < next_addr s)%nat.
Proof. intros [H _] Ha. by apply H in Ha. Qed.

Lemma cleanup_allocate_ok s c p cs :
  heap_fresh s ->
  current_reslist s = Some c ->
  nodes s !! c = Some (RES_RESLIST p cs) ->
  malloc_ok s (nmalloc s) = true ->
  cleanup_allocate s = Ret (next_addr s) (registered c p cs s).
Proof.
  intros Hfr Hcur Hc Hok. unfold cleanup_allocate.
  rewrite (bind_Ret _ _ _ _ _ (malloc_ok_eq _ _ Hok)).
  rewrite bind_modify. unfold bind at 1, get. cbn [current_reslist set_nodes bump_malloc].
  rewrite Hcur. erewrite bind_Ret; cycle 1.
  { eapply LIST_INSERT_HEAD_eq. cbn. rewrite lookup_insert_ne; [exact Hc|].
    apply (live_below_next _ _ _ Hfr) in Hc. lia. }
  reflexivity.
Qed.

Lemma cleanup_allocate_oom s :
  malloc_ok s (nmalloc s) = false ->
  cleanup_allocate s = die_oom (bump_malloc false s).
Proof.
  intros Hok. unfold cleanup_allocate.
  by rewrite (bind_Ret _ _ _ _ _ (malloc_fail_eq _ _ Hok)).
Qed.

Lemma reslist_push_new_oom s :
  malloc_ok s (nmalloc s) = false ->
  reslist_push_new s = die_oom (bump_malloc false s).
Proof.
  intros Hok. unfold reslist_push_new.
  by rewrite (bind_Ret _ _ _ _ _ (malloc_fail_eq _ _ Hok)).
Qed.

Lemma heap_fresh_registered s c p cs :
  heap_fresh s -> nodes s !! c = Some (RES_RESLIST p cs) ->
  heap_fresh (registered c p cs s).
Proof.
  intros Hfr Hc. pose proof (live_below_next _ _ _ Hfr Hc) as Hlt.
  destruct Hfr as [Hn Hm]. split; cbn.
  - intros a n. rewrite !lookup_insert. repeat case_decide; subst; try lia.
    intros Hl. apply Hn in Hl. lia.
  - intros a b Hl. apply Hm in Hl. cbn in Hl. lia.
Qed.

Lemma registered_frame c p cs s :
  mem (registered c p cs s) = mem s /\
  fdtable (registered c p cs s) = fdtable s /\
  current_reslist (registered c p cs s) = current_reslist s /\
  current_errh (registered c p cs s) = current_errh s /\
  einfos (registered c p cs s) = einfos s /\
  trace (registered c p cs s) = trace s /\
  nsys (registered c p cs s) = nsys s /\
  sys_fail (registered c p cs s) = sys_fail s /\
  malloc_ok (registered c p cs s) = malloc_ok s /\
  nmalloc (registered c p cs s) = S (nmalloc s) /\
  next_addr (registered c p cs s) = S (next_addr s).
Proof. done. Qed.

Lemma xalloc_ok s c p cs sz :
  heap_fresh s ->
  current_reslist s = Some c ->
  nodes s !! c = Some (RES_RESLIST p cs) ->
  malloc_ok s (nmalloc s) = true ->
  malloc_ok s (S (nmalloc s)) = true ->
  xalloc sz s = Ret (Heap (S (next_addr s))) (allocated c p cs sz s).
Proof.
  intros Hfr Hcur Hc Hok1 Hok2. unfold xalloc.
  rewrite (bind_Ret _ _ _ _ _ (cleanup_allocate_ok _ _ _ _ Hfr Hcur Hc Hok1)).
  rewrite (bind_Ret _ _ _ _ _ (malloc_ok_eq sz (registered c p cs s) Hok2)).
  rewrite bind_modify. erewrite bind_Ret; [reflexivity|].
  unfold cleanup_commit. cbn.
  apply (live_below_next _ _ _ Hfr) in Hc.
  rewrite lookup_insert_ne, lookup_insert_eq by lia. done.
Qed.

(** The two ways [xalloc] runs out of memory both end in [die_oom]. *)
Lemma xalloc_oom_record s sz :
  malloc_ok s (nmalloc s) = false ->
  xalloc sz s = die_oom (bump_malloc false s).
Proof.
  intros Hok. unfold xalloc, cleanup_allocate. rewrite bind_assoc.
  rewrite (bind_Ret _ _ _ _ _ (malloc_fail_eq _ _ Hok)).
  apply bind_die_oom.
Qed.

Lemma xalloc_oom_block s c p cs sz :
  heap_fresh s ->
  current_reslist s = Some c ->
  nodes s !! c = Some (RES_RESLIST p cs) ->
  malloc_ok s (nmalloc s) = true ->
  malloc_ok s (S (nmalloc s)) = false ->
  xalloc sz s = die_oom (bump_malloc false (registered c p cs s)).
Proof.
  intros Hfr Hcur Hc Hok1 Hok2. unfold xalloc.
  rewrite (bind_Ret _ _ _ _ _ (cleanup_allocate_ok _ _ _ _ Hfr Hcur Hc Hok1)).
  by rewrite (bind_Ret _ _ _ _ _ (malloc_fail_eq sz (registered c p cs s) Hok2)).
Qed.

(** ** Formatting *)

Lemma str_take_all s : str_take (String.length s) s = s.
Proof. induction s as [|c s IH]; cbn; [done|]. by rewrite IH. Qed.

Lemma fmt_cons_ok c r str : fmt_cons c r = FmtOk str ->
  exists s', r = FmtOk s' /\ str = String c s'.
Proof. destruct r; cbn; [|done..]. intros [= <-]. eauto. Qed.

Lemma fmt_app_ok s r str : fmt_app s r = FmtOk str ->
  exists s', r = FmtOk s' /\ str = s +:+ s'.
Proof. destruct r; cbn; [|done..]. intros [= <-]. eauto. Qed.

(** A format that reads only strings that stay in place gives the same
    text in a bigger heap. *)
Ltac step_if :=
  lazymatch goal with
  | |- (if ?b then _ else _) <> _ -> _ =>
      destruct b; [solve [done | cbv zeta; by repeat case_match] | ]
  end.

Section format_frame.
Variables m m' : gmap nat block.
Hypothesis Hd : forall p s, deref_str m p = Some s -> deref_str m' p = Some s.

Lemma string_arg_frame sp p s :
  string_arg m sp p = Some s -> string_arg m' sp p = Some s.
Proof using Hd.
  unfold string_arg. destruct (f_prec sp) as [n|]; [|apply Hd].
  destruct ((n <? 6) && is_null p); [done|].
  destruct (deref_str m p) as [s0|] eqn:E; [|done]. by rewrite (Hd _ _ E).
Qed.

Lemma conv_step_frame ph sp c args :
  conv_step m ph sp c args <> Stop FmtFault ->
  conv_step m' ph sp c args = conv_step m ph sp c args.
Proof using Hd.
  unfold conv_step. repeat step_if.
  destruct (Ascii.eqb c "s").
  - destruct (f_bits sp =? 32); [|done].
    destruct args as [|[z|p] args]; try done.
    destruct (string_arg m sp p) as [s|] eqn:E; [|done].
    by rewrite (string_arg_frame _ _ _ E).
  - by repeat step_if.
Qed.

Lemma len_step_frame ph sp c args :
  len_step m ph sp c args <> Stop FmtFault ->
  len_step m' ph sp c args = len_step m ph sp c args.
Proof using Hd. unfold len_step. repeat step_if. apply conv_step_frame. Qed.

Lemma spec_step_frame ph sp c args :
  spec_step m ph sp c args <> Stop FmtFault ->
  spec_step m' ph sp c args = spec_step m ph sp c args.
Proof using Hd.
  unfold spec_step.
  destruct ph; repeat step_if; first [apply len_step_frame | apply conv_step_frame].
Qed.

Lemma format_go_frame fmt : forall mode args str,
  format_go m mode fmt args = FmtOk str -> format_go m' mode fmt args = FmtOk str.
Proof using Hd.
  induction fmt as [|c fmt IH]; intros mode args str; cbn [format_go]; [done|].
  destruct mode as [|ph sp].
  - destruct (Ascii.eqb c "%"); [apply IH|].
    intros H. apply fmt_cons_ok in H as (s' & H & ->). by rewrite (IH _ _ _ H).
  - intros H.
    assert (spec_step m ph sp c args <> Stop FmtFault) as Hne
      by (intros E; by rewrite E in H).
    rewrite (spec_step_frame _ _ _ _ Hne).
    destruct (spec_step m ph sp c args) as [ph' sp' args'|out args'|r]; [by apply IH| |done].
    apply fmt_app_ok in H as (s' & H & ->). by rewrite (IH _ _ _ H).
Qed.
End format_frame.

Lemma deref_str_insert m a b p s :
  m !! a = None -> deref_str m p = Some s -> deref_str (<[a := b]> m) p = Some s.
Proof.
  intros Ha. destruct p as [|str|a'|z]; cbn; try done.
  destruct (decide (a = a')) as [->|Hne]; [by rewrite Ha|].
  by rewrite lookup_insert_ne.
Qed.

Lemma c_format_insert m a b fmt args str :
  m !! a = None -> c_format m fmt args = FmtOk str ->
  c_format (<[a := b]> m) fmt args = FmtOk str.
Proof.
  intros Ha. apply format_go_frame. intros p s. by apply deref_str_insert.
Qed.

Lemma fits_mod str : fits str ->
  (Z.of_nat (String.length str) + 1) mod SIZE_MAX1 = Z.of_nat (String.length str) + 1.
Proof. unfold fits, INT_MAX. intros H. apply Z.mod_small. unfold SIZE_MAX1. lia. Qed.

Lemma fmt_count_fits str : fits str -> fmt_count str = Some (Z.of_nat (String.length str)).
Proof.
  unfold fits, fmt_count, strlen. intros H.
  by destruct (Z.leb_spec (Z.of_nat (String.length str)) INT_MAX); [|lia].
Qed.

Lemma fmt_count_long str : ~ fits str -> fmt_count str = None.
Proof.
  unfold fits, fmt_count, strlen. intros H.
  by destruct (Z.leb_spec (Z.of_nat (String.length str)) INT_MAX); [lia|].
Qed.

Lemma heap_fresh_allocated s c p cs sz :
  heap_fresh s -> nodes s !! c = Some (RES_RESLIST p cs) ->
  heap_fresh (allocated c p cs sz s).
Proof.
  intros Hfr Hc. pose proof (live_below_next _ _ _ Hfr Hc) as Hlt.
  destruct Hfr as [Hn Hm]. split; cbn.
  - intros a n. rewrite !lookup_insert. repeat case_decide; subst; try lia.
    intros Hl. apply Hn in Hl. lia.
  - intros a b. rewrite lookup_insert. case_decide; subst; [lia|].
    intros Hl. apply Hm in Hl. lia.
Qed.

Lemma heap_fresh_printed s c p cs str :
  heap_fresh s -> nodes s !! c = Some (RES_RESLIST p cs) ->
  heap_fresh (printed c p cs str s).
Proof.
  intros Hfr Hc. pose proof (heap_fresh_allocated s c p cs
    (Z.of_nat (String.length str) + 1) Hfr Hc) as [Hn Hm].
  split; [exact Hn|]. cbn in Hm |- *.
  intros a b. rewrite lookup_insert. case_decide; subst; [intros _; lia|].
  rewrite lookup_insert. case_decide; subst; [intros _; lia|].
  intros Hl. eapply (Hm a b). rewrite lookup_insert_ne by done. exact Hl.
Qed.

Lemma registered_nodes s c p cs :
  heap_fresh s -> nodes s !! c = Some (RES_RESLIST p cs) ->
  (forall a, (a < next_addr s)%nat -> a <> c ->
     nodes (registered c p cs s) !! a = nodes s !! a) /\
  nodes (registered c p cs s) !! c = Some (RES_RESLIST p (next_addr s :: cs)) /\
  nodes (registered c p cs s) !! next_addr s = Some (RES_CLEANUP None Null).
Proof.
  intros Hfr Hc. pose proof (live_below_next _ _ _ Hfr Hc) as Hlt. cbn.
  split; [|split].
  - intros a Ha Hac. rewrite !lookup_insert_ne by lia. done.
  - apply lookup_insert_eq.
  - rewrite lookup_insert_ne, lookup_insert_eq by lia. done.
Qed.

Lemma printed_frame s c p cs str :
  heap_fresh s -> nodes s !! c = Some (RES_RESLIST p cs) ->
  (forall a, (a < next_addr s)%nat -> a <> c ->
     nodes (printed c p cs str s) !! a = nodes s !! a) /\
  nodes (printed c p cs str s) !! c = Some (RES_RESLIST p (next_addr s :: cs)) /\
  nodes (printed c p cs str s) !! next_addr s =
    Some (RES_CLEANUP (Some fn_free) (Heap (S (next_addr s)))) /\
  (forall a, is_Some (mem s !! a) -> is_Some (mem (printed c p cs str s) !! a)) /\
  mem (printed c p cs str s) !! S (next_addr s) =
    Some (Block (Z.of_nat (String.length str) + 1) (PBytes str)).
Proof.
  intros Hfr Hc. pose proof (live_below_next _ _ _ Hfr Hc) as Hlt. cbn.
  split; [|split; [|split; [|split]]].
  - intros a Ha Hac. rewrite !lookup_insert_ne by lia. done.
  - rewrite lookup_insert_ne, lookup_insert_eq by lia. done.
  - apply lookup_insert_eq.
  - intros a Ha. rewrite !lookup_insert. by repeat case_decide.
  - apply lookup_insert_eq.
Qed.

(** [xavprintf] when the format is valid and memory is there. *)
Lemma xavprintf_with_ok die s c p cs fmt args str :
  heap_fresh s ->
  current_reslist s = Some c ->
  nodes s !! c = Some (RES_RESLIST p cs) ->
  malloc_ok s (nmalloc s) = true ->
  malloc_ok s (S (nmalloc s)) = true ->
  c_format (mem s) fmt args = FmtOk str ->
  fits str ->
  xavprintf_with die fmt args s = Ret (Heap (S (next_addr s))) (printed c p cs str s).
Proof.
  intros Hfr Hcur Hc Hok1 Hok2 Hfmt Hfits. unfold xavprintf_with.
  erewrite bind_Ret; cycle 1.
  { unfold vsnprintf_len. rewrite Hfmt, (fmt_count_fits _ Hfits). reflexivity. }
  destruct (Z.ltb_spec (Z.of_nat (String.length str)) 0) as [?|_]; [lia|].
  rewrite (fits_mod _ Hfits).
  rewrite (bind_Ret _ _ _ _ _ (xalloc_ok _ _ _ _ _ Hfr Hcur Hc Hok1 Hok2)).
  erewrite bind_Ret; [reflexivity|].
  unfold vsnprintf_buf. cbn [mem allocated set_nodes set_mem].
  rewrite (c_format_insert _ (S (next_addr s)) _ _ _ _
             (heap_fresh_mem s (S (next_addr s)) Hfr ltac:(lia)) Hfmt).
  rewrite (fmt_count_fits _ Hfits), lookup_insert_eq.
  replace (Z.of_nat (String.length str) + 1 - 1) with (Z.of_nat (String.length str)) by lia.
  rewrite Nat2Z.id, str_take_all.
  destruct (Z.leb_spec 1 (Z.of_nat (String.length str) + 1)); [|lia].
  rewrite Z.leb_refl. reflexivity.
Qed.

Lemma vsnprintf_len_fails s fmt args e :
  fmt_fails (c_format (mem s) fmt args) = Some e ->
  vsnprintf_len fmt args s = Ret (-1) (set_errno e s).
Proof.
  intros Hfmt. unfold vsnprintf_len.
  destruct (c_format (mem s) fmt args) as [str| | | |]; cbn in Hfmt; try done.
  - destruct (decide (fits str)) as [|Hn]; [done|]. injection Hfmt as <-.
    by rewrite (fmt_count_long _ Hn).
  - by injection Hfmt as <-.
  - by injection Hfmt as <-.
Qed.

Lemma xavprintf_with_fails die s fmt args e :
  fmt_fails (c_format (mem s) fmt args) = Some e ->
  xavprintf_with die fmt args s =
  die EINVAL "invalid format string %.80s"%string [FStr (Static fmt)] (set_errno e s).
Proof.
  intros Hfmt. unfold xavprintf_with.
  rewrite (bind_Ret _ _ _ _ _ (vsnprintf_len_fails _ _ _ _ Hfmt)). reflexivity.
Qed.

Lemma xavprintf_with_invalid die s fmt args :
  c_format (mem s) fmt args = FmtInvalid ->
  xavprintf_with die fmt args s =
  die EINVAL "invalid format string %.80s"%string [FStr (Static fmt)] (set_errno EINVAL s).
Proof. intros Hfmt. apply xavprintf_with_fails. by rewrite Hfmt. Qed.

Lemma xavprintf_with_fault die s fmt args :
  c_format (mem s) fmt args = FmtFault ->
  xavprintf_with die fmt args s = Fault.
Proof.
  intros Hfmt. unfold xavprintf_with, bind, vsnprintf_len. by rewrite Hfmt.
Qed.

Lemma xavprintf_with_other die s fmt args :
  c_format (mem s) fmt args = FmtOther ->
  xavprintf_with die fmt args s = Unmodelled.
Proof.
  intros Hfmt. unfold xavprintf_with, bind, vsnprintf_len. by rewrite Hfmt.
Qed.

(** C8.  [xavprintf] takes the length from a first formatting pass,
    registers a cleanup record, allocates exactly length plus one bytes and
    formats into them: the result points to a block of that size holding the
    text, owned by a [free] record at the head of the current scope.  The
    format ["%d items"] with the argument 3 gives ["3 items"].  When the
    length pass fails, or the text is longer than [INT_MAX], the call is
    [die(EINVAL, ...)], and [EINVAL] is not [ENOMEM]. *)
Theorem xavprintf_formats (s : state) (fmt : string) (args : list farg) :
  match c_format (mem s) fmt args with
  | FmtOk str =>
      forall c p cs,
        heap_fresh s ->
        current_reslist s = Some c ->
        nodes s !! c = Some (RES_RESLIST p cs) ->
        malloc_ok s (nmalloc s) = true ->
        malloc_ok s (S (nmalloc s)) = true ->
        fits str ->
        exists s',
          xavprintf fmt args s = Ret (Heap (S (next_addr s))) s' /\
          mem s' !! S (next_addr s) =
            Some (Block (Z.of_nat (String.length str) + 1) (PBytes str)) /\
          nodes s' !! next_addr s =
            Some (RES_CLEANUP (Some fn_free) (Heap (S (next_addr s)))) /\
          nodes s' !! c = Some (RES_RESLIST p (next_addr s :: cs)) /\
          nmalloc s' = S (S (nmalloc s)) /\
          current_reslist s' = Some c
  | FmtInvalid =>
      xavprintf fmt args s =
      die EINVAL "invalid format string %.80s"%string [FStr (Static fmt)] (set_errno EINVAL s)
  | FmtOverflow =>
      xavprintf fmt args s =
      die EINVAL "invalid format string %.80s"%string [FStr (Static fmt)]
        (set_errno EOVERFLOW s)
  | FmtFault => xavprintf fmt args s = Fault
  | FmtOther => xavprintf fmt args s = Unmodelled
  end /\
  (forall str, c_format (mem s) fmt args = FmtOk str -> ~ fits str ->
     xavprintf fmt args s =
     die EINVAL "invalid format string %.80s"%string [FStr (Static fmt)]
       (set_errno EOVERFLOW s)) /\
  c_format (mem s) "%d items"%string [FInt 3] = FmtOk "3 items"%string /\
  EINVAL <> ENOMEM.
Proof.
  split; [|split; [|split; [reflexivity|done]]]; cycle 1.
  { intros str Hfmt Hn. apply xavprintf_with_fails. rewrite Hfmt. cbn.
    by rewrite decide_False. }
  destruct (c_format (mem s) fmt args) as [str| | | |] eqn:Hfmt.
  - intros c p cs Hfr Hcur Hc Hok1 Hok2 Hfits.
    exists (printed c p cs str s). split; [|split; [|split; [|split]]].
    + by apply xavprintf_with_ok.
    + cbn. apply lookup_insert_eq.
    + cbn. apply lookup_insert_eq.
    + cbn. apply (live_below_next _ _ _ Hfr) in Hc.
      rewrite lookup_insert_ne, lookup_insert_eq by lia. done.
    + done.
  - by apply xavprintf_with_invalid.
  - apply xavprintf_with_fails. by rewrite Hfmt.
  - by apply xavprintf_with_fault.
  - by apply xavprintf_with_other.
Qed.

(** ** Unwinding to the handler *)

Lemma scope_at_frame h h' rl pp f :
  scope_at h rl pp f ->
  (forall a, a ∈ rl :: addrs f -> h' !! a = h !! a) ->
  scope_at h' rl pp f.
Proof.
  intros (Hrl & Hrep & Hnd) Hfr. split; [|split; [|done]].
  - rewrite Hfr; [done|left].
  - eapply repr_frame; [|exact Hrep]. intros a Ha. apply Hfr. by right.
Qed.

Lemma actions_safe_frame l m m' tbl :
  actions_safe l m tbl ->
  (forall a, is_Some (m !! a) -> is_Some (m' !! a)) ->
  actions_safe l m' tbl.
Proof.
  intros (Hty & Hndf & Hf & Hndc & Hc) Hm. repeat split; try done.
  eapply Forall_impl; [exact Hf|]. intros a. apply Hm.
Qed.

Lemma unwind_ready_frame s s' h P F :
  unwind_ready s h P F ->
  current_errh s' = current_errh s ->
  (forall a, a ∈ eh_rl h :: addrs F -> nodes s' !! a = nodes s !! a) ->
  (exists q cs, nodes s' !! P = Some (RES_RESLIST q cs)) ->
  (forall a, is_Some (mem s !! a) -> is_Some (mem s' !! a)) ->
  fdtable s' = fdtable s ->
  match eh_ei h with Some ei => is_Some (einfos s' !! ei) | None => True end ->
  unwind_ready s' h P F.
Proof.
  intros (Hh & Hsc & [HP _] & Hsafe & Hei) Hh' Hn HP' Hm Hfd Hei'.
  split; [congruence|]. split; [by eapply scope_at_frame|].
  split; [by split|]. split; [|done].
  rewrite Hfd. by eapply actions_safe_frame.
Qed.

(** The last two statements of [die_oom] and [diev]. *)
Lemma unwind_tail {A} s h P F :
  scope_at (nodes s) (eh_rl h) (Some P) F ->
  parent_ok (nodes s) (eh_rl h) (Some P) F ->
  actions_safe (actions F) (mem s) (fdtable s) ->
  (reslist_destroy (eh_rl h) ;;; @siglongjmp A (eh_where h)) s =
  Jump (eh_where h) (unwound h P F s).
Proof.
  intros Hsc Hpar Hsafe.
  rewrite (bind_cong_l _ _ _ _ (reslist_destroy_forest _ _ _ _ Hsc Hpar)).
  rewrite bind_assoc, (bind_Ret _ _ _ _ _ (run_actions_safe _ _ Hsafe)).
  reflexivity.
Qed.

Lemma die_oom_unwinds {A} s h P F :
  unwind_ready s h P F ->
  @die_oom A s = Jump (eh_where h) (unwound h P F (oom_info h (set_current_reslist (Some P) s))).
Proof.
  intros (Hh & Hsc & Hpar & Hsafe & Hei). unfold die_oom.
  unfold bind at 1, get. rewrite Hh.
  destruct Hsc as (Hrl & Hrep & Hnd).
  rewrite (bind_Ret _ _ _ _ _ (get_parent_eq _ _ _ _ Hrl)), bind_modify.
  assert (exists s1, (match eh_ei h with
            | Some ei => fun s => match einfos s !! ei with
                | Some i => Ret tt (set_einfos (<[ei := ErrInfo ENOMEM (Static "no memory")
                                                   (ei_prgname i) (want_msg i)]>) s)
                | None => Fault end
            | None => ret tt end) (set_current_reslist (Some P) s) = Ret tt s1 /\
          s1 = oom_info h (set_current_reslist (Some P) s)) as (s1 & E1 & Es1).
  { unfold oom_info. destruct (eh_ei h) as [ei|]; cbn.
    - destruct Hei as [i Hi]. rewrite Hi. eauto.
    - eauto. }
  rewrite (bind_Ret _ _ _ _ _ E1). subst s1.
  apply unwind_tail.
  - unfold oom_info. destruct (eh_ei h) as [ei|]; [destruct (einfos _ !! ei)|]; by split.
  - unfold oom_info. destruct (eh_ei h) as [ei|]; [destruct (einfos _ !! ei)|]; done.
  - unfold oom_info. destruct (eh_ei h) as [ei|]; [destruct (einfos _ !! ei)|]; done.
Qed.

(** ** Who calls [malloc] *)

Lemma no_alloc_bind {A B} (m : M A) (k : A -> M B) :
  no_alloc m -> (forall a, no_alloc (k a)) -> no_alloc (bind m k).
Proof.
  intros Hm Hk s. specialize (Hm s). unfold bind.
  destruct (m s) as [a s'|w s'| | | |]; try done.
  specialize (Hk a s'). destruct (k a s') as [b s''|w s''| | | |]; try done;
    destruct Hm, Hk; split; congruence.
Qed.

Lemma no_alloc_state {A} (m : M A) :
  (forall s, match m s with
             | Ret _ s' => nmalloc s' = nmalloc s /\ next_addr s' = next_addr s
             | Jump _ _ => False
             | _ => True
             end) -> no_alloc m.
Proof. intros H s. specialize (H s). by destruct (m s). Qed.

Ltac no_alloc_prim := apply no_alloc_state; intros s; repeat inner_case; cbn; done.

Lemma no_alloc_call_cleanup fn d : no_alloc (call_cleanup fn d).
Proof.
  apply no_alloc_state. intros s.
  destruct fn, d; cbn; try done.
  - by destruct (mem s !! a).
  - unfold bind, close; cbn. by destruct (fd_is_open (fdtable s) z).
Qed.

Lemma no_alloc_destroy n : forall rl,
  no_alloc (reslist_destroy_fuel n rl) /\ no_alloc (destroy_contents n rl).
Proof.
  induction n as [|n IH]; intros rl; [by split; intros s|].
  split.
  - rewrite reslist_destroy_fuel_S.
    apply no_alloc_bind; [unfold get_parent; no_alloc_prim|intros p].
    apply no_alloc_bind.
    { destruct p; [unfold LIST_REMOVE; no_alloc_prim|by intros s]. }
    intros _. apply no_alloc_bind; [apply IH|intros _]. by intros s.
  - rewrite destroy_contents_S.
    apply no_alloc_bind; [unfold get_contents; no_alloc_prim|intros cs].
    destruct cs as [|r cs]; [by intros s|].
    apply no_alloc_bind; [unfold LIST_REMOVE; no_alloc_prim|intros _].
    apply no_alloc_bind; [unfold load_node; no_alloc_prim|intros t].
    apply no_alloc_bind; [|intros _; apply IH].
    destruct t as [pp cc|fn d].
    + apply no_alloc_bind; [unfold set_parent; no_alloc_prim|intros _; apply IH].
    + apply no_alloc_bind; [|by intros s].
      destruct fn; [apply no_alloc_call_cleanup|by intros s].
Qed.

Lemma no_alloc_reslist_destroy rl : no_alloc (reslist_destroy rl).
Proof.
  unfold reslist_destroy. apply no_alloc_bind; [by intros s|].
  intros s0. apply no_alloc_destroy.
Qed.

Lemma no_alloc_die_oom {A} : no_alloc (@die_oom A).
Proof.
  unfold die_oom. apply no_alloc_bind; [by intros s|]. intros s0.
  destruct (current_errh s0) as [h|]; [|by intros s].
  apply no_alloc_bind; [unfold get_parent; no_alloc_prim|intros p].
  apply no_alloc_bind; [by intros s|intros _].
  apply no_alloc_bind.
  { destruct (eh_ei h); [no_alloc_prim|by intros s]. }
  intros _. apply no_alloc_bind; [apply no_alloc_reslist_destroy|intros _].
  by intros s.
Qed.

Lemma unwound_frame h P F s :
  nodes (unwound h P F s) = swept (eh_rl h) (Some P) F (nodes s) /\
  next_addr (unwound h P F s) = next_addr s /\
  nmalloc (unwound h P F s) = nmalloc s /\
  current_reslist (unwound h P F s) = current_reslist s /\
  current_errh (unwound h P F s) = current_errh s /\
  einfos (unwound h P F s) = einfos s /\
  nsys (unwound h P F s) = nsys s /\
  trace (unwound h P F s) = trace s ++ concat (map action_events (actions F)) /\
  (forall a, mem (unwound h P F s) !! a =
             if decide (a ∈ freed (actions F)) then None else mem s !! a).
Proof.
  unfold unwound. cbn.
  destruct (after_actions_frame (actions F) s) as (-> & -> & -> & _ & -> & -> & _ & -> & -> & _).
  repeat split; try done.
  - apply after_actions_trace.
  - apply after_actions_mem.
Qed.

Lemma bind_raise {A B} (m : M A) (k : A -> M B) s s' :
  m s = @die_oom A s' -> bind m k s = @die_oom B s'.
Proof.
  intros E. unfold bind. rewrite E, (@die_oom_any_type A B).
  pose proof (die_oom_never_returns (A:=A) s') as H.
  by destruct (@die_oom A s').
Qed.

Lemma xavprintf_with_oom_record die s fmt args str :
  c_format (mem s) fmt args = FmtOk str ->
  fits str ->
  malloc_ok s (nmalloc s) = false ->
  xavprintf_with die fmt args s = die_oom (bump_malloc false s).
Proof.
  intros Hfmt Hfits Hok. unfold xavprintf_with.
  erewrite bind_Ret; cycle 1.
  { unfold vsnprintf_len. rewrite Hfmt, (fmt_count_fits _ Hfits). reflexivity. }
  destruct (Z.ltb_spec (Z.of_nat (String.length str)) 0) as [?|_]; [lia|].
  apply bind_raise. by apply xalloc_oom_record.
Qed.

Lemma xavprintf_with_oom_block die s c p cs fmt args str :
  heap_fresh s ->
  current_reslist s = Some c ->
  nodes s !! c = Some (RES_RESLIST p cs) ->
  c_format (mem s) fmt args = FmtOk str ->
  fits str ->
  malloc_ok s (nmalloc s) = true ->
  malloc_ok s (S (nmalloc s)) = false ->
  xavprintf_with die fmt args s = die_oom (bump_malloc false (registered c p cs s)).
Proof.
  intros Hfr Hcur Hc Hfmt Hfits Hok1 Hok2. unfold xavprintf_with.
  erewrite bind_Ret; cycle 1.
  { unfold vsnprintf_len. rewrite Hfmt, (fmt_count_fits _ Hfits). reflexivity. }
  destruct (Z.ltb_spec (Z.of_nat (String.length str)) 0) as [?|_]; [lia|].
  apply bind_raise. by apply xalloc_oom_block.
Qed.

Lemma append_nil_r (s : string) : s +:+ "" = s.
Proof.
  induction s as [|c s IH]; [done|].
  change (String c (s +:+ "") = String c s). by f_equal.
Qed.

Lemma c_format_percent_s m p str :
  deref_str m p = Some str -> c_format m "%s" [FStr p] = FmtOk str.
Proof. unfold c_format. cbn. intros ->. cbn. by rewrite append_nil_r. Qed.

Lemma diev_fuel_S n A e fmt args :
  diev_fuel (S n) A e fmt args =
  (s <- get ;;
   match current_errh s with
   | None => abort NoHandler
   | Some h =>
       p <- get_parent (eh_rl h) ;;
       modify (set_current_reslist p) ;;;
       match eh_ei h with
       | Some ei =>
           s1 <- get ;;
           match einfos s1 !! ei with
           | Some i =>
               modify (set_einfos (<[ei := ErrInfo e (msg i) (ei_prgname i) (want_msg i)]>)) ;;;
               if want_msg i then
                 m <- xavprintf_with (diev_fuel n ptr) fmt args ;;
                 modify (set_einfos (<[ei := ErrInfo e m (ei_prgname i) (want_msg i)]>)) ;;;
                 s2 <- get ;;
                 pn <- xavprintf_with (diev_fuel n ptr) "%s"%string [FStr (prgname s2)] ;;
                 modify (set_einfos (<[ei := ErrInfo e m pn (want_msg i)]>))
               else ret tt
           | None => fault
           end
       | None => ret tt
       end ;;;
       reslist_destroy (eh_rl h) ;;;
       siglongjmp (eh_where h)
   end).
Proof. reflexivity. Qed.

Lemma bind_get {B} (k : state -> M B) s : bind get k s = k s s.
Proof. reflexivity. Qed.

(** [diev] up to the point where the message is built, or skipped. *)
Lemma diev_start_noinfo {A} s h P cs e fmt args :
  current_errh s = Some h ->
  nodes s !! eh_rl h = Some (RES_RESLIST (Some P) cs) ->
  eh_ei h = None ->
  @diev A e fmt args s =
  (reslist_destroy (eh_rl h) ;;; siglongjmp (eh_where h)) (raised e None P s).
Proof.
  intros Hh Hrl Hei. unfold diev. rewrite diev_fuel_S.
  rewrite bind_get, Hh.
  rewrite (bind_Ret _ _ _ _ _ (get_parent_eq _ _ _ _ Hrl)), bind_modify.
  rewrite Hei. reflexivity.
Qed.

Lemma diev_start_nomsg {A} s h P cs e fmt args ei i :
  current_errh s = Some h ->
  nodes s !! eh_rl h = Some (RES_RESLIST (Some P) cs) ->
  eh_ei h = Some ei ->
  einfos s !! ei = Some i ->
  want_msg i = false ->
  @diev A e fmt args s =
  (reslist_destroy (eh_rl h) ;;; siglongjmp (eh_where h)) (raised e (Some ei) P s).
Proof.
  intros Hh Hrl Hei Hi Hw. unfold diev. rewrite diev_fuel_S.
  rewrite bind_get, Hh.
  rewrite (bind_Ret _ _ _ _ _ (get_parent_eq _ _ _ _ Hrl)), bind_modify.
  rewrite Hei, bind_assoc, bind_get. cbn [einfos set_current_reslist].
  rewrite Hi, bind_assoc, bind_modify, Hw.
  unfold raised. rewrite Hi, ?Hw. reflexivity.
Qed.

Lemma diev_start_msg {A} s h P cs e fmt args ei i :
  current_errh s = Some h ->
  nodes s !! eh_rl h = Some (RES_RESLIST (Some P) cs) ->
  eh_ei h = Some ei ->
  einfos s !! ei = Some i ->
  want_msg i = true ->
  @diev A e fmt args s =
  ((m <- xavprintf_with (diev_fuel 1 ptr) fmt args ;;
    modify (set_einfos (<[ei := ErrInfo e m (ei_prgname i) true]>)) ;;;
    s2 <- get ;;
    pn <- xavprintf_with (diev_fuel 1 ptr) "%s"%string [FStr (prgname s2)] ;;
    modify (set_einfos (<[ei := ErrInfo e m pn true]>))) ;;;
   reslist_destroy (eh_rl h) ;;;
   siglongjmp (eh_where h)) (raised e (Some ei) P s).
Proof.
  intros Hh Hrl Hei Hi Hw. unfold diev. rewrite diev_fuel_S.
  rewrite bind_get, Hh.
  rewrite (bind_Ret _ _ _ _ _ (get_parent_eq _ _ _ _ Hrl)), bind_modify.
  rewrite Hei, bind_assoc, bind_get. cbn [einfos set_current_reslist].
  rewrite Hi, bind_assoc, bind_modify, Hw.
  unfold raised. rewrite Hi, ?Hw. reflexivity.
Qed.

Lemma swept_gone rl pp f h a : a ∈ rl :: addrs f -> swept rl pp f h !! a = None.
Proof. intros Ha. unfold swept. by rewrite lookup_dels, decide_True. Qed.

Lemma swept_parent rl P f h q cs :
  P ∉ rl :: addrs f -> h !! P = Some (RES_RESLIST q cs) ->
  swept rl (Some P) f h !! P = Some (RES_RESLIST q (unlink rl cs)).
Proof.
  intros HP Hh. unfold swept. rewrite lookup_dels, decide_False by done.
  unfold detach. rewrite Hh. apply lookup_insert_eq.
Qed.

Lemma swept_other rl P f h a :
  a ∉ rl :: addrs f -> a <> P -> swept rl (Some P) f h !! a = h !! a.
Proof.
  intros Ha HaP. unfold swept. rewrite lookup_dels, decide_False by done.
  unfold detach. destruct (h !! P) as [[q cs|]|]; try done.
  by rewrite lookup_insert_ne.
Qed.

Lemma landed_unwound s h P F X :
  current_reslist X = Some P ->
  current_errh X = Some h ->
  trace X = trace s ->
  landed s (unwound h P F X) h P F.
Proof.
  intros Hc Hh Ht.
  destruct (unwound_frame h P F X) as (Hn & _ & _ & Hcur & Herrh & _ & _ & Htr & _).
  split; [congruence|]. split; [congruence|]. split.
  - intros a Ha. rewrite Hn. by apply swept_gone.
  - rewrite Htr, calls_app, calls_action_events, closes_app, closes_action_events.
    by rewrite Ht.
Qed.


(** ** [diev] under a handler *)

Section Raise.
Context (s : state) (h : errhandler) (P : addr) (F : forest).
Context (q : option addr) (cs : list addr).
Hypothesis Hready : unwind_ready s h P F.
Hypothesis Hfresh : heap_fresh s.
Hypothesis HP : nodes s !! P = Some (RES_RESLIST q cs).

Lemma tree_below_next a : a ∈ eh_rl h :: addrs F -> (a < next_addr s)%nat.
Proof.
  destruct Hready as (_ & (Hrl & Hrep & _) & _). intros Ha.
  apply elem_of_cons in Ha as [->|Ha].
  - by eapply live_below_next.
  - destruct (repr_lookup _ _ _ _ Hrep Ha) as [n Hn]. by eapply live_below_next.
Qed.

Lemma parent_outside : P ∉ eh_rl h :: addrs F.
Proof. by destruct Hready as (_ & _ & [? _] & _). Qed.

Lemma freed_below_next a : a ∈ freed (actions F) -> (a < next_addr s)%nat.
Proof.
  destruct Hready as (_ & _ & _ & (_ & _ & Hf & _) & _). intros Ha.
  rewrite Forall_forall in Hf. destruct (Hf a Ha) as [b Hb].
  destruct Hfresh as [_ Hm]. by apply Hm in Hb.
Qed.

Lemma raised_frame e oei :
  nodes (raised e oei P s) = nodes s /\ mem (raised e oei P s) = mem s /\
  next_addr (raised e oei P s) = next_addr s /\
  nmalloc (raised e oei P s) = nmalloc s /\
  malloc_ok (raised e oei P s) = malloc_ok s /\
  current_reslist (raised e oei P s) = Some P /\
  current_errh (raised e oei P s) = current_errh s /\
  fdtable (raised e oei P s) = fdtable s /\
  prgname (raised e oei P s) = prgname s /\
  trace (raised e oei P s) = trace s.
Proof. unfold raised. destruct oei as [ei|]; [destruct (einfos s !! ei)|]; done. Qed.

Lemma heap_fresh_raised e oei : heap_fresh (raised e oei P s).
Proof.
  unfold heap_fresh. destruct (raised_frame e oei) as (-> & -> & -> & _). done.
Qed.

Lemma unwind_ready_raised e : unwind_ready (raised e (eh_ei h) P s) h P F.
Proof.
  destruct (raised_frame e (eh_ei h)) as (Hn & Hm & _ & _ & _ & _ & Hh & Hfd & _).
  eapply unwind_ready_frame; [exact Hready|done|by rewrite Hn|by rewrite Hn; eauto
                              |by rewrite Hm|done|].
  destruct Hready as (_ & _ & _ & _ & He).
  unfold raised. destruct (eh_ei h) as [ei|]; [|done].
  destruct He as [i0 E]. rewrite E. cbn. by rewrite lookup_insert_eq.
Qed.

(** No error info: the code has nowhere to go; the scope is unwound. *)
Lemma diev_noinfo {A} e fmt args :
  eh_ei h = None ->
  @diev A e fmt args s = Jump (eh_where h) (unwound h P F (raised e None P s)).
Proof.
  intros Hei. pose proof (unwind_ready_raised e) as (Hh & Hsc & Hpar & Hsafe & _).
  rewrite Hei in *.
  destruct Hready as (Hh0 & (Hrl & _) & _).
  rewrite (diev_start_noinfo _ _ _ _ _ _ _ Hh0 Hrl Hei).
  by apply unwind_tail.
Qed.

(** Error info without [want_msg]: only the code is stored. *)
Lemma diev_nomsg {A} e fmt args ei i :
  eh_ei h = Some ei -> einfos s !! ei = Some i -> want_msg i = false ->
  @diev A e fmt args s = Jump (eh_where h) (unwound h P F (raised e (Some ei) P s)).
Proof.
  intros Hei Hi Hw. pose proof (unwind_ready_raised e) as (Hh & Hsc & Hpar & Hsafe & _).
  rewrite Hei in *.
  destruct Hready as (Hh0 & (Hrl & _) & _).
  rewrite (diev_start_nomsg _ _ _ _ _ _ _ _ _ Hh0 Hrl Hei Hi Hw).
  by apply unwind_tail.
Qed.

Section Message.
Context (e : Z) (fmt : string) (args : list farg) (ei : addr) (i : errinfo).
Context (str pn : string).
Hypothesis Hei : eh_ei h = Some ei.
Hypothesis Hi : einfos s !! ei = Some i.
Hypothesis Hw : want_msg i = true.
Hypothesis Hfmt : c_format (mem s) fmt args = FmtOk str.
Hypothesis Hpn : deref_str (mem s) (prgname s) = Some pn.

Let s0 := raised e (Some ei) P s.

Lemma raised_eq :
  s0 = set_einfos (<[ei := ErrInfo e (msg i) (ei_prgname i) (want_msg i)]>)
                  (set_current_reslist (Some P) s).
Proof. unfold s0, raised. by rewrite Hi. Qed.

(** The first formatting step, when it has memory. *)
Lemma diev_first_ok :
  fits str ->
  malloc_ok s (nmalloc s) = true ->
  malloc_ok s (S (nmalloc s)) = true ->
  xavprintf_with (diev_fuel 1 ptr) fmt args s0 =
  Ret (Heap (S (next_addr s))) (printed P q cs str s0).
Proof.
  intros Hfits Hok1 Hok2.
  rewrite (xavprintf_with_ok _ s0 P q cs fmt args str); try done.
  - by rewrite raised_eq.
  - apply heap_fresh_raised.
  - by rewrite raised_eq.
  - by rewrite raised_eq.
  - by rewrite raised_eq.
  - by rewrite raised_eq.
  - by rewrite raised_eq.
Qed.

Let s2 := with_msg e ei i P q cs str s.

Lemma with_msg_frame :
  heap_fresh s2 /\
  current_reslist s2 = Some P /\
  nodes s2 !! P = Some (RES_RESLIST q (next_addr s :: cs)) /\
  next_addr s2 = S (S (next_addr s)) /\
  nmalloc s2 = S (S (nmalloc s)) /\
  malloc_ok s2 = malloc_ok s /\
  prgname s2 = prgname s /\
  c_format (mem s2) "%s" [FStr (prgname s)] = FmtOk pn.
Proof.
  pose proof (live_below_next _ _ _ Hfresh HP) as Hlt.
  split.
  { change (heap_fresh (printed P q cs str s0)).
    apply heap_fresh_printed; [apply heap_fresh_raised|].
    rewrite raised_eq. exact HP. }
  unfold s2, with_msg. fold s0. rewrite raised_eq.
  split; [|split; [|split; [|split; [|split; [|split]]]]]; try done.
  - cbn. rewrite lookup_insert_ne, lookup_insert_eq by lia. done.
  - apply c_format_percent_s. cbn.
    rewrite insert_insert_eq. apply deref_str_insert; [|done].
    apply heap_fresh_mem; [done|lia].
Qed.

(** The second formatting step, when it has memory. *)
Lemma diev_second_ok :
  fits pn ->
  malloc_ok s (S (S (nmalloc s))) = true ->
  malloc_ok s (S (S (S (nmalloc s)))) = true ->
  xavprintf_with (diev_fuel 1 ptr) "%s" [FStr (prgname s)] s2 =
  Ret (Heap (S (S (S (next_addr s))))) (printed P q (next_addr s :: cs) pn s2).
Proof.
  intros Hfits Hok1 Hok2.
  destruct with_msg_frame as (Hfr2 & Hcur2 & HP2 & Hn2 & Hm2 & Hok & Hpg & Hf2).
  rewrite (xavprintf_with_ok _ s2 P q (next_addr s :: cs) _ _ pn); try done.
  - by rewrite Hn2.
  - by rewrite Hok, Hm2.
  - by rewrite Hok, Hm2.
Qed.

(** The states in which the message is being built still unwind. *)
Lemma unwind_ready_step s' :
  current_errh s' = current_errh s ->
  (forall a, (a < next_addr s)%nat -> a <> P -> nodes s' !! a = nodes s !! a) ->
  (exists q' cs', nodes s' !! P = Some (RES_RESLIST q' cs')) ->
  (forall a, is_Some (mem s !! a) -> is_Some (mem s' !! a)) ->
  fdtable s' = fdtable s ->
  is_Some (einfos s' !! ei) ->
  unwind_ready s' h P F.
Proof.
  intros Hh' Hn HP' Hm Hfd Hei'.
  eapply unwind_ready_frame; [exact Hready|done| |done|done|done|].
  - intros a Ha. apply Hn; [by apply tree_below_next|].
    intros ->. by apply parent_outside.
  - by rewrite Hei.
Qed.

Lemma unwind_ready_messaged :
  unwind_ready (messaged e ei i P q cs str pn s) h P F.
Proof.
  destruct with_msg_frame as (Hfr2 & Hcur2 & HP2 & Hn2 & _).
  destruct (printed_frame s0 P q cs str (heap_fresh_raised _ _)
              ltac:(rewrite raised_eq; exact HP)) as (Hn1 & HP1 & _ & Hm1 & _).
  destruct (printed_frame s2 P q (next_addr s :: cs) pn Hfr2 HP2)
    as (Hn3 & HP3 & _ & Hm3 & _).
  assert (next_addr s0 = next_addr s) as Hs0 by (by rewrite raised_eq).
  apply unwind_ready_step.
  - unfold messaged, with_msg. fold s0. by rewrite raised_eq.
  - intros a Ha HaP. unfold messaged. fold s2. cbn [nodes set_einfos].
    rewrite Hn3 by (done || lia).
    unfold s2, with_msg. fold s0. cbn [nodes set_einfos].
    rewrite Hn1 by (done || lia). by rewrite raised_eq.
  - unfold messaged. fold s2. cbn [nodes set_einfos]. eauto.
  - intros a Ha. unfold messaged. fold s2. cbn [mem set_einfos].
    apply Hm3. unfold s2, with_msg. fold s0. cbn [mem set_einfos].
    apply Hm1. by rewrite raised_eq.
  - unfold messaged, with_msg. fold s0. by rewrite raised_eq.
  - unfold messaged. cbn. by rewrite lookup_insert_eq.
Qed.

(** The message and the program name are built, and the scope unwound. *)
Lemma diev_msg_ok {A} :
  fits str -> fits pn ->
  malloc_ok s (nmalloc s) = true ->
  malloc_ok s (S (nmalloc s)) = true ->
  malloc_ok s (S (S (nmalloc s))) = true ->
  malloc_ok s (S (S (S (nmalloc s)))) = true ->
  @diev A e fmt args s =
  Jump (eh_where h) (unwound h P F (messaged e ei i P q cs str pn s)).
Proof.
  intros Hf1 Hf2 Hok0 Hok1 Hok2 Hok3.
  pose proof unwind_ready_messaged as (_ & Hsc & Hpar & Hsafe & _).
  destruct Hready as (Hh0 & (Hrl & _) & _).
  rewrite (diev_start_msg _ _ _ _ _ _ _ _ _ Hh0 Hrl Hei Hi Hw). fold s0.
  rewrite bind_assoc, (bind_Ret _ _ _ _ _ (diev_first_ok Hf1 Hok0 Hok1)).
  rewrite bind_assoc, bind_modify.
  rewrite bind_assoc, bind_get.
  change (set_einfos _ (printed P q cs str s0)) with s2.
  destruct with_msg_frame as (_ & _ & _ & _ & _ & _ & Hpg & _). rewrite Hpg.
  rewrite bind_assoc, (bind_Ret _ _ _ _ _ (diev_second_ok Hf2 Hok2 Hok3)).
  rewrite bind_modify.
  by apply unwind_tail.
Qed.

(** [die_oom] called while the message is being built: in any state
    that still unwinds and has the slot [ei], the handler gets the
    out-of-memory code and the static text. *)
Lemma die_oom_in_message {A} s' i' :
  unwind_ready s' h P F ->
  einfos s' !! ei = Some i' ->
  @die_oom A s' =
  Jump (eh_where h)
    (unwound h P F
       (set_einfos (<[ei := ErrInfo ENOMEM (Static "no memory") (ei_prgname i') (want_msg i')]>)
          (set_current_reslist (Some P) s'))).
Proof.
  intros Hr Hi'. rewrite (die_oom_unwinds _ _ _ _ Hr).
  unfold oom_info. rewrite Hei. cbn [einfos set_current_reslist]. by rewrite Hi'.
Qed.

(** Out of memory at the first, second, third or fourth [malloc] of
    the message. *)
Lemma diev_oom_0 {A} :
  fits str ->
  malloc_ok s (nmalloc s) = false ->
  @diev A e fmt args s = die_oom (bump_malloc false s0).
Proof.
  intros Hf1 Hok0. destruct Hready as (Hh0 & (Hrl & _) & _).
  rewrite (diev_start_msg _ _ _ _ _ _ _ _ _ Hh0 Hrl Hei Hi Hw). fold s0.
  apply bind_raise, bind_raise.
  apply (xavprintf_with_oom_record _ s0 fmt args str); [by rewrite raised_eq|done|by rewrite raised_eq].
Qed.

Lemma diev_oom_1 {A} :
  fits str ->
  malloc_ok s (nmalloc s) = true ->
  malloc_ok s (S (nmalloc s)) = false ->
  @diev A e fmt args s = die_oom (bump_malloc false (registered P q cs s0)).
Proof.
  intros Hf1 Hok0 Hok1. destruct Hready as (Hh0 & (Hrl & _) & _).
  rewrite (diev_start_msg _ _ _ _ _ _ _ _ _ Hh0 Hrl Hei Hi Hw). fold s0.
  apply bind_raise, bind_raise.
  apply (xavprintf_with_oom_block _ s0 P q cs fmt args str);
    [apply heap_fresh_raised|by rewrite raised_eq|by rewrite raised_eq|by rewrite raised_eq
    |done|by rewrite raised_eq..].
Qed.

Lemma diev_oom_2 {A} :
  fits str -> fits pn ->
  malloc_ok s (nmalloc s) = true ->
  malloc_ok s (S (nmalloc s)) = true ->
  malloc_ok s (S (S (nmalloc s))) = false ->
  @diev A e fmt args s = die_oom (bump_malloc false s2).
Proof.
  intros Hf1 Hfp Hok0 Hok1 Hok2. destruct Hready as (Hh0 & (Hrl & _) & _).
  rewrite (diev_start_msg _ _ _ _ _ _ _ _ _ Hh0 Hrl Hei Hi Hw). fold s0.
  rewrite bind_assoc, (bind_Ret _ _ _ _ _ (diev_first_ok Hf1 Hok0 Hok1)).
  rewrite bind_assoc, bind_modify.
  rewrite bind_assoc, bind_get.
  change (set_einfos _ (printed P q cs str s0)) with s2.
  destruct with_msg_frame as (Hfr2 & Hcur2 & HP2 & Hn2 & Hm2 & Hmo & Hpg & Hf2).
  rewrite Hpg. apply bind_raise, bind_raise.
  apply (xavprintf_with_oom_record _ s2 _ _ pn); [done|done|].
  by rewrite Hmo, Hm2.
Qed.

Lemma diev_oom_3 {A} :
  fits str -> fits pn ->
  malloc_ok s (nmalloc s) = true ->
  malloc_ok s (S (nmalloc s)) = true ->
  malloc_ok s (S (S (nmalloc s))) = true ->
  malloc_ok s (S (S (S (nmalloc s)))) = false ->
  @diev A e fmt args s =
  die_oom (bump_malloc false (registered P q (next_addr s :: cs) s2)).
Proof.
  intros Hf1 Hfp Hok0 Hok1 Hok2 Hok3. destruct Hready as (Hh0 & (Hrl & _) & _).
  rewrite (diev_start_msg _ _ _ _ _ _ _ _ _ Hh0 Hrl Hei Hi Hw). fold s0.
  rewrite bind_assoc, (bind_Ret _ _ _ _ _ (diev_first_ok Hf1 Hok0 Hok1)).
  rewrite bind_assoc, bind_modify.
  rewrite bind_assoc, bind_get.
  change (set_einfos _ (printed P q cs str s0)) with s2.
  destruct with_msg_frame as (Hfr2 & Hcur2 & HP2 & Hn2 & Hm2 & Hmo & Hpg & Hf2).
  rewrite Hpg. apply bind_raise, bind_raise.
  apply (xavprintf_with_oom_block _ s2 P q (next_addr s :: cs) _ _ pn); try done.
  - by rewrite Hmo, Hm2.
  - by rewrite Hmo, Hm2.
Qed.

Lemma oom_lands {A} s' i' n :
  unwind_ready s' h P F ->
  einfos s' !! ei = Some i' ->
  ei_prgname i' = ei_prgname i ->
  want_msg i' = true ->
  trace s' = trace s ->
  nmalloc s' = n ->
  exists s'',
    @die_oom A s' = Jump (eh_where h) s'' /\
    landed s s'' h P F /\
    einfos s'' !! ei = Some (ErrInfo ENOMEM (Static "no memory") (ei_prgname i) true) /\
    nmalloc s'' = n.
Proof.
  intros Hr Hi' Hp' Hw' Ht Hn. eexists. split; [by apply die_oom_in_message|].
  pose proof Hr as (Hh' & _).
  match goal with |- context [unwound h P F ?X] =>
    destruct (unwound_frame h P F X) as (_ & _ & Hnm & _ & _ & Hein & _) end.
  split; [|split].
  - by apply landed_unwound.
  - rewrite Hein. cbn. by rewrite lookup_insert_eq, Hp', Hw'.
  - by rewrite Hnm.
Qed.

(** Out of memory at the [k]-th of the four calls of [malloc] that build
    the message: the handler still gets a filled-in error info, and no
    further [malloc] is called. *)
Lemma diev_oom_lands {A} (k : nat) :
  fits str -> fits pn ->
  (k < 4)%nat ->
  (forall j, (j < k)%nat -> malloc_ok s (nmalloc s + j)%nat = true) ->
  malloc_ok s (nmalloc s + k)%nat = false ->
  exists s',
    @diev A e fmt args s = Jump (eh_where h) s' /\
    landed s s' h P F /\
    einfos s' !! ei = Some (ErrInfo ENOMEM (Static "no memory") (ei_prgname i) true) /\
    nmalloc s' = (nmalloc s + k + 1)%nat.
Proof.
  intros Hf1 Hfp Hk Hbefore Hfail.
  pose proof (live_below_next _ _ _ Hfresh HP) as HPlt.
  assert (next_addr s0 = next_addr s) as Hs0 by (by rewrite raised_eq).
  assert (nodes s0 !! P = Some (RES_RESLIST q cs)) as HP0 by (by rewrite raised_eq).
  destruct with_msg_frame as (Hfr2 & Hcur2 & HP2 & Hn2 & Hm2 & Hmo & Hpg & Hf2).
  destruct (printed_frame s0 P q cs str (heap_fresh_raised _ _) HP0)
    as (Hn1 & HP1 & _ & Hm1 & _).
  destruct (registered_nodes s0 P q cs (heap_fresh_raised _ _) HP0) as (Hr1 & Hr1P & _).
  destruct (registered_nodes s2 P q (next_addr s :: cs) Hfr2 HP2) as (Hr3 & Hr3P & _).
  assert (forall j, (j < k)%nat -> malloc_ok s (j + nmalloc s)%nat = true) as Hb'
    by (intros j Hj; rewrite Nat.add_comm; by apply Hbefore).
  rewrite (Nat.add_comm (nmalloc s) k) in Hfail.
  destruct k as [|[|[|[|k]]]]; [| | | |lia]; cbn in Hfail.
  - rewrite (diev_oom_0 Hf1 Hfail).
    replace (nmalloc s + 0 + 1)%nat with (S (nmalloc s)) by lia.
    apply (oom_lands _ (ErrInfo e (msg i) (ei_prgname i) (want_msg i)));
      [|by rewrite raised_eq; cbn; rewrite lookup_insert_eq|done|exact Hw
       |by rewrite raised_eq|by rewrite raised_eq].
    apply unwind_ready_step.
    + by rewrite raised_eq.
    + intros a _ _. by rewrite raised_eq.
    + rewrite raised_eq. cbn. eauto.
    + intros a Ha. by rewrite raised_eq.
    + by rewrite raised_eq.
    + rewrite raised_eq. cbn. by rewrite lookup_insert_eq.
  - rewrite (diev_oom_1 Hf1 (Hb' 0%nat ltac:(lia)) Hfail).
    replace (nmalloc s + 1 + 1)%nat with (S (S (nmalloc s))) by lia.
    apply (oom_lands _ (ErrInfo e (msg i) (ei_prgname i) (want_msg i)));
      [|by rewrite raised_eq; cbn; rewrite lookup_insert_eq|done|exact Hw
       |by rewrite raised_eq|by rewrite raised_eq].
    apply unwind_ready_step.
    + by rewrite raised_eq.
    + intros a Ha HaP. cbn [nodes bump_malloc]. rewrite Hr1 by (done || lia).
      by rewrite raised_eq.
    + cbn [nodes bump_malloc]. eauto.
    + intros a Ha. by rewrite raised_eq.
    + by rewrite raised_eq.
    + rewrite raised_eq. cbn. by rewrite lookup_insert_eq.
  - rewrite (diev_oom_2 Hf1 Hfp (Hb' 0%nat ltac:(lia)) (Hb' 1%nat ltac:(lia)) Hfail).
    replace (nmalloc s + 2 + 1)%nat with (S (S (S (nmalloc s)))) by lia.
    apply (oom_lands _ (ErrInfo e (Heap (S (next_addr s))) (ei_prgname i) true));
      [|by unfold s2, with_msg; cbn; rewrite lookup_insert_eq|done|done
       |by unfold s2, with_msg; fold s0; rewrite raised_eq
       |by cbn [nmalloc bump_malloc registered set_nodes]; rewrite Hm2].
    apply unwind_ready_step.
    + unfold s2, with_msg. fold s0. by rewrite raised_eq.
    + intros a Ha HaP. unfold s2, with_msg. fold s0. cbn [nodes bump_malloc set_einfos].
      rewrite Hn1 by (done || lia). by rewrite raised_eq.
    + cbn [nodes bump_malloc]. eauto.
    + intros a Ha. unfold s2, with_msg. fold s0. cbn [mem bump_malloc set_einfos].
      apply Hm1. by rewrite raised_eq.
    + unfold s2, with_msg. fold s0. by rewrite raised_eq.
    + unfold s2, with_msg. cbn. by rewrite lookup_insert_eq.
  - rewrite (diev_oom_3 Hf1 Hfp (Hb' 0%nat ltac:(lia)) (Hb' 1%nat ltac:(lia))
               (Hb' 2%nat ltac:(lia)) Hfail).
    replace (nmalloc s + 3 + 1)%nat with (S (S (S (S (nmalloc s))))) by lia.
    apply (oom_lands _ (ErrInfo e (Heap (S (next_addr s))) (ei_prgname i) true));
      [|by unfold s2, with_msg; cbn; rewrite lookup_insert_eq|done|done
       |by unfold s2, with_msg; fold s0; rewrite raised_eq
       |by cbn [nmalloc bump_malloc registered set_nodes]; rewrite Hm2].
    apply unwind_ready_step.
    + unfold s2, with_msg. fold s0. by rewrite raised_eq.
    + intros a Ha HaP. cbn [nodes bump_malloc]. rewrite Hr3 by (done || lia).
      unfold s2, with_msg. fold s0. cbn [nodes bump_malloc set_einfos].
      rewrite Hn1 by (done || lia). by rewrite raised_eq.
    + cbn [nodes bump_malloc]. eauto.
    + intros a Ha. unfold s2, with_msg. fold s0. cbn [mem bump_malloc set_einfos].
      apply Hm1. by rewrite raised_eq.
    + unfold s2, with_msg. fold s0. by rewrite raised_eq.
    + unfold s2, with_msg. cbn. by rewrite lookup_insert_eq.
Qed.
End Message.
End Raise.

(** C5.  [diev] under a handler whose scope hangs below [P]: the current
    scope is moved to [P] first, so whatever the message needs is allocated
    in [P] and outlives the unwind; the code is stored in the error info if
    there is one, the formatted message and the program name only when
    [want_msg] is set; then the scope of the handler is destroyed and control
    goes to its jump buffer. *)
Theorem diev_populates_and_unwinds (A : Type) (s : state) (h : errhandler) (P : addr)
    (F : forest) (q : option addr) (cs : list addr) (e : Z) (fmt : string)
    (args : list farg) :
  unwind_ready s h P F ->
  heap_fresh s ->
  nodes s !! P = Some (RES_RESLIST q cs) ->
  match eh_ei h with
  | None =>
      exists s',
        @diev A e fmt args s = Jump (eh_where h) s' /\ landed s s' h P F /\
        einfos s' = einfos s /\ nmalloc s' = nmalloc s
  | Some ei =>
      forall i, einfos s !! ei = Some i ->
      if want_msg i then
        forall str pn,
          c_format (mem s) fmt args = FmtOk str ->
          deref_str (mem s) (prgname s) = Some pn ->
          fits str -> fits pn ->
          malloc_ok s (nmalloc s) = true ->
          malloc_ok s (S (nmalloc s)) = true ->
          malloc_ok s (S (S (nmalloc s))) = true ->
          malloc_ok s (S (S (S (nmalloc s)))) = true ->
          let r1 := next_addr s in
          let m1 := S (next_addr s) in
          let r2 := S (S (next_addr s)) in
          let m2 := S (S (S (next_addr s))) in
          exists s',
            @diev A e fmt args s = Jump (eh_where h) s' /\ landed s s' h P F /\
            einfos s' !! ei = Some (ErrInfo e (Heap m1) (Heap m2) true) /\
            mem s' !! m1 = Some (Block (Z.of_nat (String.length str) + 1) (PBytes str)) /\
            mem s' !! m2 = Some (Block (Z.of_nat (String.length pn) + 1) (PBytes pn)) /\
            nodes s' !! P = Some (RES_RESLIST q (r2 :: r1 :: unlink (eh_rl h) cs)) /\
            nodes s' !! r1 = Some (RES_CLEANUP (Some fn_free) (Heap m1)) /\
            nodes s' !! r2 = Some (RES_CLEANUP (Some fn_free) (Heap m2))
      else
        exists s',
          @diev A e fmt args s = Jump (eh_where h) s' /\ landed s s' h P F /\
          einfos s' !! ei = Some (ErrInfo e (msg i) (ei_prgname i) false) /\
          nmalloc s' = nmalloc s
  end.
Proof.
  intros Hready Hfresh HP.
  pose proof Hready as (Hh & _).
  destruct (eh_ei h) as [ei|] eqn:Hei.
  - intros i Hi. destruct (want_msg i) eqn:Hw.
    + intros str pn Hfmt Hpn Hf1 Hf2 Hok0 Hok1 Hok2 Hok3 r1 m1 r2 m2.
      eexists. split; [by eapply (diev_msg_ok s h P F q cs)|].
      set (X := messaged e ei i P q cs str pn s).
      destruct (unwound_frame h P F X) as (Hn & _ & _ & _ & _ & Hein & _ & _ & Hmem).
      assert (raised e (Some ei) P s =
              set_einfos (<[ei := ErrInfo e (msg i) (ei_prgname i) (want_msg i)]>)
                (set_current_reslist (Some P) s)) as Hraised
        by (unfold raised; by rewrite Hi).
      pose proof (live_below_next _ _ _ Hfresh HP) as HPlt.
      pose proof (parent_outside s h P F Hready) as HPout.
      assert (forall a, a ∈ eh_rl h :: addrs F -> (a < next_addr s)%nat) as Hbelow
        by (intros a; eapply tree_below_next; eauto).
      assert (forall a, a ∈ freed (actions F) -> (a < next_addr s)%nat) as Hfbelow
        by (intros a; eapply freed_below_next; eauto).
      split; [|split; [|split; [|split; [|split; [|split]]]]].
      * apply landed_unwound; unfold X, messaged, with_msg; by rewrite Hraised.
      * rewrite Hein. unfold X, messaged. cbn. by rewrite lookup_insert_eq.
      * rewrite Hmem, decide_False by (intros Hin; apply Hfbelow in Hin; unfold m1 in Hin; lia).
        unfold X, messaged, with_msg. rewrite Hraised. cbn.
        rewrite !lookup_insert_ne by (unfold m1; lia). unfold m1. by rewrite lookup_insert_eq.
      * rewrite Hmem, decide_False by (intros Hin; apply Hfbelow in Hin; unfold m2 in Hin; lia).
        unfold X, messaged, with_msg. rewrite Hraised. cbn.
        unfold m2. by rewrite lookup_insert_eq.
      * rewrite Hn.
        erewrite swept_parent; [|done|].
        2:{ unfold X, messaged, with_msg. rewrite Hraised. cbn.
            rewrite lookup_insert_ne by lia. apply lookup_insert_eq. }
        cbn. assert (eh_rl h < next_addr s)%nat as Hrl by (apply Hbelow; left).
        rewrite !decide_False by lia. done.
      * rewrite Hn, swept_other.
        -- unfold X, messaged, with_msg. rewrite Hraised. cbn.
           rewrite !lookup_insert_ne by (unfold r1; lia). unfold r1.
           by rewrite lookup_insert_eq.
        -- intros Hin. apply Hbelow in Hin. unfold r1 in Hin. lia.
        -- unfold r1. lia.
      * rewrite Hn, swept_other.
        -- unfold X, messaged, with_msg. rewrite Hraised. cbn.
           unfold r2. by rewrite lookup_insert_eq.
        -- intros Hin. apply Hbelow in Hin. unfold r2 in Hin. lia.
        -- unfold r2. lia.
    + eexists. split; [by eapply (diev_nomsg s h P F)|].
      assert (raised e (Some ei) P s =
              set_einfos (<[ei := ErrInfo e (msg i) (ei_prgname i) (want_msg i)]>)
                (set_current_reslist (Some P) s)) as Hraised
        by (unfold raised; by rewrite Hi).
      destruct (unwound_frame h P F (raised e (Some ei) P s))
        as (_ & _ & Hnm & _ & _ & Hein & _).
      split; [|split].
      * apply landed_unwound; by rewrite Hraised.
      * rewrite Hein, Hraised. cbn. by rewrite lookup_insert_eq, Hw.
      * rewrite Hnm, Hraised. done.
  - eexists. split; [by eapply (diev_noinfo s h P F)|].
    destruct (unwound_frame h P F (raised e None P s))
      as (_ & _ & Hnm & _ & _ & Hein & _).
    split; [|split]; [by apply landed_unwound|by rewrite Hein|by rewrite Hnm].
Qed.

(** ** Out of memory *)

Lemma xcalloc_oom s sz s1 : xalloc sz s = die_oom s1 -> xcalloc sz s = die_oom s1.
Proof. intros H. unfold xcalloc. by apply bind_raise. Qed.

(** C3.  [die_oom] never calls [malloc] and never returns.  Under a handler
    whose scope can be unwound it stores [ENOMEM] and the static text
    ["no memory"] in the error info, if there is one, destroys the scope of
    the handler and jumps to it.  Every allocating primitive hands a failed
    [malloc] to [die_oom], whether it is the one for the cleanup record or
    scope or the one for the block.  When [diev] runs out of memory at any of
    the four calls of [malloc] that build its message, the handler is still
    reached, with [ENOMEM] and ["no memory"] in the error info, and the
    failed call is the last call of [malloc]. *)
Theorem die_oom_allocation_free :
  (forall A s,
     match @die_oom A s with
     | Ret _ _ => False
     | Jump _ s' => nmalloc s' = nmalloc s /\ next_addr s' = next_addr s
     | _ => True
     end) /\
  (forall A s h P F,
     unwind_ready s h P F ->
     exists s',
       @die_oom A s = Jump (eh_where h) s' /\ landed s s' h P F /\
       nmalloc s' = nmalloc s /\
       match eh_ei h with
       | Some ei =>
           exists i, einfos s !! ei = Some i /\
             einfos s' !! ei =
               Some (ErrInfo ENOMEM (Static "no memory") (ei_prgname i) (want_msg i))
       | None => einfos s' = einfos s
       end) /\
  (forall s,
     malloc_ok s (nmalloc s) = false ->
     reslist_push_new s = die_oom (bump_malloc false s) /\
     cleanup_allocate s = die_oom (bump_malloc false s) /\
     (forall sz, xalloc sz s = die_oom (bump_malloc false s) /\
                 xcalloc sz s = die_oom (bump_malloc false s)) /\
     (forall fmt args str, c_format (mem s) fmt args = FmtOk str -> fits str ->
        xavprintf fmt args s = die_oom (bump_malloc false s))) /\
  (forall s c p cs,
     heap_fresh s -> current_reslist s = Some c ->
     nodes s !! c = Some (RES_RESLIST p cs) ->
     malloc_ok s (nmalloc s) = true ->
     malloc_ok s (S (nmalloc s)) = false ->
     (forall sz, xalloc sz s = die_oom (bump_malloc false (registered c p cs s)) /\
                 xcalloc sz s = die_oom (bump_malloc false (registered c p cs s))) /\
     (forall fmt args str, c_format (mem s) fmt args = FmtOk str -> fits str ->
        xavprintf fmt args s = die_oom (bump_malloc false (registered c p cs s)))) /\
  (forall A s h P F q cs e fmt args ei i str pn k,
     unwind_ready s h P F -> heap_fresh s ->
     nodes s !! P = Some (RES_RESLIST q cs) ->
     eh_ei h = Some ei -> einfos s !! ei = Some i -> want_msg i = true ->
     c_format (mem s) fmt args = FmtOk str ->
     deref_str (mem s) (prgname s) = Some pn ->
     fits str -> fits pn ->
     (k < 4)%nat ->
     (forall j, (j < k)%nat -> malloc_ok s (nmalloc s + j)%nat = true) ->
     malloc_ok s (nmalloc s + k)%nat = false ->
     exists s',
       @diev A e fmt args s = Jump (eh_where h) s' /\ landed s s' h P F /\
       einfos s' !! ei = Some (ErrInfo ENOMEM (Static "no memory") (ei_prgname i) true) /\
       nmalloc s' = (nmalloc s + k + 1)%nat).
Proof.
  split; [|split; [|split; [|split]]].
  - intros A s. pose proof (@no_alloc_die_oom A s) as H1.
    pose proof (@die_oom_never_returns A s) as H2.
    by destruct (@die_oom A s).
  - intros A s h P F Hr. eexists. split; [by apply die_oom_unwinds|].
    pose proof Hr as (Hh & _ & _ & _ & Hei).
    match goal with |- context [unwound h P F ?X] =>
      destruct (unwound_frame h P F X) as (_ & _ & Hnm & _ & _ & Hein & _);
      assert (current_reslist X = Some P /\ current_errh X = Some h /\
              trace X = trace s /\ nmalloc X = nmalloc s) as (Hc & Hh' & Ht & Hn)
    end.
    { unfold oom_info. destruct (eh_ei h) as [ei|]; [destruct (einfos _ !! ei)|]; done. }
    split; [by apply landed_unwound|]. split; [congruence|].
    rewrite Hein. unfold oom_info. destruct (eh_ei h) as [ei|]; [|done].
    destruct Hei as [i Hi]. exists i. split; [done|].
    cbn [einfos set_current_reslist]. rewrite Hi. cbn. by rewrite lookup_insert_eq.
  - intros s Hok. split; [by apply reslist_push_new_oom|].
    split; [by apply cleanup_allocate_oom|]. split.
    + intros sz. split; [by apply xalloc_oom_record|by apply xcalloc_oom, xalloc_oom_record].
    + intros fmt args str Hfmt Hfits. by eapply xavprintf_with_oom_record.
  - intros s c p cs Hfr Hcur Hc Hok1 Hok2. split.
    + intros sz. split; [by apply xalloc_oom_block|by apply xcalloc_oom, xalloc_oom_block].
    + intros fmt args str Hfmt Hfits. by eapply xavprintf_with_oom_block.
  - intros A s h P F q cs e fmt args ei i str pn k Hr Hfr HP Hei Hi Hw Hfmt Hpn Hfits Hfp Hk Hb Hf.
    by eapply (diev_oom_lands s h P F q cs Hr Hfr HP e fmt args ei i str pn).
Qed.

(** ** The descriptor table *)

Lemma lowest_free_ge tbl : forall from, (from <= lowest_free tbl from)%nat.
Proof.
  induction tbl as [|b tbl IH]; intros from; cbn; [lia|].
  destruct from as [|k]; [destruct b; lia|].
  specialize (IH k). lia.
Qed.

Lemma lowest_free_free tbl : forall from, tbl !! lowest_free tbl from <> Some true.
Proof.
  induction tbl as [|b tbl IH]; intros from; cbn; [done|].
  destruct from as [|k].
  - destruct b; cbn; [apply IH|done].
  - cbn. apply IH.
Qed.

Lemma fd_is_open_spec tbl fd :
  fd_is_open tbl fd = true <-> 0 <= fd /\ tbl !! Z.to_nat fd = Some true.
Proof.
  unfold fd_is_open. by rewrite andb_true_iff, Z.leb_le, bool_decide_eq_true.
Qed.

Lemma fd_is_open_of_nat tbl i :
  fd_is_open tbl (Z.of_nat i) = true <-> tbl !! i = Some true.
Proof.
  rewrite fd_is_open_spec, Nat2Z.id. split; [by intros [_ ?]|]. split; [lia|done].
Qed.

Lemma mark_open_lookup_eq tbl i : mark_open tbl i !! i = Some true.
Proof.
  unfold mark_open. case_decide as Hi.
  - by apply list_lookup_insert_eq.
  - rewrite lookup_app_r by lia. rewrite lookup_app_r; rewrite length_replicate; [|lia].
    by replace (i - length tbl - (i - length tbl))%nat with 0%nat by lia.
Qed.

Lemma mark_open_lookup_ne tbl i j :
  tbl !! j = Some true -> mark_open tbl i !! j = Some true.
Proof.
  intros Hj. unfold mark_open. case_decide as Hi.
  - destruct (decide (i = j)) as [->|Hne].
    + by apply list_lookup_insert_eq.
    + by rewrite list_lookup_insert_ne.
  - by apply lookup_app_l_Some.
Qed.

Lemma mark_open_lookup_other tbl i j :
  i <> j -> mark_open tbl i !! j = Some true -> tbl !! j = Some true.
Proof.
  intros Hne. unfold mark_open. case_decide as Hi.
  - by rewrite list_lookup_insert_ne.
  - destruct (decide (j < length tbl)%nat) as [Hj|Hj].
    + by rewrite lookup_app_l.
    + rewrite lookup_app_r by lia.
      destruct (decide (j - length tbl < i - length tbl)%nat) as [Hlt|Hge].
      * rewrite lookup_app_l by (by rewrite length_replicate).
        intros H. apply lookup_replicate in H as [? _]. done.
      * rewrite lookup_app_r by (rewrite length_replicate; lia).
        rewrite length_replicate.
        destruct (j - length tbl - (i - length tbl))%nat as [|n] eqn:E; [lia|].
        by destruct n.
Qed.

Lemma fd_is_open_mark_eq tbl i : fd_is_open (mark_open tbl i) (Z.of_nat i) = true.
Proof. apply fd_is_open_of_nat, mark_open_lookup_eq. Qed.

Lemma fd_is_open_mark_mono tbl i fd :
  fd_is_open tbl fd = true -> fd_is_open (mark_open tbl i) fd = true.
Proof.
  rewrite !fd_is_open_spec. intros [H0 H]. split; [done|]. by apply mark_open_lookup_ne.
Qed.

Lemma fd_is_open_lowest_free tbl from :
  fd_is_open tbl (Z.of_nat (lowest_free tbl from)) = false.
Proof.
  apply not_true_is_false. rewrite fd_is_open_of_nat. apply lowest_free_free.
Qed.

(** ** Stepping through the descriptor primitives *)

Lemma reslist_push_new_ok s c p cs :
  heap_fresh s ->
  current_reslist s = Some c ->
  nodes s !! c = Some (RES_RESLIST p cs) ->
  malloc_ok s (nmalloc s) = true ->
  reslist_push_new s = Ret (next_addr s) (pushed c p cs s).
Proof.
  intros Hfr Hcur Hc Hok. unfold reslist_push_new.
  rewrite (bind_Ret _ _ _ _ _ (malloc_ok_eq _ _ Hok)).
  rewrite bind_get. cbn [current_reslist bump_malloc]. rewrite Hcur, bind_modify.
  erewrite bind_Ret; cycle 1.
  { eapply LIST_INSERT_HEAD_eq. cbn. rewrite lookup_insert_ne; [exact Hc|].
    apply (live_below_next _ _ _ Hfr) in Hc. lia. }
  reflexivity.
Qed.

Lemma sys_newfd_ok from ev s :
  sys_fail s (nsys s) = None ->
  sys_newfd from ev s =
  Ret (Z.of_nat (lowest_free (fdtable s) from)) (opened ev (lowest_free (fdtable s) from) s).
Proof. unfold sys_newfd. by intros ->. Qed.

Lemma sys_newfd_fail from ev s e :
  sys_fail s (nsys s) = Some e ->
  sys_newfd from ev s = Ret (-1) (set_errno e (bump_sys s)).
Proof. unfold sys_newfd. by intros ->. Qed.

Lemma xopen_ok s c p cs path flags mode :
  heap_fresh s ->
  current_reslist s = Some c ->
  nodes s !! c = Some (RES_RESLIST p cs) ->
  malloc_ok s (nmalloc s) = true ->
  sys_fail s (nsys s) = None ->
  xopen path flags mode s =
  Ret (Z.of_nat (lowest_free (fdtable s) 0))
      (acquired c p cs (EvOpen path) (lowest_free (fdtable s) 0) s).
Proof.
  intros Hfr Hcur Hc Hok Hsys. unfold xopen, open.
  rewrite (bind_Ret _ _ _ _ _ (cleanup_allocate_ok _ _ _ _ Hfr Hcur Hc Hok)).
  rewrite (bind_Ret _ _ _ _ _ (sys_newfd_ok 0 (EvOpen path) (registered c p cs s) Hsys)).
  change (fdtable (registered c p cs s)) with (fdtable s).
  destruct (Z.eqb_spec (Z.of_nat (lowest_free (fdtable s) 0)) (-1)) as [?|_]; [lia|].
  erewrite bind_Ret; [reflexivity|].
  unfold cleanup_commit_close_fd, cleanup_commit. cbn.
  apply (live_below_next _ _ _ Hfr) in Hc.
  rewrite lookup_insert_ne, lookup_insert_eq by lia. done.
Qed.

Lemma xdup_ok s c p cs fd :
  heap_fresh s ->
  current_reslist s = Some c ->
  nodes s !! c = Some (RES_RESLIST p cs) ->
  malloc_ok s (nmalloc s) = true ->
  sys_fail s (nsys s) = None ->
  fd_is_open (fdtable s) fd = true ->
  xdup fd s =
  Ret (Z.of_nat (lowest_free (fdtable s) (Z.to_nat fd)))
      (acquired c p cs (EvDup fd) (lowest_free (fdtable s) (Z.to_nat fd)) s).
Proof.
  intros Hfr Hcur Hc Hok Hsys Hfd. unfold xdup.
  rewrite (bind_Ret _ _ _ _ _ (cleanup_allocate_ok _ _ _ _ Hfr Hcur Hc Hok)).
  pose proof Hfd as [H0 _]%fd_is_open_spec.
  erewrite bind_Ret; cycle 1.
  { unfold fcntl_dupfd. cbn [fdtable registered set_nodes bump_malloc].
    rewrite Hfd. destruct (Z.leb_spec 0 fd); [|lia]. cbn [andb].
    apply (sys_newfd_ok _ _ (registered c p cs s) Hsys). }
  change (fdtable (registered c p cs s)) with (fdtable s).
  destruct (Z.eqb_spec (Z.of_nat (lowest_free (fdtable s) (Z.to_nat fd))) (-1)) as [?|_]; [lia|].
  erewrite bind_Ret; [reflexivity|].
  unfold cleanup_commit_close_fd, cleanup_commit. cbn.
  apply (live_below_next _ _ _ Hfr) in Hc.
  rewrite lookup_insert_ne, lookup_insert_eq by lia. done.
Qed.

(** ** Descriptor handles *)

(** Freshness of a state written out as updates of a fresh one. *)
Ltac solve_fresh Hfr :=
  let Hn := fresh "Hn" in let Hm := fresh "Hm" in
  let a := fresh "a" in let x := fresh "x" in let Hl := fresh "Hl" in
  destruct Hfr as [Hn Hm]; split; cbn;
  intros a x; rewrite ?lookup_insert; repeat case_decide; subst; try (intros _; lia);
  intros Hl; first [apply Hn in Hl | apply Hm in Hl]; cbn in Hl; lia.

Ltac lookup_steps :=
  rewrite ?lookup_insert_ne by lia; try rewrite lookup_insert_eq.

Lemma reslist_pop_nodestroy_ok s c p cs :
  current_reslist s = Some c ->
  nodes s !! c = Some (RES_RESLIST p cs) ->
  reslist_pop_nodestroy s = Ret tt (set_current_reslist p s).
Proof.
  intros Hcur Hc. unfold reslist_pop_nodestroy. rewrite bind_get, Hcur.
  by rewrite (bind_Ret _ _ _ _ _ (get_parent_eq _ _ _ _ Hc)).
Qed.

Lemma fdh_dup_ok s c p cs fd :
  heap_fresh s ->
  current_reslist s = Some c ->
  nodes s !! c = Some (RES_RESLIST p cs) ->
  malloc_ok s (nmalloc s) = true ->
  malloc_ok s (S (nmalloc s)) = true ->
  malloc_ok s (S (S (nmalloc s))) = true ->
  malloc_ok s (S (S (S (nmalloc s)))) = true ->
  sys_fail s (nsys s) = None ->
  fd_is_open (fdtable s) fd = true ->
  let rl := next_addr s in
  let r1 := S rl in
  let m := S (S rl) in
  let r2 := S (S (S rl)) in
  let i := lowest_free (fdtable s) (Z.to_nat fd) in
  exists s',
    fdh_dup fd s = Ret (Heap m) s' /\
    current_reslist s' = Some c /\
    nodes s' !! c = Some (RES_RESLIST p (rl :: cs)) /\
    nodes s' !! rl = Some (RES_RESLIST (Some c) [r2; r1]) /\
    nodes s' !! r2 = Some (RES_CLEANUP (Some fn_fd_cleanup) (IntPtr (Z.of_nat i))) /\
    nodes s' !! r1 = Some (RES_CLEANUP (Some fn_free) (Heap m)) /\
    (forall a, (a < next_addr s)%nat -> a <> c -> nodes s' !! a = nodes s !! a) /\
    mem s' !! m = Some (Block sizeof_fdh (PFdh (Some rl) (Some (Z.of_nat i)))) /\
    (forall a, a <> m -> mem s' !! a = mem s !! a) /\
    fdtable s' = mark_open (fdtable s) i /\
    trace s' = trace s ++ [EvDup fd (Z.of_nat i)] /\
    current_errh s' = current_errh s /\
    heap_fresh s'.
Proof.
  intros Hfr Hcur Hc Hok0 Hok1 Hok2 Hok3 Hsys Hfd rl r1 m r2 i.
  pose proof (live_below_next _ _ _ Hfr Hc) as Hlt.
  unfold fdh_dup.
  rewrite (bind_Ret _ _ _ _ _ (reslist_push_new_ok _ _ _ _ Hfr Hcur Hc Hok0)).
  set (s1 := pushed c p cs s).
  assert (heap_fresh s1) as Hfr1 by (unfold s1, pushed; solve_fresh Hfr).
  assert (nodes s1 !! rl = Some (RES_RESLIST (Some c) [])) as Hrl1.
  { unfold s1, pushed, rl. cbn. lookup_steps. done. }
  erewrite bind_Ret; cycle 1.
  { apply (xalloc_ok s1 rl (Some c) [] sizeof_fdh); try done. }
  set (s2 := allocated rl (Some c) [] sizeof_fdh s1).
  erewrite bind_Ret; cycle 1.
  { unfold store_fdh_rl, s2. cbn [mem allocated set_nodes set_mem]. rewrite lookup_insert_eq.
    reflexivity. }
  match goal with |- context [bind (xdup fd) _ ?X] => set (s3 := X) end.
  assert (heap_fresh s3) as Hfr3.
  { unfold s3, s2, allocated, registered, s1, pushed. solve_fresh Hfr. }
  assert (nodes s3 !! rl = Some (RES_RESLIST (Some c) [r1])) as Hrl3.
  { unfold s3, s2, allocated, registered, s1, pushed, rl, r1. cbn. lookup_steps. done. }
  erewrite bind_Ret; cycle 1.
  { apply (xdup_ok s3 rl (Some c) [r1] fd); try done. }
  erewrite bind_Ret; cycle 1.
  { unfold store_fdh_fd. cbn [mem acquired opened registered set_nodes set_mem log
      set_fdtable bump_sys bump_malloc]. unfold s3. cbn [mem set_mem].
    rewrite lookup_insert_eq. reflexivity. }
  erewrite bind_Ret; cycle 1.
  { apply (reslist_pop_nodestroy_ok _ rl (Some c) [r2; r1]); [reflexivity|].
    unfold s3, s2, allocated, registered, s1, pushed, rl, r1, r2.
    cbn [nodes acquired opened registered set_nodes set_mem log set_fdtable bump_sys
           bump_malloc set_current_reslist next_addr].
    lookup_steps. reflexivity. }
  eexists. split; [reflexivity|].
  unfold s3, s2, allocated, registered, s1, pushed, rl, r1, r2, m, i in *.
  split; [done|]. split; [cbn; lookup_steps; done|].
  split; [cbn; lookup_steps; done|].
  split; [cbn; lookup_steps; done|].
  split; [cbn; lookup_steps; done|].
  split; [intros a Ha Hac; cbn; lookup_steps; done|].
  split; [cbn; lookup_steps; done|].
  split; [intros a Ha; cbn; rewrite !lookup_insert_ne by done; done|].
  split; [done|]. split; [done|]. split; [done|].
  solve_fresh Hfr.
Qed.

Lemma fdh_destroy_ok s m sz fdv rl c pc cs r1 r2 newfd :
  mem s !! m = Some (Block sz (PFdh (Some rl) fdv)) ->
  scope_at (nodes s) rl (Some c) (fdh_forest r1 m r2 newfd) ->
  nodes s !! c = Some (RES_RESLIST pc cs) ->
  c ∉ [rl; r2; r1] ->
  fd_is_open (fdtable s) newfd = true ->
  exists s',
    fdh_destroy (Heap m) s = Ret tt s' /\
    (forall a, a ∈ [rl; r2; r1] -> nodes s' !! a = None) /\
    nodes s' !! c = Some (RES_RESLIST pc (unlink rl cs)) /\
    (forall a, a ∉ [rl; r2; r1] -> a <> c -> nodes s' !! a = nodes s !! a) /\
    mem s' !! m = None /\
    (forall a, a <> m -> mem s' !! a = mem s !! a) /\
    fdtable s' = <[Z.to_nat newfd := false]> (fdtable s) /\
    trace s' = trace s ++
      [EvCall fn_fd_cleanup (IntPtr newfd); EvClose newfd; EvCall fn_free (Heap m)] /\
    current_reslist s' = current_reslist s /\
    current_errh s' = current_errh s /\
    einfos s' = einfos s /\
    prgname s' = prgname s.
Proof.
  intros Hm Hsc Hc Hcout Hfd.
  assert (parent_ok (nodes s) rl (Some c) (fdh_forest r1 m r2 newfd)) as Hpar
    by (split; [exact Hcout|eauto]).
  assert (actions_safe (actions (fdh_forest r1 m r2 newfd)) (mem s) (fdtable s)) as Hsafe.
  { cbn. split; [repeat constructor|]. cbn.
    split; [apply NoDup_singleton|]. split; [by apply Forall_singleton|].
    split; [apply NoDup_singleton|]. by apply Forall_singleton. }
  exists (set_nodes (swept rl (Some c) (fdh_forest r1 m r2 newfd))
            (after_actions (actions (fdh_forest r1 m r2 newfd)) s)).
  split.
  { unfold fdh_destroy. rewrite Hm.
    rewrite (reslist_destroy_forest _ _ _ _ Hsc Hpar).
    by rewrite (bind_Ret _ _ _ _ _ (run_actions_safe _ _ Hsafe)). }
  change (nodes (set_nodes ?f ?x)) with (f (nodes x)).
  assert (nodes (after_actions (actions (fdh_forest r1 m r2 newfd)) s) = nodes s) as ->
    by reflexivity.
  split; [intros a Ha; by apply swept_gone|].
  split; [by apply swept_parent|].
  split; [intros a Ha Hac; by apply swept_other|].
  cbn. split; [apply lookup_delete_eq|]. split.
  - intros a Ha. by rewrite lookup_delete_ne.
  - split; [done|]. split; [|done]. by rewrite <- !app_assoc.
Qed.

(** C9.  [fdh_dup] pushes a scope below the creator's scope [c], allocates
    the handle and duplicates the descriptor in it, and pops it: on return
    [c] is current again and has the new scope as its first element, with the
    record closing the duplicate and the record freeing the handle.  In any
    later state in which that scope is intact, [fdh_destroy] returns, closes
    the duplicate, frees the handle and the three nodes of the scope, unlinks
    the scope from [c], and leaves every other node, block and descriptor as
    it was. *)
Theorem fdh_scope_is_detachable (s : state) (c : addr) (p : option addr)
    (cs : list addr) (fd : Z) :
  heap_fresh s ->
  current_reslist s = Some c ->
  nodes s !! c = Some (RES_RESLIST p cs) ->
  malloc_ok s (nmalloc s) = true ->
  malloc_ok s (S (nmalloc s)) = true ->
  malloc_ok s (S (S (nmalloc s))) = true ->
  malloc_ok s (S (S (S (nmalloc s)))) = true ->
  sys_fail s (nsys s) = None ->
  fd_is_open (fdtable s) fd = true ->
  let rl := next_addr s in
  let r1 := S rl in
  let m := S (S rl) in
  let r2 := S (S (S rl)) in
  let newfd := Z.of_nat (lowest_free (fdtable s) (Z.to_nat fd)) in
  let intact s2 :=
    exists sz fdv,
      mem s2 !! m = Some (Block sz (PFdh (Some rl) fdv)) /\
      scope_at (nodes s2) rl (Some c) (fdh_forest r1 m r2 newfd) /\
      fd_is_open (fdtable s2) newfd = true in
  exists s1,
    fdh_dup fd s = Ret (Heap m) s1 /\
    current_reslist s1 = Some c /\
    nodes s1 !! c = Some (RES_RESLIST p (rl :: cs)) /\
    (forall a, (a < next_addr s)%nat -> a <> c -> nodes s1 !! a = nodes s !! a) /\
    intact s1 /\
    forall s2 pc cs2,
      intact s2 ->
      nodes s2 !! c = Some (RES_RESLIST pc cs2) ->
      exists s3,
        fdh_destroy (Heap m) s2 = Ret tt s3 /\
        (forall a, a ∈ [rl; r2; r1] -> nodes s3 !! a = None) /\
        nodes s3 !! c = Some (RES_RESLIST pc (unlink rl cs2)) /\
        (forall a, a ∉ [rl; r2; r1] -> a <> c -> nodes s3 !! a = nodes s2 !! a) /\
        mem s3 !! m = None /\
        (forall a, a <> m -> mem s3 !! a = mem s2 !! a) /\
        fdtable s3 = <[Z.to_nat newfd := false]> (fdtable s2) /\
        trace s3 = trace s2 ++
          [EvCall fn_fd_cleanup (IntPtr newfd); EvClose newfd; EvCall fn_free (Heap m)] /\
        current_reslist s3 = current_reslist s2 /\
        current_errh s3 = current_errh s2.
Proof.
  intros Hfr Hcur Hc Hok0 Hok1 Hok2 Hok3 Hsys Hfd rl r1 m r2 newfd intact.
  pose proof (live_below_next _ _ _ Hfr Hc) as Hlt.
  destruct (fdh_dup_ok s c p cs fd Hfr Hcur Hc Hok0 Hok1 Hok2 Hok3 Hsys Hfd)
    as (s1 & Hdup & Hcur1 & Hc1 & Hrl1 & Hr2 & Hr1 & Hold & Hm1 & Hmo & Hfd1 & Htr & Hh & Hfr1).
  assert (c ∉ [rl; r2; r1]) as Hcout.
  { unfold rl, r1, r2. rewrite !not_elem_of_cons. repeat split; try lia. apply not_elem_of_nil. }
  exists s1. split; [exact Hdup|]. split; [done|]. split; [done|]. split; [done|].
  split.
  - exists sizeof_fdh, (Some newfd). split; [exact Hm1|]. split.
    + split; [exact Hrl1|]. split; [cbn; done|].
      cbn. unfold rl, r1, r2. rewrite !NoDup_cons, !not_elem_of_cons.
      repeat split; try lia; try apply not_elem_of_nil. apply NoDup_nil_2.
    + rewrite Hfd1. apply fd_is_open_mark_eq.
  - intros s2 pc cs2 (sz & fdv & Hm2 & Hsc2 & Hfd2) Hc2.
    destruct (fdh_destroy_ok s2 m sz fdv rl c pc cs2 r1 r2 newfd Hm2 Hsc2 Hc2 Hcout Hfd2)
      as (s3 & Hd & H1 & H2 & H3 & H4 & H5 & H6 & H7 & H8 & H9 & _).
    exists s3. done.
Qed.

(** ** Where the actions of a new element go *)

Lemma actions_cons_item x f : actions (cons_item x f) = item_actions x ++ actions f.
Proof. destruct x as [a [fn|] d|a]; done. Qed.

Lemma actions_finsert c x f :
  c ∈ scopes f -> NoDup (addrs f) ->
  exists l1 l2, actions f = l1 ++ l2 /\
                actions (finsert c x f) = l1 ++ item_actions x ++ l2.
Proof.
  induction f as [|b fn d r IH|b sub IHs r IH]; cbn [scopes addrs finsert actions].
  - intros H. by apply elem_of_nil in H.
  - intros Hc Hnd. apply NoDup_cons in Hnd as [_ Hnd].
    destruct (IH Hc Hnd) as (l1 & l2 & E1 & E2). rewrite E1, E2.
    destruct fn as [g|]; [exists ((g, d) :: l1), l2|exists l1, l2]; done.
  - intros Hc Hnd. apply NoDup_cons in Hnd as [Hb Hnd].
    apply NoDup_app in Hnd as (Hnds & Hdisj & Hndr).
    rewrite not_elem_of_app in Hb. destruct Hb as [Hbs Hbr].
    case_decide as Hbc.
    + subst b. assert (c ∉ scopes r) as Hcr by (intros H; by apply scopes_addrs in H).
      rewrite (finsert_notin c x r Hcr), actions_cons_item.
      exists [], (actions sub ++ actions r). by rewrite <- app_assoc.
    + apply elem_of_cons in Hc as [?|Hc]; [congruence|].
      apply elem_of_app in Hc as [Hc|Hc].
      * assert (c ∉ scopes r) as Hcr.
        { intros H. apply scopes_addrs in H, Hc. by eapply Hdisj. }
        rewrite (finsert_notin c x r Hcr).
        destruct (IHs Hc Hnds) as (l1 & l2 & E1 & E2). rewrite E1, E2.
        exists l1, (l2 ++ actions r). by rewrite <- !app_assoc.
      * assert (c ∉ scopes sub) as Hcs.
        { intros H. apply scopes_addrs in H, Hc. by eapply Hdisj. }
        rewrite (finsert_notin c x sub Hcs).
        destruct (IH Hc Hndr) as (l1 & l2 & E1 & E2). rewrite E1, E2.
        exists (actions sub ++ l1), l2. by rewrite <- !app_assoc.
Qed.

Lemma actions_tinsert rl c x f :
  c ∈ rl :: scopes f -> NoDup (rl :: addrs f) ->
  exists l1 l2, actions f = l1 ++ l2 /\
                actions (tinsert rl c x f) = l1 ++ item_actions x ++ l2.
Proof.
  intros Hc Hnd. apply NoDup_cons in Hnd as [Hrl Hnd]. unfold tinsert.
  case_decide as Hrc.
  - exists [], (actions f). by rewrite actions_cons_item.
  - apply elem_of_cons in Hc as [?|Hc]; [congruence|]. by apply actions_finsert.
Qed.

Lemma freed_app l1 l2 : freed (l1 ++ l2) = freed l1 ++ freed l2.
Proof. apply omap_app. Qed.

Lemma closed_app l1 l2 : closed (l1 ++ l2) = closed l1 ++ closed l2.
Proof. apply omap_app. Qed.

(** Safety does not depend on where in the list an action stands. *)
Lemma actions_safe_middle l1 l2 x m tbl :
  actions_safe (x :: l1 ++ l2) m tbl -> actions_safe (l1 ++ x :: l2) m tbl.
Proof.
  intros (Hty & Hndf & Hf & Hndc & Hc).
  assert (l1 ++ x :: l2 ≡ₚ x :: l1 ++ l2) as Hp by (by rewrite Permutation_middle).
  assert (freed (l1 ++ x :: l2) ≡ₚ freed (x :: l1 ++ l2)) as Hpf
    by (unfold freed; by rewrite Hp).
  assert (closed (l1 ++ x :: l2) ≡ₚ closed (x :: l1 ++ l2)) as Hpc
    by (unfold closed; by rewrite Hp).
  split; [by rewrite Hp|]. split; [by rewrite Hpf|]. split; [by rewrite Hpf|].
  split; [by rewrite Hpc|by rewrite Hpc].
Qed.

(** A new close action for a descriptor that was not open before. *)
Lemma actions_safe_new_fd l1 l2 m tbl i :
  actions_safe (l1 ++ l2) m tbl ->
  fd_is_open tbl (Z.of_nat i) = false ->
  actions_safe (l1 ++ (fn_fd_cleanup, IntPtr (Z.of_nat i)) :: l2) m (mark_open tbl i).
Proof.
  intros (Hty & Hndf & Hf & Hndc & Hc) Hi. apply actions_safe_middle.
  split; [by apply Forall_cons|]. cbn. fold (freed (l1 ++ l2)). fold (closed (l1 ++ l2)).
  split; [done|]. split; [done|]. split.
  - apply NoDup_cons. split; [|done]. intros Hin.
    rewrite Forall_forall in Hc. apply Hc in Hin. congruence.
  - apply Forall_cons. split; [apply fd_is_open_mark_eq|].
    eapply Forall_impl; [exact Hc|]. intros fd. apply fd_is_open_mark_mono.
Qed.

(** A new free action for a block that was not allocated before. *)
Lemma actions_safe_new_block l1 l2 m tbl a b :
  actions_safe (l1 ++ l2) m tbl ->
  m !! a = None ->
  actions_safe (l1 ++ (fn_free, Heap a) :: l2) (<[a := b]> m) tbl.
Proof.
  intros (Hty & Hndf & Hf & Hndc & Hc) Ha. apply actions_safe_middle.
  split; [by apply Forall_cons|]. cbn. fold (freed (l1 ++ l2)). fold (closed (l1 ++ l2)).
  split; [|split; [|done]].
  - apply NoDup_cons. split; [|done]. intros Hin.
    rewrite Forall_forall in Hf. apply Hf in Hin as [? ?]. congruence.
  - apply Forall_cons. split; [by rewrite lookup_insert_eq|].
    eapply Forall_impl; [exact Hf|]. intros a' [b' Hb']. rewrite lookup_insert.
    case_decide; eauto.
Qed.

Lemma acquired_nodes s c p cs ev i :
  next_addr s <> c ->
  nodes (acquired c p cs ev i s) =
  <[c := RES_RESLIST p (next_addr s :: cs)]>
    (<[next_addr s := RES_CLEANUP (Some fn_fd_cleanup) (IntPtr (Z.of_nat i))]> (nodes s)).
Proof.
  intros Hne. cbn. rewrite (insert_insert_ne _ (next_addr s) c) by done.
  by rewrite insert_insert_eq.
Qed.

Lemma allocated_nodes s c p cs sz :
  next_addr s <> c ->
  nodes (allocated c p cs sz s) =
  <[c := RES_RESLIST p (next_addr s :: cs)]>
    (<[next_addr s := RES_CLEANUP (Some fn_free) (Heap (S (next_addr s)))]> (nodes s)).
Proof.
  intros Hne. cbn. rewrite (insert_insert_ne _ (next_addr s) c) by done.
  by rewrite insert_insert_eq.
Qed.

(** The tree after an acquisition in the scope [c] somewhere inside it. *)
Lemma scope_at_acquired s rl pp F c p cs ev i :
  heap_fresh s ->
  scope_at (nodes s) rl pp F ->
  c ∈ rl :: scopes F ->
  nodes s !! c = Some (RES_RESLIST p cs) ->
  scope_at (nodes (acquired c p cs ev i s)) rl pp
    (tinsert rl c (ICleanup (next_addr s) (Some fn_fd_cleanup) (IntPtr (Z.of_nat i))) F).
Proof.
  intros Hfr Hsc Hc Hhc.
  pose proof (live_below_next _ _ _ Hfr Hhc) as Hlt.
  rewrite acquired_nodes by lia.
  apply (scope_at_tinsert _ _ _ _ _ _ _ (ICleanup (next_addr s) _ _)); try done.
  cbn. intros Hin. destruct Hsc as (Hrl & Hrep & _).
  apply elem_of_cons in Hin as [E|Hin].
  - rewrite <- E in Hrl. apply (live_below_next _ _ _ Hfr) in Hrl. lia.
  - destruct (repr_lookup _ _ _ _ Hrep Hin) as [n Hn].
    apply (live_below_next _ _ _ Hfr) in Hn. lia.
Qed.

Lemma parent_ok_tinsert h h' rl pp F c x :
  parent_ok h rl pp F ->
  c ∈ rl :: scopes F ->
  (forall P, pp = Some P -> P <> item_addr x /\ h' !! P = h !! P) ->
  parent_ok h' rl pp (tinsert rl c x F).
Proof.
  intros Hpar Hc Hfr. destruct pp as [P|]; [|done].
  destruct Hpar as (HP & q & cs & Hq). destruct (Hfr P eq_refl) as [HPx HP'].
  split; [|rewrite HP'; eauto].
  rewrite not_elem_of_cons in HP |- *. destruct HP as [HPrl HPF]. split; [done|].
  unfold tinsert. case_decide.
  - rewrite addrs_cons_item, not_elem_of_cons. done.
  - intros Hin. apply addrs_finsert_elem in Hin as [?|?]; done.
Qed.

(** Projections of a state written with the setters. *)
Ltac state_simpl :=
  cbn [nodes mem next_addr nmalloc malloc_ok current_reslist current_errh next_where
       einfos prgname errno fdtable nsys sys_fail trace
       set_nodes set_mem bump_malloc set_current_reslist set_current_errh bump_where
       set_einfos set_prgname_var set_errno set_fdtable bump_sys log].

(** Two states with the same fields are the same. *)
Lemma state_ext (s1 s2 : state) :
  nodes s1 = nodes s2 -> mem s1 = mem s2 -> next_addr s1 = next_addr s2 ->
  nmalloc s1 = nmalloc s2 -> malloc_ok s1 = malloc_ok s2 ->
  current_reslist s1 = current_reslist s2 -> current_errh s1 = current_errh s2 ->
  next_where s1 = next_where s2 -> einfos s1 = einfos s2 -> prgname s1 = prgname s2 ->
  errno s1 = errno s2 -> fdtable s1 = fdtable s2 -> nsys s1 = nsys s2 ->
  sys_fail s1 = sys_fail s2 -> trace s1 = trace s2 ->
  s1 = s2.
Proof. destruct s1, s2. cbn. intros. subst. reflexivity. Qed.

Ltac state_eq := apply state_ext; state_simpl; try reflexivity.

Lemma cleanup_commit_ok s cl fn0 d0 fn d :
  nodes s !! cl = Some (RES_CLEANUP fn0 d0) ->
  cleanup_commit cl fn d s = Ret tt (set_nodes (<[cl := RES_CLEANUP (Some fn) d]>) s).
Proof. unfold cleanup_commit. by intros ->. Qed.

Lemma pipe2_ok s :
  sys_fail s (nsys s) = None ->
  let r := lowest_free (fdtable s) 0 in
  let w := lowest_free (mark_open (fdtable s) r) 0 in
  pipe2 s = Ret (0, (Z.of_nat r, Z.of_nat w))
              (log (EvPipe (Z.of_nat r) (Z.of_nat w))
                 (set_fdtable (fun _ => mark_open (mark_open (fdtable s) r) w) (bump_sys s))).
Proof. unfold pipe2. by intros ->. Qed.

Lemma xpipe_ok s c p cs :
  heap_fresh s ->
  current_reslist s = Some c ->
  nodes s !! c = Some (RES_RESLIST p cs) ->
  malloc_ok s (nmalloc s) = true ->
  malloc_ok s (S (nmalloc s)) = true ->
  sys_fail s (nsys s) = None ->
  let r := lowest_free (fdtable s) 0 in
  let w := lowest_free (mark_open (fdtable s) r) 0 in
  xpipe s = Ret (Z.of_nat r, Z.of_nat w) (piped c p cs r w s).
Proof.
  intros Hfr Hcur Hc Hok0 Hok1 Hsys r w.
  pose proof (live_below_next _ _ _ Hfr Hc) as Hlt.
  unfold xpipe.
  rewrite (bind_Ret _ _ _ _ _ (cleanup_allocate_ok _ _ _ _ Hfr Hcur Hc Hok0)).
  pose proof (heap_fresh_registered s c p cs Hfr Hc) as Hfr1.
  destruct (registered_nodes s c p cs Hfr Hc) as (_ & Hc1 & _).
  rewrite (bind_Ret _ _ _ _ _ (cleanup_allocate_ok (registered c p cs s) c p
             (next_addr s :: cs) Hfr1 Hcur Hc1 Hok1)).
  rewrite (bind_Ret _ _ _ _ _
             (pipe2_ok (registered c p (next_addr s :: cs) (registered c p cs s)) Hsys)).
  cbn [fst snd]. change (0 <? 0) with false. cbv iota.
  unfold cleanup_commit_close_fd.
  erewrite bind_Ret; cycle 1.
  { apply (cleanup_commit_ok _ _ None Null). unfold registered. state_simpl.
    lookup_steps. reflexivity. }
  erewrite bind_Ret; cycle 1.
  { apply (cleanup_commit_ok _ _ None Null). unfold registered. state_simpl.
    lookup_steps. reflexivity. }
  unfold ret. apply f_equal. unfold piped, registered. state_eq.
Qed.

Lemma piped_nodes s c p cs r w :
  (c < next_addr s)%nat ->
  nodes (piped c p cs r w s) =
  <[c := RES_RESLIST p (S (next_addr s) :: next_addr s :: cs)]>
    (<[S (next_addr s) := RES_CLEANUP (Some fn_fd_cleanup) (IntPtr (Z.of_nat w))]>
       (<[c := RES_RESLIST p (next_addr s :: cs)]>
          (<[next_addr s := RES_CLEANUP (Some fn_fd_cleanup) (IntPtr (Z.of_nat r))]>
             (nodes s)))).
Proof.
  intros Hlt. cbn. apply map_eq. intros a. rewrite !lookup_insert.
  repeat case_decide; subst; try done; lia.
Qed.

(** ** Descriptors *)

(** [fd_cleanup] on a descriptor that is not open is [abort()]. *)
Lemma fd_cleanup_bad s fd :
  fd_is_open (fdtable s) fd = false -> fd_cleanup (IntPtr fd) s = Abort (BadFd fd).
Proof.
  intros Hfd. unfold fd_cleanup, bind, close. rewrite Hfd. reflexivity.
Qed.

Lemma closed_in_middle l1 l2 fd :
  fd ∈ closed (l1 ++ (fn_fd_cleanup, IntPtr fd) :: l2).
Proof. rewrite closed_app, elem_of_app. right. cbn. left. Qed.

(** What destroying a scope does to the descriptors it owns. *)
Lemma reslist_destroy_closes s rl pp F :
  scope_at (nodes s) rl pp F ->
  parent_ok (nodes s) rl pp F ->
  actions_safe (actions F) (mem s) (fdtable s) ->
  exists s',
    reslist_destroy rl s = Ret tt s' /\
    calls (trace s') = calls (trace s) ++ actions F /\
    closes (trace s') = closes (trace s) ++ closed (actions F) /\
    NoDup (closed (actions F)) /\
    (forall fd, fd ∈ closed (actions F) -> fd_is_open (fdtable s') fd = false) /\
    (forall a, a ∈ rl :: addrs F -> nodes s' !! a = None).
Proof.
  intros Hsc Hpar Hsafe. eexists. split.
  { rewrite (reslist_destroy_forest _ _ _ _ Hsc Hpar).
    rewrite (bind_Ret _ _ _ _ _ (run_actions_safe _ _ Hsafe)). reflexivity. }
  cbn [trace set_nodes fdtable nodes].
  rewrite after_actions_trace, calls_app, closes_app, calls_action_events, closes_action_events.
  destruct Hsafe as (Hty & _ & _ & Hnd & Hopen).
  split; [done|]. split; [done|]. split; [done|]. split.
  - clear Hsc Hpar. revert s Hopen Hnd. induction (actions F) as [|[fn d] l IH];
      intros s Hopen Hnd fd Hin; [by apply elem_of_nil in Hin|].
    apply Forall_cons in Hty as [Hty1 Hty].
    cbn [after_actions fold_left]. fold (after_actions l (apply_action (fn, d) s)).
    destruct fn, d; cbn in Hty1; try done;
      try (apply (IH Hty); done).
    cbn in Hin, Hopen, Hnd. fold (closed l) in *.
    apply NoDup_cons in Hnd as [Hz Hnd]. apply Forall_cons in Hopen as [Hzo Hopen].
    apply elem_of_cons in Hin as [->|Hin].
    + clear IH. cbn.
      assert (forall l s, z ∉ closed l -> fd_is_open (fdtable s) z = false ->
                fd_is_open (fdtable (after_actions l s)) z = false) as Hstay.
      { clear. induction l as [|[fn d] l IH]; intros s Hz Hs; [done|].
        cbn [after_actions fold_left]. fold (after_actions l (apply_action (fn, d) s)).
        destruct fn, d; cbn in Hz |- *; try (apply IH; done).
        fold (closed l) in Hz. rewrite not_elem_of_cons in Hz. destruct Hz as [Hne Hz].
        apply IH; [done|]. cbn. apply not_true_is_false. intros H.
        apply fd_is_open_spec in H as [H0 H].
        assert (fd_is_open (fdtable s) z = true); [|congruence].
        apply fd_is_open_spec. split; [done|].
        destruct (decide (Z.to_nat z0 = Z.to_nat z)) as [E|E].
        - rewrite E in H. apply lookup_lt_Some in H as Hlt. rewrite length_insert in Hlt.
          by rewrite list_lookup_insert_eq in H.
        - by rewrite list_lookup_insert_ne in H. }
      apply Hstay; [done|]. cbn. apply fd_is_open_insert_eq.
    + apply (IH Hty); [|done|done]. cbn.
      rewrite Forall_forall in Hopen |- *. intros fd' Hfd'.
      apply fd_is_open_insert_ne; [by apply Hopen|done|]. intros ->. done.
  - intros a Ha. by apply swept_gone.
Qed.

Lemma scopes_cons_cleanup a fn d f : scopes (cons_item (ICleanup a fn d) f) = scopes f.
Proof. done. Qed.

Lemma scopes_finsert_cleanup c a fn d f :
  scopes (finsert c (ICleanup a fn d) f) = scopes f.
Proof.
  induction f as [|b g e r IH|b sub IHs r IH]; cbn [finsert scopes]; [done|done|].
  rewrite IH. case_decide; [done|by rewrite IHs].
Qed.

Lemma scopes_tinsert_cleanup rl c a fn d f :
  scopes (tinsert rl c (ICleanup a fn d) f) = scopes f.
Proof. unfold tinsert. case_decide; [done|apply scopes_finsert_cleanup]. Qed.

(** A tree that gets a record closing a descriptor that was not open. *)
Lemma tree_new_fd h m tbl rl pp F c pc cs a i :
  scope_at h rl pp F -> parent_ok h rl pp F -> actions_safe (actions F) m tbl ->
  c ∈ rl :: scopes F ->
  h !! c = Some (RES_RESLIST pc cs) ->
  h !! a = None ->
  fd_is_open tbl (Z.of_nat i) = false ->
  let x := ICleanup a (Some fn_fd_cleanup) (IntPtr (Z.of_nat i)) in
  let h' := <[c := RES_RESLIST pc (a :: cs)]>
              (<[a := RES_CLEANUP (Some fn_fd_cleanup) (IntPtr (Z.of_nat i))]> h) in
  scope_at h' rl pp (tinsert rl c x F) /\
  parent_ok h' rl pp (tinsert rl c x F) /\
  actions_safe (actions (tinsert rl c x F)) m (mark_open tbl i) /\
  adds_close F (tinsert rl c x F) (Z.of_nat i).
Proof.
  intros Hsc Hpar Hsafe Hc Hhc Ha Hi x h'.
  assert (a ∉ rl :: addrs F) as Hout.
  { destruct Hsc as (Hrl & Hrep & _). intros Hin.
    apply elem_of_cons in Hin as [->|Hin]; [congruence|].
    destruct (repr_lookup _ _ _ _ Hrep Hin) as [n Hn]. congruence. }
  assert (c ∈ rl :: addrs F) as Hcin.
  { apply elem_of_cons in Hc as [->|Hc]; [left|right; by apply scopes_addrs]. }
  destruct (actions_tinsert rl c x F Hc) as (l1 & l2 & E1 & E2);
    [by destruct Hsc as (_ & _ & ?)|].
  split; [|split; [|split]].
  - apply (scope_at_tinsert h rl pp F c pc cs x); done.
  - apply (parent_ok_tinsert h); [done..|]. intros P ->.
    destruct Hpar as (HP & q & qs & Hq).
    assert (P <> a) by congruence. assert (P <> c) by congruence.
    split; [done|]. subst h'. by rewrite !lookup_insert_ne.
  - rewrite E2. cbn [item_actions x app]. apply actions_safe_new_fd; [by rewrite <- E1|done].
  - exists l1, l2. done.
Qed.

(** The tree after [xopen] or [xdup] in one of its scopes. *)
Lemma tree_ok_acquired s rl pp F c pc cs ev i :
  heap_fresh s -> tree_ok s rl pp F ->
  c ∈ rl :: scopes F ->
  nodes s !! c = Some (RES_RESLIST pc cs) ->
  fd_is_open (fdtable s) (Z.of_nat i) = false ->
  exists F',
    tree_ok (acquired c pc cs ev i s) rl pp F' /\
    scopes F' = scopes F /\
    adds_close F F' (Z.of_nat i) /\
    heap_fresh (acquired c pc cs ev i s).
Proof.
  intros Hfr (Hsc & Hpar & Hsafe) Hc Hhc Hi.
  pose proof (live_below_next _ _ _ Hfr Hhc) as Hlt.
  assert (nodes s !! next_addr s = None) as Hnew by (apply heap_fresh_nodes; [done|lia]).
  destruct (tree_new_fd _ _ _ _ _ _ _ _ _ _ i Hsc Hpar Hsafe Hc Hhc Hnew Hi)
    as (Hsc' & Hpar' & Hsafe' & Hadd).
  eexists. unfold tree_ok. rewrite acquired_nodes by lia.
  split; [split; [exact Hsc'|split; [exact Hpar'|exact Hsafe']]|].
  split; [apply scopes_tinsert_cleanup|]. split; [done|].
  solve_fresh Hfr.
Qed.

(** The tree after [xpipe] in one of its scopes. *)
Lemma tree_ok_piped s rl pp F c pc cs r w :
  heap_fresh s -> tree_ok s rl pp F ->
  c ∈ rl :: scopes F ->
  nodes s !! c = Some (RES_RESLIST pc cs) ->
  fd_is_open (fdtable s) (Z.of_nat r) = false ->
  fd_is_open (mark_open (fdtable s) r) (Z.of_nat w) = false ->
  exists F1 F',
    tree_ok (piped c pc cs r w s) rl pp F' /\
    scopes F' = scopes F /\
    adds_close F F1 (Z.of_nat r) /\ adds_close F1 F' (Z.of_nat w) /\
    heap_fresh (piped c pc cs r w s).
Proof.
  intros Hfr (Hsc & Hpar & Hsafe) Hc Hhc Hr Hw.
  pose proof (live_below_next _ _ _ Hfr Hhc) as Hlt.
  assert (nodes s !! next_addr s = None) as Hnew by (apply heap_fresh_nodes; [done|lia]).
  destruct (tree_new_fd _ _ _ _ _ _ _ _ _ _ r Hsc Hpar Hsafe Hc Hhc Hnew Hr)
    as (Hsc1 & Hpar1 & Hsafe1 & Hadd1).
  match type of Hsc1 with scope_at ?h1 _ _ ?F1 =>
    assert (h1 !! c = Some (RES_RESLIST pc (next_addr s :: cs))) as Hhc1
      by apply lookup_insert_eq;
    assert (h1 !! S (next_addr s) = None) as Hnew1
      by (rewrite !lookup_insert_ne by lia; apply heap_fresh_nodes; [done|lia]);
    assert (c ∈ rl :: scopes F1) as Hc1 by (by rewrite scopes_tinsert_cleanup)
  end.
  destruct (tree_new_fd _ _ _ _ _ _ _ _ _ _ w Hsc1 Hpar1 Hsafe1 Hc1 Hhc1 Hnew1 Hw)
    as (Hsc2 & Hpar2 & Hsafe2 & Hadd2).
  eexists _, _. unfold tree_ok. rewrite piped_nodes by lia.
  split; [split; [exact Hsc2|split; [exact Hpar2|exact Hsafe2]]|].
  split; [by rewrite !scopes_tinsert_cleanup|]. split; [done|]. split; [done|].
  solve_fresh Hfr.
Qed.

Lemma bind_Abort {A B} (m : M A) (k : A -> M B) s why :
  m s = Abort why -> bind m k s = Abort why.
Proof. unfold bind. by intros ->. Qed.

(** A close action that meets a descriptor that is not open stops the
    destruction of the scope with [abort()]. *)
Lemma reslist_destroy_bad_fd s rl pp F l1 l2 fd :
  scope_at (nodes s) rl pp F ->
  parent_ok (nodes s) rl pp F ->
  actions F = l1 ++ (fn_fd_cleanup, IntPtr fd) :: l2 ->
  actions_safe l1 (mem s) (fdtable s) ->
  fd_is_open (fdtable (after_actions l1 s)) fd = false ->
  reslist_destroy rl s = Abort (BadFd fd).
Proof.
  intros Hsc Hpar E Hsafe Hfd.
  rewrite (reslist_destroy_forest _ _ _ _ Hsc Hpar), E.
  apply bind_Abort. rewrite run_actions_app.
  rewrite (bind_Ret _ _ _ _ _ (run_actions_safe _ _ Hsafe)).
  cbn [run_actions]. apply bind_Abort. unfold call_cleanup. rewrite bind_modify.
  by apply fd_cleanup_bad.
Qed.

(** C7. A descriptor got from [xopen], [xpipe] or [xdup] in a scope [c] of a
    tree adds exactly one close action for it to that tree, and the
    descriptor was not open before.  Destroying the tree from any scope [rl]
    above [c], directly or through the unwinding of a raise to a handler whose
    scope that is, closes each descriptor the tree owns once and leaves it
    closed.  [fd_cleanup] on a descriptor that is not open is [abort()], and
    a destruction that meets such an action ends in that abort. *)
Theorem descriptors_closed_once :
  (forall s rl pp F c pc cs,
     heap_fresh s -> tree_ok s rl pp F -> c ∈ rl :: scopes F ->
     current_reslist s = Some c -> nodes s !! c = Some (RES_RESLIST pc cs) ->
     malloc_ok s (nmalloc s) = true -> sys_fail s (nsys s) = None ->
     (forall path flags mode, exists fd s' F',
        xopen path flags mode s = Ret fd s' /\
        fd_is_open (fdtable s) fd = false /\ fd_is_open (fdtable s') fd = true /\
        tree_ok s' rl pp F' /\ adds_close F F' fd /\ heap_fresh s') /\
     (forall fd0, fd_is_open (fdtable s) fd0 = true -> exists fd s' F',
        xdup fd0 s = Ret fd s' /\
        fd_is_open (fdtable s) fd = false /\ fd_is_open (fdtable s') fd = true /\
        tree_ok s' rl pp F' /\ adds_close F F' fd /\ heap_fresh s') /\
     (malloc_ok s (S (nmalloc s)) = true -> exists r w s' F1 F',
        xpipe s = Ret (r, w) s' /\ r <> w /\
        fd_is_open (fdtable s) r = false /\ fd_is_open (fdtable s) w = false /\
        fd_is_open (fdtable s') r = true /\ fd_is_open (fdtable s') w = true /\
        tree_ok s' rl pp F' /\ adds_close F F1 r /\ adds_close F1 F' w /\
        heap_fresh s')) /\
  (forall s rl pp F,
     tree_ok s rl pp F ->
     exists s',
       reslist_destroy rl s = Ret tt s' /\
       closes (trace s') = closes (trace s) ++ closed (actions F) /\
       NoDup (closed (actions F)) /\
       (forall fd, fd ∈ closed (actions F) ->
          fd_is_open (fdtable s) fd = true /\ fd_is_open (fdtable s') fd = false)) /\
  (forall A s h P F,
     unwind_ready s h P F ->
     exists s',
       @die_oom A s = Jump (eh_where h) s' /\
       closes (trace s') = closes (trace s) ++ closed (actions F) /\
       NoDup (closed (actions F))) /\
  (forall s fd,
     fd_is_open (fdtable s) fd = false ->
     fd_cleanup (IntPtr fd) s = Abort (BadFd fd)) /\
  (forall s rl pp F l1 l2 fd,
     scope_at (nodes s) rl pp F -> parent_ok (nodes s) rl pp F ->
     actions F = l1 ++ (fn_fd_cleanup, IntPtr fd) :: l2 ->
     actions_safe l1 (mem s) (fdtable s) ->
     fd_is_open (fdtable (after_actions l1 s)) fd = false ->
     reslist_destroy rl s = Abort (BadFd fd)).
Proof.
  split; [|split; [|split; [|split]]].
  - intros s rl pp F c pc cs Hfr Htree Hc Hcur Hhc Hok Hsys.
    split; [|split].
    + intros path flags mode.
      pose proof (fd_is_open_lowest_free (fdtable s) 0) as Hnew.
      destruct (tree_ok_acquired s rl pp F c pc cs (EvOpen path) _ Hfr Htree Hc Hhc Hnew)
        as (F' & Ht' & _ & Hadd & Hfr').
      eexists _, _, F'. split; [by apply xopen_ok|].
      split; [done|]. split; [apply fd_is_open_mark_eq|done].
    + intros fd0 Hfd0.
      pose proof (fd_is_open_lowest_free (fdtable s) (Z.to_nat fd0)) as Hnew.
      destruct (tree_ok_acquired s rl pp F c pc cs (EvDup fd0) _ Hfr Htree Hc Hhc Hnew)
        as (F' & Ht' & _ & Hadd & Hfr').
      eexists _, _, F'. split; [by apply xdup_ok|].
      split; [done|]. split; [apply fd_is_open_mark_eq|done].
    + intros Hok1.
      pose proof (fd_is_open_lowest_free (fdtable s) 0) as Hr.
      pose proof (fd_is_open_lowest_free (mark_open (fdtable s) (lowest_free (fdtable s) 0)) 0)
        as Hw.
      destruct (tree_ok_piped s rl pp F c pc cs _ _ Hfr Htree Hc Hhc Hr Hw)
        as (F1 & F' & Ht' & _ & Hadd1 & Hadd2 & Hfr').
      eexists _, _, _, F1, F'. split; [by apply xpipe_ok|].
      assert (fd_is_open (fdtable s)
                (Z.of_nat (lowest_free (mark_open (fdtable s) (lowest_free (fdtable s) 0)) 0))
              = false) as Hw0.
      { apply not_true_is_false. intros H.
        apply (fd_is_open_mark_mono _ (lowest_free (fdtable s) 0)) in H. congruence. }
      split; [|split; [done|split; [done|split; [|split; [|done]]]]].
      * intros E. rewrite <- E in Hw. by rewrite fd_is_open_mark_eq in Hw.
      * cbn. apply fd_is_open_mark_mono, fd_is_open_mark_eq.
      * cbn. apply fd_is_open_mark_eq.
  - intros s rl pp F (Hsc & Hpar & Hsafe).
    destruct (reslist_destroy_closes s rl pp F Hsc Hpar Hsafe)
      as (s' & Hrun & _ & Hcl & Hnd & Hgone & _).
    exists s'. split; [done|]. split; [done|]. split; [done|].
    intros fd Hfd. split; [|by apply Hgone].
    destruct Hsafe as (_ & _ & _ & _ & Hopen). rewrite Forall_forall in Hopen. by apply Hopen.
  - intros A s h P F Hready. eexists. split; [by apply die_oom_unwinds|].
    destruct Hready as (_ & _ & _ & (_ & _ & _ & Hnd & _) & _). split; [|done].
    match goal with |- context [unwound h P F ?X] =>
      destruct (unwound_frame h P F X) as (_ & _ & _ & _ & _ & _ & _ & -> & _);
      assert (trace X = trace s) as -> by (unfold oom_info; repeat case_match; done)
    end.
    by rewrite closes_app, closes_action_events.
  - apply fd_cleanup_bad.
  - apply reslist_destroy_bad_fd.
Qed.

(** ** [nextpow2sz] *)

(** One step [sz |= sz >> n] doubles the window of bits that reach bit [i]. *)
Lemma smear_step x y n :
  0 <= n ->
  (forall i, 0 <= i -> Z.testbit y i = true <-> exists j, i <= j < i + n /\ Z.testbit x j = true) ->
  forall i, 0 <= i ->
    Z.testbit (Z.lor y (Z.shiftr y n)) i = true <->
    exists j, i <= j < i + (n + n) /\ Z.testbit x j = true.
Proof.
  intros Hn Hy i Hi. rewrite Z.lor_spec, Z.shiftr_spec by done.
  rewrite orb_true_iff, (Hy i Hi), (Hy (i + n)) by lia. split.
  - intros [(j & Hj & Hb)|(j & Hj & Hb)]; exists j; split; (lia || done).
  - intros (j & Hj & Hb). destruct (Z.lt_ge_cases j (i + n)); [left|right]; exists j;
      split; (lia || done).
Qed.

Lemma smear_start x i :
  0 <= i -> Z.testbit x i = true <-> exists j, i <= j < i + 1 /\ Z.testbit x j = true.
Proof.
  intros Hi. split; [intros H; exists i; split; [lia|done]|].
  intros (j & Hj & Hb). by replace i with j by lia.
Qed.

(** A value whose bits are exactly those below the top bit of [x]. *)
Lemma smear_ones x y W :
  0 < x < 2 ^ W ->
  (forall i, 0 <= i -> Z.testbit y i = true <-> exists j, i <= j < i + W /\ Z.testbit x j = true) ->
  0 <= y ->
  y = Z.ones (Z.log2 x + 1).
Proof.
  intros Hx Hy Hy0.
  assert (0 < W) as HW.
  { destruct (Z.lt_ge_cases 0 W) as [|HW]; [done|].
    assert (2 ^ W <= 1); [|lia].
    destruct (Z.eq_dec W 0) as [->|]; [done|]. rewrite Z.pow_neg_r; lia. }
  pose proof (Z.log2_nonneg x) as Hl0.
  assert (Z.log2 x < W) as HlW by (apply Z.log2_lt_pow2; lia).
  apply Z.bits_inj'. intros i Hi.
  apply eq_true_iff_eq. rewrite (Hy i Hi).
  destruct (Z.lt_ge_cases i (Z.log2 x + 1)) as [Hlt|Hge].
  - rewrite Z.ones_spec_low by lia. split; [done|intros _].
    exists (Z.log2 x). split; [lia|]. apply Z.bit_log2. lia.
  - rewrite Z.ones_spec_high by lia. split; [|done].
    intros (j & Hj & Hb). rewrite Z.bits_above_log2 in Hb by lia. done.
Qed.

(** The six (or five) shifts fill every bit below the top bit of [x]. *)
Lemma nextpow2sz_smear sizeof_sz x :
  sizeof_sz = 4 \/ sizeof_sz = 8 ->
  0 < x < 2 ^ (8 * sizeof_sz) ->
  (let sz := x in
   let sz := Z.lor sz (Z.shiftr sz 1) in
   let sz := Z.lor sz (Z.shiftr sz 2) in
   let sz := Z.lor sz (Z.shiftr sz 4) in
   let sz := Z.lor sz (Z.shiftr sz 8) in
   let sz := Z.lor sz (Z.shiftr sz 16) in
   if sizeof_sz =? 8 then Z.lor sz (Z.shiftr sz 32) else sz)
  = Z.ones (Z.log2 x + 1).
Proof.
  intros Hsz Hx. cbv zeta.
  pose proof (smear_step x _ 1 ltac:(lia) (smear_start x)) as H1. change (1 + 1) with 2 in H1.
  pose proof (smear_step x _ 2 ltac:(lia) H1) as H2. change (2 + 2) with 4 in H2.
  pose proof (smear_step x _ 4 ltac:(lia) H2) as H3. change (4 + 4) with 8 in H3.
  pose proof (smear_step x _ 8 ltac:(lia) H3) as H4. change (8 + 8) with 16 in H4.
  pose proof (smear_step x _ 16 ltac:(lia) H4) as H5. change (16 + 16) with 32 in H5.
  pose proof (smear_step x _ 32 ltac:(lia) H5) as H6. change (32 + 32) with 64 in H6.
  assert (forall y n, 0 <= y -> 0 <= Z.lor y (Z.shiftr y n)) as Hnn.
  { intros y n Hy. apply Z.lor_nonneg. split; [done|]. by apply Z.shiftr_nonneg. }
  assert (0 <= x) as Hx0 by lia.
  destruct Hsz as [-> | ->]; cbn [Z.eqb Pos.eqb].
  - apply (smear_ones x _ 32); [done|exact H5|]. repeat apply Hnn. done.
  - apply (smear_ones x _ 64); [done|exact H6|]. repeat apply Hnn. done.
Qed.

(** The value of [nextpow2sz] from the top bit of [sz - 1]. *)
Lemma nextpow2sz_on_log2 sizeof_sz sz :
  sizeof_sz = 4 \/ sizeof_sz = 8 ->
  1 < sz < 2 ^ (8 * sizeof_sz) ->
  nextpow2sz_on sizeof_sz sz = size_wrap sizeof_sz (2 ^ (Z.log2 (sz - 1) + 1)).
Proof.
  intros Hsz Hrange. unfold nextpow2sz_on. cbv zeta.
  assert (size_wrap sizeof_sz (sz - 1) = sz - 1) as ->
    by (unfold size_wrap; apply Z.mod_small; lia).
  pose proof (nextpow2sz_smear sizeof_sz (sz - 1) Hsz ltac:(lia)) as H. cbv zeta in H.
  rewrite H, Z.ones_equiv. f_equal. lia.
Qed.

(** X1.  For a size between [1] and half the range of [size_t] (four or
    eight bytes wide), [nextpow2sz] returns the least power of two that is
    not below it; a power of two is returned as it is. *)
Theorem nextpow2sz_least_power (sizeof_sz sz : Z) :
  sizeof_sz = 4 \/ sizeof_sz = 8 ->
  0 < sz <= 2 ^ (8 * sizeof_sz - 1) ->
  exists k,
    0 <= k /\ nextpow2sz_on sizeof_sz sz = 2 ^ k /\ sz <= 2 ^ k /\
    (forall j, 0 <= j -> sz <= 2 ^ j -> k <= j).
Proof.
  intros Hsz Hrange.
  assert (0 < 8 * sizeof_sz - 1) as Hw by lia.
  assert (2 ^ (8 * sizeof_sz) = 2 * 2 ^ (8 * sizeof_sz - 1)) as Hpow.
  { rewrite <- Z.pow_succ_r by lia. f_equal. lia. }
  destruct (Z.eq_dec sz 1) as [->|Hne].
  - exists 0. split; [done|]. split; [by destruct Hsz as [-> | ->]|].
    split; [done|]. intros j Hj _. done.
  - exists (Z.log2_up sz).
    pose proof (Z.log2_up_eqn sz ltac:(lia)) as Heq. rewrite <- Z.sub_1_r in Heq.
    pose proof (Z.log2_up_spec sz ltac:(lia)) as [_ Hup].
    pose proof (proj1 (Z.log2_up_le_pow2 sz (8 * sizeof_sz - 1) ltac:(lia)) ltac:(lia)) as Hk.
    split; [apply Z.log2_up_nonneg|]. split; [|split; [done|]].
    + rewrite nextpow2sz_on_log2 by (done || lia).
      replace (Z.log2 (sz - 1) + 1) with (Z.log2_up sz) by lia.
      unfold size_wrap. apply Z.mod_small. split; [apply Z.pow_nonneg; lia|].
      rewrite Hpow.
      assert (2 ^ Z.log2_up sz <= 2 ^ (8 * sizeof_sz - 1)); [|lia].
      apply Z.pow_le_mono_r; lia.
    + intros j Hj Hle. apply Z.log2_up_le_pow2; [lia|done].
Qed.

Lemma nextpow2sz_least_power_witness :
  exists k,
    0 <= k /\ nextpow2sz_on 8 1000 = 2 ^ k /\ 1000 <= 2 ^ k /\
    (forall j, 0 <= j -> 1000 <= 2 ^ j -> k <= j).
Proof. apply (nextpow2sz_least_power 8 1000); [by right|done]. Defined.

(** X2.  [nextpow2sz] returns [0] for the size [0] and for every size above
    half the range of [size_t], whose next power of two does not fit. *)
Theorem nextpow2sz_no_fit (sizeof_sz sz : Z) :
  sizeof_sz = 4 \/ sizeof_sz = 8 ->
  sz = 0 \/ 2 ^ (8 * sizeof_sz - 1) < sz < 2 ^ (8 * sizeof_sz) ->
  nextpow2sz_on sizeof_sz sz = 0.
Proof.
  intros Hsz [->|Hrange]; [by destruct Hsz as [-> | ->]|].
  assert (0 < 8 * sizeof_sz - 1) as Hw by lia.
  assert (2 ^ (8 * sizeof_sz) = 2 * 2 ^ (8 * sizeof_sz - 1)) as Hpow.
  { rewrite <- Z.pow_succ_r by lia. f_equal. lia. }
  assert (0 < 2 ^ (8 * sizeof_sz - 1)) as Hpos by (apply Z.pow_pos_nonneg; lia).
  rewrite nextpow2sz_on_log2 by (done || lia).
  assert (Z.log2 (sz - 1) = 8 * sizeof_sz - 1) as ->.
  { apply Z.log2_unique; [lia|]. rewrite Z.pow_succ_r by lia. lia. }
  replace (8 * sizeof_sz - 1 + 1) with (8 * sizeof_sz) by lia.
  unfold size_wrap. apply Z.mod_same. lia.
Qed.

Lemma nextpow2sz_no_fit_witness : nextpow2sz_on 8 (2 ^ 63 + 1) = 0.
Proof. apply (nextpow2sz_no_fit 8 (2 ^ 63 + 1)); [by right|by right]. Defined.

(** ** [iovec_sum] *)

Lemma iovec_sum_from_spec iov : forall todo total,
  iovec_sum_from iov todo total =
  if decide (todo <= length iov)%nat
  then Some (if decide (todo = 0%nat) then total
             else size_wrap 8 (total + foldr Z.add 0 (take todo iov)))
  else None.
Proof.
  induction iov as [|len iov IH]; intros [|todo] total; cbn [iovec_sum_from]; try done.
  rewrite IH. cbn [length take foldr].
  destruct (decide (todo <= length iov)%nat) as [Hle|Hgt];
    destruct (decide (S todo <= S (length iov))%nat) as [Hle'|Hgt']; try lia; [|done].
  f_equal. destruct (decide (S todo = 0%nat)) as [|_]; [done|].
  destruct (decide (todo = 0%nat)) as [->|Hne].
  - rewrite take_0. cbn. by rewrite Z.add_0_r.
  - unfold size_wrap. rewrite Z.add_mod_idemp_l by done. f_equal. lia.
Qed.

(** X3.  [iovec_sum] returns the sum of the lengths of the first [niovec]
    elements modulo the range of [size_t]: wrapping at each addition loses
    nothing more than wrapping once at the end, and the result is the exact
    sum when that fits.  With [niovec] beyond the end of the array the loop
    reads outside it. *)
Theorem iovec_sum_is_wrapped_sum (iov : list Z) (niovec : nat) :
  iovec_sum iov niovec =
  (if decide (niovec <= length iov)%nat
   then Some (foldr Z.add 0 (take niovec iov) mod SIZE_MAX1)
   else None) /\
  (0 <= foldr Z.add 0 (take niovec iov) < SIZE_MAX1 ->
   (niovec <= length iov)%nat ->
   iovec_sum iov niovec = Some (foldr Z.add 0 (take niovec iov))).
Proof.
  assert (iovec_sum iov niovec =
          if decide (niovec <= length iov)%nat
          then Some (foldr Z.add 0 (take niovec iov) mod SIZE_MAX1) else None) as E.
  { unfold iovec_sum. rewrite iovec_sum_from_spec. case_decide; [|done]. f_equal.
    case_decide as H0; [by subst|]. done. }
  split; [exact E|]. intros Hfit Hle. rewrite E, decide_True by done.
  f_equal. by apply Z.mod_small.
Qed.

(** ** Leaving a scope: [reslist_cleanup_local] and [reslist_pop_nodestroy] *)

Lemma reslist_cleanup_local_ok s rl P F :
  scope_at (nodes s) rl (Some P) F ->
  parent_ok (nodes s) rl (Some P) F ->
  actions_safe (actions F) (mem s) (fdtable s) ->
  reslist_cleanup_local rl s =
  Ret tt (set_nodes (swept rl (Some P) F)
            (after_actions (actions F) (set_current_reslist (Some P) s))).
Proof.
  intros Hsc Hpar Hsafe. unfold reslist_cleanup_local.
  destruct Hsc as (Hrl & Hrep & Hnd).
  rewrite (bind_Ret _ _ _ _ _ (get_parent_eq _ _ _ _ Hrl)), bind_modify.
  rewrite (reslist_destroy_forest rl (Some P) F (set_current_reslist (Some P) s));
    [|by split|done].
  by rewrite (bind_Ret _ _ _ _ _
                (run_actions_safe (actions F) (set_current_reslist (Some P) s) Hsafe)).
Qed.

(** X4.  [reslist_cleanup_local] on a scope below the live scope [P] makes
    [P] current, calls the actions of everything in the scope, newest first,
    frees the scope and all its nodes, and unlinks it from [P]; every other
    node and every block no action frees is left as it was. *)
Theorem reslist_cleanup_local_frame (s : state) (rl P : addr) (F : forest)
    (q : option addr) (cs : list addr) :
  scope_at (nodes s) rl (Some P) F ->
  nodes s !! P = Some (RES_RESLIST q cs) ->
  P ∉ rl :: addrs F ->
  actions_safe (actions F) (mem s) (fdtable s) ->
  exists s',
    reslist_cleanup_local rl s = Ret tt s' /\
    current_reslist s' = Some P /\
    (forall a, a ∈ rl :: addrs F -> nodes s' !! a = None) /\
    nodes s' !! P = Some (RES_RESLIST q (unlink rl cs)) /\
    (forall a, a ∉ rl :: addrs F -> a <> P -> nodes s' !! a = nodes s !! a) /\
    calls (trace s') = calls (trace s) ++ actions F /\
    (forall a, mem s' !! a = if decide (a ∈ freed (actions F)) then None else mem s !! a) /\
    current_errh s' = current_errh s.
Proof.
  intros Hsc HP Hout Hsafe.
  assert (parent_ok (nodes s) rl (Some P) F) as Hpar by (split; eauto).
  eexists. split; [by apply reslist_cleanup_local_ok|].
  set (s1 := set_current_reslist (Some P) s).
  destruct (after_actions_frame (actions F) s1) as (Hn & _ & _ & _ & Hcur & Hh & _).
  change (nodes (set_nodes ?f ?x)) with (f (nodes x)). rewrite Hn.
  split; [exact Hcur|]. split; [intros a Ha; by apply swept_gone|].
  split; [by apply swept_parent|]. split; [intros a Ha HaP; by apply swept_other|].
  split; [|split; [|exact Hh]].
  - change (trace (set_nodes ?f ?x)) with (trace x).
    rewrite after_actions_trace, calls_app, calls_action_events. reflexivity.
  - intros a. exact (after_actions_mem (actions F) s1 a).
Qed.

Lemma sample_scope_eq :
  sample_scope = allocated 1 (Some 0%nat) [] 8 (pushed 0 None [] sample_boot).
Proof. reflexivity. Qed.

Lemma reslist_cleanup_local_frame_witness :
  exists s',
    reslist_cleanup_local 1 sample_scope = Ret tt s' /\
    current_reslist s' = Some 0%nat /\
    (forall a, a ∈ [1; 2]%nat -> nodes s' !! a = None) /\
    nodes s' !! 0%nat = Some (RES_RESLIST None (unlink 1%nat [1%nat])) /\
    (forall a, a ∉ [1; 2]%nat -> a <> 0%nat -> nodes s' !! a = nodes sample_scope !! a) /\
    calls (trace s') = calls (trace sample_scope) ++ [(fn_free, Heap 3)] /\
    (forall a, mem s' !! a = if decide (a ∈ [3%nat]) then None else mem sample_scope !! a) /\
    current_errh s' = current_errh sample_scope.
Proof.
  apply (reslist_cleanup_local_frame sample_scope 1 0
           (FCleanup 2 (Some fn_free) (Heap 3) FNil) None [1%nat]).
  - split; [reflexivity|]. split; [by split|]. apply (bool_decide_unpack _). vm_compute. exact I.
  - reflexivity.
  - apply (bool_decide_unpack _). vm_compute. exact I.
  - split; [repeat constructor|]. split; [apply NoDup_singleton|].
    split; [apply Forall_singleton; by eexists|]. split; [apply NoDup_nil_2|apply Forall_nil_2].
Defined.

Lemma heap_fresh_pushed s c p cs :
  heap_fresh s -> nodes s !! c = Some (RES_RESLIST p cs) -> heap_fresh (pushed c p cs s).
Proof.
  intros Hfr Hc. pose proof (live_below_next _ _ _ Hfr Hc) as Hlt.
  unfold pushed. solve_fresh Hfr.
Qed.

Lemma pushed_nodes s c p cs :
  heap_fresh s -> nodes s !! c = Some (RES_RESLIST p cs) ->
  (forall a, a <> next_addr s -> a <> c -> nodes (pushed c p cs s) !! a = nodes s !! a) /\
  nodes (pushed c p cs s) !! c = Some (RES_RESLIST p (next_addr s :: cs)) /\
  nodes (pushed c p cs s) !! next_addr s = Some (RES_RESLIST (Some c) []).
Proof.
  intros Hfr Hc. pose proof (live_below_next _ _ _ Hfr Hc) as Hlt.
  unfold pushed. state_simpl. split; [|split].
  - intros a Ha Hac. by rewrite !lookup_insert_ne.
  - apply lookup_insert_eq.
  - lookup_steps. done.
Qed.

(** X5.  A scope pushed, used for one [xalloc] and left through
    [reslist_cleanup_local] leaves no trace in the heap: the nodes and the
    blocks are exactly those from before the push, the scope that was
    current is current again, and the one cleanup call made is the [free] of
    the block. *)
Theorem scoped_alloc_round_trip (s : state) (c : addr) (p : option addr) (cs : list addr)
    (sz : Z) :
  heap_fresh s ->
  current_reslist s = Some c ->
  nodes s !! c = Some (RES_RESLIST p cs) ->
  malloc_ok s (nmalloc s) = true ->
  malloc_ok s (S (nmalloc s)) = true ->
  malloc_ok s (S (S (nmalloc s))) = true ->
  exists s',
    (rl <- reslist_push_new ;; xalloc sz ;;; reslist_cleanup_local rl) s = Ret tt s' /\
    nodes s' = nodes s /\
    mem s' = mem s /\
    current_reslist s' = Some c /\
    calls (trace s') = calls (trace s) ++ [(fn_free, Heap (S (S (next_addr s))))].
Proof.
  intros Hfr Hcur Hc Hok0 Hok1 Hok2.
  pose proof (live_below_next _ _ _ Hfr Hc) as Hlt.
  set (rl := next_addr s). set (s1 := pushed c p cs s).
  set (F := FCleanup (S rl) (Some fn_free) (Heap (S (S rl))) FNil).
  pose proof (heap_fresh_pushed s c p cs Hfr Hc) as Hfr1. fold s1 in Hfr1.
  destruct (pushed_nodes s c p cs Hfr Hc) as (Hold1 & Hc1 & Hrl1).
  fold s1 rl in Hold1, Hc1, Hrl1.
  set (s2 := allocated rl (Some c) [] sz s1).
  destruct (printed_frame s1 rl (Some c) [] "" Hfr1 Hrl1) as (Hold2 & Hrl2 & Hr2 & _).
  assert (nodes s2 = nodes (printed rl (Some c) [] "" s1)) as Hn2 by reflexivity.
  change (next_addr s1) with (S rl) in *.
  assert (scope_at (nodes s2) rl (Some c) F) as Hsc.
  { rewrite Hn2. split; [exact Hrl2|]. split; [by split|].
    unfold F. cbn [addrs]. rewrite !NoDup_cons, !not_elem_of_cons.
    repeat split; try lia; try apply not_elem_of_nil. apply NoDup_nil_2. }
  assert (nodes s2 !! c = Some (RES_RESLIST p (rl :: cs))) as Hc2.
  { rewrite Hn2, Hold2 by (unfold rl; lia). exact Hc1. }
  assert (c ∉ rl :: addrs F) as Hout.
  { cbn. rewrite !not_elem_of_cons. unfold rl. repeat split; try lia. apply not_elem_of_nil. }
  assert (mem s2 = <[S (S rl) := Block sz PUninit]> (mem s)) as Hm2 by reflexivity.
  assert (actions_safe (actions F) (mem s2) (fdtable s2)) as Hsafe.
  { split; [repeat constructor|]. split; [apply NoDup_singleton|].
    split; [apply Forall_singleton; rewrite Hm2, lookup_insert_eq; by eexists|].
    split; [apply NoDup_nil_2|apply Forall_nil_2]. }
  assert (parent_ok (nodes s2) rl (Some c) F) as Hpar by (split; eauto).
  eexists. split.
  { rewrite (bind_Ret _ _ _ _ _ (reslist_push_new_ok _ _ _ _ Hfr Hcur Hc Hok0)).
    fold rl s1.
    rewrite (bind_Ret _ _ _ _ _ (xalloc_ok s1 rl (Some c) [] sz Hfr1 eq_refl Hrl1 Hok1 Hok2)).
    fold s2. apply (reslist_cleanup_local_ok s2 rl c F Hsc Hpar Hsafe). }
  change (nodes (set_nodes ?f ?x)) with (f (nodes x)).
  change (mem (set_nodes ?f ?x)) with (mem x).
  change (current_reslist (set_nodes ?f ?x)) with (current_reslist x).
  change (trace (set_nodes ?f ?x)) with (trace x).
  split; [|split; [|split; [reflexivity|]]].
  - apply map_eq. intros a.
    change (nodes (after_actions (actions F) ?x)) with (nodes s2).
    destruct (decide (a ∈ rl :: addrs F)) as [Hin|Hnin].
    + rewrite swept_gone by done. symmetry. apply heap_fresh_nodes; [done|].
      cbn in Hin. rewrite !elem_of_cons in Hin. fold rl.
      destruct Hin as [->|[->|Hin]]; [lia|lia|by apply elem_of_nil in Hin].
    + destruct (decide (a = c)) as [->|Hac].
      * rewrite (swept_parent _ _ _ _ _ _ Hout Hc2), unlink_head. by rewrite Hc.
      * rewrite swept_other by done.
        cbn in Hnin. rewrite !not_elem_of_cons in Hnin. destruct Hnin as (Ha1 & Ha2 & _).
        unfold s2, allocated, registered, s1, pushed. state_simpl. fold rl.
        by rewrite !lookup_insert_ne.
  - cbn [actions F after_actions fold_left apply_action fst snd].
    change (mem (set_mem ?f ?x)) with (f (mem x)). change (mem (log _ ?x)) with (mem x).
    change (mem (set_current_reslist _ ?x)) with (mem x).
    rewrite Hm2. apply delete_insert_id. apply heap_fresh_mem; [done|]. fold rl. lia.
  - rewrite after_actions_trace, calls_app, calls_action_events.
    change (trace (set_current_reslist _ ?x)) with (trace x).
    reflexivity.
Qed.

(** Closed decidable facts, by evaluation. *)
Ltac by_compute := apply (bool_decide_unpack _); vm_compute; exact I.

Lemma heap_fresh_sample_boot : heap_fresh sample_boot.
Proof. split; by_compute. Defined.

Lemma scoped_alloc_round_trip_witness :
  exists s',
    (rl <- reslist_push_new ;; xalloc 8 ;;; reslist_cleanup_local rl) sample_boot = Ret tt s' /\
    nodes s' = nodes sample_boot /\
    mem s' = mem sample_boot /\
    current_reslist s' = Some 0%nat /\
    calls (trace s') = calls (trace sample_boot) ++ [(fn_free, Heap 3)].
Proof.
  apply (scoped_alloc_round_trip sample_boot 0 None [] 8 heap_fresh_sample_boot);
    reflexivity.
Defined.

(** X6.  [reslist_pop_nodestroy] after [reslist_push_new] makes the scope
    that was current the current one again and destroys nothing: the new
    scope stays linked as its first element, empty, with its [parent] field
    set, and every other node is as before. *)
Theorem push_pop_keeps_scope (s : state) (c : addr) (p : option addr) (cs : list addr) :
  heap_fresh s ->
  current_reslist s = Some c ->
  nodes s !! c = Some (RES_RESLIST p cs) ->
  malloc_ok s (nmalloc s) = true ->
  exists s',
    (rl <- reslist_push_new ;; reslist_pop_nodestroy ;;; ret rl) s = Ret (next_addr s) s' /\
    current_reslist s' = Some c /\
    nodes s' !! c = Some (RES_RESLIST p (next_addr s :: cs)) /\
    nodes s' !! next_addr s = Some (RES_RESLIST (Some c) []) /\
    (forall a, a <> next_addr s -> a <> c -> nodes s' !! a = nodes s !! a) /\
    mem s' = mem s /\ trace s' = trace s.
Proof.
  intros Hfr Hcur Hc Hok.
  destruct (pushed_nodes s c p cs Hfr Hc) as (Hold & Hc1 & Hrl1).
  exists (set_current_reslist (Some c) (pushed c p cs s)). split.
  { rewrite (bind_Ret _ _ _ _ _ (reslist_push_new_ok _ _ _ _ Hfr Hcur Hc Hok)).
    by rewrite (bind_Ret _ _ _ _ _
                  (reslist_pop_nodestroy_ok (pushed c p cs s) (next_addr s) (Some c) []
                     eq_refl Hrl1)). }
  done.
Qed.

Lemma push_pop_keeps_scope_witness :
  exists s',
    (rl <- reslist_push_new ;; reslist_pop_nodestroy ;;; ret rl) sample_boot = Ret 1%nat s' /\
    current_reslist s' = Some 0%nat /\
    nodes s' !! 0%nat = Some (RES_RESLIST None [1%nat]) /\
    nodes s' !! 1%nat = Some (RES_RESLIST (Some 0%nat) []) /\
    (forall a, a <> 1%nat -> a <> 0%nat -> nodes s' !! a = nodes sample_boot !! a) /\
    mem s' = mem sample_boot /\ trace s' = trace sample_boot.
Proof.
  apply (push_pop_keeps_scope sample_boot 0 None [] heap_fresh_sample_boot); reflexivity.
Defined.

(** ** [set_prgname] and [cleanup_prgname] *)

Lemma set_prgname_ok s c p cs q :
  heap_fresh s ->
  current_reslist s = Some c ->
  nodes s !! c = Some (RES_RESLIST p cs) ->
  malloc_ok s (nmalloc s) = true ->
  set_prgname q s = Ret tt (renamed c p cs q s).
Proof.
  intros Hfr Hcur Hc Hok. unfold set_prgname.
  pose proof (live_below_next _ _ _ Hfr Hc) as Hlt.
  rewrite (bind_Ret _ _ _ _ _ (cleanup_allocate_ok _ _ _ _ Hfr Hcur Hc Hok)).
  rewrite bind_get.
  erewrite bind_Ret; cycle 1.
  { apply (cleanup_commit_ok _ _ None Null). unfold registered. state_simpl.
    lookup_steps. reflexivity. }
  reflexivity.
Qed.

Lemma heap_fresh_renamed s c p cs q :
  heap_fresh s -> nodes s !! c = Some (RES_RESLIST p cs) -> heap_fresh (renamed c p cs q s).
Proof.
  intros Hfr Hc. pose proof (live_below_next _ _ _ Hfr Hc) as Hlt.
  unfold renamed, registered. solve_fresh Hfr.
Qed.

Lemma renamed_nodes s c p cs q :
  (c < next_addr s)%nat ->
  nodes (renamed c p cs q s) =
  <[c := RES_RESLIST p (next_addr s :: cs)]>
    (<[next_addr s := RES_CLEANUP (Some fn_cleanup_prgname) (prgname s)]> (nodes s)).
Proof.
  intros Hlt. unfold renamed, registered. state_simpl.
  rewrite (insert_insert_ne _ (next_addr s) c) by lia. by rewrite insert_insert_eq.
Qed.

Lemma prgname_after_actions l : forall s,
  prgname (after_actions l s) = prgname_after l (prgname s).
Proof.
  induction l as [|[fn d] l IH]; intros s; [done|].
  cbn [after_actions fold_left]. fold (after_actions l (apply_action (fn, d) s)).
  rewrite IH. destruct fn, d; done.
Qed.

Lemma prgname_after_none l cur :
  Forall (fun x => x.1 <> fn_cleanup_prgname) l -> prgname_after l cur = cur.
Proof.
  induction 1 as [|[fn d] l Hx _ IH]; [done|]. cbn in Hx. destruct fn; done.
Qed.

Lemma actions_safe_prgname d l m tbl :
  actions_safe l m tbl -> actions_safe ((fn_cleanup_prgname, d) :: l) m tbl.
Proof. intros (Hty & H). split; [by apply Forall_cons|exact H]. Qed.

(** The tree of the current scope after [set_prgname]. *)
Lemma tree_ok_renamed s rl pp F q :
  heap_fresh s ->
  tree_ok s rl pp F ->
  tree_ok (renamed rl pp (roots F) q s) rl pp
    (FCleanup (next_addr s) (Some fn_cleanup_prgname) (prgname s) F).
Proof.
  intros Hfr (Hsc & Hpar & Hsafe). pose proof Hsc as (Hrl & Hrep & Hnd).
  pose proof (live_below_next _ _ _ Hfr Hrl) as Hlt.
  assert (nodes s !! next_addr s = None) as Hnew by (apply heap_fresh_nodes; [done|lia]).
  assert (next_addr s ∉ rl :: addrs F) as Hout.
  { intros Hin. apply elem_of_cons in Hin as [E|Hin]; [lia|].
    destruct (repr_lookup _ _ _ _ Hrep Hin) as [n Hn]. congruence. }
  unfold tree_ok. rewrite renamed_nodes by done.
  pose proof (scope_at_tinsert (nodes s) rl pp F rl pp (roots F)
                (ICleanup (next_addr s) (Some fn_cleanup_prgname) (prgname s))
                Hsc ltac:(left) Hrl Hout) as Hsc'.
  pose proof (parent_ok_tinsert (nodes s)
                (<[rl := RES_RESLIST pp (next_addr s :: roots F)]>
                   (<[next_addr s := RES_CLEANUP (Some fn_cleanup_prgname) (prgname s)]>
                      (nodes s)))
                rl pp F rl
                (ICleanup (next_addr s) (Some fn_cleanup_prgname) (prgname s))
                Hpar ltac:(left)) as Hpar'.
  unfold tinsert in Hsc', Hpar'. rewrite decide_True in Hsc', Hpar' by done.
  split; [exact Hsc'|]. split.
  - apply Hpar'. intros P ->. destruct Hpar as (HP & q0 & qs & Hq).
    assert (P <> next_addr s) by congruence.
    assert (P <> rl) by (intros ->; apply HP; left).
    split; [done|]. by rewrite !lookup_insert_ne.
  - cbn [actions]. by apply actions_safe_prgname.
Qed.

Lemma set_prgnames_ok rl pp : forall l s F,
  heap_fresh s ->
  current_reslist s = Some rl ->
  tree_ok s rl pp F ->
  (forall k, (k < length l)%nat -> malloc_ok s (nmalloc s + k)%nat = true) ->
  exists s1 F1,
    set_prgnames l s = Ret tt s1 /\
    tree_ok s1 rl pp F1 /\
    prgname s1 = default (prgname s) (last l) /\
    prgname_after (actions F1) (prgname s1) = prgname_after (actions F) (prgname s).
Proof.
  induction l as [|q l IH]; intros s F Hfr Hcur Htree Hok.
  - exists s, F. done.
  - pose proof Htree as ((Hrl & _) & _).
    pose proof (Hok 0%nat ltac:(cbn; lia)) as Hok0. rewrite Nat.add_0_r in Hok0.
    destruct (IH (renamed rl pp (roots F) q s)
                (FCleanup (next_addr s) (Some fn_cleanup_prgname) (prgname s) F))
      as (s1 & F1 & Hrun & Htree1 & Hname & Hafter).
    + by apply heap_fresh_renamed.
    + exact Hcur.
    + by apply tree_ok_renamed.
    + intros k Hk.
      change (malloc_ok (renamed rl pp (roots F) q s)) with (malloc_ok s).
      change (nmalloc (renamed rl pp (roots F) q s)) with (S (nmalloc s)).
      replace (S (nmalloc s) + k)%nat with (nmalloc s + S k)%nat by lia.
      apply Hok. cbn. lia.
    + exists s1, F1. split; [|split; [done|split]].
      * cbn [set_prgnames].
        by rewrite (bind_Ret _ _ _ _ _ (set_prgname_ok _ _ _ _ q Hfr Hcur Hrl Hok0)).
      * rewrite Hname. change (prgname (renamed rl pp (roots F) q s)) with q.
        destruct l as [|q' l]; [done|]. rewrite last_cons_cons.
        destruct (last (q' :: l)) eqn:E; [done|]. by apply last_None in E.
      * rewrite Hafter. reflexivity.
Qed.

(** X7.  After any number of [set_prgname] calls in the current scope the
    program name is the last one set.  Destroying the scope then leaves the
    same program name as destroying it before the calls would have left: the
    [cleanup_prgname] records of the calls restore the older names newest
    first, and any such record the scope held from earlier runs after them.
    When the scope held none, that is the name from before the first call. *)
Theorem set_prgname_restored (s : state) (rl : addr) (pp : option addr) (F : forest)
    (l : list ptr) :
  heap_fresh s ->
  current_reslist s = Some rl ->
  tree_ok s rl pp F ->
  (forall k, (k < length l)%nat -> malloc_ok s (nmalloc s + k)%nat = true) ->
  exists s1 s2 s0,
    set_prgnames l s = Ret tt s1 /\
    prgname s1 = default (prgname s) (last l) /\
    reslist_destroy rl s1 = Ret tt s2 /\
    reslist_destroy rl s = Ret tt s0 /\
    prgname s2 = prgname s0 /\
    (Forall (fun x => x.1 <> fn_cleanup_prgname) (actions F) -> prgname s2 = prgname s).
Proof.
  intros Hfr Hcur Htree Hok.
  destruct (set_prgnames_ok rl pp l s F Hfr Hcur Htree Hok)
    as (s1 & F1 & Hrun & (Hsc1 & Hpar1 & Hsafe1) & Hname & Hafter).
  destruct Htree as (Hsc & Hpar & Hsafe).
  exists s1, (set_nodes (swept rl pp F1) (after_actions (actions F1) s1)),
    (set_nodes (swept rl pp F) (after_actions (actions F) s)).
  split; [exact Hrun|]. split; [exact Hname|]. split.
  { rewrite (reslist_destroy_forest _ _ _ _ Hsc1 Hpar1).
    by rewrite (bind_Ret _ _ _ _ _ (run_actions_safe _ _ Hsafe1)). }
  split.
  { rewrite (reslist_destroy_forest _ _ _ _ Hsc Hpar).
    by rewrite (bind_Ret _ _ _ _ _ (run_actions_safe _ _ Hsafe)). }
  assert (forall f x, prgname (set_nodes f x) = prgname x) as Hp by done.
  rewrite !Hp, !prgname_after_actions, Hafter.
  split; [done|]. intros Hnone. by apply prgname_after_none.
Qed.

Lemma set_prgname_restored_witness :
  exists s1 s2 s0,
    set_prgnames [Static "adb"; Static "shell"] sample_boot = Ret tt s1 /\
    prgname s1 = Static "shell" /\
    reslist_destroy 0 s1 = Ret tt s2 /\
    reslist_destroy 0 sample_boot = Ret tt s0 /\
    prgname s2 = prgname s0 /\
    prgname s2 = Static "fb-adb".
Proof.
  destruct (set_prgname_restored sample_boot 0 None FNil [Static "adb"; Static "shell"]
              heap_fresh_sample_boot) as (s1 & s2 & s0 & H1 & H2 & H3 & H4 & H5 & H6).
  - reflexivity.
  - split; [|split; [exact I|]].
    + split; [reflexivity|]. split; [exact I|]. by_compute.
    + split; [apply Forall_nil_2|]. split; [apply NoDup_nil_2|].
      split; [apply Forall_nil_2|]. split; [apply NoDup_nil_2|apply Forall_nil_2].
  - reflexivity.
  - exists s1, s2, s0. split; [exact H1|]. split; [exact H2|]. split; [exact H3|].
    split; [exact H4|]. split; [exact H5|]. exact (H6 (Forall_nil_2 _)).
Defined.

(** ** [cleanup_commit] *)

(** X8.  [cleanup_commit] overwrites the action of the record: of two
    commits to one record only the second counts, and the first action is
    dropped without being called.  Commits to two different records can be
    made in either order. *)
Theorem cleanup_commit_last_wins (s : state) (cl cl' : addr) (f1 f2 : cleanupfn)
    (d1 d2 : ptr) :
  (cleanup_commit cl f1 d1 ;;; cleanup_commit cl f2 d2) s = cleanup_commit cl f2 d2 s /\
  (trace (state_of ((cleanup_commit cl f1 d1 ;;; cleanup_commit cl f2 d2) s) s) = trace s) /\
  (cl <> cl' ->
   (cleanup_commit cl f1 d1 ;;; cleanup_commit cl' f2 d2) s =
   (cleanup_commit cl' f2 d2 ;;; cleanup_commit cl f1 d1) s).
Proof.
  assert ((cleanup_commit cl f1 d1 ;;; cleanup_commit cl f2 d2) s = cleanup_commit cl f2 d2 s)
    as E.
  { unfold bind, cleanup_commit. destruct (nodes s !! cl) as [[|fn d]|] eqn:Hcl; try done.
    state_simpl. rewrite lookup_insert_eq. apply f_equal.
    apply state_ext; state_simpl; try reflexivity. apply insert_insert_eq. }
  split; [exact E|]. split.
  - rewrite E. unfold cleanup_commit. by destruct (nodes s !! cl) as [[|fn d]|].
  - intros Hne. unfold bind, cleanup_commit.
    destruct (nodes s !! cl) as [[|fn d]|] eqn:Hcl;
      destruct (nodes s !! cl') as [[|fn' d']|] eqn:Hcl'; state_simpl;
      rewrite ?lookup_insert_ne by done; rewrite ?Hcl, ?Hcl'; try done.
    apply f_equal. apply state_ext; state_simpl; try reflexivity.
    by apply insert_insert_ne.
Qed.

(** ** [xcalloc] and [xstrdup] *)

(** After [xcalloc sz] in the scope [c]. *)
Lemma xcalloc_ok s c p cs sz :
  heap_fresh s ->
  current_reslist s = Some c ->
  nodes s !! c = Some (RES_RESLIST p cs) ->
  malloc_ok s (nmalloc s) = true ->
  malloc_ok s (S (nmalloc s)) = true ->
  xcalloc sz s =
  Ret (Heap (S (next_addr s)))
      (set_mem (<[S (next_addr s) := Block sz PZero]>) (allocated c p cs sz s)).
Proof.
  intros Hfr Hcur Hc Hok0 Hok1. unfold xcalloc.
  rewrite (bind_Ret _ _ _ _ _ (xalloc_ok _ _ _ _ sz Hfr Hcur Hc Hok0 Hok1)).
  erewrite bind_Ret; [reflexivity|].
  unfold memset_zero, allocated. state_simpl. rewrite lookup_insert_eq.
  by rewrite Z.leb_refl.
Qed.

(** X9.  [xcalloc] returns a new block of the size asked for, all zero, and
    registers its [free] at the head of the current scope; no other block
    and no other node but the current scope changes. *)
Theorem xcalloc_zeroes (s : state) (c : addr) (p : option addr) (cs : list addr) (sz : Z) :
  heap_fresh s ->
  current_reslist s = Some c ->
  nodes s !! c = Some (RES_RESLIST p cs) ->
  malloc_ok s (nmalloc s) = true ->
  malloc_ok s (S (nmalloc s)) = true ->
  exists m s',
    xcalloc sz s = Ret (Heap m) s' /\
    mem s !! m = None /\
    mem s' !! m = Some (Block sz PZero) /\
    (forall a, a <> m -> mem s' !! a = mem s !! a) /\
    nodes s' !! c = Some (RES_RESLIST p (next_addr s :: cs)) /\
    nodes s' !! next_addr s = Some (RES_CLEANUP (Some fn_free) (Heap m)) /\
    (forall a, a <> c -> a <> next_addr s -> nodes s' !! a = nodes s !! a).
Proof.
  intros Hfr Hcur Hc Hok0 Hok1. pose proof (live_below_next _ _ _ Hfr Hc) as Hlt.
  eexists _, _. split; [by apply xcalloc_ok|].
  unfold allocated, registered. state_simpl.
  split; [apply heap_fresh_mem; [done|lia]|].
  split; [apply lookup_insert_eq|].
  split; [intros a Ha; by rewrite !lookup_insert_ne|].
  split; [by rewrite lookup_insert_ne, lookup_insert_eq by lia|].
  split; [apply lookup_insert_eq|].
  intros a Hac Han. by rewrite !lookup_insert_ne.
Qed.

Lemma xcalloc_zeroes_witness :
  exists m s',
    xcalloc 16 sample_boot = Ret (Heap m) s' /\
    mem sample_boot !! m = None /\
    mem s' !! m = Some (Block 16 PZero) /\
    (forall a, a <> m -> mem s' !! a = mem sample_boot !! a) /\
    nodes s' !! 0%nat = Some (RES_RESLIST None [1%nat]) /\
    nodes s' !! 1%nat = Some (RES_CLEANUP (Some fn_free) (Heap m)) /\
    (forall a, a <> 0%nat -> a <> 1%nat -> nodes s' !! a = nodes sample_boot !! a).
Proof.
  apply (xcalloc_zeroes sample_boot 0 None [] 16 heap_fresh_sample_boot); reflexivity.
Defined.

(** X10.  [xstrdup] of a string of at most [INT_MAX] characters returns a
    new block that holds the characters of its argument and is freed with
    the current scope; the argument still reads the same afterwards. *)
Theorem xstrdup_copies (s : state) (c : addr) (p : option addr) (cs : list addr)
    (src : ptr) (str : string) :
  heap_fresh s ->
  current_reslist s = Some c ->
  nodes s !! c = Some (RES_RESLIST p cs) ->
  malloc_ok s (nmalloc s) = true ->
  malloc_ok s (S (nmalloc s)) = true ->
  deref_str (mem s) src = Some str ->
  fits str ->
  exists m s',
    xstrdup src s = Ret (Heap m) s' /\
    src <> Heap m /\
    deref_str (mem s') (Heap m) = Some str /\
    deref_str (mem s') src = Some str /\
    mem s' !! m = Some (Block (Z.of_nat (String.length str) + 1) (PBytes str)) /\
    nodes s' !! next_addr s = Some (RES_CLEANUP (Some fn_free) (Heap m)) /\
    nodes s' !! c = Some (RES_RESLIST p (next_addr s :: cs)).
Proof.
  intros Hfr Hcur Hc Hok0 Hok1 Hsrc Hfits.
  pose proof (live_below_next _ _ _ Hfr Hc) as Hlt.
  pose proof (heap_fresh_mem s (S (next_addr s)) Hfr ltac:(lia)) as Hnew.
  destruct (printed_frame s c p cs str Hfr Hc) as (_ & Hc' & Hr' & _ & Hm').
  eexists _, _. split.
  { unfold xstrdup, xaprintf, xavprintf.
    apply (xavprintf_with_ok _ s c p cs); try done. by apply c_format_percent_s. }
  split; [|split; [|split; [|done]]].
  - intros ->. cbn in Hsrc. by rewrite Hnew in Hsrc.
  - cbn [deref_str]. by rewrite Hm'.
  - destruct src as [|str0|a|z]; try done. cbn [deref_str] in *.
    assert (a <> S (next_addr s)) as Ha by (intros ->; by rewrite Hnew in Hsrc).
    unfold printed, allocated. state_simpl. by rewrite !lookup_insert_ne.
Qed.

Lemma xstrdup_copies_witness :
  exists m s',
    xstrdup (Static "fb-adb") sample_boot = Ret (Heap m) s' /\
    Static "fb-adb" <> Heap m /\
    deref_str (mem s') (Heap m) = Some "fb-adb"%string /\
    deref_str (mem s') (Static "fb-adb") = Some "fb-adb"%string /\
    mem s' !! m = Some (Block (Z.of_nat (String.length "fb-adb") + 1) (PBytes "fb-adb")) /\
    nodes s' !! 1%nat = Some (RES_CLEANUP (Some fn_free) (Heap m)) /\
    nodes s' !! 0%nat = Some (RES_RESLIST None [1%nat]).
Proof.
  apply (xstrdup_copies sample_boot 0 None [] (Static "fb-adb") "fb-adb"
           heap_fresh_sample_boot); first [reflexivity | by vm_compute].
Defined.

(** ** Raises never return; what comes back is valid *)

Lemma diev_fuel_never_returns n A e fmt args : never_returns (diev_fuel n A e fmt args).
Proof.
  destruct n as [|n]; [by intros s|]. rewrite diev_fuel_S.
  apply never_returns_bind. intros s0.
  destruct (current_errh s0) as [h|]; [|by intros s].
  repeat (apply never_returns_bind; intros ?). by intros s.
Qed.

Lemma die_errno_never_returns {A} fmt args : never_returns (@die_errno A fmt args).
Proof.
  unfold die_errno. apply never_returns_bind. intros s0.
  apply never_returns_bind. intros m. apply (diev_fuel_never_returns 2).
Qed.

Lemma bind_Ret_inv {A B} (m : M A) (k : A -> M B) s b s' :
  bind m k s = Ret b s' -> exists a s1, m s = Ret a s1 /\ k a s1 = Ret b s'.
Proof. unfold bind. destruct (m s) as [a s1| | | | |]; try done. eauto. Qed.

(** What [cleanup_allocate] leaves alone when it returns. *)
Lemma cleanup_allocate_Ret s cl s1 :
  cleanup_allocate s = Ret cl s1 ->
  nodes s1 !! cl = Some (RES_CLEANUP None Null) /\
  mem s1 = mem s /\ fdtable s1 = fdtable s /\ trace s1 = trace s /\
  nsys s1 = nsys s /\ sys_fail s1 = sys_fail s /\
  malloc_ok s1 = malloc_ok s /\ nmalloc s1 = S (nmalloc s).
Proof.
  unfold cleanup_allocate, malloc, bind.
  destruct (malloc_ok s (nmalloc s)) eqn:Hok.
  - unfold modify, get, LIST_INSERT_HEAD. state_simpl.
    destruct (current_reslist s) as [o|]; [|done].
    destruct (decide (o = next_addr s)) as [->|Hne].
    + by rewrite lookup_insert_eq.
    + rewrite lookup_insert_ne by done.
      destruct (nodes s !! o) as [[p cs|]|]; try done. unfold ret. intros [= <- <-].
      state_simpl. by rewrite lookup_insert_ne, lookup_insert_eq.
  - intros H. pose proof (die_oom_never_returns (A:=addr) (bump_malloc false s)) as Hn.
    by rewrite H in Hn.
Qed.

Lemma cleanup_commit_Ret s cl fn d u s1 :
  cleanup_commit cl fn d s = Ret u s1 ->
  mem s1 = mem s /\ fdtable s1 = fdtable s /\ trace s1 = trace s /\
  nodes s1 !! cl = Some (RES_CLEANUP (Some fn) d).
Proof.
  unfold cleanup_commit. destruct (nodes s !! cl) as [[|fn0 d0]|]; try done.
  intros [= <- <-]. state_simpl. by rewrite lookup_insert_eq.
Qed.

Lemma sys_newfd_Ret from ev s fd s1 :
  sys_newfd from ev s = Ret fd s1 ->
  fd = -1 \/
  (fd = Z.of_nat (lowest_free (fdtable s) from) /\
   fdtable s1 = mark_open (fdtable s) (lowest_free (fdtable s) from)).
Proof.
  unfold sys_newfd. destruct (sys_fail s (nsys s)); intros [= <- <-]; [by left|by right].
Qed.

(** X11.  A raise never returns to its caller, with or without a handler:
    no state makes [die], [diev], [die_errno] or [die_oom] produce a
    result. *)
Theorem raises_never_return (A : Type) (e : Z) (fmt : string) (args : list farg) :
  never_returns (@die A e fmt args) /\
  never_returns (@diev A e fmt args) /\
  never_returns (@die_errno A fmt args) /\
  never_returns (@die_oom A).
Proof.
  split; [apply diev_fuel_never_returns|]. split; [apply diev_fuel_never_returns|].
  split; [apply die_errno_never_returns|apply die_oom_never_returns].
Qed.

Lemma xopen_Ret s path flags mode fd s' :
  xopen path flags mode s = Ret fd s' ->
  0 <= fd /\ fd_is_open (fdtable s) fd = false /\ fd_is_open (fdtable s') fd = true.
Proof.
  unfold xopen, open. intros H.
  apply bind_Ret_inv in H as (cl & s1 & Hcl & H).
  apply cleanup_allocate_Ret in Hcl as (_ & _ & Hfd1 & _).
  apply bind_Ret_inv in H as (fd' & s2 & Hsys & H).
  apply sys_newfd_Ret in Hsys as [->|[-> Hfd2]].
  - pose proof (die_errno_never_returns (A:=Z) ("open(" +:+ dquote +:+ "%s" +:+ dquote +:+ ")")
                  [FStr path] s2) as Hn.
    rewrite Z.eqb_refl in H. by rewrite H in Hn.
  - destruct (Z.eqb_spec (Z.of_nat (lowest_free (fdtable s1) 0)) (-1)) as [?|_]; [lia|].
    apply bind_Ret_inv in H as (u & s3 & Hcommit & H). injection H as <- <-.
    apply cleanup_commit_Ret in Hcommit as (_ & Hfd3 & _).
    rewrite Hfd3, Hfd2, Hfd1. split; [lia|].
    split; [apply fd_is_open_lowest_free|apply fd_is_open_mark_eq].
Qed.

Lemma xdup_Ret s fd0 fd s' :
  xdup fd0 s = Ret fd s' ->
  fd0 < fd /\ fd_is_open (fdtable s) fd0 = true /\
  fd_is_open (fdtable s) fd = false /\
  fd_is_open (fdtable s') fd0 = true /\ fd_is_open (fdtable s') fd = true.
Proof.
  unfold xdup. intros H.
  apply bind_Ret_inv in H as (cl & s1 & Hcl & H).
  apply cleanup_allocate_Ret in Hcl as (_ & _ & Hfd1 & _).
  apply bind_Ret_inv in H as (fd' & s2 & Hsys & H).
  assert (fd' = -1 -> False) as Hno.
  { intros ->. pose proof (die_errno_never_returns (A:=Z) "F_DUPFD_CLOEXEC" [] s2) as Hn.
    rewrite Z.eqb_refl in H. by rewrite H in Hn. }
  unfold fcntl_dupfd in Hsys.
  destruct (fd_is_open (fdtable s1) fd0) eqn:Hopen; cbn [andb] in Hsys; cycle 1.
  { injection Hsys as <- _. by destruct Hno. }
  destruct (Z.leb_spec 0 fd0) as [H0|?]; cycle 1.
  { injection Hsys as <- _. by destruct Hno. }
  apply sys_newfd_Ret in Hsys as [->|[-> Hfd2]]; [by destruct Hno|].
  destruct (Z.eqb_spec (Z.of_nat (lowest_free (fdtable s1) (Z.to_nat fd0))) (-1)) as [?|_];
    [lia|].
  apply bind_Ret_inv in H as (u & s3 & Hcommit & H). injection H as <- <-.
  apply cleanup_commit_Ret in Hcommit as (_ & Hfd3 & _).
  rewrite Hfd3, Hfd2, Hfd1 in *.
  pose proof (fd_is_open_lowest_free (fdtable s) (Z.to_nat fd0)) as Hnew.
  pose proof (lowest_free_ge (fdtable s) (Z.to_nat fd0)) as Hge.
  assert (Z.of_nat (lowest_free (fdtable s) (Z.to_nat fd0)) <> fd0) as Hne
    by (intros E; rewrite E in Hnew; congruence).
  split; [lia|]. split; [done|]. split; [done|].
  split; [by apply fd_is_open_mark_mono|apply fd_is_open_mark_eq].
Qed.

Lemma xpipe_Ret s r w s' :
  xpipe s = Ret (r, w) s' ->
  r <> w /\ fd_is_open (fdtable s) r = false /\ fd_is_open (fdtable s) w = false /\
  fd_is_open (fdtable s') r = true /\ fd_is_open (fdtable s') w = true.
Proof.
  unfold xpipe. intros H.
  apply bind_Ret_inv in H as (cl0 & s1 & Hcl0 & H).
  apply cleanup_allocate_Ret in Hcl0 as (_ & _ & Hfd1 & _).
  apply bind_Ret_inv in H as (cl1 & s2 & Hcl1 & H).
  apply cleanup_allocate_Ret in Hcl1 as (_ & _ & Hfd2 & _).
  apply bind_Ret_inv in H as (res & s3 & Hsys & H).
  unfold pipe2 in Hsys. destruct (sys_fail s2 (nsys s2)).
  { injection Hsys as <- _. cbn [fst Z.ltb Z.compare] in H.
    pose proof (die_errno_never_returns (A:=Z * Z) "pipe2" [] s3) as Hn. by rewrite H in Hn. }
  injection Hsys as <- <-. cbn [fst snd Z.ltb Z.compare] in H.
  apply bind_Ret_inv in H as (u0 & s4 & Hc0 & H).
  apply bind_Ret_inv in H as (u1 & s5 & Hc1 & H). injection H as <- <- <-.
  apply cleanup_commit_Ret in Hc0 as (_ & Hfd4 & _).
  apply cleanup_commit_Ret in Hc1 as (_ & Hfd5 & _).
  rewrite Hfd5, Hfd4. state_simpl. rewrite Hfd2, Hfd1.
  pose proof (fd_is_open_lowest_free (fdtable s) 0) as Hr.
  pose proof (fd_is_open_lowest_free (mark_open (fdtable s) (lowest_free (fdtable s) 0)) 0)
    as Hw.
  split; [|split; [done|split; [|split]]].
  - intros E. rewrite <- E in Hw. by rewrite fd_is_open_mark_eq in Hw.
  - apply not_true_is_false. intros Ho.
    apply (fd_is_open_mark_mono _ (lowest_free (fdtable s) 0)) in Ho. congruence.
  - apply fd_is_open_mark_mono, fd_is_open_mark_eq.
  - apply fd_is_open_mark_eq.
Qed.

(** X12.  Whatever the state, a descriptor that [xopen], [xdup] or [xpipe]
    hands back is a real one: it is not negative, it was not open before
    the call and it is open after it; the duplicate is above the original,
    which is still open, and the two ends of a pipe differ.  A failed system
    call never comes back as a result. *)
Theorem returned_descriptors_are_open (s : state) :
  (forall path flags mode fd s',
     xopen path flags mode s = Ret fd s' ->
     0 <= fd /\ fd_is_open (fdtable s) fd = false /\ fd_is_open (fdtable s') fd = true) /\
  (forall fd0 fd s',
     xdup fd0 s = Ret fd s' ->
     fd0 < fd /\ fd_is_open (fdtable s) fd0 = true /\
     fd_is_open (fdtable s) fd = false /\
     fd_is_open (fdtable s') fd0 = true /\ fd_is_open (fdtable s') fd = true) /\
  (forall r w s',
     xpipe s = Ret (r, w) s' ->
     r <> w /\ fd_is_open (fdtable s) r = false /\ fd_is_open (fdtable s) w = false /\
     fd_is_open (fdtable s') r = true /\ fd_is_open (fdtable s') w = true).
Proof.
  split; [intros *; apply xopen_Ret|]. split; [intros *; apply xdup_Ret|].
  intros *. apply xpipe_Ret.
Qed.

Lemma returned_descriptors_are_open_witness :
  exists s',
    xdup 1 sample_boot = Ret 3 s' /\
    1 < 3 /\ fd_is_open (fdtable sample_boot) 1 = true /\
    fd_is_open (fdtable sample_boot) 3 = false /\
    fd_is_open (fdtable s') 1 = true /\ fd_is_open (fdtable s') 3 = true.
Proof.
  assert (xdup 1 sample_boot = Ret 3 (state_of (xdup 1 sample_boot) sample_boot)) as E
    by (vm_compute; reflexivity).
  eexists. split; [exact E|].
  apply (proj1 (proj2 (returned_descriptors_are_open sample_boot)) 1 3 _ E).
Defined.

(** ** Messages of [die] and [die_errno] *)

(** What the handler finds after a raise whose message could be built. *)
Lemma diev_msg_post {A} s h P F q cs e fmt args ei i str pn :
  unwind_ready s h P F ->
  heap_fresh s ->
  nodes s !! P = Some (RES_RESLIST q cs) ->
  eh_ei h = Some ei ->
  einfos s !! ei = Some i ->
  want_msg i = true ->
  c_format (mem s) fmt args = FmtOk str ->
  deref_str (mem s) (prgname s) = Some pn ->
  fits str -> fits pn ->
  malloc_ok s (nmalloc s) = true ->
  malloc_ok s (S (nmalloc s)) = true ->
  malloc_ok s (S (S (nmalloc s))) = true ->
  malloc_ok s (S (S (S (nmalloc s)))) = true ->
  exists s',
    @diev A e fmt args s = Jump (eh_where h) s' /\ landed s s' h P F /\
    einfos s' !! ei =
      Some (ErrInfo e (Heap (S (next_addr s))) (Heap (S (S (S (next_addr s))))) true) /\
    mem s' !! S (next_addr s) =
      Some (Block (Z.of_nat (String.length str) + 1) (PBytes str)) /\
    mem s' !! S (S (S (next_addr s))) =
      Some (Block (Z.of_nat (String.length pn) + 1) (PBytes pn)) /\
    (forall a, (a < next_addr s)%nat ->
       mem s' !! a = if decide (a ∈ freed (actions F)) then None else mem s !! a).
Proof.
  intros Hready Hfresh HP Hei Hi Hw Hfmt Hpn Hf1 Hf2 Hok0 Hok1 Hok2 Hok3.
  pose proof Hready as (Hh & _).
  eexists. split; [by eapply (diev_msg_ok s h P F q cs)|].
  set (X := messaged e ei i P q cs str pn s).
  destruct (unwound_frame h P F X) as (Hn & _ & _ & _ & _ & Hein & _ & _ & Hmem).
  assert (raised e (Some ei) P s =
          set_einfos (<[ei := ErrInfo e (msg i) (ei_prgname i) (want_msg i)]>)
            (set_current_reslist (Some P) s)) as Hraised
    by (unfold raised; by rewrite Hi).
  assert (forall a, a ∈ freed (actions F) -> (a < next_addr s)%nat) as Hfbelow
    by (intros a; eapply freed_below_next; eauto).
  assert (mem X = <[S (S (S (next_addr s))) :=
                     Block (Z.of_nat (String.length pn) + 1) (PBytes pn)]>
                    (<[S (S (S (next_addr s))) :=
                         Block (Z.of_nat (String.length pn) + 1) PUninit]>
                       (<[S (next_addr s) :=
                            Block (Z.of_nat (String.length str) + 1) (PBytes str)]>
                          (<[S (next_addr s) :=
                               Block (Z.of_nat (String.length str) + 1) PUninit]>
                             (mem s))))) as HmX.
  { unfold X, messaged, with_msg. rewrite Hraised.
    unfold printed, allocated, registered. state_simpl. reflexivity. }
  split; [|split; [|split; [|split]]].
  - apply landed_unwound; unfold X, messaged, with_msg; by rewrite Hraised.
  - rewrite Hein. unfold X, messaged. state_simpl. by rewrite lookup_insert_eq.
  - rewrite Hmem, decide_False by (intros Hin; apply Hfbelow in Hin; lia).
    rewrite HmX, !lookup_insert_ne by lia. by rewrite lookup_insert_eq.
  - rewrite Hmem, decide_False by (intros Hin; apply Hfbelow in Hin; lia).
    rewrite HmX. by rewrite lookup_insert_eq.
  - intros a Ha. rewrite Hmem, HmX. by rewrite !lookup_insert_ne by lia.
Qed.

Lemma addrs_finsert_mono c x f b : b ∈ addrs f -> b ∈ addrs (finsert c x f).
Proof.
  induction f as [|a fn d r IH|a sub IHs r IH]; cbn [addrs finsert]; [done|..].
  - rewrite !elem_of_cons. intros [->|H]; [by left|right; by apply IH].
  - rewrite !elem_of_cons, !elem_of_app. intros [->|[H|H]]; [by left| |].
    + right. left. case_decide; [|by apply IHs].
      rewrite addrs_cons_item. by right.
    + right. right. by apply IH.
Qed.

Lemma addrs_tinsert_mono rl c x f b : b ∈ addrs f -> b ∈ addrs (tinsert rl c x f).
Proof.
  intros H. unfold tinsert. case_decide; [|by apply addrs_finsert_mono].
  rewrite addrs_cons_item. by right.
Qed.

(** A tree that gets a record freeing a block that was not allocated. *)
Lemma tree_new_block h m tbl rl pp F c pc cs a b blk :
  scope_at h rl pp F -> parent_ok h rl pp F -> actions_safe (actions F) m tbl ->
  c ∈ rl :: scopes F ->
  h !! c = Some (RES_RESLIST pc cs) ->
  h !! a = None ->
  m !! b = None ->
  let x := ICleanup a (Some fn_free) (Heap b) in
  let h' := <[c := RES_RESLIST pc (a :: cs)]> (<[a := RES_CLEANUP (Some fn_free) (Heap b)]> h) in
  scope_at h' rl pp (tinsert rl c x F) /\
  parent_ok h' rl pp (tinsert rl c x F) /\
  actions_safe (actions (tinsert rl c x F)) (<[b := blk]> m) tbl /\
  exists l1 l2, actions F = l1 ++ l2 /\
                actions (tinsert rl c x F) = l1 ++ (fn_free, Heap b) :: l2.
Proof.
  intros Hsc Hpar Hsafe Hc Hhc Ha Hb x h'.
  assert (a ∉ rl :: addrs F) as Hout.
  { destruct Hsc as (Hrl & Hrep & _). intros Hin.
    apply elem_of_cons in Hin as [->|Hin]; [congruence|].
    destruct (repr_lookup _ _ _ _ Hrep Hin) as [n Hn]. congruence. }
  assert (c ∈ rl :: addrs F) as Hcin.
  { apply elem_of_cons in Hc as [->|Hc]; [left|right; by apply scopes_addrs]. }
  destruct (actions_tinsert rl c x F Hc) as (l1 & l2 & E1 & E2);
    [by destruct Hsc as (_ & _ & ?)|].
  split; [|split; [|split]].
  - apply (scope_at_tinsert h rl pp F c pc cs x); done.
  - apply (parent_ok_tinsert h); [done..|]. intros P ->.
    destruct Hpar as (HP & q & qs & Hq).
    assert (P <> a) by congruence. assert (P <> c) by congruence.
    split; [done|]. subst h'. by rewrite !lookup_insert_ne.
  - rewrite E2. cbn [item_actions x app]. apply actions_safe_new_block; [by rewrite <- E1|done].
  - exists l1, l2. done.
Qed.

(** The handler's tree after [xavprintf] in one of its scopes. *)
Lemma unwind_ready_printed s h P F c pc ccs str :
  unwind_ready s h P F ->
  heap_fresh s ->
  c ∈ eh_rl h :: scopes F ->
  nodes s !! c = Some (RES_RESLIST pc ccs) ->
  let F1 := tinsert (eh_rl h) c
              (ICleanup (next_addr s) (Some fn_free) (Heap (S (next_addr s)))) F in
  unwind_ready (printed c pc ccs str s) h P F1 /\
  exists l1 l2, actions F = l1 ++ l2 /\
                actions F1 = l1 ++ (fn_free, Heap (S (next_addr s))) :: l2.
Proof.
  intros (Hh & Hsc & Hpar & Hsafe & Hei) Hfr Hc Hhc F1.
  pose proof (live_below_next _ _ _ Hfr Hhc) as Hlt.
  assert (nodes s !! next_addr s = None) as Hnew by (apply heap_fresh_nodes; [done|lia]).
  assert (mem s !! S (next_addr s) = None) as Hnewm by (apply heap_fresh_mem; [done|lia]).
  destruct (tree_new_block _ _ _ _ _ _ _ _ _ _ _
              (Block (Z.of_nat (String.length str) + 1) (PBytes str))
              Hsc Hpar Hsafe Hc Hhc Hnew Hnewm) as (Hsc' & Hpar' & Hsafe' & Hadd).
  split; [|exact Hadd].
  assert (mem (printed c pc ccs str s) =
          <[S (next_addr s) := Block (Z.of_nat (String.length str) + 1) (PBytes str)]>
            (mem s)) as Hm.
  { unfold printed, allocated, registered. state_simpl. apply insert_insert_eq. }
  unfold unwind_ready.
  change (nodes (printed c pc ccs str s))
    with (nodes (allocated c pc ccs (Z.of_nat (String.length str) + 1) s)).
  change (current_errh (printed c pc ccs str s)) with (current_errh s).
  change (fdtable (printed c pc ccs str s)) with (fdtable s).
  change (einfos (printed c pc ccs str s)) with (einfos s).
  rewrite allocated_nodes by lia. rewrite Hm.
  split; [exact Hh|]. split; [exact Hsc'|]. split; [exact Hpar'|]. split; [exact Hsafe'|].
  exact Hei.
Qed.

Lemma c_format_errno m p1 s1 s2 :
  deref_str m p1 = Some s1 ->
  c_format m "%s: %s" [FStr p1; FStr (Static s2)] = FmtOk (s1 +:+ ": " +:+ s2).
Proof.
  intros H. unfold c_format. cbn. rewrite H. cbn. by rewrite append_nil_r.
Qed.

Lemma length_append s1 s2 :
  String.length (s1 +:+ s2) = (String.length s1 + String.length s2)%nat.
Proof.
  induction s1 as [|ch s1 IH]; [done|].
  change (S (String.length (s1 +:+ s2)) = S (String.length s1 + String.length s2)).
  by rewrite IH.
Qed.

Lemma fits_shorter s1 s2 : fits (s1 +:+ s2) -> fits s1.
Proof. unfold fits. rewrite length_append. lia. Qed.

(** [die_errno] under a handler that wants a message. *)
Lemma die_errno_lands (A : Type) (s : state) (h : errhandler) (P : addr) (F : forest)
    (q : option addr) (cs : list addr) (c : addr) (pc : option addr) (ccs : list addr)
    (fmt : string) (args : list farg) (ei : addr) (i : errinfo) (str pn : string) :
  unwind_ready s h P F ->
  heap_fresh s ->
  nodes s !! P = Some (RES_RESLIST q cs) ->
  current_reslist s = Some c ->
  c ∈ eh_rl h :: scopes F ->
  nodes s !! c = Some (RES_RESLIST pc ccs) ->
  eh_ei h = Some ei ->
  einfos s !! ei = Some i ->
  want_msg i = true ->
  c_format (mem s) fmt args = FmtOk str ->
  deref_str (mem s) (prgname s) = Some pn ->
  fits (str +:+ ": " +:+ strerror (errno s)) ->
  fits pn ->
  (forall k, (k < 6)%nat -> malloc_ok s (nmalloc s + k)%nat = true) ->
  exists s' m pnp,
    @die_errno A fmt args s = Jump (eh_where h) s' /\
    current_reslist s' = Some P /\
    current_errh s' = Some h /\
    (forall a, a ∈ eh_rl h :: addrs F -> nodes s' !! a = None) /\
    einfos s' !! ei = Some (ErrInfo (errno s) (Heap m) (Heap pnp) true) /\
    deref_str (mem s') (Heap m) = Some (str +:+ ": " +:+ strerror (errno s)) /\
    deref_str (mem s') (Heap pnp) = Some pn /\
    mem s !! S (next_addr s) = None /\
    mem s' !! S (next_addr s) = None /\
    closes (trace s') = closes (trace s) ++ closed (actions F).
Proof.
  intros Hready Hfr HP Hcur Hc Hhc Hei Hi Hw Hfmt Hpn Hfits Hfitspn Hok.
  pose proof (live_below_next _ _ _ Hfr Hhc) as Hlt.
  pose proof (live_below_next _ _ _ Hfr HP) as HPlt.
  assert (mem s !! S (next_addr s) = None) as Hnewm by (apply heap_fresh_mem; [done|lia]).
  assert (fits str) as Hfstr by (by eapply fits_shorter).
  assert (forall k, (k < 6)%nat -> malloc_ok s (k + nmalloc s)%nat = true) as Hok'
    by (intros k Hk; rewrite Nat.add_comm; by apply Hok).
  pose proof (Hok' 0%nat ltac:(lia)) as Hok0. pose proof (Hok' 1%nat ltac:(lia)) as Hok1.
  pose proof (Hok' 2%nat ltac:(lia)) as Hok2. pose proof (Hok' 3%nat ltac:(lia)) as Hok3.
  pose proof (Hok' 4%nat ltac:(lia)) as Hok4. pose proof (Hok' 5%nat ltac:(lia)) as Hok5.
  cbn [Nat.add] in Hok0, Hok1, Hok2, Hok3, Hok4, Hok5.
  set (s1 := printed c pc ccs str s).
  destruct (unwind_ready_printed s h P F c pc ccs str Hready Hfr Hc Hhc)
    as (Hready1 & l1 & l2 & E & E1).
  fold s1 in Hready1.
  set (F1 := tinsert (eh_rl h) c
               (ICleanup (next_addr s) (Some fn_free) (Heap (S (next_addr s)))) F) in *.
  assert (P <> c) as HPc.
  { destruct Hready as (_ & _ & [HPout _] & _). intros ->. apply HPout.
    apply elem_of_cons in Hc as [->|Hc]; [left|right; by apply scopes_addrs]. }
  destruct (printed_frame s c pc ccs str Hfr Hhc) as (Hold & _ & _ & _ & Hm1).
  assert (mem s1 = <[S (next_addr s) := Block (Z.of_nat (String.length str) + 1) (PBytes str)]>
                     (mem s)) as Hmem1.
  { unfold s1, printed, allocated, registered. state_simpl. apply insert_insert_eq. }
  destruct (diev_msg_post (A:=A) s1 h P F1 q cs (errno s) "%s: %s"
              [FStr (Heap (S (next_addr s))); FStr (Static (strerror (errno s)))]
              ei i (str +:+ ": " +:+ strerror (errno s)) pn)
    as (s' & Hrun & Hland & Hinfo & Hmsg & Hname & Hframe); try done.
  - by apply heap_fresh_printed.
  - unfold s1. rewrite Hold by done. exact HP.
  - apply c_format_errno. cbn [deref_str]. fold s1 in Hm1. by rewrite Hm1.
  - rewrite Hmem1. by apply deref_str_insert.
  - exists s', (S (next_addr s1)), (S (S (S (next_addr s1)))).
    destruct Hland as (Hcur' & Hh' & Hgone & _ & Hcloses).
    split; [|split; [done|split; [done|split; [|split; [done|split; [|split; [|split;
      [done|split]]]]]]]].
    + unfold die_errno. rewrite bind_get.
      unfold xavprintf.
      by rewrite (bind_Ret _ _ _ _ _
                    (xavprintf_with_ok die s c pc ccs fmt args str Hfr Hcur Hhc Hok0 Hok1
                       Hfmt Hfstr)).
    + intros a Ha. apply Hgone. apply elem_of_cons in Ha as [->|Ha]; [left|right].
      by apply addrs_tinsert_mono.
    + cbn [deref_str]. by rewrite Hmsg.
    + cbn [deref_str]. by rewrite Hname.
    + rewrite Hframe by (change (next_addr s1) with (S (S (next_addr s))); lia).
      rewrite decide_True; [done|]. rewrite E1, freed_app, elem_of_app. right. left.
    + rewrite Hcloses. change (trace s1) with (trace s).
      by rewrite E1, E, !closed_app.
Qed.

(** X13.  [die_errno] under a handler that wants a message, when the
    message and the program name are at most [INT_MAX] characters long: the
    text made from the format is built in the current scope, which is one of
    those the unwind destroys, so its block is gone when the handler runs;
    the handler gets the value [errno] had on entry as the code, and as the
    message the text followed by a colon, a space and [strerror] of that
    code, in a block that outlives the unwind.  No descriptor is closed but
    those the destroyed scopes owned. *)
Theorem die_errno_reports (A : Type) (s : state) (h : errhandler) (P : addr) (F : forest)
    (q : option addr) (cs : list addr) (c : addr) (pc : option addr) (ccs : list addr)
    (fmt : string) (args : list farg) (ei : addr) (i : errinfo) (str pn : string) :
  unwind_ready s h P F ->
  heap_fresh s ->
  nodes s !! P = Some (RES_RESLIST q cs) ->
  current_reslist s = Some c ->
  c ∈ eh_rl h :: scopes F ->
  nodes s !! c = Some (RES_RESLIST pc ccs) ->
  eh_ei h = Some ei ->
  einfos s !! ei = Some i ->
  want_msg i = true ->
  c_format (mem s) fmt args = FmtOk str ->
  deref_str (mem s) (prgname s) = Some pn ->
  fits (str +:+ ": " +:+ strerror (errno s)) ->
  fits pn ->
  (forall k, (k < 6)%nat -> malloc_ok s (nmalloc s + k)%nat = true) ->
  exists s' m pnp,
    @die_errno A fmt args s = Jump (eh_where h) s' /\
    current_reslist s' = Some P /\
    current_errh s' = Some h /\
    (forall a, a ∈ eh_rl h :: addrs F -> nodes s' !! a = None) /\
    einfos s' !! ei = Some (ErrInfo (errno s) (Heap m) (Heap pnp) true) /\
    deref_str (mem s') (Heap m) = Some (str +:+ ": " +:+ strerror (errno s)) /\
    deref_str (mem s') (Heap pnp) = Some pn /\
    mem s !! S (next_addr s) = None /\
    mem s' !! S (next_addr s) = None /\
    closes (trace s') = closes (trace s) ++ closed (actions F).
Proof. apply die_errno_lands. Qed.

Lemma heap_fresh_sample_guarded : heap_fresh sample_guarded.
Proof. split; by_compute. Defined.

Lemma unwind_ready_sample_guarded : unwind_ready sample_guarded sample_handler 0 FNil.
Proof.
  split; [reflexivity|]. split; [|split; [|split]].
  - split; [reflexivity|]. split; [exact I|]. by_compute.
  - split; [by_compute|]. by eexists _, _.
  - split; [apply Forall_nil_2|]. split; [apply NoDup_nil_2|].
    split; [apply Forall_nil_2|]. split; [apply NoDup_nil_2|apply Forall_nil_2].
  - by eexists.
Defined.

Lemma die_errno_reports_witness :
  exists s' m pnp,
    @die_errno unit "pipe2" [] sample_guarded = Jump (eh_where sample_handler) s' /\
    current_reslist s' = Some 0%nat /\
    current_errh s' = Some sample_handler /\
    (forall a, a ∈ [1%nat] -> nodes s' !! a = None) /\
    einfos s' !! 0%nat = Some (ErrInfo 0 (Heap m) (Heap pnp) true) /\
    deref_str (mem s') (Heap m) = Some "pipe2: Success"%string /\
    deref_str (mem s') (Heap pnp) = Some "fb-adb"%string /\
    mem sample_guarded !! S (next_addr sample_guarded) = None /\
    mem s' !! S (next_addr sample_guarded) = None /\
    closes (trace s') = closes (trace sample_guarded) ++ [].
Proof.
  apply (die_errno_reports unit sample_guarded sample_handler 0 FNil None [1%nat]
           1 (Some 0%nat) [] "pipe2" [] 0 (ErrInfo 0 Null Null true) "pipe2" "fb-adb"
           unwind_ready_sample_guarded heap_fresh_sample_guarded);
    try reflexivity; first [left | by_compute | by vm_compute].
Defined.

(** ** The depth of the recursion between [diev] and [xavprintf] *)

(** [xavprintf] calls its [die] only when the length pass fails. *)
Lemma xavprintf_with_nofail d1 d2 fmt args s :
  fmt_fails (c_format (mem s) fmt args) = None ->
  xavprintf_with d1 fmt args s = xavprintf_with d2 fmt args s.
Proof.
  intros Hv. unfold xavprintf_with, bind, vsnprintf_len.
  destruct (c_format (mem s) fmt args) as [str| | | |]; try done.
  cbn in Hv. destruct (decide (fits str)) as [Hf|]; [|done].
  rewrite (fmt_count_fits _ Hf).
  by destruct (Z.ltb_spec (Z.of_nat (String.length str)) 0) as [?|_]; [lia|].
Qed.

(** [xavprintf] calls [die] with one format only. *)
Lemma xavprintf_with_agree d1 d2 fmt args s :
  (forall e, d1 EINVAL "invalid format string %.80s"%string [FStr (Static fmt)] (set_errno e s) =
             d2 EINVAL "invalid format string %.80s"%string [FStr (Static fmt)] (set_errno e s)) ->
  xavprintf_with d1 fmt args s = xavprintf_with d2 fmt args s.
Proof.
  intros Hd. destruct (fmt_fails (c_format (mem s) fmt args)) as [e|] eqn:E.
  - by rewrite !(xavprintf_with_fails _ _ _ _ _ E).
  - by apply xavprintf_with_nofail.
Qed.

Lemma str_take_z_nat n : forall s, str_take_z (Z.of_nat n) s = str_take n s.
Proof.
  induction n as [|n IH]; intros [|c s]; try done.
  cbn [str_take_z str_take]. destruct (Z.leb_spec (Z.of_nat (S n)) 0) as [?|_]; [lia|].
  replace (Z.of_nat (S n) - 1) with (Z.of_nat n) by lia. by rewrite IH.
Qed.

Lemma c_format_invalid_msg m fmt :
  c_format m "invalid format string %.80s" [FStr (Static fmt)] =
  FmtOk ("invalid format string " +:+ str_take 80 fmt).
Proof.
  rewrite <- (str_take_z_nat 80 fmt).
  cbv -[str_take_z String.app]. rewrite append_nil_r. reflexivity.
Qed.

Lemma str_take_length n : forall s, (String.length (str_take n s) <= n)%nat.
Proof.
  induction n as [|n IH]; intros [|c s]; cbn; try lia. specialize (IH s). lia.
Qed.

Lemma fits_invalid_msg fmt : fits ("invalid format string " +:+ str_take 80 fmt).
Proof.
  unfold fits, INT_MAX. rewrite length_append. pose proof (str_take_length 80 fmt) as H.
  change (String.length "invalid format string ") with 22%nat. lia.
Qed.

Lemma fmt_fails_invalid_msg m fmt :
  fmt_fails (c_format m "invalid format string %.80s" [FStr (Static fmt)]) = None.
Proof.
  rewrite c_format_invalid_msg. cbn. by rewrite decide_True by apply fits_invalid_msg.
Qed.

(** When [xalloc] returns, the current scope was live and both calls of
    [malloc] succeeded. *)
Lemma xalloc_Ret s sz buf s1 :
  heap_fresh s ->
  xalloc sz s = Ret buf s1 ->
  exists c p cs,
    current_reslist s = Some c /\ nodes s !! c = Some (RES_RESLIST p cs) /\
    malloc_ok s (nmalloc s) = true /\ malloc_ok s (S (nmalloc s)) = true.
Proof.
  intros Hfr H.
  destruct (malloc_ok s (nmalloc s)) eqn:Hok0; cycle 1.
  { rewrite (xalloc_oom_record _ _ Hok0) in H.
    pose proof (die_oom_never_returns (A:=ptr) (bump_malloc false s)) as Hn.
    by rewrite H in Hn. }
  assert (nodes s !! next_addr s = None) as Hnew by (by apply heap_fresh_nodes).
  destruct (current_reslist s) as [c|] eqn:Hcur; cycle 1.
  { exfalso. revert H. unfold xalloc, cleanup_allocate, bind, malloc. rewrite Hok0.
    unfold modify, get, LIST_INSERT_HEAD. state_simpl. by rewrite Hcur. }
  destruct (nodes s !! c) as [[p cs|fn d]|] eqn:Hc.
  - destruct (malloc_ok s (S (nmalloc s))) eqn:Hok1; [by eauto 10|].
    rewrite (xalloc_oom_block _ _ _ _ _ Hfr Hcur Hc Hok0 Hok1) in H.
    match type of H with die_oom ?x = _ =>
      pose proof (die_oom_never_returns (A:=ptr) x) as Hn end.
    by rewrite H in Hn.
  - exfalso. revert H. unfold xalloc, cleanup_allocate, bind, malloc. rewrite Hok0.
    unfold modify, get, LIST_INSERT_HEAD. state_simpl. rewrite Hcur.
    rewrite lookup_insert_ne by (intros <-; by rewrite Hnew in Hc). by rewrite Hc.
  - exfalso. revert H. unfold xalloc, cleanup_allocate, bind, malloc. rewrite Hok0.
    unfold modify, get, LIST_INSERT_HEAD. state_simpl. rewrite Hcur.
    destruct (decide (next_addr s = c)) as [<-|Hne].
    + by rewrite lookup_insert_eq.
    + rewrite lookup_insert_ne by done. by rewrite Hc.
Qed.

(** When [xavprintf] returns, the text was formatted into a new block of the
    current scope. *)
Lemma xavprintf_with_Ret d fmt args s buf s' :
  (forall e f a, never_returns (d e f a)) ->
  heap_fresh s ->
  xavprintf_with d fmt args s = Ret buf s' ->
  exists c p cs str,
    nodes s !! c = Some (RES_RESLIST p cs) /\
    c_format (mem s) fmt args = FmtOk str /\ fits str /\
    buf = Heap (S (next_addr s)) /\ s' = printed c p cs str s.
Proof.
  intros Hd Hfr H.
  destruct (fmt_fails (c_format (mem s) fmt args)) as [e|] eqn:E.
  { rewrite (xavprintf_with_fails _ _ _ _ _ E) in H.
    match type of H with d ?e ?f ?a ?x = _ => pose proof (Hd e f a x) as Hn end.
    by rewrite H in Hn. }
  destruct (c_format (mem s) fmt args) as [str| | | |] eqn:Hfmt; try done.
  - cbn in E. destruct (decide (fits str)) as [Hf|]; [|done].
    assert (exists c p cs,
               current_reslist s = Some c /\ nodes s !! c = Some (RES_RESLIST p cs) /\
               malloc_ok s (nmalloc s) = true /\ malloc_ok s (S (nmalloc s)) = true)
      as (c & p & cs & Hcur & Hc & Hok0 & Hok1).
    { revert H. unfold xavprintf_with.
      erewrite bind_Ret; cycle 1.
      { unfold vsnprintf_len. rewrite Hfmt, (fmt_count_fits _ Hf). reflexivity. }
      destruct (Z.ltb_spec (Z.of_nat (String.length str)) 0) as [?|_]; [lia|].
      intros H. apply bind_Ret_inv in H as (b & s1 & H & _).
      by apply (xalloc_Ret _ _ _ _ Hfr H). }
    rewrite (xavprintf_with_ok d s c p cs fmt args str Hfr Hcur Hc Hok0 Hok1 Hfmt Hf) in H.
    injection H as <- <-. by exists c, p, cs, str.
  - exfalso. by rewrite (xavprintf_with_fault _ _ _ _ Hfmt) in H.
  - exfalso. by rewrite (xavprintf_with_other _ _ _ _ Hfmt) in H.
Qed.

Lemma named_printed pn c p cs str s :
  named pn s -> nodes s !! c = Some (RES_RESLIST p cs) -> named pn (printed c p cs str s).
Proof.
  intros (Hfr & Hpn & Hf) Hc. split; [by apply heap_fresh_printed|]. split; [|done].
  change (prgname (printed c p cs str s)) with (prgname s).
  assert (mem (printed c p cs str s) =
          <[S (next_addr s) := Block (Z.of_nat (String.length str) + 1) (PBytes str)]>
            (mem s)) as ->.
  { unfold printed, allocated, registered. state_simpl. apply insert_insert_eq. }
  apply deref_str_insert; [|done]. apply heap_fresh_mem; [done|lia].
Qed.

(** With a program name that fits, copying it never fails. *)
Lemma fmt_fails_name pn s :
  named pn s -> fmt_fails (c_format (mem s) "%s" [FStr (prgname s)]) = None.
Proof.
  intros (_ & Hpn & Hf). rewrite (c_format_percent_s _ _ _ Hpn). cbn.
  by rewrite decide_True.
Qed.

(** One level of [diev] does not depend on the bound of the nested [die]
    when the first [xavprintf] does not. *)
Lemma diev_fuel_level n1 n2 A e fmt args pn s :
  named pn s ->
  (forall s', named pn s' ->
     xavprintf_with (diev_fuel n1 ptr) fmt args s' =
     xavprintf_with (diev_fuel n2 ptr) fmt args s') ->
  diev_fuel (S n1) A e fmt args s = diev_fuel (S n2) A e fmt args s.
Proof.
  intros Hnm Hx. rewrite !diev_fuel_S. rewrite !bind_get.
  destruct (current_errh s) as [h|]; [|done].
  destruct (nodes s !! eh_rl h) as [[p cs|fn d]|] eqn:E;
    [|by unfold bind, get_parent; rewrite E..].
  rewrite !(bind_Ret _ _ _ _ _ (get_parent_eq _ _ _ _ E)).
  rewrite !bind_modify. apply bind_cong_l.
  destruct (eh_ei h) as [ei|]; [|done].
  rewrite !bind_get. state_simpl.
  destruct (einfos s !! ei) as [i|]; [|done].
  rewrite !bind_modify. destruct (want_msg i); [|done].
  match goal with |- bind _ _ ?x = _ => set (s4 := x) end.
  assert (named pn s4) as Hnm4 by exact Hnm.
  etrans; [apply bind_cong_l, (Hx _ Hnm4)|]. apply bind_ext_Ret. intros m s5 Hret.
  apply xavprintf_with_Ret in Hret as (c & pc & ccs & str & Hc & _ & _ & _ & ->);
    [|intros; apply diev_fuel_never_returns|by destruct Hnm4].
  rewrite !bind_modify, !bind_get. apply bind_cong_l.
  apply xavprintf_with_nofail, (fmt_fails_name pn).
  by apply (named_printed pn c pc ccs str s4).
Qed.

(** The nested raise of [xavprintf] stops at its own level. *)
Lemma diev_fuel_inner n1 n2 A e f pn s :
  named pn s ->
  diev_fuel (S n1) A e "invalid format string %.80s" [FStr (Static f)] s =
  diev_fuel (S n2) A e "invalid format string %.80s" [FStr (Static f)] s.
Proof.
  intros Hnm. apply (diev_fuel_level _ _ _ _ _ _ pn); [done|].
  intros s' _. apply xavprintf_with_nofail, fmt_fails_invalid_msg.
Qed.

(** Two levels are all the recursion reaches when the program name fits. *)
Lemma diev_fuel_enough n A e fmt args pn s :
  named pn s ->
  diev_fuel (S (S n)) A e fmt args s = diev_fuel 2 A e fmt args s.
Proof.
  intros Hnm. apply (diev_fuel_level _ _ _ _ _ _ pn); [done|].
  intros s' Hnm'. apply xavprintf_with_agree. intros e'.
  apply (diev_fuel_inner _ _ _ _ _ pn). exact Hnm'.
Qed.

(** The bound of [reslist_destroy] is enough on a tree. *)
Lemma destroy_bound_enough n rl pp f s :
  scope_at (nodes s) rl pp f ->
  parent_ok (nodes s) rl pp f ->
  (destroy_bound s <= n)%nat ->
  reslist_destroy_fuel n rl s = reslist_destroy rl s.
Proof.
  intros Hsc Hpar Hn.
  rewrite (reslist_destroy_forest _ _ _ _ Hsc Hpar).
  apply reslist_destroy_fuel_forest; [done..|].
  unfold destroy_bound in Hn. destruct Hsc as (Hrl & Hrep & Hnd).
  pose proof (length_le_size (nodes s) (rl :: addrs f) Hnd) as Hle.
  cbn [length] in Hle.
  assert (length (addrs f) < size (nodes s))%nat; [|lia].
  apply Hle. intros a Ha. apply elem_of_cons in Ha as [->|Ha]; [by eexists|].
  by apply (repr_lookup _ _ _ _ Hrep).
Qed.

Lemma bind_Jump {A B} (m : M A) (k : A -> M B) s w s' :
  m s = Jump w s' -> bind m k s = Jump w s'.
Proof. unfold bind. by intros ->. Qed.

(** X14.  A raise whose own format makes [vsnprintf] fail (the format ends
    inside a conversion, a width or precision is above [INT_MAX], or the text
    is longer than [INT_MAX]) still reaches the handler, but as a different
    error: the code the handler gets is [EINVAL], not the code the caller
    gave, and the message is ["invalid format string "] followed by the
    first eighty characters of the format. *)
Theorem die_invalid_format (A : Type) (s : state) (h : errhandler) (P : addr) (F : forest)
    (q : option addr) (cs : list addr) (e : Z) (fmt : string) (args : list farg)
    (ei : addr) (i : errinfo) (pn : string) (en : Z) :
  unwind_ready s h P F ->
  heap_fresh s ->
  nodes s !! P = Some (RES_RESLIST q cs) ->
  eh_ei h = Some ei ->
  einfos s !! ei = Some i ->
  want_msg i = true ->
  fmt_fails (c_format (mem s) fmt args) = Some en ->
  deref_str (mem s) (prgname s) = Some pn ->
  fits pn ->
  (forall k, (k < 4)%nat -> malloc_ok s (nmalloc s + k)%nat = true) ->
  exists s' m pnp,
    @die A e fmt args s = Jump (eh_where h) s' /\
    landed s s' h P F /\
    einfos s' !! ei = Some (ErrInfo EINVAL (Heap m) (Heap pnp) true) /\
    deref_str (mem s') (Heap m) = Some ("invalid format string " +:+ str_take 80 fmt) /\
    deref_str (mem s') (Heap pnp) = Some pn.
Proof.
  intros Hready Hfr HP Hei Hi Hw Hfmt Hpn Hfits Hok.
  pose proof Hready as (Hh & (Hrl & _) & _).
  assert (forall k, (k < 4)%nat -> malloc_ok s (k + nmalloc s)%nat = true) as Hok'
    by (intros k Hk; rewrite Nat.add_comm; by apply Hok).
  pose proof (Hok' 0%nat ltac:(lia)) as Hok0. pose proof (Hok' 1%nat ltac:(lia)) as Hok1.
  pose proof (Hok' 2%nat ltac:(lia)) as Hok2. pose proof (Hok' 3%nat ltac:(lia)) as Hok3.
  cbn [Nat.add] in Hok0, Hok1, Hok2, Hok3.
  set (s0 := raised e (Some ei) P s).
  destruct (raised_frame s P e (Some ei))
    as (Hn0 & Hm0 & Hna0 & Hnm0 & Hmo0 & Hcur0 & Hh0 & Hfd0 & Hpg0 & Htr0).
  fold s0 in Hn0, Hm0, Hna0, Hnm0, Hmo0, Hcur0, Hh0, Hfd0, Hpg0, Htr0.
  pose proof (unwind_ready_raised s h P F q cs Hready HP e) as Hready0.
  rewrite Hei in Hready0. fold s0 in Hready0.
  assert (einfos s0 !! ei = Some (ErrInfo e (msg i) (ei_prgname i) (want_msg i))) as Hi0.
  { unfold s0, raised. rewrite Hi. state_simpl. apply lookup_insert_eq. }
  pose proof (heap_fresh_raised s P Hfr e (Some ei)) as Hfr0. fold s0 in Hfr0.
  set (s1 := set_errno en s0).
  assert (named pn s1) as Hnm1.
  { split; [exact Hfr0|]. split; [|done].
    change (deref_str (mem s0) (prgname s0) = Some pn). by rewrite Hm0, Hpg0. }
  assert (unwind_ready s1 h P F) as Hready1 by exact Hready0.
  destruct (diev_msg_post (A:=ptr) s1 h P F q cs EINVAL "invalid format string %.80s"
              [FStr (Static fmt)] ei (ErrInfo e (msg i) (ei_prgname i) (want_msg i))
              ("invalid format string " +:+ str_take 80 fmt) pn)
    as (s' & Hrun & Hland & Hinfo & Hmsg & Hname & _); try done.
  - change (nodes s0 !! P = Some (RES_RESLIST q cs)). by rewrite Hn0.
  - apply c_format_invalid_msg.
  - by destruct Hnm1 as (_ & ? & _).
  - apply fits_invalid_msg.
  - change (malloc_ok s0 (nmalloc s0) = true). by rewrite Hmo0, Hnm0.
  - change (malloc_ok s0 (S (nmalloc s0)) = true). by rewrite Hmo0, Hnm0.
  - change (malloc_ok s0 (S (S (nmalloc s0))) = true). by rewrite Hmo0, Hnm0.
  - change (malloc_ok s0 (S (S (S (nmalloc s0)))) = true). by rewrite Hmo0, Hnm0.
  - exists s', (S (next_addr s1)), (S (S (S (next_addr s1)))).
    split; [|split; [|split; [done|split]]].
    + unfold die. rewrite (diev_start_msg s h P _ e fmt args ei i Hh Hrl Hei Hi Hw).
      fold s0. apply bind_Jump, bind_Jump.
      rewrite (xavprintf_with_fails _ s0 fmt args en) by (by rewrite Hm0).
      fold s1. rewrite <- Hrun. symmetry. apply (diev_fuel_inner 1 0 ptr EINVAL fmt pn s1 Hnm1).
    + destruct Hland as (H1 & H2 & H3 & H4 & H5).
      change (trace s1) with (trace s0) in H4, H5. rewrite Htr0 in H4, H5. done.
    + cbn [deref_str]. by rewrite Hmsg.
    + cbn [deref_str]. by rewrite Hname.
Qed.

Lemma die_invalid_format_witness :
  exists s' m pnp,
    @die unit 5 "100%" [] sample_guarded = Jump (eh_where sample_handler) s' /\
    landed sample_guarded s' sample_handler 0 FNil /\
    einfos s' !! 0%nat = Some (ErrInfo EINVAL (Heap m) (Heap pnp) true) /\
    deref_str (mem s') (Heap m) = Some "invalid format string 100%"%string /\
    deref_str (mem s') (Heap pnp) = Some "fb-adb"%string.
Proof.
  apply (die_invalid_format unit sample_guarded sample_handler 0 FNil None [1%nat] 5 "100%" []
           0 (ErrInfo 0 Null Null true) "fb-adb" EINVAL
           unwind_ready_sample_guarded heap_fresh_sample_guarded);
    first [reflexivity | by vm_compute].
Defined.

(** ** A guarded body that fails *)

(** The nodes once a scope pushed below [c] that holds one [xalloc] is
    swept away again. *)
Lemma swept_scoped_alloc s c p cs h :
  heap_fresh s ->
  nodes s !! c = Some (RES_RESLIST p cs) ->
  let rl := next_addr s in
  let F := FCleanup (S rl) (Some fn_free) (Heap (S (S rl))) FNil in
  h = <[rl := RES_RESLIST (Some c) [S rl]]>
        (<[S rl := RES_CLEANUP (Some fn_free) (Heap (S (S rl)))]>
           (<[c := RES_RESLIST p (rl :: cs)]>
              (<[rl := RES_RESLIST (Some c) []]> (nodes s)))) ->
  scope_at h rl (Some c) F /\ parent_ok h rl (Some c) F /\
  swept rl (Some c) F h = nodes s.
Proof.
  intros Hfr Hc rl F ->. pose proof (live_below_next _ _ _ Hfr Hc) as Hlt. fold rl in Hlt.
  assert (c ∉ rl :: addrs F) as Hout.
  { cbn. rewrite !not_elem_of_cons. repeat split; try lia. apply not_elem_of_nil. }
  match goal with |- scope_at ?h _ _ _ /\ _ =>
    assert (h !! c = Some (RES_RESLIST p (rl :: cs))) as Hc2
      by (rewrite !lookup_insert_ne by lia; apply lookup_insert_eq)
  end.
  split; [|split].
  - split; [apply lookup_insert_eq|]. split.
    + split; [|done]. rewrite lookup_insert_ne by lia. apply lookup_insert_eq.
    + cbn [addrs F]. rewrite !NoDup_cons, !not_elem_of_cons.
      repeat split; try lia; try apply not_elem_of_nil. apply NoDup_nil_2.
  - split; [done|]. eauto.
  - apply map_eq. intros a.
    destruct (decide (a ∈ rl :: addrs F)) as [Hin|Hnin].
    + rewrite swept_gone by done. symmetry. apply heap_fresh_nodes; [done|].
      cbn in Hin. rewrite !elem_of_cons in Hin. fold rl.
      destruct Hin as [->|[->|Hin]]; [lia|lia|by apply elem_of_nil in Hin].
    + destruct (decide (a = c)) as [->|Hac].
      * rewrite (swept_parent _ _ _ _ _ _ Hout Hc2), unlink_head. by rewrite Hc.
      * rewrite swept_other by done.
        cbn in Hnin. rewrite !not_elem_of_cons in Hnin. destruct Hnin as (Ha1 & Ha2 & _).
        by rewrite !lookup_insert_ne.
Qed.

(** X15.  A body under [catch_error] that allocates and then raises, when
    the caller passes no error info or one that does not ask for a message,
    leaves nothing behind: [catch_error] returns [true], the scope that was
    current before the call is current again (on success it would be the new
    one), the previous handler is back, and the nodes and blocks are exactly
    those from before the call; the block of the body has been freed.  The
    error info, if any, has the code of the raise and is otherwise as it
    was. *)
Theorem guarded_failure_rolls_back (s : state) (c : addr) (p : option addr)
    (cs : list addr) (sz e : Z) (fmt : string) (args : list farg) (oei : option addr) :
  heap_fresh s ->
  current_reslist s = Some c ->
  nodes s !! c = Some (RES_RESLIST p cs) ->
  malloc_ok s (nmalloc s) = true ->
  malloc_ok s (S (nmalloc s)) = true ->
  malloc_ok s (S (S (nmalloc s))) = true ->
  match oei with
  | Some ei => exists i, einfos s !! ei = Some i /\ want_msg i = false
  | None => True
  end ->
  exists s',
    catch_error (xalloc sz ;;; die e fmt args) oei s = Ret true s' /\
    nodes s' = nodes s /\
    mem s' = mem s /\
    current_reslist s' = Some c /\
    current_errh s' = current_errh s /\
    calls (trace s') = calls (trace s) ++ [(fn_free, Heap (S (S (next_addr s))))] /\
    match oei with
    | Some ei =>
        exists i, einfos s !! ei = Some i /\
          einfos s' = <[ei := ErrInfo e (msg i) (ei_prgname i) false]> (einfos s)
    | None => einfos s' = einfos s
    end.
Proof.
  intros Hfr Hcur Hc Hok0 Hok1 Hok2 Hq.
  pose proof (live_below_next _ _ _ Hfr Hc) as Hlt.
  set (rl := next_addr s). set (s1 := pushed c p cs s).
  set (h := ErrHandler (next_where s1) rl oei).
  set (si := install rl oei s1).
  set (F := FCleanup (S rl) (Some fn_free) (Heap (S (S rl))) FNil).
  pose proof (heap_fresh_pushed s c p cs Hfr Hc) as Hfr1. fold s1 in Hfr1.
  destruct (pushed_nodes s c p cs Hfr Hc) as (_ & Hc1 & Hrl1). fold s1 rl in Hc1, Hrl1.
  assert (heap_fresh si) as Hfri by exact Hfr1.
  set (s2 := allocated rl (Some c) [] sz si).
  assert (xalloc sz si = Ret (Heap (S (S rl))) s2) as Hx
    by exact (xalloc_ok si rl (Some c) [] sz Hfri eq_refl Hrl1 Hok1 Hok2).
  assert (heap_fresh s2) as Hfr2 by (by apply heap_fresh_allocated).
  assert (nodes s2 =
          <[rl := RES_RESLIST (Some c) [S rl]]>
            (<[S rl := RES_CLEANUP (Some fn_free) (Heap (S (S rl)))]>
               (<[c := RES_RESLIST p (rl :: cs)]>
                  (<[rl := RES_RESLIST (Some c) []]> (nodes s))))) as Hn2.
  { unfold s2. rewrite allocated_nodes by (change (next_addr si) with (S rl); lia).
    reflexivity. }
  destruct (swept_scoped_alloc s c p cs (nodes s2) Hfr Hc Hn2) as (Hsc & Hpar & Hswept).
  fold rl F in Hsc, Hpar, Hswept.
  assert (mem s2 = <[S (S rl) := Block sz PUninit]> (mem s)) as Hm2 by reflexivity.
  assert (einfos s2 = einfos s) as He2 by reflexivity.
  assert (nodes s2 !! c = Some (RES_RESLIST p (rl :: cs))) as Hc2.
  { rewrite Hn2, !lookup_insert_ne by (unfold rl; lia). apply lookup_insert_eq. }
  assert (unwind_ready s2 h c F) as Hready.
  { split; [reflexivity|]. split; [exact Hsc|]. split; [exact Hpar|]. split.
    - split; [repeat constructor|]. split; [apply NoDup_singleton|].
      split; [apply Forall_singleton; rewrite Hm2, lookup_insert_eq; by eexists|].
      split; [apply NoDup_nil_2|apply Forall_nil_2].
    - change (eh_ei h) with oei. destruct oei as [ei|]; [|done].
      destruct Hq as (i & Hi & _). rewrite He2, Hi. by eexists. }
  set (X := raised e oei c s2).
  assert (@die unit e fmt args s2 = Jump (eh_where h) (unwound h c F X)) as Hdie.
  { unfold die, X. destruct oei as [ei|].
    - destruct Hq as (i & Hi & Hw). rewrite <- He2 in Hi.
      exact (diev_nomsg s2 h c F p (rl :: cs) Hready Hc2 (A:=unit) e fmt args ei i
               eq_refl Hi Hw).
    - exact (diev_noinfo s2 h c F p (rl :: cs) Hready Hc2 (A:=unit) e fmt args eq_refl). }
  destruct (raised_frame s2 c e oei) as (HnX & HmX & _ & _ & _ & _ & _ & _ & _ & _).
  fold X in HnX, HmX.
  destruct (unwound_frame h c F X) as (Hn & _ & _ & Hcur' & _ & Hei' & _ & Htr & Hmem).
  exists (set_current_errh (current_errh s) (unwound h c F X)). split.
  { unfold catch_error.
    rewrite (reslist_push_new_ok _ _ _ _ Hfr Hcur Hc Hok0). fold rl s1 h.
    change (set_current_errh (Some h) (bump_where s1)) with si.
    rewrite (bind_Ret _ _ _ _ _ Hx), Hdie.
    rewrite decide_True by done. reflexivity. }
  assert (forall a x, nodes (set_current_errh a x) = nodes x /\
                      mem (set_current_errh a x) = mem x /\
                      trace (set_current_errh a x) = trace x /\
                      current_reslist (set_current_errh a x) = current_reslist x /\
                      einfos (set_current_errh a x) = einfos x /\
                      current_errh (set_current_errh a x) = a) as Hset by done.
  destruct (Hset (current_errh s) (unwound h c F X)) as (-> & -> & -> & -> & -> & ->).
  split; [|split; [|split; [|split; [reflexivity|split]]]].
  - rewrite Hn, HnX. exact Hswept.
  - apply map_eq. intros a. rewrite Hmem, HmX, Hm2.
    cbn [actions F freed omap]. destruct (decide (a = S (S rl))) as [->|Hne].
    + rewrite decide_True by (cbn; left). symmetry. apply heap_fresh_mem; [done|].
      fold rl. lia.
    + rewrite decide_False by (intros [?|?%elem_of_nil]%elem_of_cons; done).
      by rewrite lookup_insert_ne.
  - rewrite Hcur'. unfold X, raised.
    destruct oei as [ei|]; [destruct (einfos s2 !! ei)|]; reflexivity.
  - rewrite Htr, calls_app, calls_action_events.
    assert (trace X = trace s) as ->; [|reflexivity].
    unfold X, raised. destruct oei as [ei|]; [destruct (einfos s2 !! ei)|]; reflexivity.
  - rewrite Hei'. unfold X, raised. destruct oei as [ei|]; [|exact He2].
    destruct Hq as (i & Hi & Hw). exists i. split; [done|].
    rewrite He2, Hi. state_simpl. by rewrite He2, Hw.
Qed.

Lemma guarded_failure_rolls_back_witness :
  exists s',
    catch_error (xalloc 8 ;;; die 5 "boom" []) None sample_scope = Ret true s' /\
    nodes s' = nodes sample_scope /\
    mem s' = mem sample_scope /\
    current_reslist s' = Some 1%nat /\
    current_errh s' = current_errh sample_scope /\
    calls (trace s') = calls (trace sample_scope) ++ [(fn_free, Heap 6)] /\
    einfos s' = einfos sample_scope.
Proof.
  apply (guarded_failure_rolls_back sample_scope 1 (Some 0%nat) [2%nat] 8 5 "boom" [] None);
    try reflexivity;
    lazymatch goal with
    | |- heap_fresh _ => split; by_compute
    | |- True => exact I
    end.
Defined.

(** ** System calls that fail *)

(** The handler's tree with the record that [cleanup_allocate] has put in
    one of its scopes and that is not armed yet. *)
Lemma unwind_ready_registered s h P F c pc ccs s1 :
  unwind_ready s h P F ->
  heap_fresh s ->
  c ∈ eh_rl h :: scopes F ->
  nodes s !! c = Some (RES_RESLIST pc ccs) ->
  nodes s1 = nodes (registered c pc ccs s) ->
  mem s1 = mem s -> fdtable s1 = fdtable s -> current_errh s1 = current_errh s ->
  einfos s1 = einfos s ->
  let F1 := tinsert (eh_rl h) c (ICleanup (next_addr s) None Null) F in
  unwind_ready s1 h P F1 /\ actions F1 = actions F /\ scopes F1 = scopes F.
Proof.
  intros (Hh & Hsc & Hpar & Hsafe & Hei) Hfr Hc Hhc Hn1 Hm1 Hfd1 Hh1 Hei1 F1.
  pose proof (live_below_next _ _ _ Hfr Hhc) as Hlt.
  assert (nodes s !! next_addr s = None) as Hnew by (apply heap_fresh_nodes; [done|lia]).
  assert (next_addr s ∉ eh_rl h :: addrs F) as Hout.
  { destruct Hsc as (Hrl & Hrep & _). intros Hin.
    apply elem_of_cons in Hin as [E|Hin]; [rewrite <- E in Hrl; congruence|].
    destruct (repr_lookup _ _ _ _ Hrep Hin) as [n Hn]. congruence. }
  destruct (actions_tinsert (eh_rl h) c (ICleanup (next_addr s) None Null) F Hc)
    as (l1 & l2 & E & E1); [by destruct Hsc as (_ & _ & ?)|].
  fold F1 in E1. cbn [item_actions app] in E1.
  assert (actions F1 = actions F) as Hact by (by rewrite E1, E).
  split; [|split; [done|apply scopes_tinsert_cleanup]].
  unfold unwind_ready. rewrite Hn1, Hm1, Hfd1, Hh1, Hei1, Hact.
  split; [exact Hh|]. split; [|split; [|split; [exact Hsafe|exact Hei]]].
  - apply (scope_at_tinsert (nodes s) (eh_rl h) (Some P) F c pc ccs
             (ICleanup (next_addr s) None Null)); done.
  - apply (parent_ok_tinsert (nodes s)); [done..|]. intros P' [= <-].
    destruct Hpar as (HP & q & qs & Hq).
    assert (P <> next_addr s) by congruence.
    assert (P <> c).
    { intros ->. apply HP. apply elem_of_cons in Hc as [->|Hc]; [left|right].
      by apply scopes_addrs. }
    split; [done|]. unfold registered. state_simpl. by rewrite !lookup_insert_ne.
Qed.

Lemma item_in_finsert c x f : c ∈ scopes f -> item_addr x ∈ addrs (finsert c x f).
Proof.
  induction f as [|b fn d r IH|b sub IHs r IH]; cbn [scopes addrs finsert].
  - intros H. by apply elem_of_nil in H.
  - intros H. right. by apply IH.
  - rewrite elem_of_cons, elem_of_app. intros [->|[H|H]]; right; rewrite elem_of_app.
    + left. rewrite decide_True by done. rewrite addrs_cons_item. left.
    + left. case_decide; [rewrite addrs_cons_item; left|by apply IHs].
    + right. by apply IH.
Qed.

Lemma item_in_tinsert rl c x f :
  c ∈ rl :: scopes f -> item_addr x ∈ addrs (tinsert rl c x f).
Proof.
  intros H. unfold tinsert. case_decide as E; [rewrite addrs_cons_item; left|].
  apply elem_of_cons in H as [->|H]; [done|]. by apply item_in_finsert.
Qed.

(** A system call that failed with [e] after the record was registered:
    what the handler finds when [die_errno] reports it. *)
Lemma failed_call_lands {A} s h P F q cs c pc ccs e fmt args ei i str pn :
  unwind_ready s h P F ->
  heap_fresh s ->
  nodes s !! P = Some (RES_RESLIST q cs) ->
  current_reslist s = Some c ->
  c ∈ eh_rl h :: scopes F ->
  nodes s !! c = Some (RES_RESLIST pc ccs) ->
  eh_ei h = Some ei ->
  einfos s !! ei = Some i ->
  want_msg i = true ->
  c_format (mem s) fmt args = FmtOk str ->
  deref_str (mem s) (prgname s) = Some pn ->
  fits (str +:+ ": " +:+ strerror e) ->
  fits pn ->
  (forall k, (k < 7)%nat -> malloc_ok s (nmalloc s + k)%nat = true) ->
  exists s' m pnp,
    @die_errno A fmt args (set_errno e (bump_sys (registered c pc ccs s))) =
      Jump (eh_where h) s' /\
    current_reslist s' = Some P /\
    current_errh s' = Some h /\
    (forall a, a ∈ next_addr s :: eh_rl h :: addrs F -> nodes s' !! a = None) /\
    einfos s' !! ei = Some (ErrInfo e (Heap m) (Heap pnp) true) /\
    deref_str (mem s') (Heap m) = Some (str +:+ ": " +:+ strerror e) /\
    closes (trace s') = closes (trace s) ++ closed (actions F).
Proof.
  intros Hready Hfr HP Hcur Hc Hhc Hei Hi Hw Hfmt Hpn Hfits Hfitspn Hok.
  pose proof (live_below_next _ _ _ Hfr Hhc) as Hlt.
  pose proof (live_below_next _ _ _ Hfr HP) as HPlt.
  set (s1 := set_errno e (bump_sys (registered c pc ccs s))).
  destruct (unwind_ready_registered s h P F c pc ccs s1 Hready Hfr Hc Hhc)
    as (Hready1 & Hact & Hscopes); try reflexivity.
  set (F1 := tinsert (eh_rl h) c (ICleanup (next_addr s) None Null) F) in *.
  assert (P <> c) as HPc.
  { destruct Hready as (_ & _ & [HPout _] & _). intros ->. apply HPout.
    apply elem_of_cons in Hc as [->|Hc]; [left|right; by apply scopes_addrs]. }
  destruct (registered_nodes s c pc ccs Hfr Hhc) as (Hold & Hc1 & _).
  destruct (die_errno_lands A s1 h P F1 q cs c pc (next_addr s :: ccs) fmt args ei i str pn)
    as (s' & m & pnp & Hrun & Hcur' & Hh' & Hgone & Hinfo & Hmsg & _ & _ & _ & Hcloses);
    try done.
  - by apply heap_fresh_registered.
  - unfold s1. state_simpl. rewrite Hold by done. exact HP.
  - by rewrite Hscopes.
  - intros k Hk. change (malloc_ok s1) with (malloc_ok s).
    change (nmalloc s1) with (S (nmalloc s)).
    replace (S (nmalloc s) + k)%nat with (nmalloc s + S k)%nat by lia. apply Hok. lia.
  - exists s', m, pnp. split; [done|]. split; [done|]. split; [done|].
    split; [|split; [done|split; [done|]]].
    + intros a Ha. apply Hgone. rewrite !elem_of_cons in Ha. rewrite elem_of_cons.
      destruct Ha as [->|[->|Ha]]; [right|by left|right].
      * by apply (item_in_tinsert _ _ (ICleanup (next_addr s) None Null)).
      * by apply addrs_tinsert_mono.
    + rewrite Hcloses. change (trace s1) with (trace s). by rewrite Hact.
Qed.

(** X16.  [xdup] of a descriptor that is not open, or whose duplication the
    kernel refuses, raises: under a handler that wants a message the handler
    gets [EBADF], or the [errno] of the refusal, with the message
    ["F_DUPFD_CLOEXEC: "] and [strerror] of that error (the message and the
    program name being at most [INT_MAX] characters long).  The cleanup record
    registered before the call was never armed: it is freed with the scope,
    and the only descriptors closed are those the destroyed scopes owned. *)
Theorem xdup_failure_is_reported (s : state) (h : errhandler) (P : addr) (F : forest)
    (q : option addr) (cs : list addr) (c : addr) (pc : option addr) (ccs : list addr)
    (fd e : Z) (ei : addr) (i : errinfo) (pn : string) :
  unwind_ready s h P F ->
  heap_fresh s ->
  nodes s !! P = Some (RES_RESLIST q cs) ->
  current_reslist s = Some c ->
  c ∈ eh_rl h :: scopes F ->
  nodes s !! c = Some (RES_RESLIST pc ccs) ->
  eh_ei h = Some ei ->
  einfos s !! ei = Some i ->
  want_msg i = true ->
  deref_str (mem s) (prgname s) = Some pn ->
  fits pn ->
  fits ("F_DUPFD_CLOEXEC" +:+ ": " +:+ strerror e) ->
  (forall k, (k < 7)%nat -> malloc_ok s (nmalloc s + k)%nat = true) ->
  (fd_is_open (fdtable s) fd = false /\ e = EBADF) \/
  (fd_is_open (fdtable s) fd = true /\ sys_fail s (nsys s) = Some e) ->
  exists s' m pnp,
    xdup fd s = Jump (eh_where h) s' /\
    current_reslist s' = Some P /\
    current_errh s' = Some h /\
    (forall a, a ∈ next_addr s :: eh_rl h :: addrs F -> nodes s' !! a = None) /\
    einfos s' !! ei = Some (ErrInfo e (Heap m) (Heap pnp) true) /\
    deref_str (mem s') (Heap m) = Some ("F_DUPFD_CLOEXEC" +:+ ": " +:+ strerror e) /\
    closes (trace s') = closes (trace s) ++ closed (actions F).
Proof.
  intros Hready Hfr HP Hcur Hc Hhc Hei Hi Hw Hpn Hfitspn Hfits Hok Hcause.
  pose proof (Hok 0%nat ltac:(lia)) as Hok0. rewrite Nat.add_0_r in Hok0.
  destruct (failed_call_lands (A:=Z) s h P F q cs c pc ccs e "F_DUPFD_CLOEXEC" [] ei i
              "F_DUPFD_CLOEXEC" pn) as (s' & m & pnp & Hrun & Hrest); try done.
  exists s', m, pnp. split; [|exact Hrest].
  unfold xdup.
  rewrite (bind_Ret _ _ _ _ _ (cleanup_allocate_ok _ _ _ _ Hfr Hcur Hhc Hok0)).
  assert (fcntl_dupfd fd fd (registered c pc ccs s) =
          Ret (-1) (set_errno e (bump_sys (registered c pc ccs s)))) as Hcall.
  { unfold fcntl_dupfd. change (fdtable (registered c pc ccs s)) with (fdtable s).
    destruct Hcause as [[Hclosed ->]|[Hopen Hfail]].
    - rewrite Hclosed. cbn [andb]. reflexivity.
    - rewrite Hopen. pose proof Hopen as [H0 _]%fd_is_open_spec.
      destruct (Z.leb_spec 0 fd); [|lia]. cbn [andb].
      apply (sys_newfd_fail _ _ (registered c pc ccs s)). exact Hfail. }
  rewrite (bind_Ret _ _ _ _ _ Hcall).
  rewrite Z.eqb_refl. exact Hrun.
Qed.

Lemma xdup_failure_is_reported_witness :
  exists s' m pnp,
    xdup 7 sample_guarded = Jump (eh_where sample_handler) s' /\
    current_reslist s' = Some 0%nat /\
    current_errh s' = Some sample_handler /\
    (forall a, a ∈ [2; 1]%nat -> nodes s' !! a = None) /\
    einfos s' !! 0%nat = Some (ErrInfo EBADF (Heap m) (Heap pnp) true) /\
    deref_str (mem s') (Heap m) = Some "F_DUPFD_CLOEXEC: Bad file descriptor"%string /\
    closes (trace s') = closes (trace sample_guarded) ++ [].
Proof.
  apply (xdup_failure_is_reported sample_guarded sample_handler 0 FNil None [1%nat]
           1 (Some 0%nat) [] 7 EBADF 0 (ErrInfo 0 Null Null true) "fb-adb"
           unwind_ready_sample_guarded heap_fresh_sample_guarded);
    try reflexivity;
    lazymatch goal with
    | |- fits _ => by vm_compute
    | |- _ ∈ _ => left
    | |- _ \/ _ => by left
    end.
Defined.

(** ** The order of the cleanup calls *)

Lemma with_records_snoc : forall recs st F a o,
  length recs = length st ->
  with_records (recs ++ [a]) (st ++ [o]) F =
  match o with
  | Some (fn, d) => FCleanup a (Some fn) d (with_records recs st F)
  | None => FCleanup a None Null (with_records recs st F)
  end.
Proof.
  induction recs as [|b recs IH]; intros [|o' st] F a o Hlen; try done.
  cbn [app with_records]. apply IH. by injection Hlen.
Qed.

Lemma addrs_with_records : forall recs st F,
  length recs = length st ->
  addrs (with_records recs st F) = reverse recs ++ addrs F.
Proof.
  induction recs as [|b recs IH]; intros [|o st] F Hlen; try done.
  cbn [with_records]. rewrite IH by (by injection Hlen).
  rewrite reverse_cons, <- app_assoc. by destruct o as [[fn d]|].
Qed.

Lemma roots_with_records_snoc recs st F a o :
  length recs = length st ->
  roots (with_records (recs ++ [a]) (st ++ [o]) F) = a :: roots (with_records recs st F).
Proof. intros Hlen. rewrite with_records_snoc by done. by destruct o as [[fn d]|]. Qed.

Lemma actions_with_records : forall recs st F,
  length recs = length st ->
  actions (with_records recs st F) = omap id (reverse st) ++ actions F.
Proof.
  induction recs as [|b recs IH]; intros [|o st] F Hlen; try done.
  cbn [with_records]. rewrite IH by (by injection Hlen).
  rewrite reverse_cons, omap_app, <- app_assoc. by destruct o as [[fn d]|].
Qed.

Lemma fcommit_outside cl fn d f : cl ∉ addrs f -> fcommit cl fn d f = f.
Proof.
  induction f as [|a fn0 d0 r IH|a sub IHs r IH]; cbn [addrs fcommit]; [done|..].
  - rewrite not_elem_of_cons. intros [Hne H]. rewrite decide_False by done. by rewrite IH.
  - rewrite not_elem_of_cons, not_elem_of_app. intros (Hne & Hs & Hr).
    by rewrite IHs, IH.
Qed.

Lemma fcommit_with_records_skip cl fn d : forall recs st G,
  cl ∉ recs ->
  fcommit cl fn d (with_records recs st G) = with_records recs st (fcommit cl fn d G).
Proof.
  induction recs as [|b recs IH]; intros [|o st] G Hcl; try done.
  apply not_elem_of_cons in Hcl as [Hne Hcl]. cbn [with_records]. rewrite IH by done.
  f_equal. destruct o as [[fn0 d0]|]; cbn [fcommit]; by rewrite decide_False.
Qed.

(** Arming the record number [i]. *)
Lemma fcommit_with_records cl fn d : forall recs st F i,
  length recs = length st ->
  NoDup recs ->
  recs !! i = Some cl ->
  cl ∉ addrs F ->
  fcommit cl fn d (with_records recs st F) =
  with_records recs (<[i := Some (fn, d)]> st) F.
Proof.
  induction recs as [|b recs IH]; intros [|o st] F i Hlen Hnd Hi Hout; try done.
  apply NoDup_cons in Hnd as [Hb Hnd]. injection Hlen as Hlen.
  destruct i as [|i]; cbn [lookup list_lookup] in Hi.
  - injection Hi as ->. cbn [with_records]. rewrite fcommit_with_records_skip by done.
    change (<[0%nat := Some (fn, d)]> (o :: st)) with (Some (fn, d) :: st).
    cbn [with_records]. f_equal.
    destruct o as [[fn0 d0]|]; cbn [fcommit]; rewrite decide_True by done; done.
  - change (<[S i := Some (fn, d)]> (o :: st)) with (o :: <[i := Some (fn, d)]> st).
    cbn [with_records]. apply IH; try done.
    assert (cl <> b) by (intros ->; apply Hb; by eapply list_elem_of_lookup_2).
    destruct o as [[fn0 d0]|]; cbn [addrs]; rewrite not_elem_of_cons; done.
Qed.

Lemma repr_with_records_inner h owner : forall recs st G,
  repr h owner (with_records recs st G) -> repr h owner G.
Proof.
  induction recs as [|b recs IH]; intros [|o st] G Hrep; try done.
  cbn [with_records] in Hrep. apply IH in Hrep. by destruct o as [[fn d]|], Hrep.
Qed.

Lemma record_is_cleanup h owner : forall recs st F i cl,
  repr h owner (with_records recs st F) ->
  length recs = length st ->
  recs !! i = Some cl ->
  exists fn0 d0, h !! cl = Some (RES_CLEANUP fn0 d0).
Proof.
  induction recs as [|b recs IH]; intros [|o st] F i cl Hrep Hlen Hi; try done.
  injection Hlen as Hlen. cbn [with_records] in Hrep.
  destruct i as [|i]; cbn [lookup list_lookup] in Hi.
  - injection Hi as ->. apply repr_with_records_inner in Hrep.
    destruct o as [[fn d]|], Hrep as [Hb _]; eauto.
  - by eapply IH.
Qed.

(** The tree of the current scope while the client runs. *)
Lemma run_rops_ok rl pp F : forall ops recs st s,
  heap_fresh s ->
  current_reslist s = Some rl ->
  length recs = length st ->
  scope_at (nodes s) rl pp (with_records recs st F) ->
  parent_ok (nodes s) rl pp (with_records recs st F) ->
  (forall k, (nmalloc s <= k)%nat -> malloc_ok s k = true) ->
  exists recs' s1,
    run_rops ops recs s = Ret recs' s1 /\
    length recs' = length (armed ops st) /\
    scope_at (nodes s1) rl pp (with_records recs' (armed ops st) F) /\
    parent_ok (nodes s1) rl pp (with_records recs' (armed ops st) F) /\
    mem s1 = mem s /\ fdtable s1 = fdtable s /\ trace s1 = trace s.
Proof.
  induction ops as [|[|i fn d] ops IH]; intros recs st s Hfr Hcur Hlen Hsc Hpar Hok.
  - exists recs, s. done.
  - set (T := with_records recs st F) in *.
    pose proof Hsc as (Hrl & Hrep & Hnd).
    pose proof (live_below_next _ _ _ Hfr Hrl) as Hlt.
    assert (nodes s !! next_addr s = None) as Hnew by (apply heap_fresh_nodes; [done|lia]).
    assert (next_addr s ∉ rl :: addrs T) as Hout.
    { intros Hin. apply elem_of_cons in Hin as [E|Hin]; [lia|].
      destruct (repr_lookup _ _ _ _ Hrep Hin) as [n Hn]. congruence. }
    set (x := ICleanup (next_addr s) None Null).
    pose proof (scope_at_tinsert (nodes s) rl pp T rl pp (roots T) x Hsc ltac:(left) Hrl Hout)
      as Hsc'.
    assert (parent_ok (<[rl := RES_RESLIST pp (next_addr s :: roots T)]>
                         (<[next_addr s := RES_CLEANUP None Null]> (nodes s)))
              rl pp (tinsert rl rl x T)) as Hpar'.
    { apply (parent_ok_tinsert (nodes s)); [done|left|]. intros P ->.
      destruct Hpar as (HP & q0 & qs & Hq).
      assert (P <> next_addr s) by congruence.
      assert (P <> rl) by (intros ->; apply HP; left).
      split; [done|]. by rewrite !lookup_insert_ne. }
    unfold tinsert in Hsc', Hpar'. rewrite decide_True in Hsc', Hpar' by done.
    cbn [cons_item x item_addr item_node] in Hsc', Hpar'.
    assert (malloc_ok s (nmalloc s) = true) as Hok0 by (apply Hok; lia).
    destruct (IH (recs ++ [next_addr s]) (st ++ [None]) (registered rl pp (roots T) s))
      as (recs' & s1 & Hrun & Hlen' & Hsc1 & Hpar1 & Hm & Hfd & Htr).
    + by apply heap_fresh_registered.
    + exact Hcur.
    + rewrite !length_app. cbn. lia.
    + rewrite with_records_snoc by done. exact Hsc'.
    + rewrite with_records_snoc by done. exact Hpar'.
    + intros k Hk. apply Hok. change (nmalloc (registered rl pp (roots T) s))
        with (S (nmalloc s)) in Hk. lia.
    + exists recs', s1. split; [|done]. cbn [run_rops].
      by rewrite (bind_Ret _ _ _ _ _ (cleanup_allocate_ok _ _ _ _ Hfr Hcur Hrl Hok0)).
  - cbn [run_rops armed]. destruct (recs !! i) as [cl|] eqn:Hi.
    + pose proof Hsc as (Hrl & Hrep & Hnd).
      destruct (record_is_cleanup _ _ _ _ _ _ _ Hrep Hlen Hi) as (fn0 & d0 & Hcl).
      apply NoDup_cons in Hnd as [_ Hnd].
      rewrite addrs_with_records in Hnd by done.
      apply NoDup_app in Hnd as (Hndr & Hdisj & _).
      rewrite reverse_Permutation in Hndr.
      assert (cl ∈ recs) as Hin by (by eapply list_elem_of_lookup_2).
      assert (cl ∉ addrs F) as Hout by (apply Hdisj; by rewrite elem_of_reverse).
      pose proof (scope_at_fcommit _ _ _ _ _ _ _ fn d Hsc Hcl) as Hsc'.
      rewrite (fcommit_with_records cl fn d recs st F i Hlen Hndr Hi Hout) in Hsc'.
      destruct (IH recs (<[i := Some (fn, d)]> st)
                  (set_nodes (<[cl := RES_CLEANUP (Some fn) d]>) s))
        as (recs' & s1 & Hrun & Hlen' & Hsc1 & Hpar1 & Hm & Hfd & Htr); try done.
      * destruct Hfr as [Hn Hm0]. split; [|exact Hm0]. state_simpl.
        intros a n0. rewrite lookup_insert. case_decide as E.
        -- subst a. intros _. by apply (Hn _ _ Hcl).
        -- apply Hn.
      * by rewrite length_insert.
      * destruct pp as [P|]; [|done]. destruct Hpar as (HP & q0 & qs & Hq).
        unfold parent_ok. rewrite addrs_with_records in HP |- * by (by rewrite ?length_insert).
        split; [done|]. exists q0, qs. state_simpl. rewrite lookup_insert_ne; [done|].
        intros ->. congruence.
      * exists recs', s1. split; [|done].
        by rewrite (bind_Ret _ _ _ _ _ (cleanup_commit_ok _ _ _ _ fn d Hcl)).
    + apply lookup_ge_None in Hi.
      rewrite list_insert_ge by lia. by apply IH.
Qed.

(** X17.  However a caller interleaves [cleanup_allocate] and
    [cleanup_commit] in the current scope, destroying the scope calls the
    actions in the reverse of the order in which the records were
    registered, not of the order in which they were armed: each record
    contributes the action last committed to it, a record never armed
    contributes nothing, and the actions that were in the scope before
    follow. *)
Theorem cleanup_calls_follow_registration (s : state) (rl : addr) (pp : option addr)
    (F : forest) (ops : list rop) :
  heap_fresh s ->
  current_reslist s = Some rl ->
  scope_at (nodes s) rl pp F ->
  parent_ok (nodes s) rl pp F ->
  (forall k, (nmalloc s <= k)%nat -> malloc_ok s k = true) ->
  actions_safe (expected_calls ops ++ actions F) (mem s) (fdtable s) ->
  exists recs s1 s2,
    run_rops ops [] s = Ret recs s1 /\
    reslist_destroy rl s1 = Ret tt s2 /\
    calls (trace s2) = calls (trace s) ++ expected_calls ops ++ actions F /\
    (forall a, a ∈ rl :: recs ++ addrs F -> nodes s2 !! a = None).
Proof.
  intros Hfr Hcur Hsc Hpar Hok Hsafe.
  destruct (run_rops_ok rl pp F ops [] [] s Hfr Hcur eq_refl Hsc Hpar Hok)
    as (recs & s1 & Hrun & Hlen & Hsc1 & Hpar1 & Hm & Hfd & Htr).
  assert (actions (with_records recs (armed ops []) F) = expected_calls ops ++ actions F)
    as Hact by (by apply actions_with_records).
  assert (actions_safe (actions (with_records recs (armed ops []) F)) (mem s1) (fdtable s1))
    as Hsafe1 by (by rewrite Hact, Hm, Hfd).
  exists recs, s1. eexists. split; [exact Hrun|]. split.
  { rewrite (reslist_destroy_forest _ _ _ _ Hsc1 Hpar1).
    by rewrite (bind_Ret _ _ _ _ _ (run_actions_safe _ _ Hsafe1)). }
  change (trace (set_nodes ?f ?x)) with (trace x).
  change (nodes (set_nodes ?f ?x)) with (f (nodes x)).
  split.
  - by rewrite after_actions_trace, calls_app, calls_action_events, Htr, Hact.
  - intros a Ha. apply swept_gone. rewrite addrs_with_records by done.
    rewrite !elem_of_cons, !elem_of_app in Ha |- *. rewrite elem_of_reverse. done.
Qed.

Lemma cleanup_calls_follow_registration_witness :
  exists recs s1 s2,
    run_rops [RRegister; RRegister;
              RCommit 1 fn_cleanup_prgname (Static "second");
              RCommit 0 fn_cleanup_prgname (Static "first")] [] sample_boot
      = Ret recs s1 /\
    reslist_destroy 0 s1 = Ret tt s2 /\
    calls (trace s2) =
      calls (trace sample_boot) ++
      [(fn_cleanup_prgname, Static "second"); (fn_cleanup_prgname, Static "first")] ++ [] /\
    (forall a, a ∈ 0%nat :: recs ++ [] -> nodes s2 !! a = None).
Proof.
  apply (cleanup_calls_follow_registration sample_boot 0 None FNil
           [RRegister; RRegister;
            RCommit 1 fn_cleanup_prgname (Static "second");
            RCommit 0 fn_cleanup_prgname (Static "first")]
           heap_fresh_sample_boot).
  - reflexivity.
  - split; [reflexivity|]. split; [exact I|]. by_compute.
  - exact I.
  - reflexivity.
  - split; [repeat constructor|]. split; [apply NoDup_nil_2|].
    split; [apply Forall_nil_2|]. split; [apply NoDup_nil_2|apply Forall_nil_2].
Defined.

(** ** [reslist_push_new] *)

(** X18.  [reslist_push_new] either returns a new scope, empty, linked as
    the first element of the scope that was current, with that scope as its
    parent, and current from now on, every other node untouched; or, when
    [malloc] fails, it raises out of memory from a state in which no node has
    changed. *)
Theorem reslist_push_new_links_or_raises (s : state) (c : addr) (p : option addr)
    (cs : list addr) :
  heap_fresh s ->
  current_reslist s = Some c ->
  nodes s !! c = Some (RES_RESLIST p cs) ->
  if malloc_ok s (nmalloc s) then
    exists s',
      reslist_push_new s = Ret (next_addr s) s' /\
      nodes s !! next_addr s = None /\
      current_reslist s' = Some (next_addr s) /\
      nodes s' !! next_addr s = Some (RES_RESLIST (Some c) []) /\
      nodes s' !! c = Some (RES_RESLIST p (next_addr s :: cs)) /\
      (forall a, a <> next_addr s -> a <> c -> nodes s' !! a = nodes s !! a) /\
      mem s' = mem s /\ trace s' = trace s /\ heap_fresh s'
  else
    exists s0,
      reslist_push_new s = die_oom s0 /\
      nodes s0 = nodes s /\ mem s0 = mem s /\
      current_reslist s0 = current_reslist s /\ trace s0 = trace s.
Proof.
  intros Hfr Hcur Hc. pose proof (live_below_next _ _ _ Hfr Hc) as Hlt.
  destruct (malloc_ok s (nmalloc s)) eqn:Hok.
  - destruct (pushed_nodes s c p cs Hfr Hc) as (Hold & Hc1 & Hrl1).
    exists (pushed c p cs s). split; [by apply reslist_push_new_ok|].
    split; [apply heap_fresh_nodes; [done|lia]|].
    split; [done|]. split; [done|]. split; [done|]. split; [done|].
    split; [done|]. split; [done|]. by apply heap_fresh_pushed.
  - exists (bump_malloc false s). split; [by apply reslist_push_new_oom|done].
Qed.

Lemma reslist_push_new_links_or_raises_witness :
  exists s',
    reslist_push_new sample_scope = Ret 4%nat s' /\
    nodes sample_scope !! 4%nat = None /\
    current_reslist s' = Some 4%nat /\
    nodes s' !! 4%nat = Some (RES_RESLIST (Some 1%nat) []) /\
    nodes s' !! 1%nat = Some (RES_RESLIST (Some 0%nat) [4; 2]%nat) /\
    (forall a, a <> 4%nat -> a <> 1%nat -> nodes s' !! a = nodes sample_scope !! a) /\
    mem s' = mem sample_scope /\ trace s' = trace sample_scope /\ heap_fresh s'.
Proof.
  apply (reslist_push_new_links_or_raises sample_scope 1 (Some 0%nat) [2%nat]);
    try reflexivity.
  split; by_compute.
Defined.

(** ** Termination *)



(** X20.  On a heap in which the scope is the root of a tree,
    [reslist_destroy] comes to an end: the nesting of its loop and its
    recursive calls stays within twice the number of live nodes plus two,
    and with any bound from there on the outcome is the same. *)
Theorem reslist_destroy_terminates (n : nat) (rl : addr) (pp : option addr) (f : forest)
    (s : state) :
  scope_at (nodes s) rl pp f ->
  parent_ok (nodes s) rl pp f ->
  (2 * size (nodes s) + 2 <= n)%nat ->
  reslist_destroy_fuel n rl s = reslist_destroy rl s /\
  reslist_destroy rl s <> Diverge.
Proof.
  intros Hsc Hpar Hn. split; [by apply (destroy_bound_enough n rl pp f)|].
  rewrite (reslist_destroy_forest _ _ _ _ Hsc Hpar). unfold bind.
  assert (forall l s0, run_actions l s0 <> Diverge) as Hrun.
  { induction l as [|[fn d] l IH]; intros s0; [done|]. cbn [run_actions]. unfold bind.
    assert (call_cleanup fn d s0 <> Diverge) as Hc.
    { unfold call_cleanup, bind, modify, free, fd_cleanup, cleanup_prgname, close, get,
        abort, ret, fault.
      destruct fn, d; cbn; repeat case_match; try done.
      unfold bind. destruct (fd_is_open _ z); cbn; repeat case_match; done. }
    destruct (call_cleanup fn d s0) as [[] s1| | | | |]; first [done|apply IH]. }
  specialize (Hrun (actions f) s). by destruct (run_actions (actions f) s).
Qed.

Lemma reslist_destroy_terminates_witness :
  reslist_destroy_fuel 12 1 sample_scope = reslist_destroy 1 sample_scope /\
  reslist_destroy 1 sample_scope <> Diverge.
Proof.
  apply (reslist_destroy_terminates 12 1 (Some 0%nat)
           (FCleanup 2 (Some fn_free) (Heap 3) FNil) sample_scope).
  - split; [reflexivity|]. split; [by split|]. by_compute.
  - split; [by_compute|]. by eexists _, _.
  - vm_compute. lia.
Defined.

(** ** A handle made and destroyed *)

Lemma fdh_dup_eq s c p cs fd :
  heap_fresh s ->
  current_reslist s = Some c ->
  nodes s !! c = Some (RES_RESLIST p cs) ->
  malloc_ok s (nmalloc s) = true ->
  malloc_ok s (S (nmalloc s)) = true ->
  malloc_ok s (S (S (nmalloc s))) = true ->
  malloc_ok s (S (S (S (nmalloc s)))) = true ->
  sys_fail s (nsys s) = None ->
  fd_is_open (fdtable s) fd = true ->
  fdh_dup fd s = Ret (Heap (S (S (next_addr s)))) (duplicated c p cs fd s).
Proof.
  intros Hfr Hcur Hc Hok0 Hok1 Hok2 Hok3 Hsys Hfd.
  pose proof (live_below_next _ _ _ Hfr Hc) as Hlt.
  set (rl := next_addr s).
  unfold fdh_dup.
  rewrite (bind_Ret _ _ _ _ _ (reslist_push_new_ok _ _ _ _ Hfr Hcur Hc Hok0)).
  fold rl. set (s1 := pushed c p cs s).
  pose proof (heap_fresh_pushed s c p cs Hfr Hc) as Hfr1. fold s1 in Hfr1.
  destruct (pushed_nodes s c p cs Hfr Hc) as (_ & _ & Hrl1). fold s1 rl in Hrl1.
  rewrite (bind_Ret _ _ _ _ _
             (xalloc_ok s1 rl (Some c) [] sizeof_fdh Hfr1 eq_refl Hrl1 Hok1 Hok2)).
  change (next_addr s1) with (S rl).
  set (s2 := allocated rl (Some c) [] sizeof_fdh s1).
  assert (mem s2 !! S (S rl) = Some (Block sizeof_fdh PUninit)) as Hm2
    by (unfold s2, allocated; state_simpl; apply lookup_insert_eq).
  erewrite bind_Ret; cycle 1.
  { unfold store_fdh_rl. rewrite Hm2. reflexivity. }
  set (s3 := set_mem (<[S (S rl) := Block sizeof_fdh (PFdh (Some rl) None)]>) s2).
  assert (heap_fresh s3) as Hfr3.
  { unfold s3, s2, allocated, registered, s1, pushed. fold rl. solve_fresh Hfr. }
  assert (nodes s3 !! rl = Some (RES_RESLIST (Some c) [S rl])) as Hrl3.
  { unfold s3, s2, allocated, registered, s1, pushed. fold rl. state_simpl.
    lookup_steps. reflexivity. }
  rewrite (bind_Ret _ _ _ _ _
             (xdup_ok s3 rl (Some c) [S rl] fd Hfr3 eq_refl Hrl3 Hok3 Hsys Hfd)).
  change (fdtable s3) with (fdtable s).
  set (i := lowest_free (fdtable s) (Z.to_nat fd)).
  set (s4 := acquired rl (Some c) [S rl] (EvDup fd) i s3).
  assert (mem s4 !! S (S rl) = Some (Block sizeof_fdh (PFdh (Some rl) None))) as Hm4
    by (unfold s4, acquired, opened, registered, s3; state_simpl; apply lookup_insert_eq).
  erewrite bind_Ret; cycle 1.
  { unfold store_fdh_fd. rewrite Hm4. reflexivity. }
  set (s5 := set_mem (<[S (S rl) := Block sizeof_fdh (PFdh (Some rl) (Some (Z.of_nat i)))]>) s4).
  assert (nodes s5 !! rl = Some (RES_RESLIST (Some c) [S (S (S rl)); S rl])) as Hrl5.
  { unfold s5, s4, acquired, opened, registered, s3, s2, allocated, registered, s1, pushed.
    fold rl. state_simpl. lookup_steps. reflexivity. }
  rewrite (bind_Ret _ _ _ _ _
             (reslist_pop_nodestroy_ok s5 rl (Some c) [S (S (S rl)); S rl] eq_refl Hrl5)).
  reflexivity.
Qed.

(** Sweeping away a scope that was pushed onto [c] after [s] gives back the
    nodes of [s]. *)
Lemma swept_restores s c p cs rl F h :
  heap_fresh s ->
  nodes s !! c = Some (RES_RESLIST p cs) ->
  h !! c = Some (RES_RESLIST p (rl :: cs)) ->
  (forall a, a ∈ rl :: addrs F -> (next_addr s <= a)%nat) ->
  (forall a, a ∉ rl :: addrs F -> a <> c -> h !! a = nodes s !! a) ->
  swept rl (Some c) F h = nodes s.
Proof.
  intros Hfr Hc Hhc Hnew Hold. pose proof (live_below_next _ _ _ Hfr Hc) as Hlt.
  assert (c ∉ rl :: addrs F) as Hout by (intros Hin; apply Hnew in Hin; lia).
  apply map_eq. intros a.
  destruct (decide (a ∈ rl :: addrs F)) as [Hin|Hnin].
  - rewrite swept_gone by done. symmetry. apply heap_fresh_nodes; [done|]. by apply Hnew.
  - destruct (decide (a = c)) as [->|Hac].
    + rewrite (swept_parent _ _ _ _ _ _ Hout Hhc), unlink_head. by rewrite Hc.
    + rewrite swept_other by done. by apply Hold.
Qed.

Lemma fd_is_open_mark_other tbl i fd :
  fd <> Z.of_nat i -> fd_is_open (mark_open tbl i) fd = fd_is_open tbl fd.
Proof.
  intros Hne. apply eq_true_iff_eq. rewrite !fd_is_open_spec. split.
  - intros [H0 H]. split; [done|]. apply (mark_open_lookup_other tbl i); [lia|done].
  - intros [H0 H]. split; [done|]. by apply mark_open_lookup_ne.
Qed.

Lemma fd_is_open_insert_other tbl fd fd' b :
  0 <= fd' -> fd <> fd' ->
  fd_is_open (<[Z.to_nat fd' := b]> tbl) fd = fd_is_open tbl fd.
Proof.
  intros H0' Hne. unfold fd_is_open. destruct (Z.leb_spec 0 fd) as [H0|?]; [|done].
  cbn [andb]. rewrite list_lookup_insert_ne by lia. done.
Qed.

Lemma set_nodes_fields f (x : state) :
  nodes (set_nodes f x) = f (nodes x) /\ mem (set_nodes f x) = mem x /\
  fdtable (set_nodes f x) = fdtable x /\
  current_reslist (set_nodes f x) = current_reslist x /\
  trace (set_nodes f x) = trace x.
Proof. done. Qed.

(** X21.  A handle made by [fdh_dup] and destroyed by [fdh_destroy] leaves
    the scope tree, the blocks and the set of open descriptors exactly as
    they were before it was made, and the scope that was current is still
    current: the duplicate is closed once and the handle is freed once. *)
Theorem fdh_round_trip (s : state) (c : addr) (p : option addr) (cs : list addr) (fd : Z) :
  heap_fresh s ->
  current_reslist s = Some c ->
  nodes s !! c = Some (RES_RESLIST p cs) ->
  malloc_ok s (nmalloc s) = true ->
  malloc_ok s (S (nmalloc s)) = true ->
  malloc_ok s (S (S (nmalloc s))) = true ->
  malloc_ok s (S (S (S (nmalloc s)))) = true ->
  sys_fail s (nsys s) = None ->
  fd_is_open (fdtable s) fd = true ->
  exists m newfd s1 s2,
    fdh_dup fd s = Ret (Heap m) s1 /\
    mem s1 !! m = Some (Block sizeof_fdh (PFdh (Some (next_addr s)) (Some newfd))) /\
    fd_is_open (fdtable s) newfd = false /\ fd_is_open (fdtable s1) newfd = true /\
    fdh_destroy (Heap m) s1 = Ret tt s2 /\
    nodes s2 = nodes s /\
    mem s2 = mem s /\
    (forall fd', fd_is_open (fdtable s2) fd' = fd_is_open (fdtable s) fd') /\
    current_reslist s2 = Some c /\
    trace s2 = trace s ++ [EvDup fd newfd; EvCall fn_fd_cleanup (IntPtr newfd);
                           EvClose newfd; EvCall fn_free (Heap m)].
Proof.
  intros Hfr Hcur Hc Hok0 Hok1 Hok2 Hok3 Hsys Hfd.
  pose proof (live_below_next _ _ _ Hfr Hc) as Hlt.
  set (rl := next_addr s). set (i := lowest_free (fdtable s) (Z.to_nat fd)).
  set (F := fdh_forest (S rl) (S (S rl)) (S (S (S rl))) (Z.of_nat i)).
  set (s1 := duplicated c p cs fd s).
  assert (nodes s1 =
          <[S (S (S rl)) := RES_CLEANUP (Some fn_fd_cleanup) (IntPtr (Z.of_nat i))]>
            (<[rl := RES_RESLIST (Some c) [S (S (S rl)); S rl]]>
               (<[S (S (S rl)) := RES_CLEANUP None Null]>
                  (<[S rl := RES_CLEANUP (Some fn_free) (Heap (S (S rl)))]>
                     (<[rl := RES_RESLIST (Some c) [S rl]]>
                        (<[S rl := RES_CLEANUP None Null]>
                           (<[c := RES_RESLIST p (rl :: cs)]>
                              (<[rl := RES_RESLIST (Some c) []]> (nodes s))))))))) as Hn1.
  { unfold s1, duplicated, acquired, opened, allocated, registered, pushed. fold rl i.
    state_simpl. reflexivity. }
  assert (mem s1 = <[S (S rl) := Block sizeof_fdh (PFdh (Some rl) (Some (Z.of_nat i)))]>
                     (mem s)) as Hm1.
  { unfold s1, duplicated, acquired, opened, allocated, registered, pushed. fold rl i.
    state_simpl. by rewrite !insert_insert_eq. }
  assert (fdtable s1 = mark_open (fdtable s) i) as Hfd1 by reflexivity.
  assert (trace s1 = trace s ++ [EvDup fd (Z.of_nat i)]) as Htr1 by reflexivity.
  assert (current_reslist s1 = Some c) as Hcur1 by reflexivity.
  assert (fdh_dup fd s = Ret (Heap (S (S rl))) s1) as Hdup by (by apply fdh_dup_eq).
  clearbody s1.
  assert (scope_at (nodes s1) rl (Some c) F) as Hsc.
  { rewrite Hn1. split; [by lookup_steps|]. split.
    - split; [by lookup_steps|]. split; [|done]. by lookup_steps.
    - cbn [addrs F fdh_forest]. rewrite !NoDup_cons, !not_elem_of_cons.
      repeat split; try lia; try apply not_elem_of_nil. apply NoDup_nil_2. }
  assert (nodes s1 !! c = Some (RES_RESLIST p (rl :: cs))) as Hc1.
  { rewrite Hn1. unfold rl. by lookup_steps. }
  assert (parent_ok (nodes s1) rl (Some c) F) as Hpar.
  { split; [|eauto]. cbn [addrs F fdh_forest]. rewrite !not_elem_of_cons. unfold rl.
    repeat split; try lia. apply not_elem_of_nil. }
  assert (actions_safe (actions F) (mem s1) (fdtable s1)) as Hsafe.
  { split; [repeat constructor|]. split; [apply NoDup_singleton|].
    split; [apply Forall_singleton; rewrite Hm1, lookup_insert_eq; by eexists|].
    split; [apply NoDup_singleton|]. apply Forall_singleton. rewrite Hfd1.
    apply fd_is_open_mark_eq. }
  set (X := after_actions (actions F) s1).
  destruct (after_actions_frame (actions F) s1) as (Hna & _ & _ & _ & Hcura & _).
  pose proof (after_actions_mem (actions F) s1) as Hma.
  pose proof (after_actions_trace (actions F) s1) as Htra.
  assert (fdtable X = <[Z.to_nat (Z.of_nat i) := false]> (fdtable s1)) as Hfda
    by reflexivity.
  assert (fdh_destroy (Heap (S (S rl))) s1 = Ret tt (set_nodes (swept rl (Some c) F) X))
    as Hdes.
  { unfold fdh_destroy. rewrite Hm1, lookup_insert_eq.
    rewrite (reslist_destroy_forest _ _ _ _ Hsc Hpar).
    by rewrite (bind_Ret _ _ _ _ _ (run_actions_safe _ _ Hsafe)). }
  fold X in Hna, Hcura, Hma, Htra. clearbody X.
  exists (S (S rl)), (Z.of_nat i), s1, (set_nodes (swept rl (Some c) F) X).
  split; [done|]. split; [by rewrite Hm1, lookup_insert_eq|].
  split; [apply fd_is_open_lowest_free|]. split; [rewrite Hfd1; apply fd_is_open_mark_eq|].
  split; [done|].
  destruct (set_nodes_fields (swept rl (Some c) F) X) as (-> & -> & -> & -> & ->).
  rewrite Hna, Hcura.
  split; [|split; [|split; [|split]]].
  - apply (swept_restores s c p cs); try done.
    + cbn [addrs F fdh_forest]. intros a. rewrite !elem_of_cons. fold rl.
      intros [->|[->|[->|Ha]]]; try lia. by apply elem_of_nil in Ha.
    + cbn [addrs F fdh_forest]. intros a. rewrite !not_elem_of_cons.
      intros (H1 & H2 & H3 & _) Hac. rewrite Hn1. by rewrite !lookup_insert_ne.
  - apply map_eq. intros a. rewrite Hma, Hm1.
    cbn [actions F fdh_forest freed omap]. destruct (decide (a = S (S rl))) as [->|Hne].
    + rewrite decide_True by left. symmetry. apply heap_fresh_mem; [done|]. fold rl. lia.
    + rewrite decide_False by (intros [?|?%elem_of_nil]%elem_of_cons; done).
      by rewrite lookup_insert_ne.
  - intros fd'. rewrite Hfda, Hfd1. destruct (decide (fd' = Z.of_nat i)) as [->|Hne].
    + rewrite fd_is_open_insert_eq. symmetry. apply fd_is_open_lowest_free.
    + rewrite fd_is_open_insert_other by (done || lia). by apply fd_is_open_mark_other.
  - done.
  - rewrite Htra, Htr1, <- !app_assoc. reflexivity.
Qed.

Lemma fdh_round_trip_witness :
  exists m newfd s1 s2,
    fdh_dup 1 sample_boot = Ret (Heap m) s1 /\
    mem s1 !! m = Some (Block sizeof_fdh (PFdh (Some (next_addr sample_boot)) (Some newfd))) /\
    fd_is_open (fdtable sample_boot) newfd = false /\ fd_is_open (fdtable s1) newfd = true /\
    fdh_destroy (Heap m) s1 = Ret tt s2 /\
    nodes s2 = nodes sample_boot /\
    mem s2 = mem sample_boot /\
    (forall fd', fd_is_open (fdtable s2) fd' = fd_is_open (fdtable sample_boot) fd') /\
    current_reslist s2 = Some 0%nat /\
    trace s2 = trace sample_boot ++ [EvDup 1 newfd; EvCall fn_fd_cleanup (IntPtr newfd);
                                     EvClose newfd; EvCall fn_free (Heap m)].
Proof.
  apply (fdh_round_trip sample_boot 0 None [] 1 heap_fresh_sample_boot); reflexivity.
Defined.
(** ** [catch_error] pairs installing a handler with restoring it *)

(** A raise directly under [catch_error], with no error info: the new scope
    is destroyed, the handler installed here is reached, and [catch_error]
    returns [true] with everything as it was. *)
Lemma catch_error_die s c p cs e fmt args :
  heap_fresh s ->
  current_reslist s = Some c ->
  nodes s !! c = Some (RES_RESLIST p cs) ->
  malloc_ok s (nmalloc s) = true ->
  exists s',
    catch_error (die e fmt args) None s = Ret true s' /\
    current_errh s' = current_errh s /\
    current_reslist s' = Some c /\
    nodes s' = nodes s /\
    heap_fresh s' /\
    malloc_ok s' = malloc_ok s /\ nmalloc s' = S (nmalloc s).
Proof.
  intros Hfr Hcur Hc Hok.
  pose proof (live_below_next _ _ _ Hfr Hc) as Hlt.
  set (rl := next_addr s). set (s1 := pushed c p cs s).
  set (h := ErrHandler (next_where s1) rl None).
  set (si := install rl None s1).
  pose proof (heap_fresh_pushed s c p cs Hfr Hc) as Hfr1. fold s1 in Hfr1.
  destruct (pushed_nodes s c p cs Hfr Hc) as (Hold & Hc1 & Hrl1). fold s1 rl in Hold, Hc1, Hrl1.
  assert (unwind_ready si h c FNil) as Hready.
  { split; [reflexivity|]. split.
    { split; [exact Hrl1|]. split; [exact I|]. apply NoDup_singleton. }
    split.
    { split; [|by eauto]. intros Hin. apply elem_of_cons in Hin as [E|Hin].
      - change (c = next_addr s) in E. lia.
      - by apply elem_of_nil in Hin. }
    split; [|exact I].
    split; [apply Forall_nil_2|]. split; [apply NoDup_nil_2|].
    split; [apply Forall_nil_2|]. split; [apply NoDup_nil_2|apply Forall_nil_2]. }
  pose proof (diev_noinfo si h c FNil p (rl :: cs) Hready Hc1 (A:=unit) e fmt args eq_refl)
    as Hdie.
  set (X := raised e None c si) in Hdie.
  destruct (unwound_frame h c FNil X) as (Hn & Hna & Hnm & Hcur' & _ & _ & _ & _ & Hmem).
  exists (set_current_errh (current_errh s) (unwound h c FNil X)). split.
  { unfold catch_error.
    rewrite (reslist_push_new_ok _ _ _ _ Hfr Hcur Hc Hok). fold rl s1 h.
    change (set_current_errh (Some h) (bump_where s1)) with si.
    unfold die. rewrite Hdie. rewrite decide_True by done. reflexivity. }
  assert (forall a x, nodes (set_current_errh a x) = nodes x /\
                      mem (set_current_errh a x) = mem x /\
                      next_addr (set_current_errh a x) = next_addr x /\
                      nmalloc (set_current_errh a x) = nmalloc x /\
                      malloc_ok (set_current_errh a x) = malloc_ok x /\
                      current_reslist (set_current_errh a x) = current_reslist x /\
                      current_errh (set_current_errh a x) = a) as Hset by done.
  destruct (Hset (current_errh s) (unwound h c FNil X)) as (En & Em & Ena & Enm & Emo & Ec & Eh).
  assert (nodes (unwound h c FNil X) = nodes s) as Hnodes.
  { rewrite Hn. change (nodes X) with (nodes s1). change (eh_rl h) with rl.
    apply (swept_restores s c p cs); try done.
    - cbn [addrs]. intros a Hin. apply elem_of_cons in Hin as [E|Hin].
      + change (a = next_addr s) in E. lia.
      + by apply elem_of_nil in Hin.
    - cbn [addrs]. intros a Ha Hac. apply Hold; [|done]. intros ->. apply Ha. left. }
  split; [exact Eh|]. split; [by rewrite Ec, Hcur'|]. split; [by rewrite En|].
  split; [|split].
  - split.
    + rewrite En, Hnodes, Ena, Hna. intros a b Hab. apply Hfr in Hab.
      change (next_addr X) with (S (next_addr s)). cbn in Hab |- *. lia.
    + rewrite Ena, Hna. intros a b. rewrite Em, Hmem. cbn [actions freed omap].
      rewrite decide_False by apply not_elem_of_nil. change (mem X) with (mem s).
      intros Hab. apply Hfr in Hab. change (next_addr X) with (S (next_addr s)).
      cbn in Hab |- *. lia.
  - rewrite Emo. reflexivity.
  - by rewrite Enm, Hnm.
Qed.


(** ** A program name too long to be copied *)

Lemma bind_Diverge {A B} (m : M A) (k : A -> M B) s :
  m s = Diverge -> bind m k s = Diverge.
Proof. unfold bind. by intros ->. Qed.

Lemma diev_fuel_start_msg {A} n s h P cs e fmt args ei i :
  current_errh s = Some h ->
  nodes s !! eh_rl h = Some (RES_RESLIST (Some P) cs) ->
  eh_ei h = Some ei ->
  einfos s !! ei = Some i ->
  want_msg i = true ->
  diev_fuel (S n) A e fmt args s =
  ((m <- xavprintf_with (diev_fuel n ptr) fmt args ;;
    modify (set_einfos (<[ei := ErrInfo e m (ei_prgname i) true]>)) ;;;
    s2 <- get ;;
    pn <- xavprintf_with (diev_fuel n ptr) "%s"%string [FStr (prgname s2)] ;;
    modify (set_einfos (<[ei := ErrInfo e m pn true]>))) ;;;
   reslist_destroy (eh_rl h) ;;;
   siglongjmp (eh_where h)) (raised e (Some ei) P s).
Proof.
  intros Hh Hrl Hei Hi Hw. rewrite diev_fuel_S.
  rewrite bind_get, Hh.
  rewrite (bind_Ret _ _ _ _ _ (get_parent_eq _ _ _ _ Hrl)), bind_modify.
  rewrite Hei, bind_assoc, bind_get. cbn [einfos set_current_reslist].
  rewrite Hi, bind_assoc, bind_modify, Hw.
  unfold raised. rewrite Hi, ?Hw. reflexivity.
Qed.

Lemma name_too_long_errno h P ei pn en s :
  name_too_long h P ei pn s -> name_too_long h P ei pn (set_errno en s).
Proof. intros H. exact H. Qed.

Lemma name_too_long_raised h P ei pn e s :
  name_too_long h P ei pn s -> name_too_long h P ei pn (raised e (Some ei) P s).
Proof.
  intros (Hfr & Hh & Hei & Hne & (csh & Hrl) & (q & cs & HP) & (i & Hi & Hw) & Hpn & Hnf & Hok).
  destruct (raised_frame s P e (Some ei))
    as (Hn0 & Hm0 & Hna0 & Hnm0 & Hmo0 & Hcur0 & Hh0 & Hfd0 & Hpg0 & Htr0).
  split; [by apply heap_fresh_raised|]. split; [by rewrite Hh0|]. split; [done|].
  split; [done|]. split; [rewrite Hn0; eauto|]. split; [rewrite Hn0; eauto|].
  split.
  { exists (ErrInfo e (msg i) (ei_prgname i) (want_msg i)). split; [|done].
    unfold raised. rewrite Hi. state_simpl. apply lookup_insert_eq. }
  split; [by rewrite Hm0, Hpg0|]. split; [done|]. by rewrite Hmo0.
Qed.

(** The state after the message [str] has been stored. *)
Lemma name_too_long_printed h P ei pn q cs str i' s :
  name_too_long h P ei pn s ->
  nodes s !! P = Some (RES_RESLIST q cs) ->
  want_msg i' = true ->
  name_too_long h P ei pn (set_einfos (<[ei := i']>) (printed P q cs str s)).
Proof.
  intros (Hfr & Hh & Hei & Hne & (csh & Hrl) & _ & _ & Hpn & Hnf & Hok) HP Hw.
  pose proof (live_below_next _ _ _ Hfr Hrl) as Hlt.
  destruct (printed_frame s P q cs str Hfr HP) as (Hold & HP' & _ & _ & _).
  assert (forall f x, nodes (set_einfos f x) = nodes x /\ mem (set_einfos f x) = mem x /\
                      prgname (set_einfos f x) = prgname x /\
                      einfos (set_einfos f x) = f (einfos x)) as Hset by done.
  destruct (Hset (<[ei := i']>) (printed P q cs str s)) as (En & Em & Ep & Ee).
  split; [exact (heap_fresh_printed s P q cs str Hfr HP)|]. split; [exact Hh|].
  split; [done|]. split; [done|].
  split; [exists csh; rewrite En, Hold by done; exact Hrl|].
  split; [rewrite En; eauto|].
  split; [exists i'; by rewrite Ee, lookup_insert_eq|].
  split; [|split; [done|exact Hok]].
  rewrite Em, Ep. change (prgname (printed P q cs str s)) with (prgname s).
  assert (mem (printed P q cs str s) =
          <[S (next_addr s) := Block (Z.of_nat (String.length str) + 1) (PBytes str)]>
            (mem s)) as ->.
  { unfold printed, allocated, registered. state_simpl. apply insert_insert_eq. }
  apply deref_str_insert; [|done]. apply heap_fresh_mem; [done|lia].
Qed.

(** Every level raises again. *)
Lemma diev_fuel_name_too_long h P ei pn n : forall A e fmt args str s,
  name_too_long h P ei pn s ->
  c_format (mem s) fmt args = FmtOk str ->
  diev_fuel n A e fmt args s = Diverge.
Proof.
  induction n as [|n IH]; intros A e fmt args str s Hs Hfmt; [done|].
  pose proof Hs as (Hfr & Hh & Hei & Hne & (csh & Hrl) & (q & cs & HP) & (i & Hi & Hw) & _).
  rewrite (diev_fuel_start_msg n s h P csh e fmt args ei i Hh Hrl Hei Hi Hw).
  pose proof (name_too_long_raised h P ei pn e s Hs) as Hs0.
  set (s0 := raised e (Some ei) P s) in *.
  destruct (raised_frame s P e (Some ei))
    as (Hn0 & Hm0 & Hna0 & Hnm0 & Hmo0 & Hcur0 & _).
  fold s0 in Hn0, Hm0, Hna0, Hnm0, Hmo0, Hcur0.
  pose proof Hs0 as (Hfr0 & _ & _ & _ & _ & _ & _ & Hpn0 & Hnf & Hok0).
  apply bind_Diverge.
  destruct (decide (fits str)) as [Hf|Hf].
  - rewrite (bind_Ret _ _ _ _ _
               (xavprintf_with_ok (diev_fuel n ptr) s0 P q cs fmt args str Hfr0 Hcur0
                  ltac:(by rewrite Hn0) (Hok0 _) (Hok0 _) ltac:(by rewrite Hm0) Hf)).
    rewrite bind_modify, bind_get.
    match goal with |- bind _ _ ?x = _ => set (s7 := x) end.
    assert (name_too_long h P ei pn s7) as Hs7
      by (apply name_too_long_printed; [exact Hs0|by rewrite Hn0|done]).
    pose proof Hs7 as (_ & _ & _ & _ & _ & _ & _ & Hpn7 & _).
    apply bind_Diverge.
    rewrite (xavprintf_with_fails _ s7 _ _ EOVERFLOW); cycle 1.
    { rewrite (c_format_percent_s _ _ _ Hpn7). cbn. by rewrite decide_False. }
    apply (IH _ _ _ _ ("invalid format string " +:+ str_take 80 "%s")).
    + by apply name_too_long_errno.
    + apply c_format_invalid_msg.
  - apply bind_Diverge.
    rewrite (xavprintf_with_fails _ s0 _ _ EOVERFLOW); cycle 1.
    { rewrite Hm0, Hfmt. cbn. by rewrite decide_False. }
    apply (IH _ _ _ _ ("invalid format string " +:+ str_take 80 fmt)).
    + by apply name_too_long_errno.
    + apply c_format_invalid_msg.
Qed.

Lemma repeat_char_length n c : String.length (repeat_char n c) = n.
Proof. induction n as [|n IH]; [done|]. cbn [repeat_char String.length]. by rewrite IH. Qed.

(** X22.  With a program name longer than [INT_MAX] characters, a raise
    under a handler that wants a message never reaches the handler as long
    as [malloc] succeeds: the copy of the program name fails at every level
    and raises again, so the recursion between [diev] and [xavprintf] goes
    beyond every bound. *)
Theorem overlong_name_never_lands (n : nat) (A : Type) (s : state) (h : errhandler)
    (P ei : addr) (e : Z) (fmt : string) (args : list farg) (str pn : string) :
  heap_fresh s ->
  current_errh s = Some h ->
  eh_ei h = Some ei ->
  eh_rl h <> P ->
  (exists cs, nodes s !! eh_rl h = Some (RES_RESLIST (Some P) cs)) ->
  (exists q cs, nodes s !! P = Some (RES_RESLIST q cs)) ->
  (exists i, einfos s !! ei = Some i /\ want_msg i = true) ->
  deref_str (mem s) (prgname s) = Some pn ->
  ~ fits pn ->
  (forall k, malloc_ok s k = true) ->
  c_format (mem s) fmt args = FmtOk str ->
  diev_fuel n A e fmt args s = Diverge /\
  @die A e fmt args s = Diverge.
Proof.
  intros Hfr Hh Hei Hne Hrl HP Hi Hpn Hnf Hok Hfmt.
  assert (name_too_long h P ei pn s) as Hs by done.
  split; [by apply (diev_fuel_name_too_long h P ei pn n A e fmt args str)|].
  by apply (diev_fuel_name_too_long h P ei pn 2 A e fmt args str).
Qed.

Lemma long_name_too_long : ~ fits long_name.
Proof.
  unfold fits, long_name. rewrite repeat_char_length.
  rewrite Z2Nat.id by (unfold INT_MAX; lia). lia.
Defined.

Lemma overlong_name_never_lands_witness :
  diev_fuel 1000 unit 5 "boom" [] sample_long = Diverge /\
  @die unit 5 "boom" [] sample_long = Diverge.
Proof.
  apply (overlong_name_never_lands 1000 unit sample_long sample_handler 0 0 5 "boom" []
           "boom" long_name).
  - exact heap_fresh_sample_guarded.
  - reflexivity.
  - reflexivity.
  - discriminate.
  - by exists [].
  - by exists None, [1%nat].
  - by exists (ErrInfo 0 Null Null true).
  - reflexivity.
  - exact long_name_too_long.
  - intros k. reflexivity.
  - reflexivity.
Defined.
